(* ===== verification/_CoqProject ===== *)
-Q . S2P
Prelude.v
GoPath.v
Sha256.v
GoErrors.v
GoIO.v
GoFloat.v
BrokerErrors.v
GoJson.v
JsonText.v
Messages.v
Client.v
Cursor.v
Download.v
Upload.v
UploadPipe.v
GoTime.v
Ocufs.v
OcufsSpec.v
OcufsSession.v
ObjectRace.v
HostFS.v
Filestore.v
FilestoreSpec.v
WireCodec.v
EndToEnd.v
MountRefinement.v
BrokerSim.v
Fleet.v
Base64.v
GoForm.v
Jwt.v
Exchange.v
Edgeglue.v
EdgeRace.v
Identity.v
EdgeMount.v
Regex.v
MountCfg.v
Orchestrator.v
OrchestratorSpec.v
Guards.v
MountOptions.v
RealPoint.v
TeardownRace.v
SignalRace.v
MainCmd.v
Production.v
PostureProbe.v
