(* ===== verification/Prelude.v ===== *)
(** * Verification of ocu-rclone-filestore

    ocu-rclone-filestore is the guest side of a file store.  The binary
    (cmd/ocu-rclone-filestore) reads a mount config (internal/mountcfg), and for
    every mount in it an orchestrator (internal/mounter) builds an rclone backend
    (backend/ocufs), mounts it through go-fuse, signals readiness with a file,
    and tears everything down on a signal.  The backend turns rclone's file
    operations into requests to a broker over HTTPS (internal/brokerrpc).  A
    second small binary (cmd/posture-probe) witnesses the container's posture.

    ** How the parts are modelled

    The broker client, bottom up:
    - [GoErrors], [GoIO], [GoJson], [JsonText], [GoFloat], [GoTime], [GoPath], [Sha256],
      [Regex]: the Go library functions the program calls, executable.  Errors
      are trees as [errors.Is] walks them; a reader is the script of what an
      io.Reader delivers; JSON has a parser, a printer (inverse to each other,
      [JsonText]) and the struct-filling rules; the rest are path.Clean and Join, strconv.ParseFloat, RFC 3339
      times, SHA-256, and the regexps of the config loader by derivatives.
    - [BrokerErrors]: brokerrpc/errors.go (MapHTTPStatus, captureErrorBody,
      boundErrorBody) and ocufs/errors.go (mapBrokerError).
    - [Messages]: brokerrpc/messages.go and intent.go.
    - [Client]: brokerrpc/client.go and transport.go.  One HTTP exchange is the
      class [Transport]; every operation threads its world.
    - [Cursor], [Download], [Upload]: cursor.go, download.go, upload.go.
    - [UploadPipe]: the goroutine, the transport and the caller of Upload as
      concurrent steps over the pipe and the result channel.
    The backend:
    - [Ocufs]: ocufs.go, object.go, copymove.go, options.go over the class
      [brokerClient], which is the interface of ocufs/client.go; [client_broker]
      is the instance [*brokerrpc.Client].
    - [OcufsSpec]: its behaviour method by method, against [ListingLaws], the
      contract a broker's listing owes the backend (discharged by the client).
    - [OcufsSession]: whole sessions of calls over a store of live objects,
      against [BrokerGuard], which says what a broker does with a disciplined
      call (discharged by a recording client and by the HTTP client).
    - [ObjectRace]: the critical sections of object.go interleaved.
    The reference broker (test/harness/filestore) and the whole stack:
    - [HostFS]: the host file system as a map from paths to nodes, with the os
      calls the broker makes (Stat, MkdirAll, OpenFile with O_TRUNC, Rename,
      Remove, RemoveAll, ReadDir, WalkDir) and their error numbers.
    - [Filestore]: filestore.go, ops.go, transfer.go, volume.go, throttle.go and
      internal/httpjson: from the HTTP request to the response and the tree.
    - [FilestoreSpec]: how far a request can reach.
    - [WireCodec]: what the client encodes is what the broker decodes, and back.
    - [EndToEnd]: each client operation through [wire], the [Transport] whose
      server is the broker, against [HostLaws].
    - [MountRefinement]: the backend over that stack refines an abstract volume,
      a function from paths to nodes.
    - [BrokerSim]: transports that answer alike carry the client, the backend and
      the mount alike.
    - [Fleet]: the mounts of several guests on one broker, with the requests of
      anybody else between their operations.
    The identity chain (test/harness: controlplane, exchange, edgeglue, cmd/edge,
    internal/jwtmint, filestore/jwtcredential.go):
    - [Base64], [GoForm]: encoding/base64 and net/url's forms, with
      strings.TrimSpace.
    - [Jwt]: jwtmint.go and jwks.go over the class [Ecdsa] (the curve), whose
      documented laws are [EcdsaLaws].
    - [Exchange]: the control plane, the exchange handler over the class
      [CredentialIssuer] with both its issuers, and the filestore's validator.
    - [Edgeglue]: edgeglue.go, its two critical sections as separate
      definitions; [EdgeRace] interleaves them.
    - [Identity]: the edge's handler, and all the peers together.
    - [EdgeMount]: the mount of [MountRefinement] with the edge before the broker.
    The mount:
    - [MountCfg]: mountcfg.go and errors.go.
    - [Orchestrator], [OrchestratorSpec]: orchestrator.go and mounter.go over the
      class [OrchEnv] (the pointMounter seam, signals, the ready-file), and the
      lifecycle grammar its runs refine.
    - [Guards]: scaffoldguard.go, cachedir.go and the probe mountServes.
    - [MountOptions]: options.go, directmount.go's option builders, the
      read-only flags, and the construction of a mount's backend.
    - [RealPoint]: realpoint.go, directmount.go, teardown.go, xattr_enotsup.go.
    - [TeardownRace]: unmountAll's goroutines over points that share their
      sync.Once, with the detach goroutines, the kernel and a clock.
    - [SignalRace]: run from the fan-out on with what goes on beside it: the
      signal channel, mountCtx, the mount attempt in flight, serveFuse's and
      blockUntilTeardown's goroutines, the select, and [TeardownRace]'s teardown.
    The binaries: [MainCmd] (run.go, main.go) and [PostureProbe].
    - [Production]: the binary on its production seam: the orchestrator's
      environment is [RealPoint] over the answers of host and kernel ([SeamEnv]).
    Definitions keep the names of the Go functions they translate; methods lose
    their receiver's name ([List] is [Fs.List], [Open] is [Object.Open]), and
    [bb_Read], [admit_page] are [boundedBody.Read] and [pageGuard.admit].

    ** What the theorems show

    - End to end: any sequence of mount operations admissible in an abstract
      volume succeeds through backend, client, wire and reference broker and has
      the abstract effect (C1), what was written is read back (C2), listings are
      the children (C28).  The same run through the edge, with a minted token,
      comes out the same (C3).
    - Scope and confinement: every request of any session is stamped, in scope,
      canonical, and read-only on a read-only mount (C4, [session_calls_ok],
      C31); a mount's backend is bound to its own config entry (C10) and has a
      VFS of its own ([vfs_keys_distinct]); the reference broker lets a request
      change the host only inside the writable scope of its credential (C6) and
      keeps its tree well formed (C29), so that guests of one broker each have
      the volume they would have alone, whatever the others do between their
      operations and however their uploads break off (C5).
    - Identity: nothing passes the edge but a minted, unexpired token, and then
      only into its own filesystem (C17); a session of such tokens is served as
      if the filestore read them itself (C18); resolves share one exchange per
      scope and never wait for ever (C35, C36); tokens verify exactly until they
      expire (C37).
    - Data integrity: bounded downloads are exact (C7, C20) and always end
      ([boundedBody_terminates]), uploads send the source bytes (C22) and report
      the status, or the source's failure on a 2xx (C21), no interleaving of an upload hangs (C9) or
      changes its verdict (C8), listings are complete, bounded and cycle-free
      (C25, C26, [admit_page_no_repeat]), List is the depth-1 filter of the
      broker's listing (C27, [List_spec]), Open asks for the right window and
      never with an empty handle (C30, [Open_guards]), metadata is never torn or
      spuriously zero (C32, [getattr_one_lookup], [NewObject_resolve_agree]).
    - Errors: the status table, back-off hints, bounded bodies and their way
      through the backend (C23, C24, [MapHTTPStatus_retry_after],
      [captureErrorBody_spec]).
    - The whole binary: from argv to exit, every mount path is accounted for,
      mounted over a scaffold with its own config entry's backend and torn down
      once with its writes drained (C12).
    - Lifecycle: runs of the orchestrator refine a grammar (C11), leave nothing
      mounted ([run_cleans_up]), signal readiness honestly
      ([ready_after_all_up]) and never nest mounts below the root (C33).  With
      everything that runs beside it, run still returns what the sequential
      definition returns on what it observed (C14), and a signal always ends it,
      in bounded time; the ready-file can then appear only if the last poll was
      already past, and is removed before run returns (C13).  The concurrent teardown returns in the time
      of one point (C16) what the sequential loop returns (C15,
      [unmountAll_deterministic]); a point mounts only over a scaffold, becomes
      ready only on evidence and is unmounted once ([mountAndWaitReady_safe],
      C34, [unmount_once], C38, [mountServes_boundary]).
    - Config and options: the loader accepts exactly the valid configs, names
      the first error and reads back what was marshalled (C19, C39,
      [Load_refuses_unknown], [validateMounts_first_error]); caps and flags
      arrive as declared (C40, [fuse_options_posture]); exit status 0 means
      success ([main_exit_code]).
    Lemmas whose comments say so record places where the code and its comments
    or contracts differ: [buildSpecs_root_gap], [stale_resolve_overwrites],
    [ready_outlives_mounts], [dir_cache_time_overflow], [Rmdir_deletes_subtree],
    [copy_onto_itself_empties], [resolveUnder_root_refuses],
    [nul_key_crosses_scopes], [mount_sees_live_ctx] with
    [signal_overruns_grace], [spontaneous_exit_is_clean], [ready_after_signal],
    [broken_upload_destroys], [closed_source_passes], [Open_widest_range]; C39 is
    one as well.

    ** Fuel and bounds

    - The listing loop has fuel [list_fuel]; the page guard admits fewer than
      maxListPages cursors, and C26 shows that the loop returns within that
      fuel and that more changes nothing.
    - The upload copy loop has the size of the reader's script plus one, since
      every read consumes some of the script; C22 covers termination.  [UploadPipe],
      [TeardownRace], [SignalRace] and [EdgeRace] have no fuel: their runs are bounded by a measure.
    - The JSON parser has twice the text's length plus two; [parse_first_fuel]
      shows that more changes nothing on any text.
    - The readiness poll runs over a list of observations, one an iteration; C38
      shows that the timeout over the 100 ms interval plus two suffice.
    - The scaffold walk recurses on the directory tree.
    - int64 arithmetic is written with [int64_wrap] where it can overflow.  What
      is assumed of rclone's parsers stays within their types: RangeOption.Decode
      wraps, and SizeSuffix, which reads its count as a float64, is taken at its
      word up to 2^53.
    - In [SignalRace] a mount attempt takes at most [mount_max] and a call on the
      ready-file at most [file_max]; run's other instructions take no time.

    ** What is a parameter, and what is left out

    Code outside the repository is an argument with its documented behaviour as
    a hypothesis where one is needed: net/url, x509, rclone's configstruct, path
    encoder, RangeOption.Decode, CacheMode, SizeSuffix, Duration and FileMode
    parsers, mountlib, go-fuse and the system calls.  Below the HTTP exchange
    (TLS, connections, redirects) nothing is modelled; the context of a call is
    not, except in the readiness poll.  Logging, stderr text, signal.Notify,
    atexit, and what rclone's Fill adds to the features are left out.

    The host under the reference broker has no symbolic links, permissions or
    faults of its own (a full disk, a name too long); the texts it prints for
    times, modes and errors, the size of a directory and its clock are the class
    [Host].  Its HTTP server is the function [exchange]: the mux's redirects and
    the limits of mime/multipart are not modelled.  Of a request whose own body
    breaks off, how much reaches the broker and whether its answer gets back are
    the argument [Network], about which nothing is assumed: the broker takes the
    form if the closing boundary arrived and refuses it otherwise.
    Credentials are the class [CredentialValidator], with StaticValidate and the
    JWT validator as instances.  Of the curve only [EcdsaLaws] is assumed; C17
    adds that the control plane's key verifies only what was signed with it and
    that the bearer is no SHA-256 collision with a signed text.  Tokens are taken
    at times between 1970 and 2116 and names below 512 bytes where times and
    body limits matter.  An exchange answers in the instant of its call in
    [Identity] and [EdgeMount]; [EdgeRace] leaves it time.  The process glue and
    key files under test/harness, the other helpers under test/, and
    internal/testca, are left out.

    ** What could follow

    [Fleet] interleaves guests operation by operation, and the broker of
    [Filestore] answers one request at a time: requests that overlap inside the
    broker (two uploads to one key, a listing during a rename) need its handlers
    as steps over the host.  The VFS traffic between [Production]'s points and
    [MountRefinement]'s volume is go-fuse's and rclone's own code, which this
    repository only configures. *)
From Stdlib Require Import Ascii String.
From stdpp Require Import base list strings gmap.

Declare Scope go_scope.
Delimit Scope go_scope with go.

(** Results of fallible Go code: the value, or the error that came with it. *)
Inductive result (E A : Type) : Type :=
| Ok (a : A)
| Err (e : E).
Arguments Ok {E A} a.
Arguments Err {E A} e.

Notation "'let?' x ':=' c 'in' k" :=
  (match c with Ok x => k | Err e => Err e end)
  (at level 10, x pattern, c at level 100, k at level 200) : go_scope.

(** ** Case analysis on the conditions of Go code *)

(** [go_cases] splits every [match] and [if] of the goal and of the
    hypotheses, simplifying the equations that result. *)
Ltac go_cases :=
  repeat first
    [ progress simplify_eq/=
    | case_match
    | case_decide
    | progress destruct_and? ].

Create HintDb go discriminated.

(** ** Machine integers *)
Definition int64_min : Z := (- 2 ^ 63)%Z.
Definition int64_max : Z := (2 ^ 63 - 1)%Z.

(** Two's-complement wrap-around of an int64 computation. *)
Definition int64_wrap (z : Z) : Z := ((z + 2 ^ 63) `mod` 2 ^ 64 - 2 ^ 63)%Z.

Definition in_int64 (z : Z) : Prop := (int64_min ≤ z ≤ int64_max)%Z.

Lemma int64_wrap_id z : in_int64 z → int64_wrap z = z.
Proof.
  unfold in_int64, int64_wrap, int64_min, int64_max. intros H.
  rewrite Z.mod_small; lia.
Qed.

Lemma int64_wrap_in z : in_int64 (int64_wrap z).
Proof.
  unfold in_int64, int64_wrap, int64_min, int64_max.
  pose proof (Z.mod_pos_bound (z + 2 ^ 63) (2 ^ 64)). lia.
Qed.

(** ** Strings as byte sequences *)
Section strings.
Implicit Types s p r : string.

Lemma string_app_nil_r s : s +:+ "" = s.
Proof. induction s as [|c s IH]; [done|]. unfold String.app in *. simpl. by rewrite IH. Qed.

Lemma string_app_assoc s p r : s +:+ (p +:+ r) = (s +:+ p) +:+ r.
Proof. induction s as [|c s IH]; [done|]. unfold String.app in *. simpl. by rewrite IH. Qed.

Lemma string_app_cons c s p : (String c s) +:+ p = String c (s +:+ p).
Proof. done. Qed.

Lemma string_length_app s p :
  String.length (s +:+ p) = String.length s + String.length p.
Proof. induction s as [|c s IH]; [done|]. unfold String.app in *. simpl. by rewrite IH. Qed.

(** [strip_prefix p s] is the rest of [s] after the prefix [p]. *)
Fixpoint strip_prefix (p s : string) : option string :=
  match p, s with
  | "", _ => Some s
  | String a p', String b s' => if decide (a = b) then strip_prefix p' s' else None
  | _, _ => None
  end.

Lemma strip_prefix_app p s : strip_prefix p (p +:+ s) = Some s.
Proof.
  induction p as [|c p IH]; [done|].
  unfold String.app in *. simpl. by rewrite decide_True.
Qed.

Lemma strip_prefix_Some p s r : strip_prefix p s = Some r ↔ s = p +:+ r.
Proof.
  split; [|intros ->; apply strip_prefix_app].
  revert s. induction p as [|c p IH]; intros s H; simpl in *; [by simplify_eq|].
  destruct s; [done|]. case_decide; [|done]. subst. by rewrite (IH _ H).
Qed.

Lemma string_app_inj_r p s r : p +:+ s = p +:+ r → s = r.
Proof. intros H. by apply (inj (String.app p)) in H. Qed.
End strings.

(** ** Sums over lists *)
Lemma sum_list_insert {A} (f : A → nat) l i x y : l !! i = Some x →
  (sum_list_with f (<[i := y]> l) + f x = sum_list_with f l + f y)%nat.
Proof.
  revert i. induction l as [|z l IH]; intros [|i] H; simpl in *; [done|done|simplify_eq; lia|].
  specialize (IH i H). lia.
Qed.
