(* ===== verification/GoPath.v ===== *)
(** * The Go [strings] and [path] functions the program uses

    Executable models of [strings.HasPrefix], [TrimPrefix], [TrimRight],
    [Contains], [Count], [Split] (each with the separators the code passes) and
    of [path.Clean], [path.Join], [path/filepath.Dir] on Unix, with the theory
    of canonical absolute paths: the component list [cs] of a clean rooted path
    [path_of cs]. *)
From Stdlib Require Import Ascii String.
From stdpp Require Import base list strings.
From S2P Require Import Prelude.

(** ** Package strings *)

Definition HasPrefix (s p : string) : bool := bool_decide (is_Some (strip_prefix p s)).

Definition TrimPrefix (s p : string) : string :=
  match strip_prefix p s with Some r => r | None => s end.

Definition slash : ascii := "/"%char.

Fixpoint contains_char (c : ascii) (s : string) : bool :=
  match s with
  | "" => false
  | String a s' => bool_decide (a = c) || contains_char c s'
  end.

Fixpoint count_char (c : ascii) (s : string) : nat :=
  match s with
  | "" => 0
  | String a s' => if decide (a = c) then S (count_char c s') else count_char c s'
  end.

(** [strings.TrimRight(s, string(c))]. *)
Fixpoint trim_right (c : ascii) (s : string) : string :=
  match s with
  | "" => ""
  | String a s' =>
      match trim_right c s' with
      | "" => if decide (a = c) then "" else String a ""
      | t => String a t
      end
  end.

(** [strings.Split(s, string(c))]. *)
Fixpoint split_on (c : ascii) (s : string) : list string :=
  match s with
  | "" => [""]
  | String a s' =>
      if decide (a = c) then "" :: split_on c s'
      else match split_on c s' with
           | w :: ws => String a w :: ws
           | [] => [String a ""]
           end
  end.

(** [strings.Join(ws, string(c))]. *)
Fixpoint join_with (c : ascii) (ws : list string) : string :=
  match ws with
  | [] => ""
  | [w] => w
  | w :: ws' => w +:+ String c (join_with c ws')
  end.

(** ** Package path *)

(** The component loop of [path.Clean]: empty and "." components vanish, ".."
    removes the component before it, and at the root of a rooted path ".." is
    dropped.  [stk] is the output so far, innermost component first. *)
Fixpoint clean_comps (rooted : bool) (stk cs : list string) : list string :=
  match cs with
  | [] => rev stk
  | c :: cs' =>
      if decide (c = "") then clean_comps rooted stk cs'
      else if decide (c = ".") then clean_comps rooted stk cs'
      else if decide (c = "..") then
        match stk with
        | [] => clean_comps rooted (if rooted then [] else [".."]) cs'
        | top :: stk' =>
            if decide (top = "..") then clean_comps rooted (".." :: stk) cs'
            else clean_comps rooted stk' cs'
        end
      else clean_comps rooted (c :: stk) cs'
  end.

Definition Clean (p : string) : string :=
  if decide (p = "") then "."
  else
    let rooted := HasPrefix p "/" in
    let cs := clean_comps rooted [] (split_on slash p) in
    if rooted then String slash (join_with slash cs)
    else match cs with [] => "." | _ => join_with slash cs end.

(** [path.Join]: empty elements are ignored; all-empty yields "". *)
Definition Join (elems : list string) : string :=
  match filter (λ e, e ≠ "") elems with
  | [] => ""
  | es => Clean (join_with slash es)
  end.

(** [filepath.Dir]: everything up to the last "/" (all of it dropped when
    there is none), cleaned. *)
Definition Dir (p : string) : string :=
  match rev (split_on slash p) with
  | _ :: d :: ds => Clean (join_with slash (rev (d :: ds) ++ [""]))
  | _ => "."
  end.

(** ** Canonical absolute paths *)

Definition comp_ok (c : string) : Prop :=
  c ≠ "" ∧ c ≠ "." ∧ c ≠ ".." ∧ contains_char slash c = false.

Definition path_of (cs : list string) : string := String slash (join_with slash cs).

Definition canonical (p : string) : Prop := ∃ cs, Forall comp_ok cs ∧ p = path_of cs.

Example clean_ex1 : Clean "/a//b/./../c/" = "/a/c". Proof. reflexivity. Qed.
Example clean_ex2 : Clean "/../../x" = "/x". Proof. reflexivity. Qed.
Example clean_ex3 : Clean "a/../../b" = "../b". Proof. reflexivity. Qed.
Example clean_ex4 : Clean "//" = "/". Proof. reflexivity. Qed.
Example join_ex : Join [""; "a"; ""; "../b"] = "b". Proof. reflexivity. Qed.
Example dir_ex : (Dir "/mnt/foo", Dir "/mnt/foo/", Dir "foo", Dir "/", Dir "/a") = ("/mnt", "/mnt/foo", ".", "/", "/").
Proof. reflexivity. Qed.

(** ** Theory of split and join *)

Lemma HasPrefix_spec s p : HasPrefix s p = true ↔ ∃ r, s = p +:+ r.
Proof.
  unfold HasPrefix. rewrite bool_decide_eq_true. split.
  - intros [r Hr%strip_prefix_Some]. eauto.
  - intros [r ->]. rewrite strip_prefix_app. eauto.
Qed.

Lemma HasPrefix_false s p : HasPrefix s p = false ↔ strip_prefix p s = None.
Proof.
  unfold HasPrefix. rewrite bool_decide_eq_false, <-eq_None_not_Some. done.
Qed.

Lemma TrimPrefix_app p s : TrimPrefix (p +:+ s) p = s.
Proof. unfold TrimPrefix. by rewrite strip_prefix_app. Qed.

Lemma contains_char_app c s t :
  contains_char c (s +:+ t) = contains_char c s || contains_char c t.
Proof.
  induction s as [|a s IH]; [done|]. rewrite string_app_cons. simpl.
  rewrite IH. by rewrite orb_assoc.
Qed.

Lemma count_char_contains c s : (0 < count_char c s) ↔ contains_char c s = true.
Proof.
  induction s as [|a s IH]; simpl; [split; [lia|done]|].
  case_decide; case_bool_decide; simpl; try done; split; (done || lia).
Qed.

Lemma split_on_not_nil c s : split_on c s ≠ [].
Proof. destruct s; simpl; [done|]. case_decide; [done|]. by case_match. Qed.

Lemma split_on_nochar c s : Forall (λ w, contains_char c w = false) (split_on c s).
Proof.
  induction s as [|a s IH]; simpl; [by constructor|].
  case_decide; [by constructor|].
  destruct (split_on c s) as [|w ws] eqn:E; [by destruct (split_on_not_nil c s)|].
  inversion_clear IH. constructor; [|done]. simpl. by rewrite bool_decide_eq_false_2.
Qed.

Lemma split_on_app c s r : split_on c (s +:+ String c r) = split_on c s ++ split_on c r.
Proof.
  induction s as [|a s IH].
  - unfold String.app. simpl. by rewrite decide_True.
  - rewrite string_app_cons. simpl. rewrite IH. case_decide; [done|].
    destruct (split_on c s) eqn:E; [by destruct (split_on_not_nil c s)|done].
Qed.

Lemma split_on_single c s : contains_char c s = false → split_on c s = [s].
Proof.
  induction s as [|a s IH]; simpl; [done|].
  case_bool_decide as Ha; simpl; [done|]. intros Hs. rewrite decide_False by done. by rewrite IH.
Qed.

Lemma join_split c s : join_with c (split_on c s) = s.
Proof.
  induction s as [|a s IH]; simpl; [done|].
  case_decide as Ha; subst; simpl.
  - destruct (split_on c s) as [|w ws] eqn:E; [by destruct (split_on_not_nil c s)|].
    change (String c (join_with c (w :: ws)) = String c s). by rewrite IH.
  - destruct (split_on c s) as [|w ws] eqn:E; [by destruct (split_on_not_nil c s)|].
    rewrite <-IH. by destruct ws.
Qed.

Lemma split_join c ws :
  ws ≠ [] → Forall (λ w, contains_char c w = false) ws → split_on c (join_with c ws) = ws.
Proof.
  induction ws as [|w ws IH]; [done|]. intros _ [Hw Hws]%Forall_cons.
  destruct ws as [|w' ws]; [by apply split_on_single|].
  change (join_with c (w :: w' :: ws)) with (w +:+ String c (join_with c (w' :: ws))).
  rewrite split_on_app, IH by done. by rewrite split_on_single.
Qed.

Lemma join_with_app c ws vs :
  ws ≠ [] → vs ≠ [] → join_with c (ws ++ vs) = join_with c ws +:+ String c (join_with c vs).
Proof.
  intros Hws Hvs. induction ws as [|w ws IH]; [done|].
  destruct ws as [|w' ws]; [destruct vs; [done|reflexivity]|].
  change (join_with c ((w :: w' :: ws) ++ vs)) with (w +:+ String c (join_with c ((w' :: ws) ++ vs))).
  rewrite IH by done.
  change (join_with c (w :: w' :: ws)) with (w +:+ String c (join_with c (w' :: ws))).
  by rewrite <-string_app_assoc.
Qed.

(** ** Theory of canonical paths *)

Lemma comp_ok_noslash cs : Forall comp_ok cs → Forall (λ w, contains_char slash w = false) cs.
Proof. intros H. eapply Forall_impl; [done|]. by intros x (?&?&?&?). Qed.

(** The components of a canonical path, "" standing for the root. *)
Lemma split_path_of cs :
  Forall comp_ok cs → split_on slash (path_of cs) = "" :: (match cs with [] => [""] | _ => cs end).
Proof.
  intros Hok. unfold path_of.
  change (String slash (join_with slash cs)) with ("" +:+ String slash (join_with slash cs)).
  rewrite split_on_app. simpl. f_equal.
  destruct cs; [done|]. apply split_join; [done|]. by apply comp_ok_noslash.
Qed.

Lemma path_of_inj cs ds : Forall comp_ok cs → Forall comp_ok ds → path_of cs = path_of ds → cs = ds.
Proof.
  intros Hc Hd H%(f_equal (split_on slash)).
  rewrite !split_path_of in H by done. injection H as H.
  destruct cs as [|c cs], ds as [|d ds]; simplify_eq; try done.
  - by apply Forall_cons in Hd as [(?&?) _].
  - by apply Forall_cons in Hc as [(?&?) _].
Qed.

Lemma clean_comps_ok stk cs :
  Forall comp_ok stk → Forall (λ w, contains_char slash w = false) cs →
  Forall comp_ok (clean_comps true stk cs).
Proof.
  revert stk. induction cs as [|c cs IH]; intros stk Hstk Hcs; simpl.
  { by apply List.Forall_rev. }
  apply Forall_cons in Hcs as [Hc Hcs].
  repeat case_decide; auto.
  - destruct stk as [|t stk]; [by apply IH|].
    apply Forall_cons in Hstk as [Ht Hstk]. case_decide; [by destruct Ht as (?&?&?&?)|]. auto.
  - apply IH; [|done]. constructor; [|done]. done.
Qed.

Lemma clean_comps_id stk cs :
  Forall comp_ok cs → clean_comps true stk cs = rev stk ++ cs.
Proof.
  revert stk. induction cs as [|c cs IH]; intros stk Hcs; simpl; [by rewrite app_nil_r|].
  apply Forall_cons in Hcs as [(?&?&?&?) Hcs]. rewrite !decide_False by done.
  rewrite IH by done. simpl. by rewrite <-app_assoc.
Qed.

Lemma HasPrefix_slash s : HasPrefix (String slash s) "/" = true.
Proof. apply HasPrefix_spec. by exists s. Qed.

Lemma Clean_rooted s :
  Clean (String slash s) = path_of (clean_comps true [] (split_on slash s)).
Proof.
  unfold Clean. rewrite decide_False by done. rewrite HasPrefix_slash. simpl.
  try rewrite decide_True by done. done.
Qed.

Lemma Clean_rooted_canonical s : canonical (Clean (String slash s)).
Proof.
  rewrite Clean_rooted. eexists. split; [|done].
  apply clean_comps_ok; [done|]. apply split_on_nochar.
Qed.

Lemma Clean_path_of cs : Forall comp_ok cs → Clean (path_of cs) = path_of cs.
Proof.
  intros Hok. unfold path_of. rewrite Clean_rooted.
  destruct cs as [|c cs]; [done|].
  rewrite split_join by (done || by apply comp_ok_noslash).
  by rewrite clean_comps_id.
Qed.

Lemma canonical_rooted p : canonical p → ∃ s, p = String slash s.
Proof. intros (cs & _ & ->). eexists. done. Qed.

Lemma Clean_canonical p : canonical p → Clean p = p.
Proof. intros (cs & Hcs & ->). by apply Clean_path_of. Qed.

(** A canonical path lies strictly below another one, at a separator boundary,
    exactly when its components extend the other's. *)
Lemma path_of_below ps es :
  ps ≠ [] → Forall comp_ok ps → Forall comp_ok es →
  HasPrefix (path_of es) (path_of ps +:+ "/") = true ↔ ∃ rest, rest ≠ [] ∧ es = ps ++ rest.
Proof.
  intros Hne Hps Hes. rewrite HasPrefix_spec. split.
  - intros [r Hr].
    replace ((path_of ps +:+ "/") +:+ r) with (path_of ps +:+ String slash r) in Hr
      by (by rewrite <-string_app_assoc).
    apply (f_equal (split_on slash)) in Hr.
    rewrite split_on_app, !split_path_of in Hr by done.
    destruct ps as [|p ps]; [done|]. injection Hr as Hr.
    exists (split_on slash r). split; [apply split_on_not_nil|].
    destruct es as [|e es]; [|done].
    injection Hr as Hp _. by apply Forall_cons in Hps as [(?&?) _].
  - intros (rest & Hr & ->). exists (join_with slash rest).
    unfold path_of. rewrite join_with_app by done. simpl.
    rewrite !string_app_cons. f_equal. by rewrite <-string_app_assoc.
Qed.

Lemma path_of_not_double cs : Forall comp_ok cs → HasPrefix (path_of cs) "//" = false.
Proof.
  intros Hok. apply HasPrefix_false. unfold path_of.
  destruct cs as [|c cs]; [done|]. apply Forall_cons in Hok as [(Hne&_&_&Hns) _].
  destruct c as [|a c]; [done|]. simpl in Hns.
  apply orb_false_iff in Hns as [Ha%bool_decide_eq_false _].
  assert ("/"%char ≠ a) by (intros <-; by apply Ha).
  simpl. destruct cs; simpl; by rewrite decide_False.
Qed.

#[export] Hint Resolve Clean_rooted_canonical : go.
