(* ===== verification/Sha256.v ===== *)
(** * SHA-256 (Go's [crypto/sha256.Sum256], FIPS 180-4)

    The pagination guard keys on SHA-256 digests.  Words
    are [Z] kept in [0, 2^32) by [w32]. *)
From Stdlib Require Import Ascii String.
From stdpp Require Import base list strings numbers.
From S2P Require Import Prelude.
Local Open Scope Z_scope.

Definition w32 (z : Z) : Z := Z.land z (2 ^ 32 - 1).
Definition rotr (n x : Z) : Z := Z.lor (Z.shiftr x n) (w32 (Z.shiftl x (32 - n))).
Definition Ch (x y z : Z) : Z := Z.lxor (Z.land x y) (Z.land (w32 (Z.lnot x)) z).
Definition Maj (x y z : Z) : Z := Z.lxor (Z.lxor (Z.land x y) (Z.land x z)) (Z.land y z).
Definition Sigma0 (x : Z) : Z := Z.lxor (Z.lxor (rotr 2 x) (rotr 13 x)) (rotr 22 x).
Definition Sigma1 (x : Z) : Z := Z.lxor (Z.lxor (rotr 6 x) (rotr 11 x)) (rotr 25 x).
Definition sigma0 (x : Z) : Z := Z.lxor (Z.lxor (rotr 7 x) (rotr 18 x)) (Z.shiftr x 3).
Definition sigma1 (x : Z) : Z := Z.lxor (Z.lxor (rotr 17 x) (rotr 19 x)) (Z.shiftr x 10).

(** The round constants are the first 32 bits of the fractional parts of the
    cube roots of the first 64 primes, the initial hash value those of the
    square roots of the first eight. *)
Definition is_prime (n : Z) : bool :=
  (1 <? n) && forallb (λ d, negb (n mod Z.of_nat d =? 0)) (seq 2 (Z.to_nat n - 2)).
Definition primes (below : nat) : list Z := filter (λ n, is_prime n = true) (map Z.of_nat (seq 0 below)).

(** The largest [r] below [acc + 2 ^ n] with [r ^ k <= z], bit by bit. *)
Fixpoint root_bits (k : Z) (n : nat) (acc z : Z) : Z :=
  match n with
  | O => acc
  | S n' => let acc' := acc + 2 ^ Z.of_nat n' in
            root_bits k n' (if acc' ^ k <=? z then acc' else acc) z
  end.
Definition root_fraction (k p : Z) : Z := w32 (root_bits k 37 0 (p * 2 ^ (32 * k))).

Definition K256 : list Z := Eval vm_compute in map (root_fraction 3) (primes 312).
Definition H0 : list Z := Eval vm_compute in map (root_fraction 2) (primes 20).

Definition bytes_of (s : string) : list Z :=
  map (λ a, Z.of_N (N_of_ascii a)) (String.list_ascii_of_string s).

Fixpoint be_bytes (n : nat) (z : Z) : list Z :=
  match n with
  | O => []
  | S n' => Z.land (Z.shiftr z (8 * Z.of_nat n')) 255 :: be_bytes n' z
  end.

(** Padding: 0x80, zeros, the bit length as a 64-bit big-endian word. *)
Definition pad (bs : list Z) : list Z :=
  let l := Z.of_nat (length bs) in
  let zeros := Z.to_nat ((55 - l) mod 64) in
  bs ++ [0x80] ++ replicate zeros 0 ++ be_bytes 8 (8 * l).

Fixpoint words (fuel : nat) (bs : list Z) : list Z :=
  match fuel, bs with
  | S f, a :: b :: c :: d :: r =>
      (Z.shiftl a 24 + Z.shiftl b 16 + Z.shiftl c 8 + d) :: words f r
  | _, _ => []
  end.

(** The message schedule, newest word first. *)
Fixpoint schedule (n : nat) (rw : list Z) : list Z :=
  match n with
  | O => rw
  | S n' =>
      let g i := nth i rw 0 in
      schedule n' (w32 (sigma1 (g 1%nat) + g 6%nat + sigma0 (g 14%nat) + g 15%nat) :: rw)
  end.

Definition round (st : list Z) (kw : Z * Z) : list Z :=
  match st with
  | [a; b; c; d; e; f; g; h] =>
      let t1 := h + Sigma1 e + Ch e f g + fst kw + snd kw in
      let t2 := Sigma0 a + Maj a b c in
      [w32 (t1 + t2); a; b; c; w32 (d + t1); e; f; g]
  | _ => st
  end.

Definition compress (h : list Z) (block : list Z) : list Z :=
  let ws := rev (schedule 48 (rev (words 16 block))) in
  zip_with (λ x y, w32 (x + y)) h (foldl round h (zip K256 ws)).

Fixpoint blocks (fuel : nat) (h : list Z) (bs : list Z) : list Z :=
  match fuel, bs with
  | S f, _ :: _ => blocks f (compress h (take 64 bs)) (drop 64 bs)
  | _, _ => h
  end.

(** [sha256.Sum256]: the 32 digest bytes. *)
Definition Sum256 (s : string) : list Z :=
  let bs := pad (bytes_of s) in
  mjoin (map (be_bytes 4) (blocks (length bs) H0 bs)).

Example Sum256_abc :
  Sum256 "abc" = [0xba; 0x78; 0x16; 0xbf; 0x8f; 0x01; 0xcf; 0xea; 0x41; 0x41; 0x40; 0xde; 0x5d; 0xae; 0x22; 0x23;
                  0xb0; 0x03; 0x61; 0xa3; 0x96; 0x17; 0x7a; 0x9c; 0xb4; 0x10; 0xff; 0x61; 0xf2; 0x00; 0x15; 0xad].
Proof. vm_compute. reflexivity. Qed.

(** A two-block message. *)
Example Sum256_two_blocks :
  take 4 (Sum256 "abcdbcdecdefdefgefghfghighijhijkijkljklmklmnlmnomnopnopq") = [0x24; 0x8d; 0x6a; 0x61].
Proof. vm_compute. reflexivity. Qed.

(** ** The digest is 32 bytes *)
Lemma be_bytes_range n z : Forall (λ b, 0 <= b < 256) (be_bytes n z).
Proof.
  induction n as [|n IH]; simpl; constructor; [|done].
  change 255 with (Z.ones 8). rewrite Z.land_ones by lia. apply Z.mod_pos_bound. lia.
Qed.

Lemma be_bytes_length n z : length (be_bytes n z) = n.
Proof. induction n as [|n IH]; simpl; congruence. Qed.

Lemma round_length st kw : length (round st kw) = length st.
Proof. unfold round. by repeat case_match. Qed.

Lemma rounds_length kws st : length (foldl round st kws) = length st.
Proof. revert st. induction kws as [|kw kws IH]; intros st; simpl; [done|]. by rewrite IH, round_length. Qed.

Lemma blocks_length fuel h bs : length (blocks fuel h bs) = length h.
Proof.
  revert h bs. induction fuel as [|f IH]; intros h bs; simpl; [done|]. destruct bs; [done|].
  rewrite IH. unfold compress. rewrite length_zip_with, rounds_length. apply Nat.min_id.
Qed.

Lemma Sum256_length s : length (Sum256 s) = 32%nat.
Proof.
  unfold Sum256. assert (length (blocks (length (pad (bytes_of s))) H0 (pad (bytes_of s))) = 8%nat) as H by by rewrite blocks_length.
  revert H. generalize (blocks (length (pad (bytes_of s))) H0 (pad (bytes_of s))). intros l Hl.
  do 8 (destruct l as [|? l]; [done|]). by destruct l.
Qed.

Lemma Sum256_range s : Forall (λ b, 0 <= b < 256) (Sum256 s).
Proof.
  unfold Sum256. generalize (blocks (length (pad (bytes_of s))) H0 (pad (bytes_of s))). intros l.
  induction l as [|z l IH]; [constructor|]. cbn [map mjoin list_join]. apply Forall_app. split; [apply be_bytes_range|done].
Qed.
