(* ===== verification/GoErrors.v ===== *)
(** * Go error values

    [error] is the tree [errors.Is] walks: sentinels compared by identity,
    [fmt.Errorf] values with the errors their [%w] verbs wrap, [errors.Join],
    and rclone's two retry wrappers ([fserrors.RetryError],
    [fserrors.NewErrorRetryAfter]), which the code builds but never inspects.
    A formatted error keeps its format literal and arguments rather than the
    rendered text. *)
From Stdlib Require Import Ascii String.
From stdpp Require Import base list strings.
From S2P Require Import Prelude.

(** Package-level error variables: of brokerrpc, of mounter, of rclone's [fs]
    and [hash], of the standard library, and of the harness's jwtmint and
    filestore. *)
Inductive sentinel : Type :=
| ErrPermissionDenied | ErrInvalidArgument | ErrNotFound | ErrAlreadyExists | ErrPermanentOther
| errMountMethodUnavailable | errDetachDidNotReturn | errUnsupportedDirectMountOption
| fs_ErrorPermissionDenied | fs_ErrorObjectNotFound | fs_ErrorDirNotFound | fs_ErrorIsDir
| fs_ErrorCantCopy | fs_ErrorCantMove | fs_ErrorCantDirMove | fs_ErrorCantSetModTime
| hash_ErrUnsupported
| io_EOF | io_ErrClosedPipe | os_ErrNotExist | os_ErrExist | syscall_ENOTCONN | syscall_EROFS
| context_Canceled
| jwt_ErrExpired | jwt_ErrNoExpiry | jwt_ErrBadSignature | jwt_ErrUntrusted | errNoCredential.

#[export] Instance sentinel_eq_dec : EqDecision sentinel.
Proof. solve_decision. Defined.

(** Arguments of a format verb other than [%w]. *)
Inductive arg : Type :=
| AStr (s : string)
| AInt (z : Z).

#[export] Instance arg_eq_dec : EqDecision arg.
Proof. solve_decision. Defined.

Inductive error : Type :=
| ESent (s : sentinel)
| EErrorf (fmt : string) (args : list arg) (wrapped : list error)
| EJoin (es : list error)
| ERetry (e : error)
| ERetryAfter (d : Z).

(** [errors.New(text)] for an error that is not a package variable. *)
Definition errors_New (text : string) : error := EErrorf text [] [].

(** [errors.Is(err, target)] for a sentinel target. *)
Fixpoint errors_Is (e : error) (t : sentinel) : bool :=
  match e with
  | ESent s => bool_decide (s = t)
  | EErrorf _ _ ws => existsb (λ w, errors_Is w t) ws
  | EJoin es => existsb (λ w, errors_Is w t) es
  | ERetry e => errors_Is e t
  | ERetryAfter _ => false
  end.

(** Whether rclone's retry layers see the error as retryable: a
    [RetryError] wrapper somewhere in the tree. *)
Fixpoint is_retry (e : error) : bool :=
  match e with
  | ESent _ => false
  | EErrorf _ _ ws => existsb is_retry ws
  | EJoin es => existsb is_retry es
  | ERetry _ => true
  | ERetryAfter _ => false
  end.

(** The back-off hints an error tree carries. *)
Fixpoint retry_after_hints (e : error) : list Z :=
  match e with
  | ESent _ => []
  | EErrorf _ _ ws => flat_map retry_after_hints ws
  | EJoin es => flat_map retry_after_hints es
  | ERetry e => retry_after_hints e
  | ERetryAfter d => [d]
  end.

(** Total length of the string arguments an error holds on to. *)
Definition arg_size (a : arg) : nat :=
  match a with AStr s => String.length s | AInt _ => 0 end.

Fixpoint error_arg_size (e : error) : nat :=
  match e with
  | ESent _ => 0
  | EErrorf _ args ws => sum_list (map arg_size args) + sum_list (map error_arg_size ws)
  | EJoin es => sum_list (map error_arg_size es)
  | ERetry e => error_arg_size e
  | ERetryAfter _ => 0
  end.

(** [errors.Join(errs...)]: nil when every element is nil. *)
Definition errors_Join (es : list error) : option error :=
  match es with [] => None | _ => Some (EJoin es) end.

Lemma errors_Is_Errorf1 fmt args e t : errors_Is (EErrorf fmt args [e]) t = errors_Is e t.
Proof. simpl. by rewrite orb_false_r. Qed.

Lemma errors_Is_sent s t : errors_Is (ESent s) t = true ↔ s = t.
Proof. simpl. apply bool_decide_eq_true. Qed.

#[export] Hint Rewrite errors_Is_Errorf1 : go.
