(* ===== verification/GoIO.v ===== *)
(** * Go readers

    A [reader] is the script of an [io.Reader]: the segments it will deliver,
    each possibly with the error that arrives together with its last byte.  A
    segment with no bytes and no error is the legal [(0, nil)] result.  After
    the script the reader is at end of file; an error is sticky. *)
From Stdlib Require Import Ascii String.
From stdpp Require Import base list strings numbers.
From S2P Require Import Prelude GoErrors.
Local Open Scope Z_scope.

Abbreviation bytes := (list ascii).

(** ** Lists indexed by int64 lengths *)
Section zlist.
Context {A : Type}.
Implicit Types l : list A.

Fixpoint zlen l : Z := match l with [] => 0 | _ :: l' => 1 + zlen l' end.

Fixpoint ztake (n : Z) l : list A :=
  match l with
  | [] => []
  | x :: l' => if n <=? 0 then [] else x :: ztake (n - 1) l'
  end.

Fixpoint zdrop (n : Z) l : list A :=
  match l with
  | [] => []
  | x :: l' => if n <=? 0 then l else zdrop (n - 1) l'
  end.

Lemma zlen_length l : zlen l = Z.of_nat (length l).
Proof. induction l as [|x l IH]; [done|]. cbn [zlen length]. lia. Qed.

Lemma zlen_nonneg l : 0 <= zlen l.
Proof. rewrite zlen_length. lia. Qed.

Lemma zlen_app l k : zlen (l ++ k) = zlen l + zlen k.
Proof. rewrite !zlen_length, length_app. lia. Qed.

Lemma ztake_take n l : ztake n l = take (Z.to_nat n) l.
Proof.
  revert n. induction l as [|x l IH]; intros n; simpl; [by rewrite take_nil|].
  destruct (Z.leb_spec n 0).
  - by replace (Z.to_nat n) with 0%nat by lia.
  - rewrite IH. replace (Z.to_nat n) with (S (Z.to_nat (n - 1))) by lia. done.
Qed.

Lemma zdrop_drop n l : zdrop n l = drop (Z.to_nat n) l.
Proof.
  revert n. induction l as [|x l IH]; intros n; simpl; [by rewrite drop_nil|].
  destruct (Z.leb_spec n 0).
  - by replace (Z.to_nat n) with 0%nat by lia.
  - rewrite IH. replace (Z.to_nat n) with (S (Z.to_nat (n - 1))) by lia. done.
Qed.

Lemma ztake_all n l : zlen l <= n → ztake n l = l.
Proof. rewrite zlen_length, ztake_take. intros. apply take_ge. lia. Qed.

Lemma ztake_app_ge n l k : zlen l <= n → ztake n (l ++ k) = l ++ ztake (n - zlen l) k.
Proof.
  rewrite zlen_length, !ztake_take. intros. rewrite take_app_ge by lia.
  do 2 f_equal. lia.
Qed.

Lemma ztake_app_le n l k : n <= zlen l → ztake n (l ++ k) = ztake n l.
Proof. rewrite zlen_length, !ztake_take. intros. rewrite take_app_le; [done|lia]. Qed.

Lemma ztake_zdrop n l : ztake n l ++ zdrop n l = l.
Proof. rewrite ztake_take, zdrop_drop. apply take_drop. Qed.

Lemma zlen_ztake n l : 0 <= n <= zlen l → zlen (ztake n l) = n.
Proof. rewrite !zlen_length, ztake_take, length_take. lia. Qed.

Lemma zlen_zdrop n l : 0 <= n <= zlen l → zlen (zdrop n l) = zlen l - n.
Proof. rewrite !zlen_length, zdrop_drop, length_drop. lia. Qed.

Lemma zlen_ztake_le n l : 0 <= n → zlen (ztake n l) <= n.
Proof. rewrite !zlen_length, ztake_take, length_take. lia. Qed.

Lemma zlen_0 l : zlen l = 0 → l = [].
Proof. destruct l; [done|]. cbn [zlen]. pose proof (zlen_nonneg l). lia. Qed.

Lemma ztake_0 n l : n <= 0 → ztake n l = [].
Proof. destruct l; [done|]. simpl. intros. by rewrite (proj2 (Z.leb_le n 0)). Qed.
End zlist.

#[export] Hint Resolve zlen_nonneg : go.

(** ** Readers *)
Record seg : Type := Seg { seg_data : bytes; seg_err : option error }.
Abbreviation reader := (list seg).

(** One [Read] into a buffer of [k] bytes: the bytes delivered, the error, and
    the reader afterwards. *)
Definition Read (k : Z) (r : reader) : bytes * option error * reader :=
  match r with
  | [] => ([], Some (ESent io_EOF), [])
  | Seg d e :: rest =>
      if zlen d <=? k then
        (d, e, match e with Some _ => [Seg [] e] | None => rest end)
      else (ztake k d, None, Seg (zdrop k d) e :: rest)
  end.

(** What a reader delivers in total, and the error it ends with. *)
Fixpoint content (r : reader) : bytes :=
  match r with
  | [] => []
  | Seg d None :: rest => d ++ content rest
  | Seg d (Some _) :: _ => d
  end.

Fixpoint final_err (r : reader) : error :=
  match r with
  | [] => ESent io_EOF
  | Seg _ None :: rest => final_err rest
  | Seg _ (Some e) :: _ => e
  end.

(** A [Read] hands over a prefix of the content; the rest stays. *)
Lemma Read_content k r d e r' :
  Read k r = (d, e, r') →
  content r = d ++ content r' ∧ final_err r = final_err r' ∧
  match e with Some e0 => content r' = [] ∧ e0 = final_err r | None => True end.
Proof.
  destruct r as [|[dat err] rest]; simpl; intros H; [by simplify_eq|].
  destruct (zlen dat <=? k) eqn:E; simplify_eq.
  - destruct e; simpl; [by rewrite app_nil_r|done].
  - assert (dat = ztake k dat ++ zdrop k dat) as Hd by (by rewrite ztake_zdrop).
    destruct err; simpl.
    + by rewrite <-Hd.
    + rewrite app_assoc. by rewrite <-Hd.
Qed.

Lemma Read_len k r d e r' : 0 <= k → Read k r = (d, e, r') → zlen d <= k.
Proof.
  intros Hk. destruct r as [|[dat err] rest]; simpl; intros H; [simplify_eq; simpl; lia|].
  destruct (zlen dat <=? k) eqn:E; simplify_eq; [lia|]. by apply zlen_ztake_le.
Qed.

Definition is_EOF (e : error) : bool :=
  match e with ESent io_EOF => true | _ => false end.

(** [io.ReadAll(io.LimitReader(r, n))]: the bytes read, the error other than
    EOF, and the reader left behind. *)
Fixpoint read_all_limit (n : Z) (r : reader) : bytes * option error * reader :=
  match r with
  | [] => ([], None, [])
  | Seg d e :: rest =>
      if n <=? 0 then ([], None, r)
      else if zlen d <=? n then
        match e with
        | Some e0 => (d, if is_EOF e0 then None else Some e0, [Seg [] e])
        | None => let '(d', e', r') := read_all_limit (n - zlen d) rest in (d ++ d', e', r')
        end
      else (ztake n d, None, Seg (zdrop n d) e :: rest)
  end.

Lemma read_all_limit_spec n r :
  0 <= n →
  let '(d, e, r') := read_all_limit n r in
  d = ztake n (content r) ∧ content r = d ++ content r' ∧
  (n = zlen d ∨ (content r' = [] ∧ e = if is_EOF (final_err r) then None else Some (final_err r))).
Proof.
  revert n. induction r as [|[d e] rest IH]; intros n Hn; simpl; [tauto|].
  destruct (Z.leb_spec n 0) as [H0|H0].
  { rewrite ztake_0 by lia. simpl. repeat split; try done. left. lia. }
  destruct (Z.leb_spec (zlen d) n) as [Hd|Hd].
  - destruct e as [e|]; simpl.
    + rewrite ztake_all, app_nil_r by lia. auto.
    + specialize (IH (n - zlen d) ltac:(lia)).
      destruct (read_all_limit (n - zlen d) rest) as [[d' e'] r'].
      destruct IH as (-> & Hc & Hor). rewrite ztake_app_ge by lia.
      split; [done|]. split; [by rewrite <-app_assoc, <-Hc|].
      rewrite zlen_app. destruct Hor as [Hor|Hor]; [left; lia|by right].
  - pose proof (zlen_nonneg d).
    rewrite (zlen_ztake n d) by lia.
    destruct e; simpl.
    + rewrite ztake_zdrop. auto.
    + rewrite ztake_app_le by lia. rewrite app_assoc, ztake_zdrop. auto.
Qed.

(** [io.ReadFull(r, probe[:])] with a one-byte probe: the byte, if one comes
    before the reader's end. *)
Fixpoint probe_byte (r : reader) : option ascii :=
  match r with
  | [] => None
  | Seg (c :: _) _ :: _ => Some c
  | Seg [] None :: rest => probe_byte rest
  | Seg [] (Some _) :: _ => None
  end.

Lemma probe_byte_head r : probe_byte r = head (content r).
Proof. by induction r as [|[[|c d] [e|]] rest IH]. Qed.
