(* ===== verification/GoFloat.v ===== *)
(** * [strconv.ParseFloat] at 64 bits

    The value of a Retry-After header goes through [strconv.ParseFloat].  The
    result is a binary64 of the Standard Library's [SpecFloat], rounded to
    nearest even from the exact decimal or hexadecimal value; [None] stands for
    a non-nil error (syntax or range). *)
From Stdlib Require Import Ascii String ZArith SpecFloat.
From stdpp Require Import base list strings numbers.
From S2P Require Import Prelude.
Local Open Scope Z_scope.

Definition f64_prec : Z := 53.
Definition f64_emax : Z := 1024.

Definition code (a : ascii) : Z := Z.of_N (N_of_ascii a).

(** [lower]: sets the 0x20 bit. *)
Definition lower (a : ascii) : Z := Z.lor (code a) 32.

Definition digit_of (base : Z) (a : ascii) : option Z :=
  if (48 <=? code a) && (code a <=? 57) then Some (code a - 48)
  else if (base =? 16) && (97 <=? lower a) && (lower a <=? 102) then Some (lower a - 87)
  else None.

(** The mantissa loop: digits so far, number of fraction digits, whether a dot
    and a digit were seen, and the unread rest. *)
Fixpoint mant_loop (base m frac : Z) (dot seen : bool) (s : list ascii) : Z * Z * bool * list ascii :=
  match s with
  | [] => (m, frac, seen, [])
  | c :: s' =>
      if code c =? 95 then mant_loop base m frac dot seen s'
      else if code c =? 46 then
        if dot then (m, frac, seen, s) else mant_loop base m frac true seen s'
      else match digit_of base c with
           | Some d => mant_loop base (m * base + d) (if dot then frac + 1 else frac) dot true s'
           | None => (m, frac, seen, s)
           end
  end.

(** The exponent digits; the accumulator stops growing at 10000. *)
Fixpoint exp_loop (e : Z) (s : list ascii) : Z * list ascii :=
  match s with
  | [] => (e, [])
  | c :: s' =>
      if code c =? 95 then exp_loop e s'
      else match digit_of 10 c with
           | Some d => exp_loop (if e <? 10000 then e * 10 + d else e) s'
           | None => (e, s)
           end
  end.

(** [underscoreOK] on the number after its sign and base prefix; [saw] is the
    class of the previous byte: 0 a digit, 1 an underscore, 2 anything else. *)
Fixpoint underscore_ok (hex : bool) (saw : Z) (s : list ascii) : bool :=
  match s with
  | [] => negb (saw =? 1)
  | c :: s' =>
      match digit_of (if hex then 16 else 10) c with
      | Some _ => underscore_ok hex 0 s'
      | None =>
          if code c =? 95 then (if saw =? 0 then underscore_ok hex 1 s' else false)
          else if saw =? 1 then false else underscore_ok hex 2 s'
      end
  end.

Definition has_underscore (s : list ascii) : bool := existsb (λ c, code c =? 95) s.

(** Correctly rounded [m * 10^e]. *)
Definition round_dec (neg : bool) (m e : Z) : spec_float :=
  match m with
  | Zpos p =>
      if 0 <=? e then binary_round f64_prec f64_emax neg (Z.to_pos (m * 10 ^ e)) 0
      else let '(q, e', l) := SFdiv_core_binary f64_prec f64_emax m 0 (10 ^ (- e)) 0 in
           binary_round_aux f64_prec f64_emax neg q e' l
  | _ => S754_zero neg
  end.

Definition round_hex (neg : bool) (m e : Z) : spec_float :=
  match m with Zpos p => binary_round f64_prec f64_emax neg p e | _ => S754_zero neg end.

Definition in_range (f : spec_float) : option spec_float :=
  match f with S754_infinity _ => None | _ => Some f end.

(** After the mantissa: an optional exponent (mandatory in base 16), then the
    end of the string. *)
Definition finish (neg hex : bool) (num : list ascii) (m frac : Z) (rest : list ascii) : option spec_float :=
  let expChar := if hex then 112 else 101 in
  let num_ok := if has_underscore num then underscore_ok hex (if hex then 0 else 2) num else true in
  let conv e := if num_ok then
                  in_range (if hex then round_hex neg m (e - 4 * frac) else round_dec neg m (e - frac))
                else None in
  match rest with
  | [] => if hex then None else conv 0
  | c :: rest' =>
      if lower c =? expChar then
        let '(esign, ds) := match rest' with
                            | x :: r => if code x =? 43 then (1, r) else if code x =? 45 then (-1, r) else (1, rest')
                            | [] => (1, []) end in
        match ds with
        | d :: _ => match digit_of 10 d with
                    | Some _ => let '(e, unread) := exp_loop 0 ds in
                                match unread with [] => conv (esign * e) | _ => None end
                    | None => None
                    end
        | [] => None
        end
      else None
  end.

Definition special (neg : bool) (s : list ascii) : option spec_float :=
  let l := map lower s in
  if decide (l = map lower (String.list_ascii_of_string "inf")) then Some (S754_infinity neg)
  else if decide (l = map lower (String.list_ascii_of_string "infinity")) then Some (S754_infinity neg)
  else None.

Definition ParseFloat (str : string) : option spec_float :=
  let s := String.list_ascii_of_string str in
  let '(signed, neg, body) := match s with
                      | c :: r => if code c =? 43 then (true, false, r)
                                  else if code c =? 45 then (true, true, r) else (false, false, s)
                      | [] => (false, false, [])
                      end in
  match special neg body with
  | Some f => Some f
  | None =>
      if negb signed && bool_decide (map lower body = map lower (String.list_ascii_of_string "nan"))
      then Some S754_nan
      else
        let '(hex, num) := match body with
                           | z :: x :: c :: r => if (code z =? 48) && (lower x =? 120) then (true, c :: r) else (false, body)
                           | _ => (false, body)
                           end in
        let '(m, frac, seen, rest) := mant_loop (if hex then 16 else 10) 0 0 false false num in
        if seen then finish neg hex num m frac rest else None
  end.

(** ** Float operations of the Retry-After path *)

Definition f64_of_Z (z : Z) : spec_float := binary_normalize f64_prec f64_emax z 0 false.

(** The truncating conversion of a finite float to an integer. *)
Definition trunc_Z (f : spec_float) : Z :=
  match f with
  | S754_finite s m e =>
      let v := if 0 <=? e then Zpos m * 2 ^ e else Zpos m / 2 ^ (- e) in
      if s then - v else v
  | _ => 0
  end.

Definition f64_lt (a b : spec_float) : bool := SFltb a b.
Definition f64_mul (a b : spec_float) : spec_float := SFmul f64_prec f64_emax a b.

Example pf_1 : option_map (λ f, trunc_Z (f64_mul f (f64_of_Z 1000000000))) (ParseFloat "1.5") = Some 1500000000.
Proof. vm_compute. reflexivity. Qed.
Example pf_inf : ParseFloat "+Inf" = Some (S754_infinity false). Proof. reflexivity. Qed.
Example pf_big : ParseFloat "1e400" = None. Proof. vm_compute. reflexivity. Qed.
Example pf_tiny : ParseFloat "1e-400" = Some (S754_zero false). Proof. vm_compute. reflexivity. Qed.
Example pf_hex : option_map trunc_Z (ParseFloat "0x1p4") = Some 16. Proof. vm_compute. reflexivity. Qed.
Example pf_us : option_map trunc_Z (ParseFloat "1_23.50_0_0e+1_2") = Some 123500000000000. Proof. vm_compute. reflexivity. Qed.
Example pf_bad : map ParseFloat ["" ; "soon"; "1e"; "_1"; "1_"; "0x1"; "1.2.3"; " 1"; "+nan"] = replicate 9 None.
Proof. vm_compute. reflexivity. Qed.

(** A positive finite comparison bound excludes infinities and NaN. *)
Lemma f64_lt_bounded_finite f :
  f64_lt (S754_zero false) f = true → f64_lt f (f64_of_Z 3600) = true →
  ∃ m e, f = S754_finite false m e.
Proof.
  intros H1 H2. destruct f as [b|b| |b m e].
  - by destruct b.
  - destruct b; [done|]. by vm_compute in H2.
  - done.
  - destruct b; [done|]. eauto.
Qed.
