(* ===== verification/BrokerErrors.v ===== *)
(** * HTTP status mapping (internal/brokerrpc/errors.go) and the backend's
      translation to rclone sentinels (backend/ocufs/errors.go) *)
From Stdlib Require Import Ascii String SpecFloat.
From stdpp Require Import base list strings numbers.
From S2P Require Import Prelude GoErrors GoIO GoFloat.
Local Open Scope Z_scope.

Definition maxRetryAfterSeconds : Z := 3600.
Definition maxErrorBodyBytes : Z := Z.shiftl 64 10.
Definition errorBodyTruncationMarker : string := " ...[truncated]".

Definition bytes_of_string (s : string) : bytes := String.list_ascii_of_string s.
Definition string_of_bytes (b : bytes) : string := String.string_of_list_ascii b.

Definition captureErrorBody (r : reader) : bytes :=
  let '(body, _, r') := read_all_limit maxErrorBodyBytes r in
  if zlen body =? maxErrorBodyBytes then
    match probe_byte r' with
    | Some _ => body ++ bytes_of_string errorBodyTruncationMarker
    | None => body
    end
  else body.

Definition boundErrorBody (body : bytes) : string :=
  if zlen body <=? maxErrorBodyBytes then string_of_bytes body
  else string_of_bytes (ztake maxErrorBodyBytes body) +:+ errorBodyTruncationMarker.

(** [time.Second] in nanoseconds. *)
Definition time_Second : Z := 1000000000.

Definition statusErr (s : sentinel) (status : Z) (msg : string) : error :=
  EErrorf "%w: status %d: %s" [AInt status; AStr msg] [ESent s].

(** The accepted Retry-After hint, in nanoseconds. *)
Definition retryAfterHint (retryAfterRaw : string) : option Z :=
  if decide (retryAfterRaw = "") then None
  else match ParseFloat retryAfterRaw with
       | Some secs =>
           if f64_lt (S754_zero false) secs && f64_lt secs (f64_of_Z maxRetryAfterSeconds)
           then Some (trunc_Z (f64_mul secs (f64_of_Z time_Second)))
           else None
       | None => None
       end.

Definition MapHTTPStatus (status : Z) (body : bytes) (retryAfterRaw : string) : error :=
  let msg := boundErrorBody body in
  if (status =? 401) || (status =? 403) then statusErr ErrPermissionDenied status msg
  else if status =? 404 then statusErr ErrNotFound status msg
  else if status =? 409 then statusErr ErrAlreadyExists status msg
  else if (status =? 400) || (status =? 422) then statusErr ErrInvalidArgument status msg
  else if status =? 429 then
    match retryAfterHint retryAfterRaw with
    | Some d =>
        let base := EErrorf "brokerrpc: resource exhausted: status %d: %s" [AInt status; AStr msg] [] in
        ERetry (EErrorf "%w: %w" [] [base; ERetryAfter d])
    | None => ERetry (EErrorf "brokerrpc: resource exhausted: status %d: %s" [AInt status; AStr msg] [])
    end
  else if status =? 503 then
    ERetry (EErrorf "brokerrpc: unavailable: status %d: %s" [AInt status; AStr msg] [])
  else statusErr ErrPermanentOther status msg.

(** backend/ocufs/errors.go: brokerrpc sentinels to rclone sentinels. *)
Definition mapBrokerError (err : option error) : option error :=
  match err with
  | None => None
  | Some e =>
      if errors_Is e ErrPermissionDenied then Some (ESent fs_ErrorPermissionDenied)
      else if errors_Is e ErrNotFound then Some (ESent fs_ErrorObjectNotFound)
      else Some e
  end.

(** ** The status table *)

(** The sentinel each permanent status maps to; [None] for the two retryable
    statuses. *)
Definition status_class (status : Z) : option sentinel :=
  if decide (status = 401 ∨ status = 403) then Some ErrPermissionDenied
  else if decide (status = 404) then Some ErrNotFound
  else if decide (status = 409) then Some ErrAlreadyExists
  else if decide (status = 400 ∨ status = 422) then Some ErrInvalidArgument
  else if decide (status = 429 ∨ status = 503) then None
  else Some ErrPermanentOther.

Lemma statusErr_Is s status msg t : errors_Is (statusErr s status msg) t = bool_decide (s = t).
Proof. simpl. by rewrite orb_false_r. Qed.

Ltac status_cases :=
  unfold MapHTTPStatus, status_class;
  repeat (match goal with |- context [?a =? ?b] => destruct (Z.eqb_spec a b) end;
          simplify_eq/=; try lia);
  repeat case_decide; try lia.

Lemma MapHTTPStatus_Is status body ra t :
  errors_Is (MapHTTPStatus status body ra) t = bool_decide (status_class status = Some t).
Proof.
  status_cases; try destruct (retryAfterHint ra); simpl; try done;
    rewrite ?orb_false_r; repeat case_bool_decide; naive_solver.
Qed.

Lemma MapHTTPStatus_retry status body ra :
  is_retry (MapHTTPStatus status body ra) = true ↔ status = 429 ∨ status = 503.
Proof. status_cases; try destruct (retryAfterHint ra); simpl; split; (done || lia || auto). Qed.

(** C23: the status table is complete.  For every status, body and Retry-After
    value the mapped error matches exactly the sentinel of the table (401 and
    403 collapse to permission denied, every unmapped status is permanent), and
    it is retryable exactly for 429 and 503. *)
Theorem MapHTTPStatus_table status body ra :
  (∀ t, errors_Is (MapHTTPStatus status body ra) t = true ↔ status_class status = Some t) ∧
  (is_retry (MapHTTPStatus status body ra) = true ↔ status = 429 ∨ status = 503).
Proof.
  split.
  - intros t. rewrite MapHTTPStatus_Is. apply bool_decide_eq_true.
  - apply MapHTTPStatus_retry.
Qed.

Lemma retryAfterHint_bounds ra d :
  retryAfterHint ra = Some d →
  ∃ secs m e, ParseFloat ra = Some secs ∧ secs = S754_finite false m e ∧
    f64_lt secs (f64_of_Z maxRetryAfterSeconds) = true ∧
    d = trunc_Z (f64_mul secs (f64_of_Z time_Second)).
Proof.
  unfold retryAfterHint. intros H. case_decide; [done|].
  destruct (ParseFloat ra) as [secs|]; [|done].
  destruct (_ && _) eqn:E; [|done]. apply andb_true_iff in E as [E1 E2].
  destruct (f64_lt_bounded_finite secs E1 E2) as (m & e & ->).
  simplify_eq. eauto 10.
Qed.

(** A back-off deadline is attached only for 429, and only when the header
    parses to a finite positive number of seconds below one hour; a header
    such as "inf", "NaN", "1e300" or "-1" leaves the error retryable with no
    deadline. *)
Theorem MapHTTPStatus_retry_after status body ra d :
  In d (retry_after_hints (MapHTTPStatus status body ra)) →
  status = 429 ∧ ∃ m e,
    ParseFloat ra = Some (S754_finite false m e) ∧
    f64_lt (S754_finite false m e) (f64_of_Z maxRetryAfterSeconds) = true ∧
    d = trunc_Z (f64_mul (S754_finite false m e) (f64_of_Z time_Second)).
Proof.
  status_cases; simpl; try done.
  destruct (retryAfterHint ra) as [d'|] eqn:E; simpl; [|done].
  intros [->|[]]. split; [done|].
  apply retryAfterHint_bounds in E as (secs & m & e & -> & -> & Hlt & ->). eauto.
Qed.

Lemma MapHTTPStatus_retry_after_witness :
  In 2500000000 (retry_after_hints (MapHTTPStatus 429 [] "2.5")) ∧ 429 = 429 ∧ ∃ m e,
    ParseFloat "2.5" = Some (S754_finite false m e) ∧
    f64_lt (S754_finite false m e) (f64_of_Z maxRetryAfterSeconds) = true ∧
    2500000000 = trunc_Z (f64_mul (S754_finite false m e) (f64_of_Z time_Second)).
Proof.
  assert (In 2500000000 (retry_after_hints (MapHTTPStatus 429 [] "2.5"))) as H by (left; vm_compute; reflexivity).
  split; [exact H|]. exact (MapHTTPStatus_retry_after 429 [] "2.5" 2500000000 H).
Defined.

(** ** Diagnostics stay bounded *)

(** The captured error body is the complete body when it fits the
    diagnostics budget, and otherwise exactly the budget's prefix followed by
    the truncation marker, whatever way the wire segments the body; read
    errors are swallowed. *)
Theorem captureErrorBody_spec r :
  captureErrorBody r =
    if zlen (content r) <=? maxErrorBodyBytes then content r
    else ztake maxErrorBodyBytes (content r) ++ bytes_of_string errorBodyTruncationMarker.
Proof.
  unfold captureErrorBody.
  pose proof (read_all_limit_spec maxErrorBodyBytes r ltac:(done)) as H.
  destruct (read_all_limit maxErrorBodyBytes r) as [[d e] r'].
  destruct H as (Hd & Hc & Hor). rewrite probe_byte_head.
  assert (zlen (content r) = zlen d + zlen (content r')) as Hlen by (by rewrite Hc, zlen_app).
  assert (zlen d <= maxErrorBodyBytes) by (rewrite Hd; by apply zlen_ztake_le).
  destruct (content r') as [|c rest] eqn:Er; simpl.
  - rewrite app_nil_r in Hc. rewrite Hc. rewrite (proj2 (Z.leb_le _ _)) by done. by destruct (_ =? _).
  - destruct Hor as [Hor|[? _]]; [|done]. rewrite (proj2 (Z.eqb_eq _ _)) by done.
    pose proof (zlen_nonneg rest).
    rewrite (proj2 (Z.leb_gt _ _)) by (rewrite Hlen; cbn [zlen]; lia). by rewrite Hd.
Qed.

Lemma string_of_bytes_app a b : string_of_bytes (a ++ b) = string_of_bytes a +:+ string_of_bytes b.
Proof. induction a as [|c a IH]; [done|]. unfold String.app, string_of_bytes in *. simpl. by rewrite IH. Qed.

Lemma string_bytes_id s : string_of_bytes (bytes_of_string s) = s.
Proof. apply String.string_of_list_ascii_of_string. Qed.

Lemma bytes_string_id b : bytes_of_string (string_of_bytes b) = b.
Proof. apply String.list_ascii_of_string_of_list_ascii. Qed.

Lemma string_of_bytes_length b : Z.of_nat (String.length (string_of_bytes b)) = zlen b.
Proof. induction b as [|c b IH]; [done|]. unfold string_of_bytes in *. cbn [String.string_of_list_ascii String.length zlen]. lia. Qed.

(** Bounding an already captured and marked body reproduces it, so the
    transport paths' double bounding never truncates twice or marks twice. *)
Theorem bound_capture_idempotent r :
  boundErrorBody (captureErrorBody r) = string_of_bytes (captureErrorBody r).
Proof.
  rewrite captureErrorBody_spec. unfold boundErrorBody.
  destruct (Z.leb_spec (zlen (content r)) maxErrorBodyBytes) as [H|H].
  - by rewrite (proj2 (Z.leb_le _ _)).
  - assert (zlen (ztake maxErrorBodyBytes (content r)) = maxErrorBodyBytes) as Hl
      by (apply zlen_ztake; split; [done|lia]).
    rewrite zlen_app, Hl, (proj2 (Z.leb_gt _ _)) by (vm_compute; done).
    rewrite ztake_app_ge, Hl by lia. rewrite Z.sub_diag, (ztake_0 0), app_nil_r by done.
    by rewrite string_of_bytes_app, string_bytes_id.
Qed.

Lemma boundErrorBody_length body :
  Z.of_nat (String.length (boundErrorBody body)) <= maxErrorBodyBytes + 15.
Proof.
  unfold boundErrorBody. destruct (Z.leb_spec (zlen body) maxErrorBodyBytes).
  - rewrite string_of_bytes_length. lia.
  - rewrite string_length_app, Nat2Z.inj_add, string_of_bytes_length.
    pose proof (zlen_ztake_le maxErrorBodyBytes body ltac:(done)).
    change (Z.of_nat (String.length errorBodyTruncationMarker)) with 15. lia.
Qed.

(** No response body, however large, makes the mapped error hold more than
    the diagnostics budget plus the 15-byte marker. *)
Theorem MapHTTPStatus_size_bounded status body ra :
  Z.of_nat (error_arg_size (MapHTTPStatus status body ra)) <= maxErrorBodyBytes + 15.
Proof.
  pose proof (boundErrorBody_length body).
  status_cases; try destruct (retryAfterHint ra); simpl; lia.
Qed.

(** ** Translation to rclone sentinels *)

Lemma mapBrokerError_status status body ra :
  mapBrokerError (Some (MapHTTPStatus status body ra)) =
    match status_class status with
    | Some ErrPermissionDenied => Some (ESent fs_ErrorPermissionDenied)
    | Some ErrNotFound => Some (ESent fs_ErrorObjectNotFound)
    | _ => Some (MapHTTPStatus status body ra)
    end.
Proof.
  unfold mapBrokerError. rewrite !MapHTTPStatus_Is.
  destruct (status_class status) as [[]|]; done.
Qed.

Lemma MapHTTPStatus_not_bare status body ra s : MapHTTPStatus status body ra ≠ ESent s.
Proof. status_cases; try done. by destruct (retryAfterHint ra). Qed.

(** Composed with the status mapper, the backend hands rclone its own
    permission sentinel exactly for 401/403 and its own not-found sentinel
    exactly for 404; every other broker error passes through unchanged, so a
    retryable throttle stays retryable. *)
Theorem mapBrokerError_collapse status body ra e :
  mapBrokerError (Some (MapHTTPStatus status body ra)) = Some e →
  (e = ESent fs_ErrorPermissionDenied ↔ status = 401 ∨ status = 403) ∧
  (e = ESent fs_ErrorObjectNotFound ↔ status = 404) ∧
  (is_retry e = true ↔ status = 429 ∨ status = 503).
Proof.
  rewrite mapBrokerError_status. intros H.
  pose proof (MapHTTPStatus_retry status body ra) as Hr.
  pose proof (MapHTTPStatus_not_bare status body ra) as Hb.
  unfold status_class in H.
  repeat case_decide; simplify_eq; repeat split; intros; simplify_eq;
    first [done | lia | tauto | by destruct (Hb _ ltac:(eassumption)) | idtac].
Qed.

Lemma mapBrokerError_collapse_witness :
  mapBrokerError (Some (MapHTTPStatus 403 [] "")) = Some (ESent fs_ErrorPermissionDenied) ∧
  (ESent fs_ErrorPermissionDenied = ESent fs_ErrorPermissionDenied ↔ 403 = 401 ∨ 403 = 403) ∧
  (ESent fs_ErrorPermissionDenied = ESent fs_ErrorObjectNotFound ↔ 403 = 404) ∧
  (is_retry (ESent fs_ErrorPermissionDenied) = true ↔ 403 = 429 ∨ 403 = 503).
Proof.
  split; [reflexivity|].
  exact (mapBrokerError_collapse 403 [] "" (ESent fs_ErrorPermissionDenied) eq_refl).
Defined.
