(* ===== verification/GoJson.v ===== *)
(** * [encoding/json]

    The value tree, the text parser behind [json.NewDecoder(r).Decode] and
    [json.Unmarshal], the printer behind [json.Marshal], and the rules by which a
    JSON object fills a Go struct (exact then case-folded key match, null as a
    no-op, type mismatch as an error).  Strings lose invalid UTF-8 in both
    directions, as in Go. *)
From Stdlib Require Import Ascii String DecimalString.
From stdpp Require Import base list strings numbers pretty.
From S2P Require Import Prelude.
Local Open Scope Z_scope.

Inductive json : Type :=
| JNull
| JBool (b : bool)
| JNum (z : Z)            (** an integer literal *)
| JFrac (lit : string)    (** a number literal with a fraction or exponent *)
| JStr (s : string)
| JArr (vs : list json)
| JObj (kvs : list (string * json)).

Definition byte_of (a : ascii) : Z := Z.of_N (N_of_ascii a).
Definition chr (z : Z) : ascii := ascii_of_N (Z.to_N z).
Definition between (lo x hi : Z) : bool := (lo <=? x) && (x <=? hi).

(** ** UTF-8 *)

(** U+FFFD, what an invalid byte becomes. *)
Definition replacement : string := String (chr 0xEF) (String (chr 0xBF) (String (chr 0xBD) "")).

Definition utf8_two (a b : Z) : bool := between 0xC2 a 0xDF && between 0x80 b 0xBF.
Definition utf8_three (a b c : Z) : bool :=
  between 0x80 c 0xBF &&
  ((a =? 0xE0) && between 0xA0 b 0xBF
   || between 0xE1 a 0xEC && between 0x80 b 0xBF
   || (a =? 0xED) && between 0x80 b 0x9F
   || between 0xEE a 0xEF && between 0x80 b 0xBF).
Definition utf8_four (a b c d : Z) : bool :=
  between 0x80 c 0xBF && between 0x80 d 0xBF &&
  ((a =? 0xF0) && between 0x90 b 0xBF
   || between 0xF1 a 0xF3 && between 0x80 b 0xBF
   || (a =? 0xF4) && between 0x80 b 0x8F).

(** Every byte that starts no valid sequence becomes U+FFFD. *)
Fixpoint coerce_utf8 (s : string) : string :=
  match s with
  | "" => ""
  | String a s1 =>
      if byte_of a <? 0x80 then String a (coerce_utf8 s1)
      else match s1 with
           | "" => replacement
           | String b s2 =>
               if utf8_two (byte_of a) (byte_of b) then String a (String b (coerce_utf8 s2))
               else match s2 with
                    | "" => replacement +:+ coerce_utf8 s1
                    | String c s3 =>
                        if utf8_three (byte_of a) (byte_of b) (byte_of c)
                        then String a (String b (String c (coerce_utf8 s3)))
                        else match s3 with
                             | "" => replacement +:+ coerce_utf8 s1
                             | String d s4 =>
                                 if utf8_four (byte_of a) (byte_of b) (byte_of c) (byte_of d)
                                 then String a (String b (String c (String d (coerce_utf8 s4))))
                                 else replacement +:+ coerce_utf8 s1
                             end
                    end
           end
  end.

Definition valid_utf8 (s : string) : Prop := coerce_utf8 s = s.

Example coerce_ok : coerce_utf8 "na/me.txt" = "na/me.txt". Proof. reflexivity. Qed.
Example coerce_bad : coerce_utf8 (String (chr 0xFF) "a") = replacement +:+ "a". Proof. reflexivity. Qed.

(** ** Printing (json.Marshal) *)

Definition hexdigit (z : Z) : ascii := chr (if z <? 10 then 48 + z else 87 + z).

(** HTML-escaping is on by default in json.Marshal; U+2028/9 are escaped too. *)
Fixpoint escape (s : string) : string :=
  match s with
  | "" => ""
  | String a s1 =>
      let z := byte_of a in
      if (z =? 34) || (z =? 92) then String "\"%char (String a (escape s1))
      else if z =? 8 then String "\"%char (String "b"%char (escape s1))
      else if z =? 12 then String "\"%char (String "f"%char (escape s1))
      else if z =? 10 then String "\"%char (String "n"%char (escape s1))
      else if z =? 13 then String "\"%char (String "r"%char (escape s1))
      else if z =? 9 then String "\"%char (String "t"%char (escape s1))
      else if (z <? 32) || (z =? 60) || (z =? 62) || (z =? 38) then
        "\u00" +:+ String (hexdigit (z / 16)) (String (hexdigit (z mod 16)) (escape s1))
      else match s1 with
           | String b (String c s3) =>
               if (z =? 0xE2) && (byte_of b =? 0x80) && ((byte_of c =? 0xA8) || (byte_of c =? 0xA9))
               then "\u202" +:+ String (hexdigit (byte_of c - 0xA0)) (escape s3)
               else String a (escape s1)
           | _ => String a (escape s1)
           end
  end.

Definition quote (s : string) : string := String (chr 34) (escape (coerce_utf8 s) +:+ String (chr 34) "").

Fixpoint print_json (j : json) : string :=
  match j with
  | JNull => "null"
  | JBool true => "true"
  | JBool false => "false"
  | JNum z => pretty z
  | JFrac l => l
  | JStr s => quote s
  | JArr vs =>
      "[" +:+ (fix go l := match l with
                           | [] => ""
                           | [v] => print_json v
                           | v :: l' => print_json v +:+ "," +:+ go l'
                           end) vs +:+ "]"
  | JObj kvs =>
      "{" +:+ (fix go l := match l with
                           | [] => ""
                           | [(k, v)] => quote k +:+ ":" +:+ print_json v
                           | (k, v) :: l' => quote k +:+ ":" +:+ print_json v +:+ "," +:+ go l'
                           end) kvs +:+ "}"
  end.

(** ** Parsing *)

(** [PMore]: the input ended inside a value; [PBad]: a syntax error. *)
Inductive presult (A : Type) : Type :=
| PDone (v : A) (rest : string)
| PMore
| PBad.
Arguments PDone {A} v rest.
Arguments PMore {A}.
Arguments PBad {A}.

Definition is_ws (a : ascii) : bool :=
  let z := byte_of a in (z =? 32) || (z =? 9) || (z =? 10) || (z =? 13).

Fixpoint skip_ws (s : string) : string :=
  match s with
  | "" => ""
  | String a s' => if is_ws a then skip_ws s' else s
  end.

Definition hexval (a : ascii) : option Z :=
  let z := byte_of a in
  if between 48 z 57 then Some (z - 48)
  else if between 97 z 102 then Some (z - 87)
  else if between 65 z 70 then Some (z - 55) else None.

Definition hex4 (a b c d : ascii) : option Z :=
  match hexval a, hexval b, hexval c, hexval d with
  | Some x, Some y, Some z, Some w => Some (((x * 16 + y) * 16 + z) * 16 + w)
  | _, _, _, _ => None
  end.

Definition utf8_encode (r : Z) : string :=
  if r <? 0x80 then String (chr r) ""
  else if r <? 0x800 then String (chr (0xC0 + r / 64)) (String (chr (0x80 + r mod 64)) "")
  else if r <? 0x10000 then
    String (chr (0xE0 + r / 4096)) (String (chr (0x80 + (r / 64) mod 64)) (String (chr (0x80 + r mod 64)) ""))
  else String (chr (0xF0 + r / 262144)) (String (chr (0x80 + (r / 4096) mod 64))
         (String (chr (0x80 + (r / 64) mod 64)) (String (chr (0x80 + r mod 64)) ""))).

Definition pcons (pre : string) (p : presult string) : presult string :=
  match p with PDone s r => PDone (pre +:+ s) r | PMore => PMore | PBad => PBad end.

(** The body of a string literal after the opening quote.  [hi] is a pending
    high surrogate; a surrogate left unpaired becomes U+FFFD. *)
Fixpoint parse_str (hi : option Z) (s : string) : presult string :=
  let flush := match hi with Some _ => replacement | None => "" end in
  match s with
  | "" => PMore
  | String a s1 =>
      let z := byte_of a in
      if z =? 34 then PDone flush s1
      else if z <? 32 then PBad
      else if z =? 92 then
        match s1 with
        | "" => PMore
        | String e s2 =>
            let simple c := pcons (flush +:+ String (chr c) "") (parse_str None s2) in
            let k := byte_of e in
            if (k =? 34) || (k =? 92) || (k =? 47) then simple k
            else if k =? 98 then simple 8
            else if k =? 102 then simple 12
            else if k =? 110 then simple 10
            else if k =? 114 then simple 13
            else if k =? 116 then simple 9
            else if k =? 117 then
              match s2 with
              | String h1 (String h2 (String h3 (String h4 s6))) =>
                  match hex4 h1 h2 h3 h4 with
                  | None => PBad
                  | Some r =>
                      if between 0xD800 r 0xDBFF then pcons flush (parse_str (Some r) s6)
                      else if between 0xDC00 r 0xDFFF then
                        match hi with
                        | Some h => pcons (utf8_encode ((h - 0xD800) * 1024 + (r - 0xDC00) + 0x10000)) (parse_str None s6)
                        | None => pcons replacement (parse_str None s6)
                        end
                      else pcons (flush +:+ utf8_encode r) (parse_str None s6)
                  end
              | _ => PMore
              end
            else PBad
        end
      else pcons (flush +:+ String a "") (parse_str None s1)
  end.

Definition is_digit (a : ascii) : bool := between 48 (byte_of a) 57.

Fixpoint take_digits (s : string) : string * string :=
  match s with
  | String a s' => if is_digit a then let '(d, r) := take_digits s' in (String a d, r) else ("", s)
  | "" => ("", "")
  end.

Fixpoint digits_val (acc : Z) (s : string) : Z :=
  match s with "" => acc | String a s' => digits_val (acc * 10 + (byte_of a - 48)) s' end.

(** A number literal.  The caller has seen "-" or a digit. *)
Definition parse_num (s : string) : presult json :=
  let '(neg, s0) := match s with
                    | String a s' => if byte_of a =? 45 then (true, s') else (false, s)
                    | "" => (false, "") end in
  let '(ds, s1) := match s0 with
                   | String a s' => if byte_of a =? 48 then ("0", s') else take_digits s0
                   | "" => ("", "") end in
  if decide (ds = "") then (if decide (s0 = "") then PMore else PBad)
  else
    let sgn := if neg then "-" else "" in
    let '(fr, ok1, s2) := match s1 with
                     | String a s' => if byte_of a =? 46 then let '(f, r) := take_digits s' in
                                        ("." +:+ f, negb (bool_decide (f = "")), r) else ("", true, s1)
                     | "" => ("", true, "") end in
    let '(ex, ok2, s3) := match s2 with
                     | String a s' =>
                         if (byte_of a =? 101) || (byte_of a =? 69) then
                           let '(sg, s'') := match s' with
                             | String x r => if (byte_of x =? 43) || (byte_of x =? 45) then (String x "", r) else ("", s')
                             | "" => ("", "") end in
                           let '(e, r) := take_digits s'' in (String a (sg +:+ e), negb (bool_decide (e = "")), r)
                         else ("", true, s2)
                     | "" => ("", true, "") end in
    if ok1 && ok2 then
      if decide (fr +:+ ex = "") then PDone (JNum (let v := digits_val 0 ds in if neg then - v else v)) s3
      else PDone (JFrac (sgn +:+ ds +:+ fr +:+ ex)) s3
    else if decide (s3 = "") then PMore else PBad.

Definition lit (w : string) (v : json) (s : string) : presult json :=
  match strip_prefix w s with Some r => PDone v r
  | None => if bool_decide (is_Some (strip_prefix s w)) then PMore else PBad end.

Fixpoint parse_value (fuel : nat) (s0 : string) : presult json :=
  match fuel with
  | O => PBad
  | S f =>
      let s := skip_ws s0 in
      match s with
      | "" => PMore
      | String a s1 =>
          let z := byte_of a in
          if z =? 34 then match parse_str None s1 with
                          | PDone str r => PDone (JStr (coerce_utf8 str)) r | PMore => PMore | PBad => PBad end
          else if z =? 123 then
            match skip_ws s1 with
            | String b s2 => if byte_of b =? 125 then PDone (JObj []) s2 else parse_members f [] (String b s2)
            | "" => PMore
            end
          else if z =? 91 then
            match skip_ws s1 with
            | String b s2 => if byte_of b =? 93 then PDone (JArr []) s2 else parse_elems f [] (String b s2)
            | "" => PMore
            end
          else if z =? 116 then lit "true" (JBool true) s
          else if z =? 102 then lit "false" (JBool false) s
          else if z =? 110 then lit "null" JNull s
          else if is_digit a || (z =? 45) then parse_num s
          else PBad
      end
  end
with parse_elems (fuel : nat) (acc : list json) (s : string) : presult json :=
  match fuel with
  | O => PBad
  | S f =>
      match parse_value f s with
      | PDone v r =>
          match skip_ws r with
          | "" => PMore
          | String c r' => if byte_of c =? 44 then parse_elems f (acc ++ [v]) r'
                           else if byte_of c =? 93 then PDone (JArr (acc ++ [v])) r' else PBad
          end
      | PMore => PMore | PBad => PBad
      end
  end
with parse_members (fuel : nat) (acc : list (string * json)) (s0 : string) : presult json :=
  match fuel with
  | O => PBad
  | S f =>
      match skip_ws s0 with
      | "" => PMore
      | String a s1 =>
          if byte_of a =? 34 then
            match parse_str None s1 with
            | PDone k r =>
                match skip_ws r with
                | "" => PMore
                | String c r' =>
                    if byte_of c =? 58 then
                      match parse_value f r' with
                      | PDone v r2 =>
                          match skip_ws r2 with
                          | "" => PMore
                          | String d r3 =>
                              let acc' := acc ++ [(coerce_utf8 k, v)] in
                              if byte_of d =? 44 then parse_members f acc' r3
                              else if byte_of d =? 125 then PDone (JObj acc') r3 else PBad
                          end
                      | PMore => PMore | PBad => PBad
                      end
                    else PBad
                end
            | PMore => PMore | PBad => PBad
            end
          else PBad
      end
  end.

(** The first JSON value of the text, as [Decoder.Decode] takes it.  Every
    step of the parser consumes a byte or ends, so the length bounds the fuel. *)
Definition parse_first (s : string) : presult json := parse_value (2 * String.length s + 2)%nat s.

(** JSON text written with single quotes, for examples. *)
Fixpoint sq (s : string) : string :=
  match s with
  | "" => ""
  | String a s' => String (if byte_of a =? 39 then chr 34 else a) (sq s')
  end.

Example parse_ex : parse_first (sq " {'a':[1,-2.5e3,true,null],'b':'x\u00e9\n'} tail")
  = PDone (JObj [("a", JArr [JNum 1; JFrac "-2.5e3"; JBool true; JNull]);
                 ("b", JStr ("x" +:+ utf8_encode 0xE9 +:+ String (chr 10) ""))]) " tail".
Proof. vm_compute. reflexivity. Qed.

Example print_ex : print_json (JObj [("path", JStr "/a<b"); ("size", JNum (-7)); ("l", JArr [JBool true; JNull])])
  = sq "{'path':'/a\u003cb','size':-7,'l':[true,null]}".
Proof. vm_compute. reflexivity. Qed.

(** ** Filling a struct *)

(** Go's key folding: ASCII upper case; the two non-ASCII letters whose simple
    fold is an ASCII letter are the long s and the Kelvin sign. *)
Fixpoint fold_name (s : string) : string :=
  match s with
  | "" => ""
  | String a s1 =>
      let z := byte_of a in
      if between 97 z 122 then String (chr (z - 32)) (fold_name s1)
      else match s1 with
           | String b s2 =>
               if (z =? 0xC5) && (byte_of b =? 0xBF) then String "S"%char (fold_name s2)
               else match s2 with
                    | String c s3 =>
                        if (z =? 0xE2) && (byte_of b =? 0x84) && (byte_of c =? 0xAA)
                        then String "K"%char (fold_name s3) else String a (fold_name s1)
                    | "" => String a (fold_name s1)
                    end
           | "" => String a ""
           end
  end.

(** The struct field a key addresses: an exact match, else the first
    case-folded match. *)
Definition match_field (fields : list string) (key : string) : option string :=
  if decide (key ∈ fields) then Some key
  else List.find (λ f, bool_decide (fold_name f = fold_name key)) fields.

Section decode.
Context {T : Type}.
(** [set f v t]: the struct with field [f] filled from [v]; [None] is a type
    mismatch. *)
Variable fields : list string.
Variable set : string → json → T → option T.
Variable strict : bool.

(** Members in order; a later duplicate fills the field again.  An unknown
    key is skipped, or refused under [DisallowUnknownFields]. *)
Fixpoint decode_members (kvs : list (string * json)) (t : T) : option T :=
  match kvs with
  | [] => Some t
  | (k, v) :: kvs' =>
      match match_field fields k with
      | Some f => match set f v t with Some t' => decode_members kvs' t' | None => None end
      | None => if strict then None else decode_members kvs' t
      end
  end.

Definition decode_struct (v : json) (t : T) : option T :=
  match v with
  | JObj kvs => decode_members kvs t
  | JNull => Some t
  | _ => None
  end.
End decode.

Definition dec_string (v : json) (old : string) : option string :=
  match v with JStr s => Some s | JNull => Some old | _ => None end.

Definition dec_bool (v : json) (old : bool) : option bool :=
  match v with JBool b => Some b | JNull => Some old | _ => None end.

Definition dec_int64 (v : json) (old : Z) : option Z :=
  match v with
  | JNum z => if bool_decide (int64_min <= z <= int64_max) then Some z else None
  | JNull => Some old
  | _ => None
  end.

(** A pointer field: null sets nil, anything else decodes into the existing
    pointee or a fresh zero value. *)
Definition dec_ptr {A} (zero : A) (dec : json → A → option A) (v : json) (old : option A) : option (option A) :=
  match v with
  | JNull => Some None
  | _ => match dec v (from_option id zero old) with Some a => Some (Some a) | None => None end
  end.

(** Array elements: the i-th decodes into the i-th old element while there is
    one, then into zero values. *)
Fixpoint dec_all {A} (zero : A) (dec : json → A → option A) (vs : list json) (old : list A) : option (list A) :=
  match vs with
  | [] => Some []
  | v :: vs' => match dec v (default zero (head old)), dec_all zero dec vs' (tail old) with
                | Some a, Some l => Some (a :: l)
                | _, _ => None
                end
  end.

(** A slice field: null sets nil; an array decodes into the slice there and
    sets its length, so a repeated key merges element by element.  (What a
    shrunk slice keeps beyond its length is not modelled.) *)
Definition dec_slice {A} (zero : A) (dec : json → A → option A) (v : json) (old : option (list A)) : option (option (list A)) :=
  match v with
  | JNull => Some None
  | JArr vs => match dec_all zero dec vs (default [] old) with Some l => Some (Some l) | None => None end
  | _ => None
  end.

(** ** Struct encoding: [omitempty] drops the zero value *)
Definition omit (empty : bool) (k : string) (v : json) : list (string * json) :=
  if empty then [] else [(k, v)].

Lemma match_field_exact fields k : k ∈ fields → match_field fields k = Some k.
Proof. intros. unfold match_field. by rewrite decide_True. Qed.
