(* ===== verification/JsonText.v ===== *)
(** * JSON text

    Facts about the parser and the printer of [GoJson]: every successful parse
    consumes input, the fuel of [parse_first] is enough whatever the text (more
    fuel never changes the result), and parsing inverts printing. *)
From Stdlib Require Import Ascii String.
From stdpp Require Import base list strings numbers pretty sets.
From S2P Require Import Prelude GoJson.
Local Open Scope Z_scope.

Abbreviation slen := String.length.

(** ** Every parse consumes *)
Lemma skip_ws_len s : (slen (skip_ws s) <= slen s)%nat.
Proof. induction s as [|a s IH]; simpl; [lia|]. destruct (is_ws a); simpl; lia. Qed.

Lemma pcons_done pre p v r : pcons pre p = PDone v r → ∃ v', p = PDone v' r ∧ v = pre +:+ v'.
Proof. destruct p; simpl; intros H; simplify_eq; eauto. Qed.

Lemma parse_str_len s hi v r : parse_str hi s = PDone v r → (slen r < slen s)%nat.
Proof.
  revert hi v r. induction s as [s IH] using (induction_ltof1 _ slen). unfold ltof in IH.
  intros hi v r. destruct s as [|a s1]; [done|]. simpl.
  assert (∀ t pre hi', (slen t < S (slen s1))%nat →
    pcons pre (parse_str hi' t) = PDone v r → (slen r < S (slen s1))%nat) as Hrec.
  { intros t pre hi' Ht (v' & Hp & _)%pcons_done. apply IH in Hp; simpl; lia. }
  repeat case_match; intros; simplify_eq/=; try lia; eapply Hrec; try eassumption; simpl; lia.
Qed.

Lemma take_digits_len s d r : take_digits s = (d, r) → slen s = (slen d + slen r)%nat.
Proof.
  revert d r. induction s as [|a s IH]; intros d r; simpl; [by intros [= <- <-]|].
  destruct (is_digit a); [|by intros [= <- <-]].
  destruct (take_digits s) as [d' r'] eqn:E. intros [= <- <-]. simpl. by rewrite (IH _ _ eq_refl).
Qed.

Lemma strip_prefix_len w s r : w ≠ "" → strip_prefix w s = Some r → (slen r < slen s)%nat.
Proof.
  intros Hw ->%strip_prefix_Some. rewrite string_length_app. destruct w; [done|]. simpl. lia.
Qed.

Lemma lit_len w j s v r : w ≠ "" → lit w j s = PDone v r → (slen r < slen s)%nat.
Proof.
  unfold lit. intros Hw. destruct (strip_prefix w s) eqn:E; [|by case_bool_decide].
  intros [= <- <-]. by eapply strip_prefix_len.
Qed.

Lemma parse_num_len s v r : parse_num s = PDone v r → (slen r < slen s)%nat.
Proof.
  unfold parse_num.
  set (p0 := match s with String a s' => if byte_of a =? 45 then (true, s') else (false, s) | "" => (false, "") end).
  assert (slen p0.2 <= slen s)%nat as H0 by (subst p0; destruct s; [done|]; simpl; case_match; simpl; lia).
  destruct p0 as [neg s0]. simpl in H0.
  set (p1 := match s0 with String a s' => if byte_of a =? 48 then ("0", s') else take_digits s0 | "" => ("", "") end).
  assert (slen s0 = slen p1.1 + slen p1.2)%nat as H1.
  { subst p1. destruct s0 as [|a s']; [done|]. destruct (byte_of a =? 48); [done|].
    destruct (take_digits _) eqn:E. by apply take_digits_len in E. }
  destruct p1 as [ds s1]. simpl in H1. case_decide as Hds; [by case_decide|].
  assert (0 < slen ds)%nat by (destruct ds; [done|simpl; lia]).
  set (p2 := match s1 with String a s' => if byte_of a =? 46 then let '(f, r) := take_digits s' in _ else _ | _ => _ end).
  assert (slen p2.2 <= slen s1)%nat as H2.
  { subst p2. destruct s1 as [|a s']; [done|]. case_match; [|done].
    destruct (take_digits s') eqn:E. apply take_digits_len in E. simpl. lia. }
  destruct p2 as [[fr ok1] s2]. simpl in H2.
  set (p3 := match s2 with String a s' => if _ : bool then _ else _ | _ => _ end).
  assert (slen p3.2 <= slen s2)%nat as H3.
  { subst p3. destruct s2 as [|a s']; [done|]. case_match; [|done].
    set (q := match s' with String x r => if _ : bool then _ else _ | _ => _ end).
    assert (slen q.2 <= slen s')%nat by (subst q; destruct s'; [done|]; simpl; case_match; simpl; lia).
    destruct q as [sg s'']. simpl in *. destruct (take_digits s'') eqn:E. apply take_digits_len in E. simpl. lia. }
  destruct p3 as [[ex ok2] s3]. simpl in H3.
  repeat case_match; intros; simplify_eq; lia.
Qed.

Lemma skip_ws_cons s a t : skip_ws s = String a t → (slen t < slen s)%nat.
Proof. pose proof (skip_ws_len s) as H. intros E. rewrite E in H. simpl in H. lia. Qed.

(** What one level of the parser does with a text of at most [L] bytes. *)
Definition consumes (n : nat) : Prop :=
  (∀ s v r, parse_value n s = PDone v r → (slen r < slen s)%nat) ∧
  (∀ acc s v r, parse_elems n acc s = PDone v r → (slen r < slen s)%nat) ∧
  (∀ acc s v r, parse_members n acc s = PDone v r → (slen r < slen s)%nat).

Ltac lengths :=
  repeat match goal with
  | H : skip_ws ?s = String _ _ |- _ => apply skip_ws_cons in H
  | H : parse_str _ _ = PDone _ _ |- _ => apply parse_str_len in H
  | H : parse_num _ = PDone _ _ |- _ => apply parse_num_len in H
  | H : lit _ _ _ = PDone _ _ |- _ => apply lit_len in H; [|done]
  end; simpl in *.

Lemma parse_consumes n : consumes n.
Proof.
  induction n as [|n (IHv & IHe & IHm)]; [done|].
  split; [|split].
  - intros s v r. simpl. pose proof (skip_ws_len s).
    destruct (skip_ws s) as [|a s1] eqn:Hs; [done|].
    repeat case_match; intros; simplify_eq;
      repeat match goal with
      | H : parse_elems n _ _ = PDone _ _ |- _ => apply IHe in H
      | H : parse_members n _ _ = PDone _ _ |- _ => apply IHm in H
      end; lengths; lia.
  - intros acc s v r. simpl. destruct (parse_value n s) as [j t| |] eqn:Hv; [|done..]. apply IHv in Hv.
    repeat case_match; intros; simplify_eq;
      try match goal with H : parse_elems n _ _ = PDone _ _ |- _ => apply IHe in H end; lengths; lia.
  - intros acc s v r. simpl. destruct (skip_ws s) as [|a s1] eqn:Hs; [done|].
    repeat case_match; intros; simplify_eq;
      repeat match goal with
      | H : parse_value n _ = PDone _ _ |- _ => apply IHv in H
      | H : parse_members n _ _ = PDone _ _ |- _ => apply IHm in H
      end; lengths; lia.
Qed.

Lemma parse_value_len n s v r : parse_value n s = PDone v r → (slen r < slen s)%nat.
Proof. apply parse_consumes. Qed.

(** ** The fuel is enough *)
Definition stable_at (L : nat) : Prop := ∀ n m,
  (∀ s, (slen s <= L)%nat → (2 * L + 2 <= n)%nat → (2 * L + 2 <= m)%nat → parse_value n s = parse_value m s) ∧
  (∀ acc s, (slen s <= L)%nat → (2 * L + 3 <= n)%nat → (2 * L + 3 <= m)%nat → parse_elems n acc s = parse_elems m acc s) ∧
  (∀ acc s, (slen s <= L)%nat → (2 * L + 3 <= n)%nat → (2 * L + 3 <= m)%nat → parse_members n acc s = parse_members m acc s).

Lemma stable_value L : (∀ L', (L' < L)%nat → stable_at L') → ∀ n m s,
  (slen s <= L)%nat → (2 * L + 2 <= n)%nat → (2 * L + 2 <= m)%nat → parse_value n s = parse_value m s.
Proof.
  intros IH n m s Hs Hn Hm. destruct n as [|n]; [lia|]. destruct m as [|m]; [lia|]. simpl.
  destruct (skip_ws s) as [|a s1] eqn:Hw; [done|]. apply skip_ws_cons in Hw.
  destruct (byte_of a =? 34); [done|].
  destruct (IH (L - 1)%nat ltac:(lia) n m) as (_ & He & Hme).
  destruct (byte_of a =? 123).
  { destruct (skip_ws s1) as [|b s2] eqn:Hw2; [done|]. apply skip_ws_cons in Hw2.
    destruct (byte_of b =? 125); [done|]. apply Hme; simpl; lia. }
  destruct (byte_of a =? 91); [|done].
  destruct (skip_ws s1) as [|b s2] eqn:Hw2; [done|]. apply skip_ws_cons in Hw2.
  destruct (byte_of b =? 93); [done|]. apply He; simpl; lia.
Qed.

Lemma parse_stable L : stable_at L.
Proof.
  induction L as [L IH] using lt_wf_ind. intros n m.
  split; [intros; by apply (stable_value L IH)|].
  split; intros acc s Hs Hn Hm; (destruct n as [|n]; [lia|]); (destruct m as [|m]; [lia|]); simpl.
  - rewrite (stable_value L IH n m s) by lia. destruct (parse_value m s) as [v r| |] eqn:Hv; [|done..].
    apply parse_value_len in Hv. destruct (skip_ws r) as [|c r'] eqn:Hw; [done|]. apply skip_ws_cons in Hw.
    destruct (byte_of c =? 44); [|done]. apply (IH (L - 1)%nat); lia.
  - destruct (skip_ws s) as [|a s1] eqn:Hw; [done|]. apply skip_ws_cons in Hw.
    destruct (byte_of a =? 34); [|done]. destruct (parse_str None s1) as [k r| |] eqn:Hk; [|done..].
    apply parse_str_len in Hk. destruct (skip_ws r) as [|c r'] eqn:Hw2; [done|]. apply skip_ws_cons in Hw2.
    destruct (byte_of c =? 58); [|done].
    rewrite (stable_value L IH n m r') by lia. destruct (parse_value m r') as [v r2| |] eqn:Hv; [|done..].
    apply parse_value_len in Hv. destruct (skip_ws r2) as [|d r3] eqn:Hw3; [done|]. apply skip_ws_cons in Hw3.
    destruct (byte_of d =? 44); [|done]. apply (IH (L - 1)%nat); lia.
Qed.

(** The decoder's verdict does not depend on the fuel: any amount from
    [parse_first]'s on gives the same result. *)
Lemma parse_first_fuel (n : nat) (s : string) : (2 * slen s + 2 <= n)%nat → parse_value n s = parse_first s.
Proof. intros. unfold parse_first. apply (parse_stable (slen s)); lia. Qed.

(** ** Strings: unescaping inverts escaping *)
Definition esc1 (a : ascii) : string :=
  let z := byte_of a in
  if (z =? 34) || (z =? 92) then String "\"%char (String a "")
  else if z =? 8 then "\b"
  else if z =? 12 then "\f"
  else if z =? 10 then "\n"
  else if z =? 13 then "\r"
  else if z =? 9 then "\t"
  else if (z <? 32) || (z =? 60) || (z =? 62) || (z =? 38) then
    "\u00" +:+ String (hexdigit (z / 16)) (String (hexdigit (z mod 16)) "")
  else String a "".

Lemma parse_esc1 a t : parse_str None (esc1 a +:+ t) = pcons (String a "") (parse_str None t).
Proof. destruct a as [[] [] [] [] [] [] [] []]; reflexivity. Qed.

Lemma parse_linesep c t : byte_of c = 0xA8 ∨ byte_of c = 0xA9 →
  parse_str None ("\u202" +:+ String (hexdigit (byte_of c - 0xA0)) t) =
  pcons (String (chr 0xE2) (String (chr 0x80) (String c ""))) (parse_str None t).
Proof.
  destruct c as [[] [] [] [] [] [] [] []]; cbv [byte_of N_of_ascii N_of_digits Z.of_N N.add N.mul Pos.add Pos.mul];
    intros H; try (exfalso; lia); reflexivity.
Qed.

Lemma byte_of_inj a b : byte_of a = byte_of b → a = b.
Proof.
  unfold byte_of. intros H%N2Z.inj. rewrite <- (ascii_N_embedding a), <- (ascii_N_embedding b). by rewrite H.
Qed.

(** One step of [escape]: one byte, or one of the two line separators. *)
Lemma escape_step a s :
  escape (String a s) = esc1 a +:+ escape s ∨
  ∃ c s', a = chr 0xE2 ∧ s = String (chr 0x80) (String c s') ∧ (byte_of c = 0xA8 ∨ byte_of c = 0xA9) ∧
    escape (String a s) = "\u202" +:+ String (hexdigit (byte_of c - 0xA0)) (escape s').
Proof.
  unfold esc1. cbn [escape].
  repeat match goal with |- context [if ?b then _ else _] => destruct b eqn:?; [by left|] end.
  destruct s as [|b [|c s']]; [by left..|].
  destruct ((byte_of a =? 0xE2) && (byte_of b =? 0x80) && ((byte_of c =? 0xA8) || (byte_of c =? 0xA9))) eqn:E; [|by left].
  right. apply andb_true_iff in E as [[Ea Eb]%andb_true_iff Ec%orb_true_iff].
  apply Z.eqb_eq in Ea, Eb. exists c, s'. split; [by apply byte_of_inj|]. split; [|split; [|done]].
  - do 2 f_equal. by apply byte_of_inj.
  - rewrite !Z.eqb_eq in Ec. done.
Qed.

Lemma parse_escape s t : parse_str None (escape s +:+ t) = pcons s (parse_str None t).
Proof.
  induction s as [s IH] using (induction_ltof1 _ slen). unfold ltof in IH.
  destruct s as [|a s]; [change (escape "" +:+ t) with t; by destruct (parse_str None t)|].
  destruct (escape_step a s) as [->|(c & s' & -> & -> & Hc & ->)].
  - rewrite <- string_app_assoc, parse_esc1, IH by (simpl; lia). by destruct (parse_str None t).
  - rewrite <- string_app_assoc.
    change (String ?h (escape ?x) +:+ t) with (String h (escape x +:+ t)).
    rewrite parse_linesep, IH by (done || simpl; lia).
    by destruct (parse_str None t).
Qed.

Lemma parse_quoted s t : valid_utf8 s →
  parse_str None (escape (coerce_utf8 s) +:+ String (chr 34) "" +:+ t) = PDone s t.
Proof. intros ->. rewrite parse_escape. simpl. by rewrite string_app_nil_r. Qed.

(** ** Numbers *)
Fixpoint all_digits (s : string) : Prop :=
  match s with "" => True | String a s' => is_digit a = true ∧ all_digits s' end.

(** The text after a number does not continue it. *)
Definition num_end (t : string) : Prop :=
  match t with
  | "" => True
  | String a _ => is_digit a = false ∧ byte_of a ∉ [46; 101; 69]
  end.

Lemma all_digits_app s t : all_digits (s +:+ t) ↔ all_digits s ∧ all_digits t.
Proof. induction s as [|a s IH]; [by simpl; naive_solver|]. rewrite string_app_cons. simpl. naive_solver. Qed.

Lemma digits_val_app s t acc : digits_val acc (s +:+ t) = digits_val (digits_val acc s) t.
Proof. revert acc. induction s as [|a s IH]; intros acc; [done|]. rewrite string_app_cons. simpl. apply IH. Qed.

Lemma take_digits_app ds t : all_digits ds → num_end t → take_digits (ds +:+ t) = (ds, t).
Proof.
  intros Hds Ht. induction ds as [|a ds IH].
  - change ("" +:+ t) with t. destruct t as [|a t]; [done|]. simpl. by destruct Ht as [-> _].
  - rewrite string_app_cons. simpl in *. destruct Hds as [-> Hds]. by rewrite IH.
Qed.

Lemma digit_char x : (x < 10)%N →
  is_digit (pretty_N_char x) = true ∧ byte_of (pretty_N_char x) - 48 = Z.of_N x.
Proof.
  intros Hx. assert (x = 0 ∨ x = 1 ∨ x = 2 ∨ x = 3 ∨ x = 4 ∨ x = 5 ∨ x = 6 ∨ x = 7 ∨ x = 8 ∨ x = 9)%N as Hin by lia.
  by repeat destruct Hin as [->|Hin]; subst.
Qed.

Lemma pretty_go_spec x s : ∃ ds, pretty_N_go x s = ds +:+ s ∧ all_digits ds ∧ digits_val 0 ds = Z.of_N x ∧
  (if decide (x = 0)%N then ds = "" else ∃ a ds', ds = String a ds' ∧ byte_of a ≠ 48).
Proof.
  revert s. induction (N.lt_wf_0 x) as [x _ IH]; intros s.
  destruct (decide (x = 0)%N) as [->|Hx]; [by exists ""|].
  rewrite pretty_N_go_step by lia.
  destruct (IH (x `div` 10)%N (N.div_lt x 10 ltac:(lia) ltac:(done)) (String (pretty_N_char (x `mod` 10)) s))
    as (ds & -> & Hds & Hval & Hhd).
  destruct (digit_char (x `mod` 10)%N) as [Hdig Hc]; [by apply N.mod_lt|].
  pose proof (N.div_mod x 10 ltac:(done)) as Hdm.
  exists (ds +:+ String (pretty_N_char (x `mod` 10)) ""). split; [|split; [|split]].
  - by rewrite <- string_app_assoc.
  - by apply all_digits_app.
  - rewrite digits_val_app. simpl. rewrite Hval. lia.
  - case_decide as Hz.
    + subst ds. eexists _, _. split; [done|]. lia.
    + destruct Hhd as (a & ds' & -> & Ha). eexists _, _. split; [done|done].
Qed.

Lemma digit_range a : is_digit a = true → 48 <= byte_of a <= 57.
Proof. unfold is_digit, between. lia. Qed.

(** A literal of digits with an optional sign, followed by something else. *)
Lemma parse_num_int (neg : bool) a ds t :
  all_digits (String a ds) → (byte_of a = 48 → ds = "") → num_end t →
  parse_num ((if neg then "-" else "") +:+ String a ds +:+ t) =
  PDone (JNum (let v := digits_val 0 (String a ds) in if neg then - v else v)) t.
Proof.
  intros Hds H0 Ht. pose proof (digit_range a (proj1 Hds)) as Hr.
  unfold parse_num.
  assert ((match (if neg then "-" else "") +:+ String a ds +:+ t with
           | "" => (false, "")
           | String b s' => if byte_of b =? 45 then (true, s') else (false, (if neg then "-" else "") +:+ String a ds +:+ t)
           end) = (neg, String a ds +:+ t)) as ->.
  { destruct neg; [done|]. change ("" +:+ ?x) with x. rewrite string_app_cons.
    destruct (byte_of a =? 45) eqn:E; [lia|done]. }
  assert ((match String a ds +:+ t with
           | "" => ("", "")
           | String b s' => if byte_of b =? 48 then ("0", s') else take_digits (String a ds +:+ t)
           end) = (String a ds, t)) as ->.
  { rewrite string_app_cons. destruct (byte_of a =? 48) eqn:E.
    - apply Z.eqb_eq in E. rewrite H0 by done. change ("" +:+ t) with t. do 2 f_equal.
      f_equal. by apply byte_of_inj.
    - rewrite <- string_app_cons. by apply take_digits_app. }
  rewrite decide_False by done. destruct t as [|b t].
  - by rewrite decide_True.
  - destruct Ht as [Hd Hb]. rewrite !not_elem_of_cons in Hb. destruct Hb as (? & ? & ? & _).
    destruct (byte_of b =? 46) eqn:E1; [lia|]. cbv zeta.
    destruct ((byte_of b =? 101) || (byte_of b =? 69)) eqn:E2; [lia|]. by rewrite decide_True.
Qed.

Lemma parse_pretty z t : num_end t → parse_num (pretty z +:+ t) = PDone (JNum z) t.
Proof.
  intros Ht. destruct z as [|p|p].
  - by apply (parse_num_int false "0"%char "" t).
  - unfold pretty, pretty_Z, pretty, pretty_positive, pretty, pretty_N. rewrite decide_False by done.
    destruct (pretty_go_spec (N.pos p) "") as (ds & -> & Hds & Hval & (a & ds' & -> & Ha)).
    rewrite string_app_nil_r.
    refine (eq_trans (parse_num_int false a ds' t Hds _ Ht) _); [done|]. by rewrite Hval.
  - unfold pretty, pretty_Z, pretty, pretty_positive, pretty, pretty_N. rewrite decide_False by done.
    destruct (pretty_go_spec (N.pos p) "") as (ds & -> & Hds & Hval & (a & ds' & -> & Ha)).
    rewrite string_app_nil_r, <- string_app_assoc. rewrite (parse_num_int true a ds' t) by done. by rewrite Hval.
Qed.

Lemma pretty_head (z : Z) : ∃ a s, pretty z = String a s ∧ (is_digit a = true ∨ byte_of a = 45).
Proof.
  destruct z as [|p|p]; [by eexists _, _; split; [done|left]| |by eexists _, _; split; [done|right]].
  unfold pretty, pretty_Z, pretty, pretty_positive, pretty, pretty_N. rewrite decide_False by done.
  destruct (pretty_go_spec (N.pos p) "") as (ds & -> & Hds & _ & (a & ds' & -> & _)).
  rewrite string_app_nil_r. destruct Hds. eauto.
Qed.


(** ** Values *)
Section json_ind.
Variable P : json → Prop.
Hypotheses (HNull : P JNull) (HBool : ∀ b, P (JBool b)) (HNum : ∀ z, P (JNum z)) (HFrac : ∀ l, P (JFrac l))
  (HStr : ∀ s, P (JStr s)) (HArr : ∀ vs, Forall P vs → P (JArr vs))
  (HObj : ∀ kvs, Forall (λ kv, P kv.2) kvs → P (JObj kvs)).

Fixpoint json_nested_ind (j : json) : P j :=
  match j with
  | JNull => HNull | JBool b => HBool b | JNum z => HNum z | JFrac l => HFrac l | JStr s => HStr s
  | JArr vs => HArr vs ((fix go l : Forall P l :=
      match l with [] => Forall_nil_2 _ | v :: l' => Forall_cons_2 _ _ _ (json_nested_ind v) (go l') end) vs)
  | JObj kvs => HObj kvs ((fix go l : Forall (λ kv, P kv.2) l :=
      match l with [] => Forall_nil_2 _ | kv :: l' => Forall_cons_2 _ _ _ (json_nested_ind kv.2) (go l') end) kvs)
  end.
End json_ind.

(** A value whose text holds nothing a printer would change: integer numbers
    and valid UTF-8 in strings and keys. *)
Fixpoint clean_json (j : json) : Prop :=
  match j with
  | JFrac _ => False
  | JStr s => valid_utf8 s
  | JArr vs => (fix go l := match l with [] => True | v :: l' => clean_json v ∧ go l' end) vs
  | JObj kvs => (fix go l := match l with [] => True | (k, v) :: l' => valid_utf8 k ∧ clean_json v ∧ go l' end) kvs
  | _ => True
  end.

Lemma clean_arr vs : clean_json (JArr vs) ↔ Forall clean_json vs.
Proof. induction vs as [|v vs IH]; [done|]. rewrite Forall_cons, <- IH. done. Qed.

Lemma clean_obj kvs : clean_json (JObj kvs) ↔ Forall (λ kv, valid_utf8 kv.1 ∧ clean_json kv.2) kvs.
Proof.
  induction kvs as [|[k v] kvs IH]; [done|]. rewrite Forall_cons, <- IH. simpl. tauto.
Qed.

(** What follows the first element or member. *)
Fixpoint print_tail (vs : list json) : string :=
  match vs with [] => "]" | v :: vs' => "," +:+ print_json v +:+ print_tail vs' end.
Definition print_member (kv : string * json) : string := quote kv.1 +:+ ":" +:+ print_json kv.2.
Fixpoint print_mtail (kvs : list (string * json)) : string :=
  match kvs with [] => "}" | kv :: kvs' => "," +:+ print_member kv +:+ print_mtail kvs' end.

Lemma print_arr v vs : print_json (JArr (v :: vs)) = "[" +:+ print_json v +:+ print_tail vs.
Proof.
  cbn [print_json]. f_equal. revert v. induction vs as [|v' vs IH]; intros v; [done|].
  rewrite <- !string_app_assoc. cbn [print_tail]. do 2 f_equal. rewrite <- IH. done.
Qed.

Lemma print_obj kv kvs : print_json (JObj (kv :: kvs)) = "{" +:+ print_member kv +:+ print_mtail kvs.
Proof.
  cbn [print_json]. f_equal. revert kv. induction kvs as [|kv' kvs IH]; intros [k v].
  - unfold print_member. by rewrite <- !string_app_assoc.
  - unfold print_member at 1. rewrite <- !string_app_assoc. cbn [fst snd print_mtail]. do 4 f_equal.
    rewrite <- IH. done.
Qed.

Lemma print_head j : clean_json j → ∃ a s, print_json j = String a s ∧ is_ws a = false ∧ byte_of a ≠ 93.
Proof.
  destruct j as [|[]|z|l|s|vs|kvs]; intros Hc; try (eexists _, _; split; [reflexivity|by split]); try done.
  destruct (pretty_head z) as (a & s & Hp & Ha). exists a, s. split; [done|].
  unfold is_ws. unfold is_digit, between in Ha. lia.
Qed.

Lemma skip_print j t : clean_json j → skip_ws (print_json j +:+ t) = print_json j +:+ t.
Proof. intros (a & s & -> & Ha & _)%print_head. rewrite string_app_cons. simpl. by rewrite Ha. Qed.

(** With enough fuel the parser reads a printed value and stops there. *)
Definition ends (j : json) (t : string) : Prop := match j with JNum _ => num_end t | _ => True end.

Lemma num_end_ends j t : num_end t → ends j t.
Proof. by destruct j. Qed.

Definition reads (j : json) : Prop := ∀ t, ends j t →
  ∃ n, ∀ m, (n <= m)%nat → parse_value m (print_json j +:+ t) = PDone j t.

Lemma read_elems vs : Forall reads vs → ∀ v acc t, reads v →
  ∃ n, ∀ m, (n <= m)%nat → parse_elems m acc (print_json v +:+ print_tail vs +:+ t) = PDone (JArr (acc ++ v :: vs)) t.
Proof.
  induction 1 as [|v' vs Hv' Hvs IH]; intros v acc t Hv.
  - destruct (Hv ("]" +:+ t)) as [n Hn]; [by apply num_end_ends; simpl; set_solver|].
    exists (S n). intros [|m] Hm; [lia|]. simpl. by rewrite Hn by lia.
  - destruct (Hv ((print_tail (v' :: vs)) +:+ t)) as [n1 Hn1]; [by apply num_end_ends; simpl; set_solver|].
    destruct (IH v' (acc ++ [v]) t Hv') as [n2 Hn2].
    exists (S (n1 `max` n2)). intros [|m] Hm; [lia|].
    cbn [parse_elems]. rewrite Hn1 by lia. cbn [print_tail]. rewrite <- !string_app_assoc.
    change ("," +:+ ?x) with (String ","%char x). cbn [skip_ws is_ws]. simpl.
    rewrite Hn2 by lia. by rewrite <- app_assoc.
Qed.

Lemma read_members kvs : Forall (λ kv, valid_utf8 kv.1 ∧ reads kv.2) kvs → ∀ kv acc t, valid_utf8 kv.1 → reads kv.2 →
  ∃ n, ∀ m, (n <= m)%nat → parse_members m acc (print_member kv +:+ print_mtail kvs +:+ t) = PDone (JObj (acc ++ kv :: kvs)) t.
Proof.
  induction 1 as [|kv' kvs [Hk' Hv'] Hkvs IH]; intros [k v] acc t Hk Hv; simpl in Hk, Hv.
  - destruct (Hv ("}" +:+ t)) as [n Hn]; [by apply num_end_ends; simpl; set_solver|].
    exists (S n). intros [|m] Hm; [lia|]. unfold print_member, quote. rewrite <- !string_app_assoc. cbn [fst snd].
    rewrite string_app_cons, <- !string_app_assoc. cbn [parse_members skip_ws]. change (is_ws (chr 34)) with false. simpl.
    rewrite parse_quoted by done. simpl. rewrite Hn by lia. simpl. by rewrite Hk.
  - destruct (Hv ((print_mtail (kv' :: kvs)) +:+ t)) as [n1 Hn1]; [by apply num_end_ends; simpl; set_solver|].
    destruct (IH kv' (acc ++ [(k, v)]) t Hk' Hv') as [n2 Hn2].
    exists (S (n1 `max` n2)). intros [|m] Hm; [lia|].
    unfold print_member at 1, quote. rewrite <- !string_app_assoc. cbn [fst snd].
    rewrite string_app_cons, <- !string_app_assoc. cbn [parse_members skip_ws]. change (is_ws (chr 34)) with false. simpl.
    rewrite parse_quoted by done. simpl. rewrite Hn1 by lia. cbn [print_mtail]. rewrite <- !string_app_assoc.
    simpl. rewrite Hk, Hn2 by lia. by rewrite <- app_assoc.
Qed.

Lemma reads_clean j : clean_json j → reads j.
Proof.
  induction j as [|[]|z|l|s|vs IH|kvs IH] using json_nested_ind; intros Hc t Ht.
  1-3: by exists 1%nat; intros [|m] Hm; [lia|].
  - exists 1%nat. intros [|m] Hm; [lia|]. pose proof (skip_print (JNum z) t Hc) as Hsk.
    cbn [parse_value]. rewrite Hsk. cbn [print_json]. pose proof (parse_pretty z t Ht) as Hp.
    destruct (pretty_head z) as (a & s & Heq & Ha). rewrite Heq in *. rewrite string_app_cons in *.
    assert (48 <= byte_of a <= 57 ∨ byte_of a = 45) as Hr.
    { destruct Ha as [Ha|Ha]; [left; by apply digit_range|by right]. }
    repeat match goal with |- context [byte_of a =? ?k] => destruct (byte_of a =? k) eqn:?; [lia|] end.
    destruct Ha as [->| ->]; [done|]. by rewrite orb_true_r.
  - done.
  - exists 1%nat. intros [|m] Hm; [lia|]. cbn [print_json]. unfold quote. rewrite string_app_cons, <- string_app_assoc.
    cbn [parse_value skip_ws]. change (is_ws (chr 34)) with false. simpl. rewrite parse_quoted by done. simpl. by rewrite Hc.
  - rewrite clean_arr in Hc. destruct vs as [|v vs]; [by exists 1%nat; intros [|m] Hm; [lia|]|].
    rewrite Forall_cons in IH, Hc. destruct IH as [IHv IHvs], Hc as [Hcv Hcvs].
    assert (Forall reads vs) as Hvs by (rewrite Forall_forall in *; auto).
    destruct (read_elems vs Hvs v [] t (IHv Hcv)) as [n Hn].
    exists (S n). intros [|m] Hm; [lia|]. rewrite print_arr, <- !string_app_assoc.
    change ("[" +:+ ?x) with (String "["%char x). cbn [parse_value skip_ws is_ws]. simpl.
    rewrite skip_print by done. specialize (Hn m ltac:(lia)).
    destruct (print_head v Hcv) as (a & s & Heq & _ & Ha). rewrite Heq, string_app_cons in *.
    destruct (byte_of a =? 93) eqn:E; [lia|]. by rewrite Hn.
  - rewrite clean_obj in Hc. destruct kvs as [|kv kvs]; [by exists 1%nat; intros [|m] Hm; [lia|]|].
    rewrite Forall_cons in IH, Hc. destruct IH as [IHv IHvs], Hc as [[Hk Hcv] Hcvs].
    assert (Forall (λ kv, valid_utf8 kv.1 ∧ reads kv.2) kvs) as Hvs.
    { rewrite Forall_forall in *. intros x Hx. destruct (Hcvs x Hx). split; [done|]. by apply IHvs. }
    destruct (read_members kvs Hvs kv [] t Hk (IHv Hcv)) as [n Hn].
    exists (S n). intros [|m] Hm; [lia|]. rewrite print_obj, <- !string_app_assoc.
    change ("{" +:+ ?x) with (String "{"%char x). cbn [parse_value skip_ws is_ws]. simpl.
    specialize (Hn m ltac:(lia)). unfold print_member, quote in *. rewrite !string_app_cons in *.
    cbn [skip_ws is_ws]. change (is_ws (chr 34)) with false. by simpl.
Qed.

(** Parsing inverts printing: a clean value is read back from its text, and the
    decoder stops right behind it. *)
Lemma parse_print (j : json) (t : string) : clean_json j → ends j t → parse_first (print_json j +:+ t) = PDone j t.
Proof.
  intros Hj Ht. destruct (reads_clean j Hj t Ht) as [n Hn].
  rewrite <- (parse_first_fuel (n `max` (2 * slen (print_json j +:+ t) + 2))) by lia. apply Hn. lia.
Qed.

(** ** How long a text gets *)
Definition zslen (s : string) : Z := Z.of_nat (slen s).

Lemma zslen_app s t : zslen (s +:+ t) = zslen s + zslen t.
Proof. unfold zslen. rewrite string_length_app. lia. Qed.

(** An upper bound of the printed length: a byte takes at most six. *)
Fixpoint json_size (j : json) : Z :=
  match j with
  | JNull => 4
  | JBool _ => 5
  | JNum z => zslen (pretty z)
  | JFrac l => zslen l
  | JStr s => 6 * zslen (coerce_utf8 s) + 2
  | JArr vs => 2 + (fix go l := match l with [] => 0 | v :: l' => json_size v + 1 + go l' end) vs
  | JObj kvs => 2 + (fix go l := match l with [] => 0
                                 | (k, v) :: l' => 6 * zslen (coerce_utf8 k) + 4 + json_size v + go l' end) kvs
  end.

Lemma esc1_length a : (slen (esc1 a) <= 6)%nat.
Proof. unfold esc1. repeat case_match; simpl; lia. Qed.

Lemma escape_length s : zslen (escape s) <= 6 * zslen s.
Proof.
  remember (slen s) as n eqn:Hn. revert s Hn. induction (lt_wf n) as [n _ IH]. intros s ->. destruct s as [|a s]; [done|].
  destruct (escape_step a s) as [->|(x & s' & -> & -> & _ & ->)].
  - rewrite zslen_app. pose proof (esc1_length a). pose proof (IH (slen s) ltac:(simpl; lia) s eq_refl). unfold zslen in *. simpl. lia.
  - rewrite zslen_app. pose proof (IH (slen s') ltac:(simpl; lia) s' eq_refl). unfold zslen in *. simpl. lia.
Qed.

Lemma quote_length s : zslen (quote s) <= 6 * zslen (coerce_utf8 s) + 2.
Proof.
  unfold quote. pose proof (escape_length (coerce_utf8 s)). unfold zslen in *. simpl. rewrite string_length_app. simpl. lia.
Qed.

Lemma print_length j : zslen (print_json j) <= json_size j.
Proof.
  induction j as [|b|z|l|s|vs IH|kvs IH] using json_nested_ind; try (by destruct b); try done; try (simpl; lia).
  - apply quote_length.
  - destruct vs as [|v vs]; [done|]. rewrite print_arr, !zslen_app. change (zslen "[") with 1.
    apply Forall_cons in IH as [Hv IH]. cbn [json_size].
    assert (zslen (print_tail vs) <= 1 + (fix go l := match l with [] => 0 | v :: l' => json_size v + 1 + go l' end) vs) as H; [|lia].
    clear v Hv. induction IH as [|v vs Hv _ IH2]; [done|]. cbn [print_tail]. rewrite !zslen_app. change (zslen ",") with 1. lia.
  - destruct kvs as [|[k v] kvs]; [done|]. rewrite print_obj. unfold print_member. cbn [fst snd].
    rewrite !zslen_app. change (zslen "{") with 1. change (zslen ":") with 1.
    apply Forall_cons in IH as [Hv IH]. cbn [json_size snd] in *. pose proof (quote_length k).
    assert (zslen (print_mtail kvs) <= 1 + (fix go l := match l with [] => 0
             | (k, v) :: l' => 6 * zslen (coerce_utf8 k) + 4 + json_size v + go l' end) kvs) as Ht; [|lia].
    clear k v Hv H. induction IH as [|[k v] kvs Hv _ IH2]; [done|]. cbn [print_mtail snd] in *. unfold print_member. cbn [fst snd].
    rewrite !zslen_app. change (zslen ",") with 1. change (zslen ":") with 1. pose proof (quote_length k). lia.
Qed.

Lemma pretty_go_length (k : nat) x s : (x < 10 ^ N.of_nat k)%N → (slen (pretty_N_go x s) <= k + slen s)%nat.
Proof.
  revert x s. induction k as [|k IH]; intros x s Hx.
  - replace x with 0%N by (simpl in Hx; lia). done.
  - destruct (decide (x = 0)%N) as [->|Hn]; [rewrite pretty_N_go_0; lia|]. rewrite pretty_N_go_step by lia.
    etrans; [apply IH|simpl; lia].
    apply N.Div0.div_lt_upper_bound. rewrite Nat2N.inj_succ, N.pow_succ_r' in Hx. done.
Qed.

Lemma pretty_length z : in_int64 z → zslen (pretty z) <= 20.
Proof.
  intros Hz. assert (∀ p, (N.pos p < 10 ^ 19)%N → (slen (pretty (N.pos p)) <= 19)%nat) as Hp.
  { intros p H. unfold pretty, pretty_N. case_decide; [simpl; lia|]. etrans; [by apply (pretty_go_length 19)|]. simpl. lia. }
  unfold in_int64, int64_min, int64_max in Hz.
  destruct z as [|p|p]; [done|..].
  - specialize (Hp p ltac:(lia)). change (pretty (Z.pos p)) with (pretty (N.pos p)). unfold zslen. lia.
  - specialize (Hp p ltac:(lia)). change (pretty (Z.neg p)) with (String "-" (pretty (N.pos p))). unfold zslen. cbn [String.length]. lia.
Qed.
