(* ===== verification/Messages.v ===== *)
(** * Wire messages and intents (internal/brokerrpc/messages.go, intent.go)

    Each request struct with its [json.Marshal] tree (field order and
    [omitempty] as tagged), each response struct with its tolerant decoder, and
    the op-to-intent table that stamps [AuthorizationMetadata]. *)
From Stdlib Require Import Ascii String.
From stdpp Require Import base list strings numbers gmap.
From S2P Require Import Prelude GoErrors GoJson.
Local Open Scope Z_scope.

(** ** Ops and intents *)
Abbreviation Op := string.

Definition OpListDirectory : Op := "listDirectory".
Definition OpReadFile : Op := "readFile".
Definition OpReadMetadata : Op := "readMetadata".
Definition OpGetFileMetadata : Op := "getFileMetadata".
Definition OpListFiles : Op := "listFiles".
Definition OpFileDownload : Op := "fileDownload".
Definition OpMakeDirectory : Op := "makeDirectory".
Definition OpMoveDirectory : Op := "moveDirectory".
Definition OpRemoveDirectory : Op := "removeDirectory".
Definition OpCreateFile : Op := "createFile".
Definition OpCopyFile : Op := "copyFile".
Definition OpMoveFile : Op := "moveFile".
Definition OpRemoveFile : Op := "removeFile".
Definition OpFileUpload : Op := "fileUpload".
Definition OpImportFiles : Op := "importFiles".
Definition OpImportZip : Op := "importZip".
Definition OpMigrateFilesystem : Op := "migrateFilesystem".
Definition OpRemoveFilesystem : Op := "removeFilesystem".

Definition opIntentTable : gmap Op string :=
  list_to_map
    [(OpListDirectory, "read"); (OpReadFile, "read"); (OpReadMetadata, "read");
     (OpGetFileMetadata, "read"); (OpListFiles, "read"); (OpFileDownload, "read");
     (OpMakeDirectory, "write"); (OpMoveDirectory, "write"); (OpRemoveDirectory, "write");
     (OpCreateFile, "write"); (OpCopyFile, "write"); (OpMoveFile, "write");
     (OpRemoveFile, "write"); (OpFileUpload, "write"); (OpImportFiles, "write");
     (OpImportZip, "write"); (OpMigrateFilesystem, "write"); (OpRemoveFilesystem, "write")].

Record AuthorizationMetadata := { am_Intent : string; am_Downloadable : bool }.

Definition IntentFor (op : Op) : result error string :=
  match opIntentTable !! op with
  | Some intent => Ok intent
  | None => Err (EErrorf "brokerrpc: unknown op %q — not in intent table" [AStr op] [])
  end.

Definition StampAuthMeta (op : Op) : result error AuthorizationMetadata :=
  match IntentFor op with
  | Err e => Err e
  | Ok intent => Ok {| am_Intent := intent; am_Downloadable := false |}
  end.

(** ** Entities *)
Record File := mkFile {
  f_Path : string; f_Size : Z; f_Mtime : string; f_Mode : string;
  f_SHA : string; f_MIME : string; f_UUID : string }.

Record FilesystemFile := mkFilesystemFile {
  ff_Path : string; ff_Size : Z; ff_Mtime : string; ff_Mode : string;
  ff_SHA : string; ff_MIME : string; ff_UUID : string }.

Record Directory := mkDirectory { d_Path : string; d_Mode : string; d_Mtime : string }.

Record Range := { r_Offset : Z; r_Length : Z }.

Abbreviation OpaqueCursor := string.

(** ** Requests *)
Record ListDirectoryRequest := {
  ld_FilesystemID : string; ld_Path : string;
  ld_AuthorizationMetadata : AuthorizationMetadata; ld_Cursor : OpaqueCursor }.

(** makeDirectory, removeDirectory, readMetadata and removeFile carry the same
    three fields. *)
Record MakeDirectoryRequest := {
  md_FilesystemID : string; md_Path : string; md_AuthorizationMetadata : AuthorizationMetadata }.
Record RemoveDirectoryRequest := {
  rd_FilesystemID : string; rd_Path : string; rd_AuthorizationMetadata : AuthorizationMetadata }.
Record ReadMetadataRequest := {
  rm_FilesystemID : string; rm_Path : string; rm_AuthorizationMetadata : AuthorizationMetadata }.
Record RemoveFileRequest := {
  rf_FilesystemID : string; rf_Path : string; rf_AuthorizationMetadata : AuthorizationMetadata }.

Record MoveDirectoryRequest := {
  mvd_FilesystemID : string; mvd_Source : string; mvd_Destination : string;
  mvd_AuthorizationMetadata : AuthorizationMetadata }.

Record CopyFileRequest := {
  cf_FilesystemID : string; cf_Source : string; cf_Destination : string;
  cf_OverwriteExisting : bool; cf_AuthorizationMetadata : AuthorizationMetadata }.
Record MoveFileRequest := {
  mf_FilesystemID : string; mf_Source : string; mf_Destination : string;
  mf_OverwriteExisting : bool; mf_AuthorizationMetadata : AuthorizationMetadata }.

Record FileUploadRequest := {
  fu_FilesystemID : string; fu_Path : string; fu_DeclaredSizeBytes : Z;
  fu_OverwriteExisting : bool; fu_AuthorizationMetadata : AuthorizationMetadata }.

Record FileDownloadRequest := {
  fd_FilesystemID : string; fd_UUID : string; fd_Range : option Range;
  fd_AuthorizationMetadata : AuthorizationMetadata }.

Definition enc_am (am : AuthorizationMetadata) : json :=
  JObj [("intent", JStr (am_Intent am)); ("downloadable", JBool (am_Downloadable am))].

Definition enc_ListDirectoryRequest (r : ListDirectoryRequest) : json :=
  JObj ([("filesystem_id", JStr (ld_FilesystemID r)); ("path", JStr (ld_Path r));
         ("authorization_metadata", enc_am (ld_AuthorizationMetadata r))]
        ++ omit (bool_decide (ld_Cursor r = "")) "cursor" (JStr (ld_Cursor r))).

Definition enc_path_request (fsID path : string) (am : AuthorizationMetadata) : json :=
  JObj [("filesystem_id", JStr fsID); ("path", JStr path); ("authorization_metadata", enc_am am)].

Definition enc_MakeDirectoryRequest (r : MakeDirectoryRequest) : json :=
  enc_path_request (md_FilesystemID r) (md_Path r) (md_AuthorizationMetadata r).
Definition enc_RemoveDirectoryRequest (r : RemoveDirectoryRequest) : json :=
  enc_path_request (rd_FilesystemID r) (rd_Path r) (rd_AuthorizationMetadata r).
Definition enc_ReadMetadataRequest (r : ReadMetadataRequest) : json :=
  enc_path_request (rm_FilesystemID r) (rm_Path r) (rm_AuthorizationMetadata r).
Definition enc_RemoveFileRequest (r : RemoveFileRequest) : json :=
  enc_path_request (rf_FilesystemID r) (rf_Path r) (rf_AuthorizationMetadata r).

Definition enc_MoveDirectoryRequest (r : MoveDirectoryRequest) : json :=
  JObj [("filesystem_id", JStr (mvd_FilesystemID r)); ("source", JStr (mvd_Source r));
        ("destination", JStr (mvd_Destination r));
        ("authorization_metadata", enc_am (mvd_AuthorizationMetadata r))].

Definition enc_CopyFileRequest (r : CopyFileRequest) : json :=
  JObj [("filesystem_id", JStr (cf_FilesystemID r)); ("source", JStr (cf_Source r));
        ("destination", JStr (cf_Destination r)); ("overwrite_existing", JBool (cf_OverwriteExisting r));
        ("authorization_metadata", enc_am (cf_AuthorizationMetadata r))].

Definition enc_MoveFileRequest (r : MoveFileRequest) : json :=
  JObj [("filesystem_id", JStr (mf_FilesystemID r)); ("source", JStr (mf_Source r));
        ("destination", JStr (mf_Destination r)); ("overwrite_existing", JBool (mf_OverwriteExisting r));
        ("authorization_metadata", enc_am (mf_AuthorizationMetadata r))].

Definition enc_FileUploadRequest (r : FileUploadRequest) : json :=
  JObj ([("filesystem_id", JStr (fu_FilesystemID r)); ("path", JStr (fu_Path r));
         ("declared_size_bytes", JNum (fu_DeclaredSizeBytes r))]
        ++ omit (negb (fu_OverwriteExisting r)) "overwrite_existing" (JBool (fu_OverwriteExisting r))
        ++ [("authorization_metadata", enc_am (fu_AuthorizationMetadata r))]).

Definition enc_Range (r : Range) : json :=
  JObj [("offset", JNum (r_Offset r)); ("length", JNum (r_Length r))].

Definition enc_FileDownloadRequest (r : FileDownloadRequest) : json :=
  JObj ([("filesystem_id", JStr (fd_FilesystemID r)); ("uuid", JStr (fd_UUID r))]
        ++ match fd_Range r with Some rng => [("range", enc_Range rng)] | None => [] end
        ++ [("authorization_metadata", enc_am (fd_AuthorizationMetadata r))]).

(** ** Responses *)
Record ListDirEntry := mkEntry { le_File : option FilesystemFile; le_Directory : option Directory }.
Record ListDirectoryResponse := mkListResp { lr_Entries : option (list ListDirEntry); lr_Cursor : OpaqueCursor }.
Record ReadMetadataResponse := mkMetaResp { mr_File : File; mr_Directory : Directory }.
Definition AckResponse : Type := unit.

Definition zero_File : File := mkFile "" 0 "" "" "" "" "".
Definition zero_FilesystemFile : FilesystemFile := mkFilesystemFile "" 0 "" "" "" "" "".
Definition zero_Directory : Directory := mkDirectory "" "" "".
Definition zero_ListDirectoryResponse : ListDirectoryResponse := mkListResp None "".
Definition zero_ReadMetadataResponse : ReadMetadataResponse := mkMetaResp zero_File zero_Directory.

Definition file_fields : list string := ["path"; "size"; "mtime"; "mode"; "sha"; "mime"; "uuid"].

Definition set_File (f : string) (v : json) (t : File) : option File :=
  let '(mkFile p s mt mo sh mi u) := t in
  if decide (f = "path") then (λ x, mkFile x s mt mo sh mi u) <$> dec_string v p
  else if decide (f = "size") then (λ x, mkFile p x mt mo sh mi u) <$> dec_int64 v s
  else if decide (f = "mtime") then (λ x, mkFile p s x mo sh mi u) <$> dec_string v mt
  else if decide (f = "mode") then (λ x, mkFile p s mt x sh mi u) <$> dec_string v mo
  else if decide (f = "sha") then (λ x, mkFile p s mt mo x mi u) <$> dec_string v sh
  else if decide (f = "mime") then (λ x, mkFile p s mt mo sh x u) <$> dec_string v mi
  else (λ x, mkFile p s mt mo sh mi x) <$> dec_string v u.

Definition set_FilesystemFile (f : string) (v : json) (t : FilesystemFile) : option FilesystemFile :=
  let '(mkFilesystemFile p s mt mo sh mi u) := t in
  if decide (f = "path") then (λ x, mkFilesystemFile x s mt mo sh mi u) <$> dec_string v p
  else if decide (f = "size") then (λ x, mkFilesystemFile p x mt mo sh mi u) <$> dec_int64 v s
  else if decide (f = "mtime") then (λ x, mkFilesystemFile p s x mo sh mi u) <$> dec_string v mt
  else if decide (f = "mode") then (λ x, mkFilesystemFile p s mt x sh mi u) <$> dec_string v mo
  else if decide (f = "sha") then (λ x, mkFilesystemFile p s mt mo x mi u) <$> dec_string v sh
  else if decide (f = "mime") then (λ x, mkFilesystemFile p s mt mo sh x u) <$> dec_string v mi
  else (λ x, mkFilesystemFile p s mt mo sh mi x) <$> dec_string v u.

Definition set_Directory (f : string) (v : json) (t : Directory) : option Directory :=
  let '(mkDirectory p m mt) := t in
  if decide (f = "path") then (λ x, mkDirectory x m mt) <$> dec_string v p
  else if decide (f = "mode") then (λ x, mkDirectory p x mt) <$> dec_string v m
  else (λ x, mkDirectory p m x) <$> dec_string v mt.

Definition dec_File : json → File → option File := decode_struct file_fields set_File false.
Definition dec_FilesystemFile : json → FilesystemFile → option FilesystemFile :=
  decode_struct file_fields set_FilesystemFile false.
Definition dec_Directory : json → Directory → option Directory :=
  decode_struct ["path"; "mode"; "mtime"] set_Directory false.

Definition set_ListDirEntry (f : string) (v : json) (t : ListDirEntry) : option ListDirEntry :=
  if decide (f = "file")
  then (λ x, mkEntry x (le_Directory t)) <$> dec_ptr zero_FilesystemFile dec_FilesystemFile v (le_File t)
  else (λ x, mkEntry (le_File t) x) <$> dec_ptr zero_Directory dec_Directory v (le_Directory t).

Definition dec_ListDirEntry : json → ListDirEntry → option ListDirEntry :=
  decode_struct ["file"; "directory"] set_ListDirEntry false.

Definition set_ListDirectoryResponse (f : string) (v : json) (t : ListDirectoryResponse) : option ListDirectoryResponse :=
  if decide (f = "entries")
  then (λ x, mkListResp x (lr_Cursor t)) <$> dec_slice (mkEntry None None) dec_ListDirEntry v (lr_Entries t)
  else (λ x, mkListResp (lr_Entries t) x) <$> dec_string v (lr_Cursor t).

Definition dec_ListDirectoryResponse : json → ListDirectoryResponse → option ListDirectoryResponse :=
  decode_struct ["entries"; "cursor"] set_ListDirectoryResponse false.

Definition set_ReadMetadataResponse (f : string) (v : json) (t : ReadMetadataResponse) : option ReadMetadataResponse :=
  if decide (f = "file") then (λ x, mkMetaResp x (mr_Directory t)) <$> dec_File v (mr_File t)
  else (λ x, mkMetaResp (mr_File t) x) <$> dec_Directory v (mr_Directory t).

Definition dec_ReadMetadataResponse : json → ReadMetadataResponse → option ReadMetadataResponse :=
  decode_struct ["file"; "directory"] set_ReadMetadataResponse false.

Definition dec_AckResponse : json → AckResponse → option AckResponse :=
  decode_struct [] (λ _ _ t, Some t) false.

(** ** Properties of the intent table *)

Definition read_ops : list Op :=
  [OpListDirectory; OpReadFile; OpReadMetadata; OpGetFileMetadata; OpListFiles; OpFileDownload].
Definition write_ops : list Op :=
  [OpMakeDirectory; OpMoveDirectory; OpRemoveDirectory; OpCreateFile; OpCopyFile; OpMoveFile;
   OpRemoveFile; OpFileUpload; OpImportFiles; OpImportZip; OpMigrateFilesystem; OpRemoveFilesystem].

Lemma opIntentTable_cases op i :
  opIntentTable !! op = Some i → (op ∈ read_ops ∧ i = "read") ∨ (op ∈ write_ops ∧ i = "write").
Proof.
  unfold opIntentTable. simpl. intros H.
  repeat (apply lookup_insert_Some in H as [[<- <-]|[_ H]];
          [first [left; split; [set_solver|done] | right; split; [set_solver|done]]|]).
  done.
Qed.

(** The stamped metadata is the op's intent and nothing else: read for the
    six read-class ops, write for the twelve mutating ops, an error for any
    other op name, and downloadable is never requested. *)
Theorem StampAuthMeta_spec op :
  match StampAuthMeta op with
  | Ok am => am_Downloadable am = false ∧
             ((op ∈ read_ops ∧ am_Intent am = "read") ∨ (op ∈ write_ops ∧ am_Intent am = "write"))
  | Err _ => op ∉ read_ops ++ write_ops
  end.
Proof.
  unfold StampAuthMeta, IntentFor.
  destruct (opIntentTable !! op) as [i|] eqn:E; simpl.
  - split; [done|]. by apply opIntentTable_cases.
  - intros H. unfold read_ops, write_ops in H. simpl in H.
    repeat (apply elem_of_cons in H as [->|H]; [by vm_compute in E|]).
    by apply elem_of_nil in H.
Qed.

Lemma StampAuthMeta_op op : op ∈ read_ops ++ write_ops →
  ∃ am, StampAuthMeta op = Ok am ∧ am_Downloadable am = false.
Proof.
  intros H. destruct (StampAuthMeta op) as [am|e] eqn:E.
  - exists am. split; [done|]. unfold StampAuthMeta in E. by destruct (IntentFor op); simplify_eq.
  - exfalso. unfold StampAuthMeta, IntentFor in E.
    destruct (opIntentTable !! op) as [i|] eqn:E2; [done|].
    unfold read_ops, write_ops in H. simpl in H.
    repeat (apply elem_of_cons in H as [->|H]; [by vm_compute in E2|]).
    by apply elem_of_nil in H.
Qed.

Example decode_listing : 
  dec_ListDirectoryResponse
    (JObj [("entries", JArr [JObj [("file", JObj [("path", JStr "/a"); ("SIZE", JNum 3); ("extra", JNull)])];
                             JObj [("directory", JObj [("path", JStr "/d")])]]); ("cursor", JStr "c1")])
    zero_ListDirectoryResponse
  = Some (mkListResp (Some [mkEntry (Some (mkFilesystemFile "/a" 3 "" "" "" "" "")) None;
                            mkEntry None (Some (mkDirectory "/d" "" ""))]) "c1").
Proof. vm_compute. reflexivity. Qed.
