(* ===== verification/Client.v ===== *)
(** * The broker REST client (internal/brokerrpc/client.go)

    [Client] is the bound configuration; the wire is the class [Transport]:
    one exchange of an HTTP request for a response, over an abstract world [W].
    net/url's parser and x509's PEM loader are arguments of the constructor. *)
From Stdlib Require Import Ascii String.
From stdpp Require Import base list strings numbers gmap.
From S2P Require Import Prelude GoErrors GoIO GoJson GoPath BrokerErrors Messages.
Local Open Scope Z_scope.

(** ** HTTP *)

(** One write into the upload pipe: a part header, part data, the closing
    boundary. *)
Inductive pipe_write : Type :=
| PWPart (name filename : string)
| PWData (data : bytes)
| PWEnd.

(** A JSON body, or the write end of a pipe: the writes its producer will make
    and the error it closes the pipe with. *)
Inductive request_body : Type :=
| BodyJSON (j : json)
| BodyPipe (writes : list pipe_write) (close_err : option error).

Record http_request := mkReq {
  rq_method : string; rq_url : string; rq_content_type : string;
  rq_authorization : string; rq_body : request_body }.

(** [rs_content_length] is -1 for a chunked body. *)
Record http_response := mkResp {
  rs_status : Z; rs_retry_after : string; rs_content_length : Z; rs_body : reader }.

(** The outcome of [http.Client.Do]: the result, and how many writes of a
    pipe body were accepted before the transport closed the read end. *)
Record do_outcome := mkDo { do_result : result error http_response; do_consumed : nat }.

Class Transport (W : Type) := Do : http_request → W → do_outcome * W.

(** A server with a log of every request it was sent. *)
Section logged.
Context {S : Type} (srv : http_request → S → do_outcome * S).
Definition logged_do (rq : http_request) (w : list http_request * S) : do_outcome * (list http_request * S) :=
  let '(o, s') := srv rq (snd w) in (o, (fst w ++ [rq], s')).
#[export] Instance logged : Transport (list http_request * S) := logged_do.
End logged.

(** ** Construction *)
Definition restBase : string := "v1/filestore/fs/".
Definition maxJSONResponseBytes : Z := Z.shiftl 64 20.
Definition defaultMessageCeiling : Z := 256 * 1024.
Definition defaultMaxDownloadBytes : Z := Z.shiftl 1 34.
Definition defaultMaxListPages : Z := 65536.

Record ClientOptions := { MessageCeiling : Z; MaxDownloadBytes : Z }.

Record Client := mkClient {
  c_serviceURL : string; c_fsID : string; c_authToken : string;
  c_messageCeiling : Z; c_maxDownloadBytes : Z; c_maxListPages : Z }.

(** net/url's URL, the two components the code reads. *)
Record URL := { u_Scheme : string; u_Host : string }.

Section construct.
Variable url_Parse : string → result error URL.
Variable AppendCertsFromPEM : bytes → bool.

(** transport.go: the only trust anchor is the supplied CA. *)
Definition httpsTransport (caCertPEM : bytes) : result error unit :=
  if decide (caCertPEM = []) then Err (errors_New "brokerrpc: ca_cert_pem must not be empty")
  else if AppendCertsFromPEM caCertPEM then Ok tt
  else Err (errors_New "brokerrpc: ca_cert_pem contains no usable certificate").

Definition NewWithOptions (serviceURL fsID authToken : string) (caCertPEM : bytes)
    (opts : ClientOptions) : result error Client :=
  if decide (serviceURL = "") then Err (errors_New "brokerrpc.New: serviceURL must not be empty")
  else match url_Parse serviceURL with
  | Err e => Err (EErrorf "brokerrpc.New: serviceURL is not a valid URL: %w" [] [e])
  | Ok u =>
    if decide (u_Scheme u ≠ "https") then
      Err (EErrorf "brokerrpc.New: serviceURL must be an https:// URL, got scheme %q" [AStr (u_Scheme u)] [])
    else if decide (u_Host u = "") then Err (errors_New "brokerrpc.New: serviceURL must include a host")
    else if decide (fsID = "") then Err (errors_New "brokerrpc.New: fsID must not be empty")
    else if decide (authToken = "") then Err (errors_New "brokerrpc.New: authToken must not be empty")
    else if decide (caCertPEM = []) then Err (errors_New "brokerrpc.New: caCertPEM must not be empty")
    else match httpsTransport caCertPEM with
    | Err e => Err (EErrorf "brokerrpc.New: build transport: %w" [] [e])
    | Ok _ =>
        let ceiling := if MessageCeiling opts <=? 0 then defaultMessageCeiling else MessageCeiling opts in
        let maxDL := if MaxDownloadBytes opts <=? 0 then defaultMaxDownloadBytes else MaxDownloadBytes opts in
        Ok (mkClient serviceURL fsID authToken ceiling maxDL defaultMaxListPages)
    end
  end.

Definition New (serviceURL fsID authToken : string) (caCertPEM : bytes) : result error Client :=
  NewWithOptions serviceURL fsID authToken caCertPEM {| MessageCeiling := 0; MaxDownloadBytes := 0 |}.
End construct.

(** ** Calls *)
Definition opURL (c : Client) (op : Op) : string :=
  trim_right slash (c_serviceURL c) +:+ "/" +:+ restBase +:+ op.

Definition bearer (c : Client) : string := "Bearer " +:+ c_authToken c.

(** The JSON POST every op other than fileUpload sends. *)
Definition json_request (c : Client) (op : Op) (body : json) : http_request :=
  mkReq "POST" (opURL c op) "application/json" (bearer c) (BodyJSON body).

(** Decoding a 2xx body: the first JSON value of at most
    [maxJSONResponseBytes] bytes, into the response struct. *)
Definition decode_body {T} (dec : json → T → option T) (zero : T) (r : reader) : result error T :=
  match parse_first (string_of_bytes (ztake maxJSONResponseBytes (content r))) with
  | PDone j _ => match dec j zero with
                 | Some t => Ok t
                 | None => Err (errors_New "json: cannot unmarshal value into Go struct field")
                 end
  | PBad => Err (errors_New "invalid character")
  | PMore => if is_EOF (final_err r) || (maxJSONResponseBytes <=? zlen (content r))
             then Err (errors_New "unexpected EOF") else Err (final_err r)
  end.

Definition is_2xx (status : Z) : bool := negb ((status <? 200) || (status >? 299)).

(** [newRequest] is http.NewRequestWithContext's URL check: [None] accepts. *)
Class RequestURL := newRequest_err : string → option error.

Section call.
Context `{TW : Transport W, RU : RequestURL}.

Definition call {T} (c : Client) (op : Op) (req : json)
    (dec : json → T → option T) (zero : T) (w : W) : result error T * W :=
  match newRequest_err (opURL c op) with
  | Some e => (Err (EErrorf "brokerrpc: build request for %s: %w" [AStr op] [e]), w)
  | None =>
      let '(o, w') := Do (json_request c op req) w in
      match do_result o with
      | Err e => (Err (EErrorf "brokerrpc: %s: %w" [AStr op] [e]), w')
      | Ok resp =>
          if is_2xx (rs_status resp) then
            match decode_body dec zero (rs_body resp) with
            | Ok t => (Ok t, w')
            | Err e => (Err (EErrorf "brokerrpc: unmarshal %s response: %w" [AStr op] [e]), w')
            end
          else (Err (MapHTTPStatus (rs_status resp) (captureErrorBody (rs_body resp)) (rs_retry_after resp)), w')
      end
  end.

Definition stamp (c : Client) (op : Op) : result error (string * AuthorizationMetadata) :=
  match StampAuthMeta op with
  | Err e => Err e
  | Ok am => Ok (c_fsID c, am)
  end.

Definition ListDirectory (c : Client) (path : string) (w : W) : result error ListDirectoryResponse * W :=
  match stamp c OpListDirectory with
  | Err e => (Err e, w)
  | Ok (fsID, am) =>
      let req := {| ld_FilesystemID := fsID; ld_Path := path; ld_AuthorizationMetadata := am; ld_Cursor := "" |} in
      call c OpListDirectory (enc_ListDirectoryRequest req) dec_ListDirectoryResponse zero_ListDirectoryResponse w
  end.

Definition MakeDirectory (c : Client) (path : string) (w : W) : result error AckResponse * W :=
  match stamp c OpMakeDirectory with
  | Err e => (Err e, w)
  | Ok (fsID, am) =>
      let req := {| md_FilesystemID := fsID; md_Path := path; md_AuthorizationMetadata := am |} in
      call c OpMakeDirectory (enc_MakeDirectoryRequest req) dec_AckResponse tt w
  end.

Definition MoveDirectory (c : Client) (sourcePath destinationPath : string) (w : W) : result error AckResponse * W :=
  match stamp c OpMoveDirectory with
  | Err e => (Err e, w)
  | Ok (fsID, am) =>
      let req := {| mvd_FilesystemID := fsID; mvd_Source := sourcePath; mvd_Destination := destinationPath;
                    mvd_AuthorizationMetadata := am |} in
      call c OpMoveDirectory (enc_MoveDirectoryRequest req) dec_AckResponse tt w
  end.

Definition RemoveDirectory (c : Client) (path : string) (w : W) : result error AckResponse * W :=
  match stamp c OpRemoveDirectory with
  | Err e => (Err e, w)
  | Ok (fsID, am) =>
      let req := {| rd_FilesystemID := fsID; rd_Path := path; rd_AuthorizationMetadata := am |} in
      call c OpRemoveDirectory (enc_RemoveDirectoryRequest req) dec_AckResponse tt w
  end.

Definition ReadMetadata (c : Client) (path : string) (w : W) : result error ReadMetadataResponse * W :=
  match stamp c OpReadMetadata with
  | Err e => (Err e, w)
  | Ok (fsID, am) =>
      let req := {| rm_FilesystemID := fsID; rm_Path := path; rm_AuthorizationMetadata := am |} in
      call c OpReadMetadata (enc_ReadMetadataRequest req) dec_ReadMetadataResponse zero_ReadMetadataResponse w
  end.

Definition CopyFile (c : Client) (sourcePath destinationPath : string) (w : W) : result error AckResponse * W :=
  match stamp c OpCopyFile with
  | Err e => (Err e, w)
  | Ok (fsID, am) =>
      let req := {| cf_FilesystemID := fsID; cf_Source := sourcePath; cf_Destination := destinationPath;
                    cf_OverwriteExisting := true; cf_AuthorizationMetadata := am |} in
      call c OpCopyFile (enc_CopyFileRequest req) dec_AckResponse tt w
  end.

Definition MoveFile (c : Client) (sourcePath destinationPath : string) (w : W) : result error AckResponse * W :=
  match stamp c OpMoveFile with
  | Err e => (Err e, w)
  | Ok (fsID, am) =>
      let req := {| mf_FilesystemID := fsID; mf_Source := sourcePath; mf_Destination := destinationPath;
                    mf_OverwriteExisting := true; mf_AuthorizationMetadata := am |} in
      call c OpMoveFile (enc_MoveFileRequest req) dec_AckResponse tt w
  end.

Definition RemoveFile (c : Client) (path : string) (w : W) : result error AckResponse * W :=
  match stamp c OpRemoveFile with
  | Err e => (Err e, w)
  | Ok (fsID, am) =>
      let req := {| rf_FilesystemID := fsID; rf_Path := path; rf_AuthorizationMetadata := am |} in
      call c OpRemoveFile (enc_RemoveFileRequest req) dec_AckResponse tt w
  end.
End call.
