(* ===== verification/Cursor.v ===== *)
(** * Paged listing (internal/brokerrpc/cursor.go)

    The page guard, the streaming listing loop with its yield callback, and the
    buffering wrapper.  The loop runs on fuel [maxListPages + 1]; the guard
    stops it within [maxListPages] pages, so the fuel never runs out. *)
From Stdlib Require Import Ascii String.
From stdpp Require Import base list strings numbers gmap.
From S2P Require Import Prelude GoErrors GoIO GoJson Sha256 Messages Client.
Local Open Scope Z_scope.

(** ** The page guard *)
Record pageGuard := mkGuard {
  pg_fn : string; pg_maxPages : Z; pg_pages : Z; pg_seen : gset (list Z) }.

Definition newPageGuard (fn : string) (maxPages : Z) : pageGuard := mkGuard fn maxPages 0 ∅.

Definition err_ceiling (g : pageGuard) : error :=
  EErrorf "brokerrpc: %s: pagination exceeded the %d-page ceiling — aborting unbounded listing"
    [AStr (pg_fn g); AInt (pg_maxPages g)] [].

Definition err_cycle (g : pageGuard) (cursor : OpaqueCursor) : error :=
  EErrorf "brokerrpc: %s: cursor did not advance (%q) — aborting pagination cycle"
    [AStr (pg_fn g); AStr cursor] [].

Definition admit_page (g : pageGuard) (cursor : OpaqueCursor) : result error pageGuard :=
  let pages := pg_pages g + 1 in
  if pages >=? pg_maxPages g then Err (err_ceiling g)
  else
    let key := Sum256 cursor in
    if decide (key ∈ pg_seen g) then Err (err_cycle g cursor)
    else Ok (mkGuard (pg_fn g) (pg_maxPages g) pages ({[key]} ∪ pg_seen g)).

(** ** The listing loop *)
Section listing.
Context `{TW : Transport W, RU : RequestURL}.

Definition page_request (fsID path : string) (am : AuthorizationMetadata) (cursor : OpaqueCursor) : json :=
  enc_ListDirectoryRequest
    {| ld_FilesystemID := fsID; ld_Path := path; ld_AuthorizationMetadata := am; ld_Cursor := cursor |}.

Definition fetch_page (c : Client) (fsID path : string) (am : AuthorizationMetadata)
    (cursor : OpaqueCursor) (w : W) : result error ListDirectoryResponse * W :=
  call c OpListDirectory (page_request fsID path am cursor)
    dec_ListDirectoryResponse zero_ListDirectoryResponse w.

Section stream.
Context {A : Type} (yield : A → ListDirEntry → result error A).

(** The inner range loop over one page's entries. *)
Fixpoint yield_all (es : list ListDirEntry) (a : A) : A * option error :=
  match es with
  | [] => (a, None)
  | e :: es' => match yield a e with
                | Ok a' => yield_all es' a'
                | Err err => (a, Some err)
                end
  end.

(** [None] only when the fuel runs out. *)
Fixpoint list_loop (fuel : nat) (c : Client) (fsID path : string) (am : AuthorizationMetadata)
    (cursor : OpaqueCursor) (g : pageGuard) (a : A) (w : W) : option (A * option error * W) :=
  match fuel with
  | O => None
  | S f =>
      let '(r, w') := fetch_page c fsID path am cursor w in
      match r with
      | Err e => Some (a, Some (EErrorf "brokerrpc: ListDirectoryStream: %w" [] [e]), w')
      | Ok resp =>
          match yield_all (default [] (lr_Entries resp)) a with
          | (a', Some err) => Some (a', Some err, w')
          | (a', None) =>
              if decide (lr_Cursor resp = "") then Some (a', None, w')
              else match admit_page g (lr_Cursor resp) with
                   | Err e => Some (a', Some e, w')
                   | Ok g' => list_loop f c fsID path am (lr_Cursor resp) g' a' w'
                   end
          end
      end
  end.

Definition list_fuel (c : Client) : nat := S (Z.to_nat (c_maxListPages c)).

Definition ListDirectoryStream (c : Client) (path : string) (a : A) (w : W) : A * option error * W :=
  match stamp c OpListDirectory with
  | Err e => (a, Some e, w)
  | Ok (fsID, am) =>
      match list_loop (list_fuel c) c fsID path am ""
              (newPageGuard "ListDirectoryStream" (c_maxListPages c)) a w with
      | Some r => r
      | None => (a, Some (errors_New "unreachable"), w)
      end
  end.
End stream.

Definition ListDirectoryAll (c : Client) (path : string) (w : W) : result error (list ListDirEntry) * W :=
  let '(all, err, w') := ListDirectoryStream (λ all e, Ok (all ++ [e])) c path [] w in
  match err with
  | Some e => (Err e, w')
  | None => (Ok all, w')
  end.
End listing.

(** ** The guard *)

Lemma admit_page_Ok g cur g' :
  admit_page g cur = Ok g' →
  pg_pages g' = pg_pages g + 1 ∧ pg_pages g' < pg_maxPages g ∧ pg_maxPages g' = pg_maxPages g ∧
  Sum256 cur ∉ pg_seen g ∧ pg_seen g' = {[Sum256 cur]} ∪ pg_seen g.
Proof.
  unfold admit_page. destruct (Z.geb_spec (pg_pages g + 1) (pg_maxPages g)); [done|].
  case_decide; [done|]. intros. by simplify_eq/=.
Qed.

Lemma admit_page_fresh g cur :
  pg_pages g + 1 < pg_maxPages g → Sum256 cur ∉ pg_seen g →
  admit_page g cur = Ok (mkGuard (pg_fn g) (pg_maxPages g) (pg_pages g + 1) ({[Sum256 cur]} ∪ pg_seen g)).
Proof.
  intros. unfold admit_page. destruct (Z.geb_spec (pg_pages g + 1) (pg_maxPages g)); [lia|].
  by rewrite decide_False.
Qed.

(** A cursor that repeats one of the cursors already admitted in the
    listing, at any distance, is refused: the guard never admits the same
    cursor twice however many admits lie between. *)
Theorem admit_page_no_repeat g cur g1 curs gn :
  admit_page g cur = Ok g1 →
  foldl (λ r c, match r with Ok h => admit_page h c | Err e => Err e end) (Ok g1) curs = Ok gn →
  ∃ e, admit_page gn cur = Err e.
Proof.
  intros H1 Hn.
  assert (Sum256 cur ∈ pg_seen gn) as Hin.
  { apply admit_page_Ok in H1 as (_ & _ & _ & _ & Hs).
    assert (Sum256 cur ∈ pg_seen g1) as Hin by (rewrite Hs; by apply elem_of_union_l, elem_of_singleton). clear Hs.
    revert g1 Hn Hin. induction curs as [|c curs IH]; intros g1 Hn Hin; simpl in Hn; [by simplify_eq|].
    destruct (admit_page g1 c) as [g2|e] eqn:E.
    - apply (IH g2); [done|]. apply admit_page_Ok in E as (_ & _ & _ & _ & ->). set_solver.
    - exfalso. clear -Hn. induction curs; simpl in *; [done|auto]. }
  unfold admit_page. destruct (_ >=? _); [eauto|]. rewrite decide_True by done. eauto.
Qed.

Lemma admit_page_no_repeat_witness :
  ∃ g1 gn, admit_page (newPageGuard "f" 10) "A" = Ok g1 ∧
    foldl (λ r c, match r with Ok h => admit_page h c | Err e => Err e end) (Ok g1) ["B"] = Ok gn ∧
    ∃ e, admit_page gn "A" = Err e.
Proof.
  enough (∀ x y, Sum256 y ≠ Sum256 x →
    ∃ g1 gn, admit_page (newPageGuard "f" 10) x = Ok g1 ∧
      foldl (λ r c, match r with Ok h => admit_page h c | Err e => Err e end) (Ok g1) [y] = Ok gn ∧
      ∃ e, admit_page gn x = Err e) as H by (apply H; vm_compute; discriminate).
  intros x y Hne.
  pose proof (admit_page_fresh (newPageGuard "f" 10) x eq_refl (not_elem_of_empty _)) as H1.
  eassert (admit_page _ y = Ok _) as H2
    by (apply (admit_page_fresh (mkGuard "f" 10 1 ({[Sum256 x]} ∪ ∅))); [reflexivity|simpl; set_solver]).
  eexists _, _. split; [exact H1|]. split; [exact H2|].
  exact (admit_page_no_repeat _ x _ [y] _ H1 H2).
Defined.

(** ** The loop *)
Section loop_facts.
Context `{TW : Transport W, RU : RequestURL}.
Context {A : Type} (yield : A → ListDirEntry → result error A).

(** Enough fuel: the pages still allowed, plus the one that hits the ceiling. *)
Lemma list_loop_terminates fuel c fsID path am cursor g a w :
  pg_maxPages g - pg_pages g < Z.of_nat fuel → (0 < fuel)%nat →
  is_Some (list_loop yield fuel c fsID path am cursor g a w).
Proof.
  revert cursor g a w. induction fuel as [|f IH]; intros cursor g a w Hf H0; [lia|]. simpl.
  destruct (fetch_page c fsID path am cursor w) as [[resp|e] w']; [|eauto].
  destruct (yield_all yield _ a) as [a' [err|]]; [eauto|].
  case_decide; [eauto|].
  destruct (admit_page g (lr_Cursor resp)) as [g'|e] eqn:E; [|eauto].
  apply admit_page_Ok in E as (? & ? & ? & _). apply IH; lia.
Qed.

Lemma list_loop_mono fuel fuel' c fsID path am cursor g a w r :
  list_loop yield fuel c fsID path am cursor g a w = Some r → (fuel <= fuel')%nat →
  list_loop yield fuel' c fsID path am cursor g a w = Some r.
Proof.
  revert fuel' cursor g a w. induction fuel as [|f IH]; intros fuel' cursor g a w; [done|].
  intros H Hle. destruct fuel' as [|f']; [lia|]. simpl in *.
  destruct (fetch_page c fsID path am cursor w) as [[resp|e] w']; [|done].
  destruct (yield_all yield _ a) as [a' [err|]]; [done|].
  case_decide; [done|].
  destruct (admit_page g (lr_Cursor resp)) as [g'|e]; [|done].
  apply IH; [done|lia].
Qed.

Lemma ListDirectoryStream_eq c path a w fsID am :
  stamp c OpListDirectory = Ok (fsID, am) →
  list_loop yield (list_fuel c) c fsID path am "" (newPageGuard "ListDirectoryStream" (c_maxListPages c)) a w
  = Some (ListDirectoryStream yield c path a w).
Proof.
  intros Hs. unfold ListDirectoryStream. rewrite Hs.
  destruct (list_loop_terminates (list_fuel c) c fsID path am ""
              (newPageGuard "ListDirectoryStream" (c_maxListPages c)) a w) as [r Hr].
  - unfold list_fuel, newPageGuard; simpl. lia.
  - unfold list_fuel. lia.
  - by rewrite Hr.
Qed.

Lemma list_loop_pages (measure : W → Z) (Hone : ∀ c op j T (dec : json → T → option T) z w,
    measure (snd (call c op j dec z w)) <= measure w + 1)
  fuel c fsID path am cursor g a w a' e w' :
  list_loop yield fuel c fsID path am cursor g a w = Some (a', e, w') →
  measure w' <= measure w + Z.max 1 (pg_maxPages g - pg_pages g).
Proof.
  revert cursor g a w. induction fuel as [|f IH]; intros cursor g a w; [done|]. simpl.
  destruct (fetch_page c fsID path am cursor w) as [r w1] eqn:Ef.
  assert (measure w1 <= measure w + 1) as H1.
  { unfold fetch_page in Ef.
    pose proof (Hone c OpListDirectory (page_request fsID path am cursor) _
                  dec_ListDirectoryResponse zero_ListDirectoryResponse w) as Hm.
    by rewrite Ef in Hm. }
  destruct r as [resp|err]; [|intros; simplify_eq; lia].
  destruct (yield_all yield _ a) as [a1 [err|]]; [intros; simplify_eq; lia|].
  case_decide; [intros; simplify_eq; lia|].
  destruct (admit_page g (lr_Cursor resp)) as [g'|err] eqn:E; [|intros; simplify_eq; lia].
  intros H2. apply IH in H2. apply admit_page_Ok in E as (Hp & Hlt & Hm & _). lia.
Qed.
End loop_facts.

(** ** Requests issued by a listing, on a logged wire *)
Section logged_facts.
Context {S : Type} (srv : http_request → S → do_outcome * S) `{RU : RequestURL}.
Notation LW := (list http_request * S)%type.
#[local] Existing Instance logged.

Definition log_len (w : LW) : Z := zlen (fst w).

Lemma call_log_len c op j {T} (dec : json → T → option T) z (w : LW) :
  log_len (snd (call (TW := logged srv) c op j dec z w)) <= log_len w + 1.
Proof.
  unfold call, log_len. destruct (newRequest_err _); simpl; [lia|].
  unfold Do, logged, logged_do. destruct (srv _ _) as [o s']; simpl.
  destruct (do_result o) as [resp|e]; simpl; [|rewrite zlen_app; simpl; lia].
  destruct (is_2xx _); [destruct (decode_body _ _ _)|]; simpl; rewrite zlen_app; simpl; lia.
Qed.

(** C26: a paged listing terminates and sends at most [maxListPages] requests
    (one when the ceiling is not positive), whatever the broker answers and
    whatever the callback does: with the loop's fuel the loop always returns,
    and no larger fuel changes what it returns. *)
Theorem ListDirectoryStream_bounded {A} (yield : A → ListDirEntry → result error A)
    (c : Client) (path : string) (a : A) (w : LW) :
  let '(_, _, w') := ListDirectoryStream (TW := logged srv) yield c path a w in
  log_len w' <= log_len w + Z.max 1 (c_maxListPages c) ∧
  ∀ fsID am fuel, stamp c OpListDirectory = Ok (fsID, am) → (list_fuel c <= fuel)%nat →
    list_loop (TW := logged srv) yield fuel c fsID path am ""
      (newPageGuard "ListDirectoryStream" (c_maxListPages c)) a w
    = Some (ListDirectoryStream (TW := logged srv) yield c path a w).
Proof.
  destruct (ListDirectoryStream yield c path a w) as [[a' e] w'] eqn:E. split.
  - destruct (stamp c OpListDirectory) as [[fsID am]|err] eqn:Hs.
    + pose proof (ListDirectoryStream_eq (TW := logged srv) yield c path a w fsID am Hs) as Heq.
      rewrite E in Heq.
      apply (list_loop_pages (TW := logged srv) yield log_len) in Heq;
        [simpl in Heq; rewrite Z.sub_0_r in Heq; done|].
      intros. apply call_log_len.
    + unfold ListDirectoryStream in E. rewrite Hs in E. by simplify_eq.
  - intros fsID am fuel Hs Hle. eapply list_loop_mono; [|done].
    rewrite <-E. by apply ListDirectoryStream_eq.
Qed.
End logged_facts.

(** ** Completeness *)
Section complete.
Context `{TW : Transport W, RU : RequestURL}.
Variables (c : Client) (fsID path : string) (am : AuthorizationMetadata).

(** The broker serves the pages [ps] from cursor [cur] on: each request
    echoes the cursor of the page before, [curs] are the continuation
    cursors handed out, and the last page carries none. *)
Inductive serves : OpaqueCursor → W → list (list ListDirEntry) → list OpaqueCursor → W → Prop :=
| serves_last cur w es w' :
    fetch_page c fsID path am cur w = (Ok (mkListResp es ""), w') →
    serves cur w [default [] es] [] w'
| serves_more cur w es cur' w1 ps curs w' :
    fetch_page c fsID path am cur w = (Ok (mkListResp es cur'), w1) →
    cur' ≠ "" → serves cur' w1 ps curs w' →
    serves cur w (default [] es :: ps) (cur' :: curs) w'.

Lemma yield_all_collect (es : list ListDirEntry) (a : list ListDirEntry) :
  yield_all (λ all e, Ok (all ++ [e])) es a = (a ++ es, None).
Proof.
  revert a. induction es as [|e es IH]; intros a; simpl; [by rewrite app_nil_r|].
  rewrite IH. by rewrite <-app_assoc.
Qed.

Lemma list_loop_serves cur w ps curs w' :
  serves cur w ps curs w' →
  ∀ g a fuel,
    NoDup (map Sum256 curs) → (∀ k, k ∈ map Sum256 curs → k ∉ pg_seen g) →
    pg_pages g + zlen curs < pg_maxPages g → pg_maxPages g - pg_pages g < Z.of_nat fuel →
    list_loop (λ all e, Ok (all ++ [e])) fuel c fsID path am cur g a w = Some (a ++ mjoin ps, None, w').
Proof.
  induction 1 as [cur w es w' Hf|cur w es cur' w1 ps curs w' Hf Hne _ IH];
    intros g a fuel Hnd Hfresh Hpages Hfuel.
  - destruct fuel as [|fuel]; [simpl in *; lia|]. simpl. rewrite Hf. simpl.
    rewrite yield_all_collect. simpl. by rewrite app_nil_r.
  - destruct fuel as [|fuel]; [pose proof (zlen_nonneg curs); simpl in *; lia|].
    apply NoDup_cons in Hnd as [Hni Hnd].
    pose proof (zlen_nonneg curs). cbn [zlen] in Hpages. simpl. rewrite Hf. simpl.
    rewrite yield_all_collect. rewrite decide_False by done.
    rewrite admit_page_fresh; [|lia|apply Hfresh; simpl; set_solver].
    rewrite IH; simpl; [by rewrite <-app_assoc|done| |lia|lia].
    intros k Hk. apply not_elem_of_union. split; [set_solver|].
    apply Hfresh. simpl. set_solver.
Qed.

Lemma ListDirectoryAll_serves (w w' : W) (ps : list (list ListDirEntry)) (curs : list OpaqueCursor) :
  stamp c OpListDirectory = Ok (fsID, am) →
  serves "" w ps curs w' → NoDup (map Sum256 curs) → zlen curs < c_maxListPages c →
  ListDirectoryAll c path w = (Ok (mjoin ps), w').
Proof.
  intros Hs Hserves Hnd Hlen. unfold ListDirectoryAll.
  pose proof (ListDirectoryStream_eq (λ all e, Ok (all ++ [e])) c path [] w fsID am Hs) as Heq.
  rewrite (list_loop_serves "" w ps curs w') in Heq; [|done|done| |simpl; lia|unfold list_fuel; simpl; lia].
  - by injection Heq as <-.
  - intros k _. simpl. set_solver.
Qed.
(** C25: when the broker serves a listing in fewer pages than the ceiling,
    with continuation cursors whose digests are distinct, the collected
    listing is exactly the concatenation of all pages in order, and the wire
    has been driven to the last page. *)
Theorem ListDirectoryAll_complete (w w' : W) (ps : list (list ListDirEntry)) (curs : list OpaqueCursor) :
  stamp c OpListDirectory = Ok (fsID, am) →
  serves "" w ps curs w' → NoDup (map Sum256 curs) → zlen curs < c_maxListPages c →
  ListDirectoryAll c path w = (Ok (mjoin ps), w').
Proof. apply ListDirectoryAll_serves. Qed.
End complete.

(** A broker that serves two pages. *)
Definition demo_client : Client := mkClient "https://edge.internal" "fs1" "tok" 262144 17179869184 65536.

Definition demo_page (n : nat) : string :=
  if decide (n = 0%nat) then sq "{'entries':[{'file':{'path':'/a','uuid':'u1','size':3}}],'cursor':'c1'}"
  else sq "{'entries':[{'directory':{'path':'/d'}}]}".

Definition demo_broker : Transport nat := λ _ n,
  (mkDo (Ok (mkResp 200 "" (-1) [Seg (String.list_ascii_of_string (demo_page n)) None])) 0, S n).

Definition demo_url : RequestURL := λ _, None.

Lemma demo_serves :
  serves (TW := demo_broker) (RU := demo_url) demo_client "fs1" "/" {| am_Intent := "read"; am_Downloadable := false |}
    "" 0%nat [[mkEntry (Some (mkFilesystemFile "/a" 3 "" "" "" "" "u1")) None];
              [mkEntry None (Some (mkDirectory "/d" "" ""))]] ["c1"] 2%nat.
Proof.
  eapply (serves_more demo_client "fs1" "/" _ "" 0%nat (Some _) "c1" 1%nat); [vm_compute; reflexivity|discriminate|].
  eapply (serves_last demo_client "fs1" "/" _ "c1" 1%nat (Some _) 2%nat). vm_compute. reflexivity.
Qed.

Lemma demo_listing :
  ListDirectoryAll (TW := demo_broker) (RU := demo_url) demo_client "/" 0%nat
  = (Ok [mkEntry (Some (mkFilesystemFile "/a" 3 "" "" "" "" "u1")) None;
         mkEntry None (Some (mkDirectory "/d" "" ""))], 2%nat).
Proof.
  refine (ListDirectoryAll_serves (TW := demo_broker) (RU := demo_url) demo_client "fs1" "/" _ 0%nat 2%nat _ _
    _ demo_serves _ _); [reflexivity|apply NoDup_singleton|reflexivity].
Qed.

Lemma ListDirectoryAll_complete_witness :
  ListDirectoryAll (TW := demo_broker) (RU := demo_url) demo_client "/" 0%nat
  = (Ok [mkEntry (Some (mkFilesystemFile "/a" 3 "" "" "" "" "u1")) None;
         mkEntry None (Some (mkDirectory "/d" "" ""))], 2%nat).
Proof.
  apply (ListDirectoryAll_complete (TW := demo_broker) (RU := demo_url) demo_client "fs1" "/"
           {| am_Intent := "read"; am_Downloadable := false |} 0%nat 2%nat
           [[mkEntry (Some (mkFilesystemFile "/a" 3 "" "" "" "" "u1")) None];
            [mkEntry None (Some (mkDirectory "/d" "" ""))]] ["c1"]).
  - reflexivity.
  - exact demo_serves.
  - apply NoDup_singleton.
  - reflexivity.
Defined.
