(* ===== verification/Download.v ===== *)
(** * Download transport (internal/brokerrpc/download.go)

    [boundedBody] is the reader state machine that fails over-delivery;
    [Download], [DownloadRange] and [doDownload] build it. *)
From Stdlib Require Import Ascii String.
From stdpp Require Import base list strings numbers gmap.
From S2P Require Import Prelude GoErrors GoIO GoJson BrokerErrors Messages Client.
Local Open Scope Z_scope.

(** ** The bounded reader *)
Record boundedBody := mkBounded {
  bb_body : reader; bb_remaining : Z; bb_limit : Z; bb_ranged : bool }.

Definition newBoundedBody (body : reader) (ranged : bool) (limit : Z) : boundedBody :=
  mkBounded body limit limit ranged.

Definition overCapErr (b : boundedBody) : error :=
  if bb_ranged b
  then EErrorf "brokerrpc: fileDownload: broker over-delivered the requested %d-byte window (offset dishonour suspected)" [AInt (bb_limit b)] []
  else EErrorf "brokerrpc: fileDownload: response exceeds %d bytes" [AInt (bb_limit b)] [].

(** The probe loop past the cap: one-byte reads until a byte or an error
    decides.  [None] is a byte. *)
Fixpoint probe_loop (r : reader) : option error * reader :=
  match r with
  | [] => (Some (ESent io_EOF), [])
  | Seg _ _ :: rest =>
      match Read 1 r with
      | (_ :: _, _, r') => (None, r')
      | ([], Some perr, r') => (Some perr, r')
      | ([], None, _) => probe_loop rest
      end
  end.

Definition bb_Read (k : Z) (b : boundedBody) : bytes * option error * boundedBody :=
  let set body rem := mkBounded body rem (bb_limit b) (bb_ranged b) in
  if bb_remaining b <=? 0 then
    match probe_loop (bb_body b) with
    | (None, r') => ([], Some (overCapErr b), set r' (bb_remaining b))
    | (Some perr, r') => ([], Some (if is_EOF perr then ESent io_EOF else perr), set r' (bb_remaining b))
    end
  else
    let p := if k >? bb_remaining b then bb_remaining b else k in
    let '(d, err, r') := Read p (bb_body b) in
    (d, err, set r' (bb_remaining b - zlen d)).

(** What the caller is handed: an empty body or a bounded stream. *)
Inductive ReadCloser : Type :=
| NoBody
| Bounded (b : boundedBody).

Definition rc_Read (k : Z) (rc : ReadCloser) : bytes * option error * ReadCloser :=
  match rc with
  | NoBody => ([], Some (ESent io_EOF), NoBody)
  | Bounded b => let '(d, e, b') := bb_Read k b in (d, e, Bounded b')
  end.

(** ** The fileDownload op *)
Section download.
Context `{TW : Transport W, RU : RequestURL}.

Definition doDownload (c : Client) (fsID uuid : string) (am : AuthorizationMetadata)
    (rng : option Range) (limit : Z) (w : W) : result error ReadCloser * W :=
  let req := {| fd_FilesystemID := fsID; fd_UUID := uuid; fd_Range := rng; fd_AuthorizationMetadata := am |} in
  match newRequest_err (opURL c OpFileDownload) with
  | Some e => (Err (EErrorf "brokerrpc: build fileDownload request: %w" [] [e]), w)
  | None =>
      let '(o, w') := Do (json_request c OpFileDownload (enc_FileDownloadRequest req)) w in
      match do_result o with
      | Err e => (Err (EErrorf "brokerrpc: fileDownload: %w" [] [e]), w')
      | Ok resp =>
          if negb (is_2xx (rs_status resp)) then
            (Err (MapHTTPStatus (rs_status resp) (captureErrorBody (rs_body resp)) (rs_retry_after resp)), w')
          else if (rs_content_length resp >=? 0) && (rs_content_length resp >? limit) then
            match rng with
            | Some _ => (Err (EErrorf "brokerrpc: fileDownload: response declares %d bytes for the requested %d-byte window — broker did not honour the range" [AInt (rs_content_length resp); AInt limit] []), w')
            | None => (Err (EErrorf "brokerrpc: fileDownload: response declares %d bytes, exceeding the %d-byte cap" [AInt (rs_content_length resp); AInt limit] []), w')
            end
          else (Ok (Bounded (newBoundedBody (rs_body resp) (bool_decide (is_Some rng)) limit)), w')
      end
  end.

Definition Download (c : Client) (uuid : string) (w : W) : result error ReadCloser * W :=
  match stamp c OpFileDownload with
  | Err e => (Err e, w)
  | Ok (fsID, am) => doDownload c fsID uuid am None (c_maxDownloadBytes c) w
  end.

Definition DownloadRange (c : Client) (uuid : string) (offset length : Z) (w : W) : result error ReadCloser * W :=
  if offset <? 0 then (Err (EErrorf "brokerrpc: DownloadRange: negative offset %d" [AInt offset] []), w)
  else if length <? 0 then (Err (EErrorf "brokerrpc: DownloadRange: negative length %d" [AInt length] []), w)
  else if length =? 0 then (Ok NoBody, w)
  else match stamp c OpFileDownload with
       | Err e => (Err e, w)
       | Ok (fsID, am) =>
           doDownload c fsID uuid am (Some {| r_Offset := offset; r_Length := length |}) length w
       end.
End download.

(** ** Draining a stream *)

(** A caller reading with buffers of its choice until the first error: the
    bytes received and the error. *)
Inductive drains : ReadCloser → bytes → error → Prop :=
| drains_end rc k d e rc' :
    0 < k → rc_Read k rc = (d, Some e, rc') → drains rc d e
| drains_more rc k d rc' ds e :
    0 < k → rc_Read k rc = (d, None, rc') → drains rc' ds e → drains rc (d ++ ds) e.

Lemma probe_loop_spec r :
  match content r with
  | [] => fst (probe_loop r) = Some (final_err r)
  | _ :: _ => fst (probe_loop r) = None
  end.
Proof.
  induction r as [|[d e] rest IH]; [done|].
  destruct d as [|c d].
  - destruct e as [e|]; simpl; [done|]. exact IH.
  - assert (∀ e', match Read 1 (Seg (c :: d) e' :: rest) with (_ :: _, _, _) => True | _ => False end) as Hr.
    { intros e'. unfold Read. destruct (zlen (c :: d) <=? 1); [done|]. done. }
    destruct e as [e|]; cbn [content probe_loop].
    + specialize (Hr (Some e)). by destruct (Read 1 _) as [[[|? ?] ?] ?].
    + specialize (Hr None). simpl app. by destruct (Read 1 _) as [[[|? ?] ?] ?].
Qed.

(** The state of a bounded stream that has delivered [sent] so far. *)
Definition stream_inv (r0 : reader) (b : boundedBody) (sent : bytes) : Prop :=
  content r0 = sent ++ content (bb_body b) ∧ final_err r0 = final_err (bb_body b) ∧
  bb_remaining b = bb_limit b - zlen sent ∧ 0 <= bb_remaining b.

Lemma bb_Read_inv r0 b sent k d e b' :
  0 < k → stream_inv r0 b sent → bb_Read k b = (d, e, b') →
  match e with
  | None => stream_inv r0 b' (sent ++ d) ∧ bb_limit b' = bb_limit b ∧ bb_ranged b' = bb_ranged b
  | Some e0 =>
      (zlen (content r0) <= bb_limit b ∧ sent ++ d = content r0 ∧ e0 = final_err r0) ∨
      (bb_limit b < zlen (content r0) ∧ sent ++ d = ztake (bb_limit b) (content r0) ∧ e0 = overCapErr b)
  end.
Proof.
  intros Hk (Hc & Hf & Hrem & Hpos) H. unfold bb_Read in H.
  assert (zlen (content r0) = zlen sent + zlen (content (bb_body b))) as Hlen by (by rewrite Hc, zlen_app).
  destruct (Z.leb_spec (bb_remaining b) 0) as [H0|H0].
  - pose proof (probe_loop_spec (bb_body b)) as Hp.
    destruct (probe_loop (bb_body b)) as [[perr|] r']; simpl in Hp.
    + destruct (content (bb_body b)) as [|x rest] eqn:E; [|done].
      injection Hp as ->. simplify_eq. left. rewrite app_nil_r in *. simpl in Hlen.
      split; [lia|]. split; [done|]. rewrite Hf. by destruct (final_err (bb_body b)) as [[]| | | |].
    + destruct (content (bb_body b)) as [|x rest] eqn:E; [done|].
      simplify_eq. right. pose proof (zlen_nonneg rest). cbn [zlen] in Hlen.
      split; [lia|]. split; [|done]. rewrite app_nil_r, Hc.
      rewrite ztake_app_le by lia. by rewrite ztake_all by lia.
  - destruct (Read _ (bb_body b)) as [[d' e'] r'] eqn:ER. simplify_eq.
    assert (zlen d <= bb_remaining b).
    { apply Read_len in ER; [|destruct (Z.gtb_spec k (bb_remaining b)); lia].
      destruct (Z.gtb_spec k (bb_remaining b)); lia. }
    apply Read_content in ER as (Hc' & Hf' & He').
    destruct e as [e0|].
    + destruct He' as [Hnil ->]. left. rewrite Hnil, app_nil_r in Hc'.
      rewrite Hc' in Hlen. split; [lia|]. split; [by rewrite Hc, Hc'|done].
    + split; [|done]. unfold stream_inv; simpl. rewrite <-app_assoc, <-Hc', zlen_app.
      split; [done|]. split; [congruence|]. lia.
Qed.

Lemma drains_inv rc ds e :
  drains rc ds e → ∀ r0 b sent, rc = Bounded b → stream_inv r0 b sent →
  (zlen (content r0) <= bb_limit b ∧ sent ++ ds = content r0 ∧ e = final_err r0) ∨
  (bb_limit b < zlen (content r0) ∧ sent ++ ds = ztake (bb_limit b) (content r0) ∧ e = overCapErr b).
Proof.
  induction 1 as [rc k d e rc' Hk Hr|rc k d rc' ds e Hk Hr _ IH]; intros r0 b sent -> Hinv; simpl in Hr;
    destruct (bb_Read k b) as [[d0 e0] b'] eqn:Eb; simplify_eq;
    pose proof (bb_Read_inv r0 b sent k _ _ b' Hk Hinv Eb) as Hs; simpl in Hs.
  - exact Hs.
  - destruct Hs as (Hinv' & Hl & Hr'). specialize (IH r0 b' (sent ++ d) eq_refl Hinv').
    rewrite Hl in IH. rewrite <-!app_assoc in IH.
    assert (overCapErr b' = overCapErr b) as Ho by (unfold overCapErr; by rewrite Hr', Hl).
    by rewrite Ho in IH.
Qed.

(** C7: a bounded stream is exact.  Whatever buffers the caller uses and
    however the wire segments the body, draining it yields the whole body and
    the body's own terminal error when the body fits the limit, and otherwise
    exactly the first [limit] bytes followed by the over-delivery error: an
    over-long body never ends in a clean EOF, and a transport fault at the
    boundary is never relabelled as one. *)
Theorem boundedBody_exact (r : reader) (ranged : bool) (limit : Z) (ds : bytes) (e : error) :
  0 <= limit → drains (Bounded (newBoundedBody r ranged limit)) ds e →
  if zlen (content r) <=? limit then ds = content r ∧ e = final_err r
  else ds = ztake limit (content r) ∧ e = overCapErr (newBoundedBody r ranged limit) ∧ is_EOF e = false.
Proof.
  intros Hl Hd.
  destruct (drains_inv _ _ _ Hd r (newBoundedBody r ranged limit) []) as [(H1 & H2 & H3)|(H1 & H2 & H3)].
  - done.
  - unfold stream_inv; simpl. repeat split; lia.
  - simpl in *. by rewrite (proj2 (Z.leb_le _ _)).
  - simpl in *. rewrite (proj2 (Z.leb_gt _ _)) by done. split; [done|]. split; [done|].
    rewrite H3. unfold overCapErr. by destruct (bb_ranged _).
Qed.

Lemma boundedBody_exact_witness :
  let r := [Seg ["a"; "b"]%char None; Seg [] None; Seg ["c"]%char None] in
  drains (Bounded (newBoundedBody r true 2)) ["a"; "b"]%char (overCapErr (newBoundedBody r true 2)) ∧
  if zlen (content r) <=? 2 then ["a"; "b"]%char = content r ∧ overCapErr (newBoundedBody r true 2) = final_err r
  else ["a"; "b"]%char = ztake 2 (content r) ∧
       overCapErr (newBoundedBody r true 2) = overCapErr (newBoundedBody r true 2) ∧
       is_EOF (overCapErr (newBoundedBody r true 2)) = false.
Proof.
  intros r.
  assert (drains (Bounded (newBoundedBody r true 2)) ["a"; "b"]%char (overCapErr (newBoundedBody r true 2))) as H.
  { eapply (drains_more _ 512 ["a"; "b"]%char _ []); [reflexivity|reflexivity|].
    eapply (drains_end _ 512); reflexivity. }
  split; [exact H|].
  exact (boundedBody_exact r true 2 ["a"; "b"]%char _ ltac:(discriminate) H).
Defined.

(** ** Draining terminates *)

(** Bytes and segments a reader still holds. *)
Fixpoint reader_size (r : reader) : nat :=
  match r with [] => 0 | Seg d _ :: rest => S (length d + reader_size rest) end.

Lemma Read_decreases k r d r' : 0 < k → Read k r = (d, None, r') → (reader_size r' < reader_size r)%nat.
Proof.
  intros Hk. destruct r as [|[dat err] rest]; simpl; [done|].
  destruct (Z.leb_spec (zlen dat) k); intros; simplify_eq; simpl; [lia|].
  rewrite zdrop_drop, length_drop. rewrite zlen_length in *. lia.
Qed.

Lemma bounded_drains (r : reader) (ranged : bool) (limit k : Z) :
  0 < k → ∃ ds e, drains (Bounded (newBoundedBody r ranged limit)) ds e.
Proof.
  intros Hk. unfold newBoundedBody. generalize limit at 1 as rem.
  remember (reader_size r) as n eqn:Hn. revert r Hn.
  induction (lt_wf n) as [n _ IH]; intros r Hn rem.
  destruct (bb_Read k (mkBounded r rem limit ranged)) as [[d [e|]] b'] eqn:E.
  - exists d, e. eapply (drains_end _ k); [done|]. simpl. by rewrite E.
  - assert (∃ r' rem', b' = mkBounded r' rem' limit ranged ∧ (reader_size r' < reader_size r)%nat) as (r' & rem' & -> & Hlt).
    { unfold bb_Read in E; simpl in E. destruct (Z.leb_spec rem 0) as [|Hr].
      - by destruct (probe_loop r) as [[?|] ?].
      - destruct (Read _ r) as [[d' e'] r'] eqn:ER. simplify_eq.
        eexists _, _. split; [done|]. eapply (Read_decreases _ _ _ _); [|exact ER].
        destruct (Z.gtb_spec k rem); lia. }
    destruct (IH (reader_size r') ltac:(lia) r' eq_refl rem') as (ds & e & Hd).
    exists (d ++ ds), e. eapply (drains_more _ k); [done| |exact Hd]. simpl. by rewrite E.
Qed.

(** Every bounded stream can be drained: for any fixed buffer size the
    caller's read loop reaches an error (the probe past the cap never spins on
    a finite body), so that exactness of bounded streams is never vacuous. *)
Theorem boundedBody_terminates (r : reader) (ranged : bool) (limit k : Z) :
  0 < k → ∃ ds e, drains (Bounded (newBoundedBody r ranged limit)) ds e.
Proof. apply bounded_drains. Qed.

Lemma boundedBody_terminates_witness :
  ∃ ds e, drains (Bounded (newBoundedBody [Seg ["a"]%char None; Seg [] None] false 1)) ds e.
Proof. exact (boundedBody_terminates [Seg ["a"]%char None; Seg [] None] false 1 512 ltac:(reflexivity)). Defined.

(** ** The range guard *)
Section range_facts.
Context `{TW : Transport W, RU : RequestURL}.

Lemma doDownload_Ok c fsID uuid am rng limit (w w' : W) rc :
  doDownload c fsID uuid am rng limit w = (Ok rc, w') →
  ∃ o resp, Do (json_request c OpFileDownload (enc_FileDownloadRequest
              {| fd_FilesystemID := fsID; fd_UUID := uuid; fd_Range := rng; fd_AuthorizationMetadata := am |})) w = (o, w') ∧
    do_result o = Ok resp ∧ is_2xx (rs_status resp) = true ∧
    rs_content_length resp <= Z.max limit (-1) ∧
    rc = Bounded (newBoundedBody (rs_body resp) (bool_decide (is_Some rng)) limit).
Proof.
  unfold doDownload. destruct (newRequest_err _); [done|].
  destruct (Do _ w) as [o w1] eqn:E. destruct (do_result o) as [resp|e] eqn:Er; [|done].
  destruct (is_2xx (rs_status resp)) eqn:E2; simpl; [|done].
  destruct (Z.geb_spec (rs_content_length resp) 0); simpl;
    [destruct (Z.gtb_spec (rs_content_length resp) limit); [by destruct rng|]|];
    intros; simplify_eq; eexists _, _; (split; [done|]; repeat split; try done; lia).
Qed.

(** C20: a ranged read is local where it can be and honest where it cannot:
    negative offsets and lengths are refused and a zero-length window is the
    empty stream, in both cases with the wire untouched; for a positive
    window a read that ends in a clean EOF carries the broker's whole
    response body, at most [length] bytes of it. *)
Theorem DownloadRange_honest (c : Client) (uuid : string) (offset length : Z) (w w' : W) (res : result error ReadCloser) :
  DownloadRange c uuid offset length w = (res, w') →
  (offset < 0 ∨ length < 0 → w' = w ∧ ∃ e, res = Err e) ∧
  (0 <= offset → length = 0 → w' = w ∧ res = Ok NoBody) ∧
  (0 <= offset → 0 < length → ∀ rc, res = Ok rc →
     ∃ o resp, Do (json_request c OpFileDownload (enc_FileDownloadRequest
                 {| fd_FilesystemID := c_fsID c; fd_UUID := uuid;
                    fd_Range := Some {| r_Offset := offset; r_Length := length |};
                    fd_AuthorizationMetadata := {| am_Intent := "read"; am_Downloadable := false |} |})) w = (o, w') ∧
       do_result o = Ok resp ∧ is_2xx (rs_status resp) = true ∧
       ∀ ds e, drains rc ds e → is_EOF e = true → ds = content (rs_body resp) ∧ zlen ds <= length).
Proof.
  unfold DownloadRange. intros H. split; [|split].
  - intros Hneg. destruct (Z.ltb_spec offset 0); [simplify_eq; eauto|].
    destruct (Z.ltb_spec length 0); [simplify_eq; eauto|lia].
  - intros H0 ->. destruct (Z.ltb_spec offset 0); [lia|]. by simplify_eq/=.
  - intros H0 Hl rc ->. destruct (Z.ltb_spec offset 0); [lia|]. destruct (Z.ltb_spec length 0); [lia|].
    destruct (Z.eqb_spec length 0); [lia|].
    change (stamp c OpFileDownload) with (Ok (E := error) (c_fsID c, {| am_Intent := "read"; am_Downloadable := false |})) in H.
    apply doDownload_Ok in H as (o & resp & HDo & Hres & Hok2 & _ & ->).
    eexists _, _. split; [exact HDo|]. split; [done|]. split; [done|].
    intros ds e Hd He.
    destruct (drains_inv _ _ _ Hd (rs_body resp) (newBoundedBody (rs_body resp) (bool_decide (is_Some (Some {| r_Offset := offset; r_Length := length |}))) length) [])
      as [(Hle & Hds & _)|(_ & _ & ->)]; [done|unfold stream_inv; simpl; repeat split; lia| |].
    + simpl in *. subst ds. done.
    + unfold overCapErr in He. by destruct (bb_ranged _).
Qed.
End range_facts.

Definition range_broker : Transport nat := λ _ n,
  (mkDo (Ok (mkResp 200 "" (-1) [Seg ["x"; "y"]%char None])) 0, S n).

Lemma DownloadRange_honest_witness :
  DownloadRange (TW := range_broker) (RU := λ _, None)
    (mkClient "https://edge" "fs1" "tok" 1024 4096 8) "u1" 5 2 0%nat
  = (Ok (Bounded (newBoundedBody [Seg ["x"; "y"]%char None] true 2)), 1%nat) ∧
  ∃ o resp, Do (Transport := range_broker) (json_request (mkClient "https://edge" "fs1" "tok" 1024 4096 8) OpFileDownload
      (enc_FileDownloadRequest {| fd_FilesystemID := "fs1"; fd_UUID := "u1";
         fd_Range := Some {| r_Offset := 5; r_Length := 2 |};
         fd_AuthorizationMetadata := {| am_Intent := "read"; am_Downloadable := false |} |})) 0%nat = (o, 1%nat) ∧
    do_result o = Ok resp ∧ is_2xx (rs_status resp) = true ∧
    ∀ ds e, drains (Bounded (newBoundedBody [Seg ["x"; "y"]%char None] true 2)) ds e → is_EOF e = true →
      ds = content (rs_body resp) ∧ zlen ds <= 2.
Proof.
  assert (DownloadRange (TW := range_broker) (RU := λ _, None)
    (mkClient "https://edge" "fs1" "tok" 1024 4096 8) "u1" 5 2 0%nat
    = (Ok (Bounded (newBoundedBody [Seg ["x"; "y"]%char None] true 2)), 1%nat)) as H by reflexivity.
  split; [exact H|].
  exact (proj2 (proj2 (DownloadRange_honest (TW := range_broker) (RU := λ _, None) _ _ _ _ _ _ _ H))
           ltac:(discriminate) ltac:(reflexivity) _ eq_refl).
Defined.
