(* ===== verification/Upload.v ===== *)
(** * Upload transport (internal/brokerrpc/upload.go)

    The multipart writer runs against a pipe that may be closed after any
    number of writes; [Upload] combines the writer's error with the HTTP
    verdict.  The chunk loop runs on fuel [S (reader_size src)], which the
    source always ends within. *)
From Stdlib Require Import Ascii String.
From stdpp Require Import base list strings numbers gmap.
From S2P Require Import Prelude GoErrors GoIO GoJson BrokerErrors Messages Client Download.
Local Open Scope Z_scope.

Definition sourceChunkSize (ceiling : Z) : Z := if ceiling <? 1 then 1 else ceiling.

Definition isPipeClosure (err : error) : bool := errors_Is err io_ErrClosedPipe.

(** The write end of the pipe: what was written, and how many more writes the
    read end will accept ([None]: it stays open). *)
Record pipe := mkPipe { p_written : list pipe_write; p_budget : option nat }.

Definition pipe_Write (x : pipe_write) (p : pipe) : option error * pipe :=
  match p_budget p with
  | Some O => (Some (ESent io_ErrClosedPipe), p)
  | Some (S n) => (None, mkPipe (p_written p ++ [x]) (Some n))
  | None => (None, mkPipe (p_written p ++ [x]) None)
  end.

(** The streaming loop; [None] only when the fuel runs out. *)
Fixpoint copy_loop (fuel : nat) (chunk : Z) (src : reader) (p : pipe) : option (option error * pipe) :=
  match fuel with
  | O => None
  | S f =>
      let '(d, readErr, src') := Read chunk src in
      let '(werr, p') := match d with [] => (None, p) | _ => pipe_Write (PWData d) p end in
      match werr with
      | Some e => Some (Some (EErrorf "write file chunk: %w" [] [e]), p')
      | None =>
          match readErr with
          | Some e => if is_EOF e then Some (None, p')
                      else Some (Some (EErrorf "read source: %w" [] [e]), p')
          | None => copy_loop f chunk src' p'
          end
      end
  end.

Definition writeUploadMultipart (p : pipe) (fsID path : string) (totalBytes : Z) (overwrite : bool)
    (am : AuthorizationMetadata) (src : reader) (ceiling : Z) : option error * pipe :=
  let params := {| fu_FilesystemID := fsID; fu_Path := path; fu_DeclaredSizeBytes := totalBytes;
                   fu_OverwriteExisting := overwrite; fu_AuthorizationMetadata := am |} in
  let payload := bytes_of_string (print_json (enc_FileUploadRequest params)) in
  match pipe_Write (PWPart "params" "") p with
  | (Some e, p1) => (Some (EErrorf "create params field: %w" [] [e]), p1)
  | (None, p1) =>
      match pipe_Write (PWData payload) p1 with
      | (Some e, p2) => (Some (EErrorf "write params field: %w" [] [e]), p2)
      | (None, p2) =>
          match pipe_Write (PWPart "file" "upload") p2 with
          | (Some e, p3) => (Some (EErrorf "create file part: %w" [] [e]), p3)
          | (None, p3) =>
              match copy_loop (S (reader_size src)) (sourceChunkSize ceiling) src p3 with
              | Some r => r
              | None => (Some (errors_New "unreachable"), p3)
              end
          end
      end
  end.

(** The writer goroutine: the multipart body, then the closing boundary (a
    write that fails like the ones before it once the pipe is closed). *)
Definition upload_writer (budget : option nat) (fsID path : string) (totalBytes : Z) (overwrite : bool)
    (am : AuthorizationMetadata) (src : reader) (ceiling : Z) : option error * list pipe_write :=
  let '(err, p) := writeUploadMultipart (mkPipe [] budget) fsID path totalBytes overwrite am src ceiling in
  let '(cerr, p') := pipe_Write PWEnd p in
  (match err with None => cerr | Some _ => err end, p_written p').

Section upload.
Context `{TW : Transport W, RU : RequestURL}.

(** mw.FormDataContentType() carries a random boundary; the media type is
    what matters. *)
Definition upload_request (c : Client) (writes : list pipe_write) (close_err : option error) : http_request :=
  mkReq "POST" (opURL c OpFileUpload) "multipart/form-data" (bearer c) (BodyPipe writes close_err).

Definition Upload (c : Client) (path : string) (src : reader) (totalBytes : Z) (overwrite : bool) (w : W)
    : option error * W :=
  match stamp c OpFileUpload with
  | Err e => (Some e, w)
  | Ok (fsID, am) =>
      let writer budget := upload_writer budget fsID path totalBytes overwrite am src (c_messageCeiling c) in
      match newRequest_err (opURL c OpFileUpload) with
      | Some e => (Some (EErrorf "brokerrpc: build upload request: %w" [] [e]), w)
      | None =>
          let '(openErr, writes) := writer None in
          let '(o, w') := Do (upload_request c writes openErr) w in
          match do_result o with
          | Err e => (Some (EErrorf "brokerrpc: fileUpload: %w" [] [e]), w')
          | Ok resp =>
              if negb (is_2xx (rs_status resp)) then
                (Some (MapHTTPStatus (rs_status resp) (captureErrorBody (rs_body resp)) (rs_retry_after resp)), w')
              else
                let '(_, readErr, _) := read_all_limit maxErrorBodyBytes (rs_body resp) in
                let writeErr := if (length writes <=? do_consumed o)%nat then openErr
                                else fst (writer (Some (do_consumed o))) in
                match readErr with
                | Some e => (Some (EErrorf "brokerrpc: fileUpload read response body: %w" [] [e]), w')
                | None =>
                    match writeErr with
                    | Some e => if isPipeClosure e then (None, w')
                                else (Some (EErrorf "brokerrpc: fileUpload write body: %w" [] [e]), w')
                    | None => (None, w')
                    end
                end
          end
      end
  end.
End upload.

(** ** The streamed body *)

(** What the streaming loop reports of a source read to its end. *)
Definition source_fault (src : reader) : option error :=
  if is_EOF (final_err src) then None else Some (EErrorf "read source: %w" [] [final_err src]).

(** The loop over a source: on a pipe that takes all its chunks it reads the
    source to the end, on one that closes before it stops at the closed pipe. *)
Lemma copy_loop_runs fuel chunk src : 0 < chunk → (reader_size src < fuel)%nat →
  ∃ cs, mjoin cs = content src ∧ Forall (λ d, d ≠ [] ∧ zlen d <= chunk) cs ∧
    (∀ ws, copy_loop fuel chunk src (mkPipe ws None) = Some (source_fault src, mkPipe (ws ++ map PWData cs) None)) ∧
    (∀ ws k, (length cs <= k)%nat → copy_loop fuel chunk src (mkPipe ws (Some k)) =
       Some (source_fault src, mkPipe (ws ++ map PWData cs) (Some (k - length cs)%nat))) ∧
    (∀ ws k, (k < length cs)%nat → ∃ ws', copy_loop fuel chunk src (mkPipe ws (Some k)) =
       Some (Some (EErrorf "write file chunk: %w" [] [ESent io_ErrClosedPipe]), mkPipe ws' (Some 0%nat))).
Proof.
  intros Hk. revert src. induction fuel as [|f IH]; intros src Hf; [lia|]. cbn [copy_loop].
  destruct (Read chunk src) as [[d readErr] src'] eqn:ER.
  pose proof (Read_len chunk src d readErr src' ltac:(lia) ER) as Hlen.
  pose proof (Read_content _ _ _ _ _ ER) as (Hc & Hfin & He). unfold source_fault.
  assert (∃ cs, mjoin cs = content src' ∧ Forall (λ d, d ≠ [] ∧ zlen d <= chunk) cs ∧
    let k p := match readErr with
             | Some e => if is_EOF e then Some (None, p) else Some (Some (EErrorf "read source: %w" [] [e]), p)
             | None => copy_loop f chunk src' p end in
    (∀ ws, k (mkPipe ws None) = Some (source_fault src, mkPipe (ws ++ map PWData cs) None)) ∧
    (∀ ws n, (length cs <= n)%nat → k (mkPipe ws (Some n)) = Some (source_fault src, mkPipe (ws ++ map PWData cs) (Some (n - length cs)%nat))) ∧
    (∀ ws n, (n < length cs)%nat → ∃ ws', k (mkPipe ws (Some n)) =
       Some (Some (EErrorf "write file chunk: %w" [] [ESent io_ErrClosedPipe]), mkPipe ws' (Some 0%nat))))
    as (cs & Hj & Hall & Hopen & Hall' & Hcut).
  { unfold source_fault. destruct readErr as [e|].
    - destruct He as [Hnil ->]. exists []. rewrite Hnil. split_and!; [done..| | |intros; simpl in *; lia]; intros ws; [|intros n _];
        rewrite app_nil_r, ?Nat.sub_0_r; by destruct (is_EOF _).
    - rewrite Hfin. apply IH. pose proof (Read_decreases _ _ _ _ Hk ER). lia. }
  fold (source_fault src). destruct d as [|x d]; [exists cs; split_and!; try done; by rewrite Hc|].
  exists ((x :: d) :: cs). split_and!.
  - rewrite Hc, <- Hj. reflexivity.
  - by constructor.
  - intros ws. cbn [pipe_Write p_budget p_written]. rewrite Hopen, <- app_assoc. done.
  - intros ws [|n] Hn; simpl in Hn; [lia|]. cbn [pipe_Write p_budget p_written]. rewrite Hall', <- app_assoc by lia. done.
  - intros ws [|n] Hn; simpl in Hn; cbn [pipe_Write p_budget p_written]; [by eexists|]. apply Hcut. lia.
Qed.

Lemma copy_loop_open fuel chunk src ws :
  0 < chunk → (reader_size src < fuel)%nat →
  ∃ cs, copy_loop fuel chunk src (mkPipe ws None) = Some (source_fault src, mkPipe (ws ++ map PWData cs) None) ∧
        mjoin cs = content src ∧ Forall (λ d, d ≠ [] ∧ zlen d <= chunk) cs.
Proof. intros Hk Hf. destruct (copy_loop_runs fuel chunk src Hk Hf) as (cs & ? & ? & Ho & _). by exists cs. Qed.

Lemma sourceChunkSize_pos ceiling : 0 < sourceChunkSize ceiling.
Proof. unfold sourceChunkSize. destruct (Z.ltb_spec ceiling 1); lia. Qed.

(** The writer goroutine on a pipe that stays open, on one that closes before
    the last chunk is taken, and on one that closes before the boundary. *)
Lemma upload_writer_runs (fsID path : string) (totalBytes : Z) (overwrite : bool)
    (am : AuthorizationMetadata) (src : reader) (ceiling : Z) :
  let writer b := upload_writer b fsID path totalBytes overwrite am src ceiling in
  ∃ chunks,
    writer None =
      (source_fault src,
       [PWPart "params" "";
        PWData (bytes_of_string (print_json (enc_FileUploadRequest
          {| fu_FilesystemID := fsID; fu_Path := path; fu_DeclaredSizeBytes := totalBytes;
             fu_OverwriteExisting := overwrite; fu_AuthorizationMetadata := am |})));
        PWPart "file" "upload"] ++ map PWData chunks ++ [PWEnd]) ∧
    mjoin chunks = content src ∧ Forall (λ d, d ≠ [] ∧ zlen d <= Z.max 1 ceiling) chunks ∧
    (∀ k, (S k < length (writer None).2)%nat → ∃ e, (writer (Some k)).1 = Some e ∧ errors_Is e io_ErrClosedPipe = true) ∧
    (∀ k, S k = length (writer None).2 → (writer (Some k)).1 =
       match source_fault src with Some e => Some e | None => Some (ESent io_ErrClosedPipe) end).
Proof.
  destruct (copy_loop_runs (S (reader_size src)) (sourceChunkSize ceiling) src) as (cs & Hj & Hall & Hopen & Htake & Hcut);
    [apply sourceChunkSize_pos|lia|]. exists cs.
  unfold upload_writer, writeUploadMultipart. cbn [pipe_Write p_budget p_written app]. rewrite Hopen.
  cbn [pipe_Write p_budget p_written fst snd]. split_and!.
  - by destruct (source_fault src).
  - done.
  - eapply Forall_impl; [exact Hall|]. intros d [? ?]. split; [done|]. unfold sourceChunkSize in *.
    destruct (Z.ltb_spec ceiling 1); lia.
  - rewrite !length_app, length_map. cbn [length]. intros [|[|[|k]]] Hk; try (eexists; split; reflexivity).
    cbn [pipe_Write p_budget p_written app]. destruct (Hcut [PWPart "params" ""; PWData (bytes_of_string (print_json (enc_FileUploadRequest
      {| fu_FilesystemID := fsID; fu_Path := path; fu_DeclaredSizeBytes := totalBytes;
         fu_OverwriteExisting := overwrite; fu_AuthorizationMetadata := am |}))); PWPart "file" "upload"] k) as [ws' ->]; [lia|].
    eexists; split; reflexivity.
  - rewrite !length_app, length_map. cbn [length]. intros [|[|[|k]]] Hk; try lia.
    cbn [pipe_Write p_budget p_written app]. rewrite Htake by lia. replace (k - length cs)%nat with 0%nat by lia.
    by destruct (source_fault src).
Qed.

Lemma upload_writer_open (fsID path : string) (totalBytes : Z) (overwrite : bool)
    (am : AuthorizationMetadata) (src : reader) (ceiling : Z) :
  ∃ chunks,
    upload_writer None fsID path totalBytes overwrite am src ceiling =
      (if is_EOF (final_err src) then None else Some (EErrorf "read source: %w" [] [final_err src]),
       [PWPart "params" "";
        PWData (bytes_of_string (print_json (enc_FileUploadRequest
          {| fu_FilesystemID := fsID; fu_Path := path; fu_DeclaredSizeBytes := totalBytes;
             fu_OverwriteExisting := overwrite; fu_AuthorizationMetadata := am |})));
        PWPart "file" "upload"] ++ map PWData chunks ++ [PWEnd]) ∧
    mjoin chunks = content src ∧
    Forall (λ d, d ≠ [] ∧ zlen d <= Z.max 1 ceiling) chunks.
Proof.
  destruct (upload_writer_runs fsID path totalBytes overwrite am src ceiling) as (cs & ? & ? & ? & _). by exists cs.
Qed.

(** C22: while the pipe stays open the multipart body is the params field
    carrying the stamped JSON, then one file part whose data writes are the
    source bytes, exactly and in order, each write non-empty and at most the
    message ceiling, then the closing boundary; the writer reports an error
    exactly when the source does not end in EOF.  The streaming loop always
    finishes. *)
Theorem upload_body_exact (fsID path : string) (totalBytes : Z) (overwrite : bool)
    (am : AuthorizationMetadata) (src : reader) (ceiling : Z) :
  ∃ chunks,
    upload_writer None fsID path totalBytes overwrite am src ceiling =
      (if is_EOF (final_err src) then None else Some (EErrorf "read source: %w" [] [final_err src]),
       [PWPart "params" "";
        PWData (bytes_of_string (print_json (enc_FileUploadRequest
          {| fu_FilesystemID := fsID; fu_Path := path; fu_DeclaredSizeBytes := totalBytes;
             fu_OverwriteExisting := overwrite; fu_AuthorizationMetadata := am |})));
        PWPart "file" "upload"] ++ map PWData chunks ++ [PWEnd]) ∧
    mjoin chunks = content src ∧
    Forall (λ d, d ≠ [] ∧ zlen d <= Z.max 1 ceiling) chunks.
Proof. apply upload_writer_open. Qed.

(** ** The verdict *)
Section verdict.
Context `{TW : Transport W, RU : RequestURL}.

(** The write error Upload collects when the transport took [k] writes,
    judged by [errors.Is]. *)
Lemma write_error_verdict (fsID path : string) (totalBytes : Z) (overwrite : bool)
    (am : AuthorizationMetadata) (src : reader) (ceiling : Z) (k : nat) :
  let writer b := upload_writer b fsID path totalBytes overwrite am src ceiling in
  let writeErr := if (length (writer None).2 <=? k)%nat then (writer None).1 else (writer (Some k)).1 in
  if is_EOF (final_err src) || (S k <? length (writer None).2)%nat
  then match writeErr with Some e => errors_Is e io_ErrClosedPipe = true | None => True end
  else writeErr = Some (EErrorf "read source: %w" [] [final_err src]).
Proof.
  cbv beta zeta. destruct (upload_writer_runs fsID path totalBytes overwrite am src ceiling) as (cs & Hopen & _ & _ & Hcut & Hlast).
  assert ((upload_writer None fsID path totalBytes overwrite am src ceiling).1 = source_fault src) as -> by exact (f_equal fst Hopen).
  clear Hopen. set (writes := (upload_writer None _ _ _ _ _ _ _).2) in *.
  destruct (Nat.leb_spec (length writes) k) as [Hk|Hk].
  { rewrite (proj2 (Nat.ltb_ge _ _)) by lia. unfold source_fault. by destruct (is_EOF _). }
  destruct (Nat.ltb_spec (S k) (length writes)) as [Hk'|Hk'].
  { rewrite orb_true_r. by destruct (Hcut k Hk') as (e & -> & ?). }
  rewrite Hlast by lia. unfold source_fault. by destruct (is_EOF _).
Qed.

(** C21: what an upload reports.  Once the transport returns a response, a
    non-2xx status is the result whatever became of the body (an early 429 is
    never masked by the closed pipe), and a 2xx whose body cannot be read is
    that error.  On any other 2xx the upload fails exactly when its source broke
    off, the transport had taken all of the source's bytes by then, and the
    source's error is not one that errors.Is takes for a closed pipe; it then
    reports that error. *)
Theorem Upload_verdict (c : Client) (path : string) (src : reader) (totalBytes : Z) (overwrite : bool)
    (w w' : W) (o : do_outcome) (resp : http_response) (am : AuthorizationMetadata) :
  let '(openErr, writes) := upload_writer None (c_fsID c) path totalBytes overwrite am src (c_messageCeiling c) in
  let readErr := snd (fst (read_all_limit maxErrorBodyBytes (rs_body resp))) in
  let faulty := is_EOF (final_err src) = false ∧ (length writes <= S (do_consumed o))%nat ∧
                errors_Is (final_err src) io_ErrClosedPipe = false in
  StampAuthMeta OpFileUpload = Ok am → newRequest_err (opURL c OpFileUpload) = None →
  Do (upload_request c writes openErr) w = (o, w') → do_result o = Ok resp →
  ∃ err, Upload c path src totalBytes overwrite w = (err, w') ∧
    (is_2xx (rs_status resp) = false →
       err = Some (MapHTTPStatus (rs_status resp) (captureErrorBody (rs_body resp)) (rs_retry_after resp))) ∧
    (is_2xx (rs_status resp) = true → ∀ e, readErr = Some e →
       err = Some (EErrorf "brokerrpc: fileUpload read response body: %w" [] [e])) ∧
    (is_2xx (rs_status resp) = true → readErr = None → (err = None ↔ ¬ faulty) ∧
       (faulty → err = Some (EErrorf "brokerrpc: fileUpload write body: %w" [] [EErrorf "read source: %w" [] [final_err src]]))).
Proof.
  pose proof (write_error_verdict (c_fsID c) path totalBytes overwrite am src (c_messageCeiling c) (do_consumed o)) as Hv.
  cbv beta zeta in Hv.
  destruct (upload_writer None _ _ _ _ _ _ _) as [openErr writes] eqn:Ew. cbn [fst snd] in Hv.
  intros readErr faulty Ham Hreq HDo Hres. unfold Upload, stamp. rewrite Ham, Hreq, Ew, HDo, Hres. subst readErr.
  destruct (is_2xx (rs_status resp)); cbn [negb]; [|by eexists].
  destruct (read_all_limit maxErrorBodyBytes (rs_body resp)) as [[body [e|]] r']; cbn [fst snd];
    [eexists; split; [done|]; split; [done|]; split; [by intros _ ? [= ->]|done]|].
  set (writeErr := if (_ <=? _)%nat then _ else _) in *. destruct (_ || _) eqn:Hor.
  - assert (¬ faulty) as Hnf.
    { intros (He & Hl & _). rewrite He in Hor. apply Nat.ltb_lt in Hor. lia. }
    exists None. split; [|by split_and!]. destruct writeErr as [e|]; [|done]. unfold isPipeClosure. by rewrite Hv.
  - apply orb_false_iff in Hor as [He Hl%Nat.ltb_ge]. rewrite Hv. unfold isPipeClosure. rewrite errors_Is_Errorf1.
    destruct (errors_Is (final_err src) io_ErrClosedPipe) eqn:Hc; eexists; (split; [done|]; split_and!; try done; intros _ _).
    + split; [|by intros (_ & _ & ?)]. split; [|done]. by intros _ (_ & _ & ?).
    + split; [split; [done|]|done]. intros Hnf. by destruct Hnf.
Qed.
End verdict.

(** A broker that throttles without draining the body. *)
Definition throttling_broker : Transport nat := λ _ n,
  (mkDo (Ok (mkResp 429 "2" (-1) [])) 2, S n).

(** A broker that takes the whole body and acknowledges it. *)
Definition accepting_broker : Transport nat := λ rq n,
  (mkDo (Ok (mkResp 200 "" 0 [])) (match rq_body rq with BodyPipe ws _ => length ws | _ => 0 end), S n).

Definition verdict_client : Client := mkClient "https://edge" "fs1" "tok" 4 4096 8.

Lemma Upload_verdict_witness :
  Upload (TW := throttling_broker) (RU := λ _ : string, None) verdict_client "/a" [Seg ["x"; "y"]%char None] 2 true 0%nat
    = (Some (MapHTTPStatus 429 (captureErrorBody []) "2"), 1%nat) ∧
  Upload (TW := accepting_broker) (RU := λ _ : string, None) verdict_client "/a" [Seg ["x"]%char (Some (errors_New "disk error"))] 2 true 0%nat
    = (Some (EErrorf "brokerrpc: fileUpload write body: %w" [] [EErrorf "read source: %w" [] [errors_New "disk error"]]), 1%nat).
Proof.
  split.
  - destruct (Upload_verdict (TW := throttling_broker) (RU := λ _ : string, None) verdict_client "/a" [Seg ["x"; "y"]%char None] 2 true
      0%nat 1%nat (mkDo (Ok (mkResp 429 "2" (-1) [])) 2) (mkResp 429 "2" (-1) []) {| am_Intent := "write"; am_Downloadable := false |}
      eq_refl eq_refl eq_refl eq_refl) as (err & -> & Hnot & _).
    by rewrite Hnot.
  - destruct (Upload_verdict (TW := accepting_broker) (RU := λ _ : string, None) verdict_client "/a"
      [Seg ["x"]%char (Some (errors_New "disk error"))] 2 true 0%nat 1%nat (mkDo (Ok (mkResp 200 "" 0 [])) 5) (mkResp 200 "" 0 [])
      {| am_Intent := "write"; am_Downloadable := false |} eq_refl eq_refl eq_refl eq_refl) as (err & -> & _ & _ & Hok).
    rewrite (proj2 (Hok eq_refl eq_refl)); [reflexivity|]. split; [reflexivity|]. split; [simpl; lia|reflexivity].
Defined.

(** A source that fails with [io.ErrClosedPipe] of its own passes for a pipe
    the broker closed: the upload of a cut-off source reports success. *)
Theorem closed_source_passes :
  Upload (TW := accepting_broker) (RU := λ _ : string, None) verdict_client "/a" [Seg ["x"]%char (Some (ESent io_ErrClosedPipe))] 2 true 0%nat
  = (None, 1%nat).
Proof. reflexivity. Qed.
