(* ===== verification/UploadPipe.v ===== *)
(** * The upload pipe as concurrent steps (internal/brokerrpc/upload.go)

    Upload runs the multipart writer in a goroutine against an [io.Pipe] whose
    read end the HTTP transport drains or closes, while the caller waits for the
    response and then for the goroutine's result.  [step] interleaves the three;
    the theorems show that no interleaving hangs and that every one ends in the
    verdict of the sequential definition of [Upload]. *)
From Stdlib Require Import Ascii String.
From stdpp Require Import base list strings numbers relations.
From S2P Require Import Prelude GoErrors GoIO GoJson BrokerErrors Messages Client Download Upload.
Local Open Scope Z_scope.

(** The goroutine's program counter: about to create the params field, write
    it, create the file part, read the source, write a chunk (with the read's
    error, if any), close the multipart writer, close the pipe, send the
    result. *)
Inductive wpc : Type :=
| WField
| WParams
| WFile
| WRead (src : reader)
| WChunk (d : bytes) (readErr : option error) (src : reader)
| WEnd (err : option error)
| WClose (err : option error)
| WSend (err : option error)
| WDone (err : option error).

(** The caller: building the request, waiting for the transport, waiting for
    the goroutine, returned. *)
Inductive cpc : Type :=
| CBuild
| CBuildErr (e : error)
| CDo
| CGot (res : result error http_response)
| CDone (res : option error).

(** [up_closed]: the error the read end was closed with; [up_sent]: the
    buffered result channel. *)
Record ustate := mkU {
  up_pc : wpc; up_accepted : list pipe_write; up_closed : option error;
  up_wclosed : option (option error); up_sent : option (option error); up_caller : cpc }.

Section pipe.
Context (fsID path : string) (totalBytes : Z) (overwrite : bool) (am : AuthorizationMetadata) (src0 : reader) (ceiling : Z).
(** NewRequestWithContext's verdict on the URL. *)
Context (reqErr : option error).

Definition payload : bytes :=
  bytes_of_string (print_json (enc_FileUploadRequest
    {| fu_FilesystemID := fsID; fu_Path := path; fu_DeclaredSizeBytes := totalBytes;
       fu_OverwriteExisting := overwrite; fu_AuthorizationMetadata := am |})).

(** After the bytes of a read: the end, a read fault, or the next read. *)
Definition after_read (readErr : option error) (src : reader) : wpc :=
  match readErr with
  | Some e => if is_EOF e then WEnd None else WEnd (Some (EErrorf "read source: %w" [] [e]))
  | None => WRead src
  end.

(** The pipe write a program point is at, with the points after success and
    after failure. *)
Definition pending (pc : wpc) : option (pipe_write * wpc * (error → wpc)) :=
  match pc with
  | WField => Some (PWPart "params" "", WParams, λ e, WEnd (Some (EErrorf "create params field: %w" [] [e])))
  | WParams => Some (PWData payload, WFile, λ e, WEnd (Some (EErrorf "write params field: %w" [] [e])))
  | WFile => Some (PWPart "file" "upload", WRead src0, λ e, WEnd (Some (EErrorf "create file part: %w" [] [e])))
  | WChunk d readErr src => Some (PWData d, after_read readErr src, λ e, WEnd (Some (EErrorf "write file chunk: %w" [] [e])))
  | WEnd err => Some (PWEnd, WClose err, λ e, WClose (match err with None => Some e | Some _ => err end))
  | _ => None
  end.

(** Upload's tail once the transport answered and the goroutine finished. *)
Definition verdict (res : result error http_response) (writeErr : option error) : option error :=
  match res with
  | Err e => Some (EErrorf "brokerrpc: fileUpload: %w" [] [e])
  | Ok resp =>
      if negb (is_2xx (rs_status resp)) then
        Some (MapHTTPStatus (rs_status resp) (captureErrorBody (rs_body resp)) (rs_retry_after resp))
      else
        let '(_, readErr, _) := read_all_limit maxErrorBodyBytes (rs_body resp) in
        match readErr with
        | Some e => Some (EErrorf "brokerrpc: fileUpload read response body: %w" [] [e])
        | None => match writeErr with
                  | Some e => if isPipeClosure e then None
                              else Some (EErrorf "brokerrpc: fileUpload write body: %w" [] [e])
                  | None => None
                  end
        end
  end.

(** The transport has the request. *)
Definition sending (c : cpc) : bool := match c with CDo | CGot _ => true | _ => false end.

Inductive step : ustate → ustate → Prop :=
| s_write pc x ok fail acc w sent c :              (* the transport takes a write *)
    pending pc = Some (x, ok, fail) → sending c = true →
    step (mkU pc acc None w sent c) (mkU ok (acc ++ [x]) None w sent c)
| s_write_fail pc x ok fail acc e w sent c :       (* a write on a closed pipe *)
    pending pc = Some (x, ok, fail) →
    step (mkU pc acc (Some e) w sent c) (mkU (fail e) acc (Some e) w sent c)
| s_read src d readErr src' acc cl w sent c :      (* the goroutine reads its source *)
    Read (sourceChunkSize ceiling) src = (d, readErr, src') →
    step (mkU (WRead src) acc cl w sent c)
         (mkU (match d with [] => after_read readErr src' | _ => WChunk d readErr src' end) acc cl w sent c)
| s_close err acc cl w sent c :                    (* pw.CloseWithError *)
    step (mkU (WClose err) acc cl w sent c) (mkU (WSend err) acc cl (Some err) sent c)
| s_send err acc cl w c :                          (* errCh <- err *)
    step (mkU (WSend err) acc cl w None c) (mkU (WDone err) acc cl w (Some err) c)
| t_close pc acc w sent c :                        (* the transport closes the body *)
    sending c = true →
    step (mkU pc acc None w sent c) (mkU pc acc (Some (ESent io_ErrClosedPipe)) w sent c)
| t_respond pc acc cl w sent res :                 (* Do returns *)
    step (mkU pc acc cl w sent CDo) (mkU pc acc cl w sent (CGot res))
| c_start pc acc w sent :
    reqErr = None → step (mkU pc acc None w sent CBuild) (mkU pc acc None w sent CDo)
| c_build_err pc acc w sent e :                    (* pr.CloseWithError(err) *)
    reqErr = Some e → step (mkU pc acc None w sent CBuild) (mkU pc acc (Some e) w sent (CBuildErr e))
| c_done_build pc acc cl w werr e :
    step (mkU pc acc cl w (Some werr) (CBuildErr e))
         (mkU pc acc cl w (Some werr) (CDone (Some (EErrorf "brokerrpc: build upload request: %w" [] [e]))))
| c_done pc acc cl w werr res :
    step (mkU pc acc cl w (Some werr) (CGot res)) (mkU pc acc cl w (Some werr) (CDone (verdict res werr))).

Definition init : ustate := mkU WField [] None None None CBuild.
Definition reachable (st : ustate) : Prop := rtc step init st.
Definition returned (st : ustate) : bool := match up_caller st with CDone _ => true | _ => false end.

(** ** No interleaving hangs *)
Definition pc_measure (pc : wpc) : nat :=
  match pc with
  | WField => 8 + 2 * reader_size src0
  | WParams => 7 + 2 * reader_size src0
  | WFile => 6 + 2 * reader_size src0
  | WRead src => 5 + 2 * reader_size src
  | WChunk _ None src => 6 + 2 * reader_size src
  | WChunk _ (Some _) _ => 4
  | WEnd _ => 3
  | WClose _ => 2
  | WSend _ => 1
  | WDone _ => 0
  end.
Definition caller_measure (c : cpc) : nat :=
  match c with CBuild => 3 | CDo => 2 | CGot _ | CBuildErr _ => 1 | CDone _ => 0 end.
Definition measure (st : ustate) : nat :=
  pc_measure (up_pc st) + (if up_closed st then 0 else 1) + caller_measure (up_caller st).

Lemma pending_decreases pc x ok fail e : pending pc = Some (x, ok, fail) →
  (pc_measure ok < pc_measure pc ∧ pc_measure (fail e) < pc_measure pc)%nat.
Proof.
  destruct pc as [| | |src|d [e0|] src|err| | |]; simpl; intros; simplify_eq/=; try lia.
  unfold after_read. by destruct (is_EOF e0); simpl; lia.
Qed.

Lemma step_decreases st st' : step st st' → (measure st' < measure st)%nat.
Proof.
  unfold measure. inversion 1 as [? ? ? fail ? ? ? ? Hp|? ? ? ? ? e ? ? ? Hp|src d readErr src' ? ? ? ? ? Hr| | | | | | | |]; subst; simpl; try lia.
  - destruct (pending_decreases _ _ _ _ (ESent io_EOF) Hp). lia.
  - destruct (pending_decreases _ _ _ _ e Hp). lia.
  - assert (pc_measure (match d with [] => after_read readErr src' | _ => WChunk d readErr src' end) < pc_measure (WRead src))%nat as Hm; [|simpl in Hm; lia].
    destruct readErr as [e|].
    + destruct d; simpl; [|lia]. unfold after_read. destruct (is_EOF e); simpl; lia.
    + pose proof (Read_decreases _ _ _ _ (sourceChunkSize_pos ceiling) Hr). destruct d; simpl; lia.
Qed.

Definition pipe_inv (st : ustate) : Prop :=
  (match up_pc st with WDone err => up_sent st = Some err | _ => up_sent st = None end) ∧
  match up_caller st with
  | CBuild => up_closed st = None
  | CBuildErr e => up_closed st ≠ None ∧ reqErr = Some e
  | CDo | CGot _ => reqErr = None
  | CDone _ => up_sent st ≠ None
  end.

Lemma after_read_running readErr src : match after_read readErr src with WDone _ => False | _ => True end.
Proof. unfold after_read. destruct readErr as [e|]; [|done]. by destruct (is_EOF e). Qed.

Lemma pending_running pc x ok fail e : pending pc = Some (x, ok, fail) →
  match pc with WDone _ => False | _ => True end ∧ match ok with WDone _ => False | _ => True end ∧
  match fail e with WDone _ => False | _ => True end.
Proof.
  destruct pc as [| | |src|d readErr src|err| | |]; simpl; intros; simplify_eq/=; try done.
  split; [done|]. split; [apply after_read_running|done].
Qed.

Lemma pipe_step_inv st st' : step st st' → pipe_inv st → pipe_inv st'.
Proof.
  unfold pipe_inv. inversion 1 as [pc x ok fail acc w sent c Hp Hs|pc x ok fail acc e w sent c Hp|src d readErr src' ? ? ? ? ? Hr| | |? ? ? ? c Hc| | | | |];
    subst; simpl; intros [H1 H2].
  - destruct (pending_running _ _ _ _ (ESent io_EOF) Hp) as (A & B & _). destruct pc, ok; done.
  - destruct (pending_running _ _ _ _ e Hp) as (A & _ & B). split; [destruct pc, (fail e); done|done].
  - split; [|done]. destruct d; [|done]. pose proof (after_read_running readErr src') as A. by destruct (after_read readErr src').
  - done.
  - by destruct c.
  - split; [done|]. by destruct c.
  - done.
  - done.
  - by split.
  - by split.
  - by split.
Qed.

Lemma reachable_inv st : reachable st → pipe_inv st.
Proof.
  intros H. assert (∀ x y, rtc step x y → pipe_inv x → pipe_inv y) as Hr.
  { induction 1; [done|]. intros. eauto using pipe_step_inv. }
  apply (Hr init st H). by split.
Qed.

Lemma progress st : pipe_inv st → returned st = false → ∃ st', step st st'.
Proof.
  destruct st as [pc acc cl w sent c]. unfold pipe_inv, returned. simpl. intros [H1 H2] Hr.
  destruct c as [|e| |res|]; [| |by eexists; apply (t_respond _ _ _ _ _ (Err (ESent io_EOF)))| |done].
  - subst. destruct reqErr as [e|] eqn:E; eexists; [by apply c_build_err|by apply c_start].
  - destruct H2 as [H2 Hreq]. destruct cl as [ce|]; [|done]. destruct sent as [werr|]; [eexists; apply c_done_build|].
    destruct (pending pc) as [[[x ok] fail]|] eqn:E; [eexists; by eapply s_write_fail|].
    destruct pc; try done; [|eexists; by apply s_close|eexists; by apply s_send].
    destruct (Read (sourceChunkSize ceiling) src) as [[d readErr] src'] eqn:ER. eexists. by eapply s_read.
  - destruct sent as [werr|]; [eexists; apply c_done|].
    destruct (pending pc) as [[[x ok] fail]|] eqn:E.
    { destruct cl as [ce|]; eexists; [by eapply s_write_fail|by eapply s_write]. }
    destruct pc; try done; [|eexists; by apply s_close|eexists; by apply s_send].
    destruct (Read (sourceChunkSize ceiling) src) as [[d readErr] src'] eqn:ER. eexists. by eapply s_read.
Qed.

Lemma nsteps_bound n st st' : nsteps step n st st' → (n + measure st' <= measure st)%nat.
Proof. induction 1 as [|n x y z Hxy _ IH]; [lia|]. apply step_decreases in Hxy. lia. Qed.

(** ** What the goroutine will have written *)

(** The sequential completion of a program point on a pipe. *)
Definition finish_end (err : option error) (p : pipe) : option error * list pipe_write :=
  let '(cerr, p') := pipe_Write PWEnd p in (match err with None => cerr | Some _ => err end, p_written p').
Definition finish_read (src : reader) (p : pipe) : option error * list pipe_write :=
  match copy_loop (S (reader_size src)) (sourceChunkSize ceiling) src p with
  | Some (err, p') => finish_end err p'
  | None => finish_end (Some (errors_New "unreachable")) p
  end.
Definition finish_after (readErr : option error) (src : reader) (p : pipe) : option error * list pipe_write :=
  match readErr with
  | Some e => finish_end (if is_EOF e then None else Some (EErrorf "read source: %w" [] [e])) p
  | None => finish_read src p
  end.
Definition finish_write (x : pipe_write) (what : string) (k : pipe → option error * list pipe_write) (p : pipe) :=
  match pipe_Write x p with
  | (None, p') => k p'
  | (Some e, p') => finish_end (Some (EErrorf what [] [e])) p'
  end.
Definition finish_file := finish_write (PWPart "file" "upload") "create file part: %w" (finish_read src0).
Definition finish_params := finish_write (PWData payload) "write params field: %w" finish_file.

Definition finish (pc : wpc) (p : pipe) : option error * list pipe_write :=
  match pc with
  | WField => finish_write (PWPart "params" "") "create params field: %w" finish_params p
  | WParams => finish_params p
  | WFile => finish_file p
  | WRead src => finish_read src p
  | WChunk d readErr src => finish_write (PWData d) "write file chunk: %w" (finish_after readErr src) p
  | WEnd err => finish_end err p
  | WClose err | WSend err | WDone err => (err, p_written p)
  end.

Notation writer b := (upload_writer b fsID path totalBytes overwrite am src0 ceiling).

Lemma finish_after_read readErr src p : finish (after_read readErr src) p = finish_after readErr src p.
Proof. unfold after_read. destruct readErr as [e|]; [|done]. by destruct (is_EOF e) eqn:E; simpl; rewrite E. Qed.

Lemma finish_pending pc x ok fail p : pending pc = Some (x, ok, fail) →
  finish pc p = match pipe_Write x p with (None, p') => finish ok p' | (Some e, p') => finish (fail e) p' end.
Proof.
  destruct pc as [| | |src|d readErr src|err| | |]; simpl; intros; simplify_eq/=; try done.
  - unfold finish_write. destruct (pipe_Write (PWData d) p) as [[e|] p']; [done|]. by rewrite finish_after_read.
  - unfold finish_end. by destruct (pipe_Write PWEnd p) as [[e|] p'], err.
Qed.

Lemma copy_loop_fuel n m chunk src p : 0 < chunk → (reader_size src < n)%nat → (reader_size src < m)%nat →
  copy_loop n chunk src p = copy_loop m chunk src p.
Proof.
  intros Hc. revert m src p. induction n as [|n IH]; intros m src p Hn Hm; [lia|]. destruct m as [|m]; [lia|]. simpl.
  destruct (Read chunk src) as [[d readErr] src'] eqn:ER.
  destruct (match d with [] => (None, p) | _ => pipe_Write (PWData d) p end) as [[e|] p']; [done|].
  destruct readErr as [e|]; [done|]. pose proof (Read_decreases _ _ _ _ Hc ER). apply IH; lia.
Qed.

Lemma copy_loop_total n chunk src p : 0 < chunk → (reader_size src < n)%nat → ∃ r, copy_loop n chunk src p = Some r.
Proof.
  intros Hc. revert src p. induction n as [|n IH]; intros src p Hn; [lia|]. simpl.
  destruct (Read chunk src) as [[d readErr] src'] eqn:ER.
  destruct (match d with [] => (None, p) | _ => pipe_Write (PWData d) p end) as [[e|] p']; [by eexists|].
  destruct readErr as [e|]; [by destruct (is_EOF e); eexists|]. pose proof (Read_decreases _ _ _ _ Hc ER). apply IH. lia.
Qed.

Lemma finish_read_step src d readErr src' p : Read (sourceChunkSize ceiling) src = (d, readErr, src') →
  finish (WRead src) p = finish (match d with [] => after_read readErr src' | _ => WChunk d readErr src' end) p.
Proof.
  intros ER. pose proof (sourceChunkSize_pos ceiling) as Hc. cbn [finish]. unfold finish_read at 1. cbn [copy_loop]. rewrite ER.
  assert (∀ p', match (match readErr with
            | Some e => if is_EOF e then Some (None, p') else Some (Some (EErrorf "read source: %w" [] [e]), p')
            | None => copy_loop (reader_size src) (sourceChunkSize ceiling) src' p'
            end) with Some (err, p'') => finish_end err p'' | None => finish_end (Some (errors_New "unreachable")) p end
          = finish_after readErr src' p') as Ha.
  { intros p'. unfold finish_after. destruct readErr as [e|]; [by destruct (is_EOF e)|]. unfold finish_read.
    pose proof (Read_decreases _ _ _ _ Hc ER).
    rewrite (copy_loop_fuel (reader_size src) (S (reader_size src'))) by lia.
    destruct (copy_loop_total (S (reader_size src')) (sourceChunkSize ceiling) src' p') as [r ->]; [done|lia|]. by destruct r. }
  destruct d as [|x d].
  - rewrite finish_after_read. apply Ha.
  - cbn [finish]. unfold finish_write. destruct (pipe_Write (PWData (x :: d)) p) as [[e|] p']; [done|]. apply Ha.
Qed.

Lemma finish_init b : finish WField (mkPipe [] b) = writer b.
Proof.
  unfold upload_writer, writeUploadMultipart. fold payload. cbn [finish]. unfold finish_write.
  destruct (pipe_Write (PWPart "params" "") _) as [[e|] p1]; [done|]. unfold finish_params, finish_write.
  destruct (pipe_Write (PWData payload) p1) as [[e|] p2]; [done|]. unfold finish_file, finish_write.
  destruct (pipe_Write (PWPart "file" "upload") p2) as [[e|] p3]; [done|]. unfold finish_read.
  destruct (copy_loop_total (S (reader_size src0)) (sourceChunkSize ceiling) src0 p3) as [[err p4] ->];
    [apply sourceChunkSize_pos|lia|]. done.
Qed.

(** An open pipe takes everything that is left, the closing boundary at least. *)
Definition settled (pc : wpc) : option (option error) :=
  match pc with WClose err | WSend err | WDone err => Some err | _ => None end.

Lemma finish_end_open err acc : finish_end err (mkPipe acc None) = (err, acc ++ [PWEnd]).
Proof. unfold finish_end. simpl. by destruct err. Qed.

Lemma finish_read_open src acc : (length acc < length (finish_read src (mkPipe acc None)).2)%nat.
Proof.
  unfold finish_read. destruct (copy_loop_open (S (reader_size src)) (sourceChunkSize ceiling) src acc) as (cs & -> & _ & _);
    [apply sourceChunkSize_pos|lia|]. rewrite finish_end_open. simpl. rewrite !length_app. simpl. lia.
Qed.

Lemma finish_after_open readErr src acc : (length acc < length (finish_after readErr src (mkPipe acc None)).2)%nat.
Proof.
  unfold finish_after. destruct readErr as [e|]; [|apply finish_read_open]. rewrite finish_end_open. simpl. rewrite length_app. simpl. lia.
Qed.

Lemma finish_open pc acc : settled pc = None → (length acc < length (finish pc (mkPipe acc None)).2)%nat.
Proof.
  assert (∀ x what k, (∀ acc, (length acc < length (k (mkPipe acc None)).2)%nat) →
    (length acc < length (finish_write x what k (mkPipe acc None)).2)%nat) as Hw.
  { intros x what k Hk. unfold finish_write. simpl. specialize (Hk (acc ++ [x])). rewrite length_app in Hk. simpl in Hk. lia. }
  assert (∀ a, (length a < length (finish_file (mkPipe a None)).2)%nat) as Hfile.
  { intros a. pose proof (finish_read_open src0 (a ++ [PWPart "file" "upload"])) as H. rewrite length_app in H.
    unfold finish_file, finish_write. cbn [pipe_Write p_budget p_written]. simpl in H. lia. }
  assert (∀ a, (length a < length (finish_params (mkPipe a None)).2)%nat) as Hparams.
  { intros a. specialize (Hfile (a ++ [PWData payload])). rewrite length_app in Hfile. unfold finish_params, finish_write.
    cbn [pipe_Write p_budget p_written]. simpl in Hfile. lia. }
  destruct pc; cbn [finish settled]; intros ?; try discriminate.
  - by apply Hw.
  - apply Hparams.
  - apply Hfile.
  - apply finish_read_open.
  - apply Hw. intros. apply finish_after_open.
  - rewrite finish_end_open. simpl. rewrite length_app. simpl. lia.
Qed.

(** The goroutine is on course for the sequential writer's result: on a pipe
    still open for every budget, on a closed pipe for what was accepted. *)
Definition on_course (st : ustate) : Prop :=
  let acc := up_accepted st in
  match up_closed st with
  | None => ∀ b, finish (up_pc st) (mkPipe acc b) = writer ((λ n, length acc + n)%nat <$> b)
  | Some e => reqErr = None → e = ESent io_ErrClosedPipe ∧
      finish (up_pc st) (mkPipe acc (Some 0%nat)) = writer (Some (length acc)) ∧
      ((length (writer None).2 <= length acc)%nat → settled (up_pc st) = Some (writer None).1)
  end.

Lemma settled_finish pc err p : settled pc = Some err → finish pc p = (err, p_written p).
Proof. by destruct pc; intros; simplify_eq/=. Qed.

Lemma course_closed pc acc : (∀ b, finish pc (mkPipe acc b) = writer ((λ n, length acc + n)%nat <$> b)) →
  finish pc (mkPipe acc (Some 0%nat)) = writer (Some (length acc)) ∧
  ((length (writer None).2 <= length acc)%nat → settled pc = Some (writer None).1).
Proof.
  intros H. split; [by rewrite (H (Some 0%nat)); simpl; rewrite Nat.add_0_r|]. intros Hl.
  specialize (H None). simpl in H. destruct (settled pc) as [err|] eqn:E.
  - rewrite (settled_finish pc err) in H by done. by rewrite <- H.
  - pose proof (finish_open pc acc E). rewrite H in *. lia.
Qed.

Lemma step_course st st' : step st st' → on_course st → on_course st'.
Proof.
  unfold on_course. inversion 1 as [pc x ok fail acc w sent c Hp Hs|pc x ok fail acc e w sent c Hp|src d readErr src' acc cl w sent c Hr|err acc cl w sent c|err acc cl w c|pc acc w sent c Hc|pc acc cl w sent res|pc acc w sent Hq|pc acc w sent e Hq|pc acc cl w werr e|pc acc cl w werr res];
    subst; cbn [up_pc up_accepted up_closed]; try done.
  - intros HG b. specialize (HG (S <$> b)). rewrite (finish_pending _ _ _ _ _ Hp) in HG.
    rewrite length_app. destruct b as [n|]; simpl in *; rewrite HG; [do 2 f_equal; lia|done].
  - intros HG Hq. destruct (HG Hq) as (-> & Hf & Hs). split; [done|]. rewrite (finish_pending _ _ _ _ _ Hp) in Hf. simpl in Hf.
    split; [done|]. intros Hl. specialize (Hs Hl). destruct pc; simpl in Hp, Hs; done.
  - destruct cl as [e|].
    + intros HG Hq. destruct (HG Hq) as (-> & Hf & Hs). split; [done|]. rewrite (finish_read_step _ _ _ _ _ Hr) in Hf. split; [done|].
      intros Hl. by specialize (Hs Hl).
    + intros HG b. specialize (HG b). by rewrite (finish_read_step _ _ _ _ _ Hr) in HG.
  - intros HG Hq. split; [done|]. by apply course_closed.
  - intros HG Hq'. congruence.
Qed.

Lemma reachable_course st : reachable st → on_course st.
Proof.
  intros H. assert (∀ x y, rtc step x y → on_course x → on_course y) as Hr.
  { induction 1; [done|]. intros. eauto using step_course. }
  apply (Hr init st H). unfold on_course, init. cbn [up_pc up_accepted up_closed]. intros b. rewrite finish_init. by destruct b.
Qed.

(** Once the goroutine is done, its error is the sequential writer's. *)
Lemma done_course st err : reachable st → reqErr = None → up_pc st = WDone err →
  (if (length (writer None).2 <=? length (up_accepted st))%nat then (writer None).1
   else (writer (Some (length (up_accepted st)))).1) = err.
Proof.
  intros Hr Hq Hpc. pose proof (reachable_course st Hr) as H. unfold on_course in H. rewrite Hpc in H.
  destruct (up_closed st) as [e|].
  - destruct (H Hq) as (_ & Hf & Hs). destruct (Nat.leb_spec (length (writer None).2) (length (up_accepted st))) as [Hl|Hl].
    + by simplify_eq/=; specialize (Hs Hl); simplify_eq/=.
    + by rewrite <- Hf.
  - pose proof (H None) as H0. simpl in H0. rewrite <- H0. simpl. by rewrite Nat.leb_refl.
Qed.

(** From the response on, the caller holds it or has returned its verdict. *)
Lemma step_answered res st st' : step st st' → pipe_inv st →
  (up_caller st = CGot res ∨ ∃ err, up_pc st = WDone err ∧ up_caller st = CDone (verdict res err)) →
  up_caller st' = CGot res ∨ ∃ err, up_pc st' = WDone err ∧ up_caller st' = CDone (verdict res err).
Proof.
  unfold pipe_inv. inversion 1 as [pc x ok fail acc w sent c Hp Hs|pc x ok fail acc e w sent c Hp|src d readErr src' acc cl w sent c Hr| | |? ? ? ? c Hc| | | | |pc acc cl w werr res'];
    subst; simpl; intros [Hs1 Hs2] [Hc1|(err' & He & Hc1)]; simplify_eq/=; try (by left); try (right; by eexists).
  right. destruct pc; try done. simplify_eq. by eexists.
Qed.

Lemma answered_verdict res st st' : reachable st → rtc step st st' → up_caller st = CGot res →
  up_caller st' = CGot res ∨ ∃ err, up_pc st' = WDone err ∧ up_caller st' = CDone (verdict res err).
Proof.
  intros Hr Hs Hg. assert (pipe_inv st) as Hi by by apply reachable_inv.
  assert (up_caller st = CGot res ∨ ∃ err, up_pc st = WDone err ∧ up_caller st = CDone (verdict res err)) as Ha by by left.
  clear Hr Hg. induction Hs as [x|x y z Hxy _ IH]; [done|]. eauto using pipe_step_inv, step_answered.
Qed.

Lemma runs_to_return n st : pipe_inv st → (measure st <= n)%nat → ∃ st', rtc step st st' ∧ returned st' = true.
Proof.
  revert st. induction n as [|n IH]; intros st Hi Hm; (destruct (returned st) eqn:E; [by eexists; split; [apply rtc_refl|]|]);
    destruct (progress st Hi E) as [st' Hst]; pose proof (step_decreases _ _ Hst); [lia|].
  destruct (IH st') as (st'' & ? & ?); [by eapply pipe_step_inv|lia|]. exists st''. split; [by eapply rtc_l|done].
Qed.
End pipe.

(** C9: Upload never hangs and never leaks its writer goroutine.  However the
    goroutine, the transport and the caller interleave (the transport may stop
    reading, close the body or answer at any point, the request may fail to
    build), no run is longer than a bound fixed by the source, from every
    reachable point the call can still return, a state in which nothing can move
    is one where it has returned, and when it has returned the goroutine has
    sent its result and ended. *)
Theorem Upload_always_returns (fsID path : string) (totalBytes : Z) (overwrite : bool) (am : AuthorizationMetadata)
    (src : reader) (ceiling : Z) (reqErr : option error) (n : nat) (st : ustate) :
  let stp := step fsID path totalBytes overwrite am src ceiling reqErr in
  nsteps stp n init st →
  (n <= 12 + 2 * reader_size src)%nat ∧
  (∃ st', rtc stp st st' ∧ returned st' = true) ∧
  ((∀ st', ¬ stp st st') → returned st = true) ∧
  (returned st = true → ∃ err, up_pc st = WDone err ∧ up_sent st = Some err).
Proof.
  intros stp Hn. assert (Hr : rtc stp init st) by (apply rtc_nsteps; by eexists).
  pose proof (reachable_inv _ _ _ _ _ _ _ _ _ Hr) as Hi.
  apply nsteps_bound in Hn. unfold measure in Hn. simpl in Hn.
  split; [lia|]. split; [by eapply runs_to_return|]. split.
  - intros Hs. destruct (returned st) eqn:E; [done|].
    destruct (progress fsID path totalBytes overwrite am src ceiling reqErr st Hi E) as [st' H']. by destruct (Hs st').
  - destruct Hi as [H1 H2]. unfold returned. destruct (up_caller st); try done. intros _.
    destruct (up_pc st); simplify_eq/=; try (by rewrite H1 in H2). by eexists.
Qed.

(** C8: the sequential definition of Upload is what the concurrent one computes.
    In every interleaving in which the transport answers [res], the value the
    call returns is the one [Upload] gives for a transport that answers [res]
    having taken exactly the writes the run's transport took: how the goroutine,
    the transport's reads, the closing of the body and the answer are ordered
    makes no other difference. *)
Theorem Upload_interleaving_irrelevant {RU : RequestURL} (c : Client) (path : string) (totalBytes : Z)
    (overwrite : bool) (src : reader) (am : AuthorizationMetadata) (st st' : ustate)
    (res : result error http_response) (v : option error) :
  let stp := step (c_fsID c) path totalBytes overwrite am src (c_messageCeiling c) (newRequest_err (opURL c OpFileUpload)) in
  StampAuthMeta OpFileUpload = Ok am →
  rtc stp init st → up_caller st = CGot res → rtc stp st st' → up_caller st' = CDone v →
  v = fst (Upload (TW := λ _ w, (mkDo res (length (up_accepted st')), w)) c path src totalBytes overwrite tt).
Proof.
  intros stp Ham Hst Hres Hst' Hv.
  destruct (reachable_inv _ _ _ _ _ _ _ _ _ Hst) as [_ Hq]. rewrite Hres in Hq.
  destruct (answered_verdict _ _ _ _ _ _ _ _ res st st' Hst Hst' Hres) as [?|(err & Hpc & Hc)]; [congruence|].
  assert (Hr : rtc stp init st') by by etrans.
  pose proof (done_course _ _ _ _ _ _ _ _ _ _ Hr Hq Hpc) as Hw. rewrite Hv in Hc. injection Hc as ->.
  unfold Upload, stamp. rewrite Ham, Hq. simpl. revert Hw.
  destruct (upload_writer None _ _ _ _ _ _ _) as [openErr writes]. simpl. intros Hw.
  destruct res as [resp|e]; [|done]. simpl. destruct (is_2xx (rs_status resp)); simpl; [|done].
  destruct (read_all_limit maxErrorBodyBytes (rs_body resp)) as [[body readErr] r']. simpl.
  rewrite Hw. destruct readErr as [e|], err as [e'|]; try done. by destruct (isPipeClosure e').
Qed.

(** A run in which the broker throttles after the first write and the transport
    closes the body under the goroutine. *)
Definition early_429 : result error http_response := Ok (mkResp 429 "2" (-1) []).
Definition cut_off : option error := Some (EErrorf "write params field: %w" [] [ESent io_ErrClosedPipe]).
Definition after_429 : ustate := mkU WParams [PWPart "params" ""] None None None (CGot early_429).
Definition returned_429 : ustate :=
  mkU (WDone cut_off) [PWPart "params" ""] (Some (ESent io_ErrClosedPipe)) (Some cut_off) (Some cut_off)
      (CDone (verdict early_429 cut_off)).

Lemma run_to_429 fsID path total overwrite am src ceiling :
  nsteps (step fsID path total overwrite am src ceiling None) 3 init after_429.
Proof.
  apply nsteps_l with (mkU WField [] None None None CDo); [by apply c_start|].
  apply nsteps_l with (mkU WParams [PWPart "params" ""] None None None CDo);
    [by refine (s_write _ _ _ _ _ _ _ _ WField _ _ _ [] _ _ CDo eq_refl eq_refl)|].
  apply nsteps_once, t_respond.
Qed.

Lemma run_from_429 fsID path total overwrite am src ceiling :
  nsteps (step fsID path total overwrite am src ceiling None) 6 after_429 returned_429.
Proof.
  eapply nsteps_l; [by apply t_close|]. eapply nsteps_l; [by eapply s_write_fail|].
  eapply nsteps_l; [by eapply s_write_fail|]. eapply nsteps_l; [apply s_close|].
  eapply nsteps_l; [apply s_send|]. apply nsteps_once, c_done.
Qed.

Lemma Upload_always_returns_witness :
  ∃ err, up_pc returned_429 = WDone err ∧ up_sent returned_429 = Some err.
Proof.
  refine (proj2 (proj2 (proj2 (Upload_always_returns "fs1" "/a" 0 true {| am_Intent := "write"; am_Downloadable := false |}
    [] 4096 None 9%nat returned_429 _))) eq_refl).
  apply (nsteps_trans 3 6 _ after_429); [apply run_to_429|apply run_from_429].
Defined.

Lemma Upload_interleaving_irrelevant_witness :
  verdict early_429 cut_off =
    fst (Upload (TW := λ _ w, (mkDo early_429 1, w)) (RU := λ _ : string, None)
           (mkClient "https://edge" "fs1" "tok" 4 4096 8) "/a" [] 0 true tt) ∧
  verdict early_429 cut_off = Some (MapHTTPStatus 429 (captureErrorBody []) "2").
Proof.
  split; [|reflexivity].
  apply (Upload_interleaving_irrelevant (RU := λ _ : string, None) (mkClient "https://edge" "fs1" "tok" 4 4096 8) "/a" 0 true []
    {| am_Intent := "write"; am_Downloadable := false |} after_429 returned_429 early_429); [reflexivity| |reflexivity| |reflexivity];
    apply rtc_nsteps; eexists; [apply run_to_429|apply run_from_429].
Defined.
