(* ===== verification/GoTime.v ===== *)
(** * RFC 3339 timestamps ([time.Parse] with RFC3339 and RFC3339Nano)

    A [Time] is an instant in nanoseconds since the Unix epoch.  Go's parser
    accepts the same strings under both layouts: a fraction of any length after
    "." or ",", a one-digit hour, "Z" or a numeric offset. *)
From Stdlib Require Import Ascii String.
From stdpp Require Import base list strings numbers.
From S2P Require Import Prelude GoJson.
Local Open Scope Z_scope.

Abbreviation Time := Z.

(** Days from 1970-01-01 to the given proleptic Gregorian date. *)
Definition leap (y : Z) : bool := (y mod 4 =? 0) && (negb (y mod 100 =? 0) || (y mod 400 =? 0)).

Definition days_in (m y : Z) : Z :=
  if m =? 2 then (if leap y then 29 else 28)
  else if (m =? 4) || (m =? 6) || (m =? 9) || (m =? 11) then 30 else 31.

Definition days_before_year (y : Z) : Z := 365 * (y - 1) + (y - 1) / 4 - (y - 1) / 100 + (y - 1) / 400.

Fixpoint days_before_month (n : nat) (y : Z) : Z :=
  match n with O => 0 | S n' => days_in (Z.of_nat n) y + days_before_month n' y end.

Definition civil_days (y m d : Z) : Z :=
  days_before_year y + days_before_month (Z.to_nat (m - 1)) y + (d - 1) - 719162.

(** The zero time.Time: January 1 of year 1, 00:00 UTC. *)
Definition time_zero : Time := civil_days 1 1 1 * 86400 * 1000000000.

(** Exactly [n] digits. *)
Fixpoint fixed_digits (n : nat) (acc : Z) (s : string) : option (Z * string) :=
  match n with
  | O => Some (acc, s)
  | S n' => match s with
            | String a s' => if is_digit a then fixed_digits n' (acc * 10 + (byte_of a - 48)) s' else None
            | "" => None
            end
  end.

Definition expect (c : Z) (s : string) : option string :=
  match s with String a s' => if byte_of a =? c then Some s' else None | "" => None end.

(** getnum(value, false): one or two digits. *)
Definition hour_digits (s : string) : option (Z * string) :=
  match fixed_digits 2 0 s with Some r => Some r | None => fixed_digits 1 0 s end.

(** The fraction in nanoseconds; digits past the ninth are dropped. *)
Fixpoint frac_digits (scale acc : Z) (s : string) : Z * string :=
  match s with
  | String a s' => if is_digit a then frac_digits (scale / 10) (acc + (byte_of a - 48) * scale) s' else (acc, s)
  | "" => (acc, "")
  end.

Definition fraction (s : string) : Z * string :=
  match s with
  | String a (String b _ as s') =>
      if ((byte_of a =? 46) || (byte_of a =? 44)) && is_digit b then frac_digits 100000000 0 s' else (0, s)
  | _ => (0, s)
  end.

(** The zone offset in seconds. *)
Definition zone (s : string) : option Z :=
  match s with
  | String a s' =>
      if byte_of a =? 90 then (if decide (s' = "") then Some 0 else None)
      else if (byte_of a =? 43) || (byte_of a =? 45) then
        match fixed_digits 2 0 s' with
        | Some (hh, s1) =>
            match expect 58 s1 with
            | Some s2 => match fixed_digits 2 0 s2 with
                         | Some (mm, "") => if (hh <=? 24) && (mm <=? 60)
                                            then Some ((if byte_of a =? 45 then -1 else 1) * (hh * 3600 + mm * 60)) else None
                         | _ => None
                         end
            | None => None
            end
        | None => None
        end
      else None
  | "" => None
  end.

Definition parse_rfc3339 (s : string) : option Time :=
  '(y, s) ← fixed_digits 4 0 s; s ← expect 45 s;
  '(mo, s) ← fixed_digits 2 0 s; s ← expect 45 s;
  '(d, s) ← fixed_digits 2 0 s; s ← expect 84 s;
  '(h, s) ← hour_digits s; s ← expect 58 s;
  '(mi, s) ← fixed_digits 2 0 s; s ← expect 58 s;
  '(sec, s) ← fixed_digits 2 0 s;
  let '(ns, s) := fraction s in
  off ← zone s;
  if between 1 mo 12 && between 1 d (days_in mo y) && (h <? 24) && (mi <? 60) && (sec <? 60)
  then Some ((((civil_days y mo d * 24 + h) * 60 + mi) * 60 + sec - off) * 1000000000 + ns)
  else None.

Example rfc_ex1 : parse_rfc3339 "1970-01-02T00:00:01.5Z" = Some 86401500000000. Proof. reflexivity. Qed.
Example rfc_ex2 : parse_rfc3339 "2024-02-29T12:00:00+02:00" = Some 1709200800000000000. Proof. vm_compute. reflexivity. Qed.
Example rfc_ex3 : map parse_rfc3339 ["2023-02-29T12:00:00Z"; "yesterday"; "2024-01-01T25:00:00Z"; "2024-01-01T00:00:00"] = [None; None; None; None].
Proof. vm_compute. reflexivity. Qed.
Example time_zero_ex : parse_rfc3339 "0001-01-01T00:00:00Z" = Some time_zero. Proof. vm_compute. reflexivity. Qed.
