(* ===== verification/Ocufs.v ===== *)
(** * The rclone backend (backend/ocufs)

    [Fs] and [Object] with every method of ocufs.go, object.go and copymove.go,
    over the [brokerClient] interface of client.go.  An object's mutable fields
    are threaded through the methods that change them.  rclone's path encoder
    and its RangeOption.Decode are class arguments. *)
From Stdlib Require Import Ascii String.
From stdpp Require Import base list strings numbers gmap.
From S2P Require Import Prelude GoErrors GoIO GoJson GoPath GoTime BrokerErrors Messages Client Cursor Download Upload.
Local Open Scope Z_scope.

(** ** The broker interface (client.go) *)

(** A pointer response may be nil, which [None] stands for. *)
Class brokerClient (W : Type) := {
  bc_ListDirectoryStream : ∀ A, string → (A → ListDirEntry → result error A) → A → W → A * option error * W;
  bc_ListDirectoryAll : string → W → result error (list ListDirEntry) * W;
  bc_ReadMetadata : string → W → result error (option ReadMetadataResponse) * W;
  bc_Download : string → W → result error ReadCloser * W;
  bc_DownloadRange : string → Z → Z → W → result error ReadCloser * W;
  bc_Upload : string → reader → Z → bool → W → option error * W;
  bc_CopyFile : string → string → W → result error AckResponse * W;
  bc_MoveFile : string → string → W → result error AckResponse * W;
  bc_RemoveFile : string → W → result error AckResponse * W;
  bc_MakeDirectory : string → W → result error AckResponse * W;
  bc_RemoveDirectory : string → W → result error AckResponse * W;
  bc_MoveDirectory : string → string → W → result error AckResponse * W }.

(** [*brokerrpc.Client] satisfies the interface. *)
Definition client_broker {W} {TW : Transport W} {RU : RequestURL} (c : Client) : brokerClient W := {|
  bc_ListDirectoryStream A path yield a w := ListDirectoryStream yield c path a w;
  bc_ListDirectoryAll := ListDirectoryAll c;
  bc_ReadMetadata path w := let '(r, w') := ReadMetadata c path w in
                            (match r with Ok m => Ok (Some m) | Err e => Err e end, w');
  bc_Download := Download c;
  bc_DownloadRange := DownloadRange c;
  bc_Upload := Upload c;
  bc_CopyFile := CopyFile c;
  bc_MoveFile := MoveFile c;
  bc_RemoveFile := RemoveFile c;
  bc_MakeDirectory := MakeDirectory c;
  bc_RemoveDirectory := RemoveDirectory c;
  bc_MoveDirectory := MoveDirectory c |}.

(** ** rclone pieces *)
Inductive EncFlag : Type :=
| EncodeCtl | EncodeInvalidUtf8 | EncodeBackSlash | EncodeDoubleQuote
| EncodeRightSpace | EncodeRightPeriod | EncodeOther (bit : Z).

(** A MultiEncoder is a set of flags; the empty set is the identity. *)
Abbreviation MultiEncoder := (list EncFlag).

Class Encoder := {
  FromStandardPath : MultiEncoder → string → string;
  ToStandardPath : MultiEncoder → string → string }.

Definition defaultEncoding : MultiEncoder :=
  [EncodeCtl; EncodeInvalidUtf8; EncodeBackSlash; EncodeDoubleQuote; EncodeRightSpace; EncodeRightPeriod].

(** [RangeOption.Decode(size)] for the option's Start and End. *)
Class RangeDecode := Decode : Z → Z → Z → Z * Z.

Record ObjectInfo := { src_Remote : string; src_Size : Z }.

Inductive OpenOption : Type :=
| SeekOption (offset : Z)
| RangeOption (start end_ : Z)
| OtherOption (mandatory : bool).

(** ** Data *)

(** [fs_ptr] is the identity of the *Fs. *)
Record Fs := mkFs {
  fs_ptr : nat; fs_name : string; fs_root : string; fs_readOnly : bool; fs_enc : MultiEncoder }.

Record Object := mkObject {
  o_fs : Fs; o_remote : string; o_path : string;
  o_uuid : string; o_size : Z; o_mtime : Time; o_mode : string; o_sha : string; o_mime : string }.

(** An fs.Object and an fs.Fs as rclone hands them back: ours or foreign. *)
Inductive fsObject : Type := OcuObject (o : Object) | ForeignObject.
Inductive fsFs : Type := OcuFs (f : Fs) | ForeignFs.

Inductive DirEntry : Type :=
| EntryObject (o : Object)
| EntryDir (remote : string) (mtime : Time).

(** ** Options and NewFs (options.go, ocufs.go) *)
Record Options := mkOptions {
  op_ReadOnly : bool; op_ServiceURL : string; op_FilesystemID : string;
  op_AuthToken : string; op_CACertPEM : string; op_Enc : MultiEncoder }.

(** An option's default value, typed as in the struct it fills. *)
Inductive optDefault : Type := DBool (b : bool) | DString (s : string) | DEnc (enc : MultiEncoder).

Record fsOption := mkFsOption { opt_Name : string; opt_Default : optDefault; opt_Required : bool; opt_Sensitive : bool }.

Definition fsOptions : list fsOption := [
  mkFsOption "read_only" (DBool false) false false;
  mkFsOption "service_url" (DString "") true false;
  mkFsOption "filesystem_id" (DString "") true false;
  mkFsOption "auth_token" (DString "") true true;
  mkFsOption "ca_cert_pem" (DString "") true false;
  mkFsOption "encoding" (DEnc defaultEncoding) false false ].

Section newfs.
(** rclone's configstruct.Set, net/url and x509. *)
Variable configstruct_Set : gmap string string → result error Options.
Variable url_Parse : string → result error URL.
Variable AppendCertsFromPEM : bytes → bool.

Definition NewFs (ptr : nat) (name root : string) (m : gmap string string) : result error (Fs * Client) :=
  match configstruct_Set m with
  | Err e => Err (EErrorf "ocufs: parse options: %w" [] [e])
  | Ok opts =>
      let enc := match m !! "encoding" with Some _ => op_Enc opts | None => defaultEncoding end in
      if decide (op_ServiceURL opts = "") then Err (errors_New "ocufs: service_url is required")
      else if decide (op_FilesystemID opts = "") then Err (errors_New "ocufs: filesystem_id is required")
      else if decide (op_AuthToken opts = "") then Err (errors_New "ocufs: auth_token is required")
      else if decide (op_CACertPEM opts = "") then Err (errors_New "ocufs: ca_cert_pem is required")
      else match New url_Parse AppendCertsFromPEM (op_ServiceURL opts) (op_FilesystemID opts)
                   (op_AuthToken opts) (bytes_of_string (op_CACertPEM opts)) with
           | Err e => Err (EErrorf "ocufs: create broker client: %w" [] [e])
           | Ok c => Ok (mkFs ptr name root (op_ReadOnly opts) enc, c)
           end
  end.
End newfs.

(** ** Helpers (ocufs.go) *)
Definition parseMtime (s : string) : Time :=
  if decide (s = "") then time_zero
  else match parse_rfc3339 s with          (* time.RFC3339Nano *)
       | Some t => t
       | None => match parse_rfc3339 s with  (* time.RFC3339 *)
                 | Some t => t
                 | None => time_zero
                 end
       end.

Definition cleanPath (p : string) : string := Clean ("/" +:+ p).

Inductive metaArm : Type := metaArmAbsent | metaArmFile | metaArmDirectory.

Definition classifyMetaArms (filePath fileUUID fileMtime : string) (fileSize : Z) (dirPath : string) : metaArm :=
  let fileSubstantive := negb (bool_decide (filePath = "")) || negb (bool_decide (fileMtime = ""))
                         || negb (bool_decide (fileSize = 0)) in
  let fileArm := fileSubstantive || negb (bool_decide (fileUUID = "")) in
  let dirArm := negb (bool_decide (dirPath = "")) in
  if dirArm && negb fileSubstantive then metaArmDirectory
  else if fileArm then metaArmFile
  else metaArmAbsent.

Definition classifyReadMetadata (resp : option ReadMetadataResponse) : metaArm :=
  match resp with
  | None => metaArmAbsent
  | Some r => classifyMetaArms (f_Path (mr_File r)) (f_UUID (mr_File r)) (f_Mtime (mr_File r))
                (f_Size (mr_File r)) (d_Path (mr_Directory r))
  end.

Definition objectFromFile (f : Fs) (remote : string) (ff : FilesystemFile) : Object :=
  mkObject f remote (cleanPath (ff_Path ff)) (ff_UUID ff) (ff_Size ff) (parseMtime (ff_Mtime ff))
    (ff_Mode ff) (ff_SHA ff) (ff_MIME ff).

Section backend.
Context {ENC : Encoder} {RD : RangeDecode}.

Definition absPath (f : Fs) (rel : string) : string :=
  let std := if decide (rel = "") then fs_root f else Join [fs_root f; rel] in
  cleanPath (FromStandardPath (fs_enc f) std).

Definition immediateChildRemote (f : Fs) (dir parentPath : string) (entry : ListDirEntry) : option string :=
  match (match le_File entry, le_Directory entry with
         | Some ff, _ => Some (ff_Path ff)
         | None, Some d => Some (d_Path d)
         | None, None => None
         end) with
  | None => None
  | Some raw =>
      let entryPath := cleanPath raw in
      if decide (entryPath = parentPath) then None
      else if negb (HasPrefix entryPath (parentPath +:+ "/")) &&
              (negb (bool_decide (parentPath = "/")) || (0 <? count_char slash (TrimPrefix entryPath "/"))%nat)
      then None
      else
        let rel := TrimPrefix (TrimPrefix entryPath parentPath) "/" in
        if contains_char slash rel then None
        else
          let rel := ToStandardPath (fs_enc f) rel in
          if decide (dir = "") then Some rel else Some (Join [dir; rel])
  end.

(** The List callback: append the surviving entry. *)
Definition list_yield (f : Fs) (dir dirPath : string) (entries : list DirEntry) (entry : ListDirEntry)
    : result error (list DirEntry) :=
  match immediateChildRemote f dir dirPath entry with
  | None => Ok entries
  | Some remote =>
      match le_File entry, le_Directory entry with
      | Some ff, _ => Ok (entries ++ [EntryObject (objectFromFile f remote ff)])
      | None, Some d => Ok (entries ++ [EntryDir remote (parseMtime (d_Mtime d))])
      | None, None => Ok entries
      end
  end.

Context `{BC : brokerClient W}.

(** ** Fs methods (ocufs.go) *)
Definition List (f : Fs) (dir : string) (w : W) : result error (list DirEntry) * W :=
  let dirPath := absPath f dir in
  let '(entries, err, w') := bc_ListDirectoryStream _ dirPath (list_yield f dir dirPath) [] w in
  match err with
  | Some e => if errors_Is e ErrNotFound then (Err (ESent fs_ErrorDirNotFound), w')
              else (Err (EErrorf "ocufs: List %q: %w" [AStr dirPath] [e]), w')
  | None => (Ok entries, w')
  end.

Definition NewObject (f : Fs) (remote : string) (w : W) : result error Object * W :=
  let p := absPath f remote in
  let '(r, w') := bc_ReadMetadata p w in
  match r with
  | Err e => if errors_Is e ErrNotFound then (Err (ESent fs_ErrorObjectNotFound), w')
             else (Err (EErrorf "ocufs: NewObject %q: %w" [AStr p] [e]), w')
  | Ok None => (Err (ESent fs_ErrorObjectNotFound), w')
  | Ok (Some resp) =>
      match classifyReadMetadata (Some resp) with
      | metaArmFile =>
          let fl := mr_File resp in
          (Ok (mkObject f remote p (f_UUID fl) (f_Size fl) (parseMtime (f_Mtime fl))
                 (f_Mode fl) (f_SHA fl) (f_MIME fl)), w')
      | metaArmDirectory => (Err (ESent fs_ErrorIsDir), w')
      | metaArmAbsent => (Err (ESent fs_ErrorObjectNotFound), w')
      end
  end.

(** An object known only by its path and size. *)
Definition ack_object (f : Fs) (remote path : string) (size : Z) : Object :=
  mkObject f remote path "" size time_zero "" "" "".

Definition Put (f : Fs) (inp : reader) (src : ObjectInfo) (w : W) : result error Object * W :=
  if fs_readOnly f then (Err (ESent fs_ErrorPermissionDenied), w)
  else
    let dstPath := absPath f (src_Remote src) in
    let '(err, w') := bc_Upload dstPath inp (src_Size src) true w in
    match mapBrokerError err with
    | Some e => (Err (EErrorf "ocufs: Put %q: %w" [AStr dstPath] [e]), w')
    | None => (Ok (ack_object f (src_Remote src) dstPath (src_Size src)), w')
    end.

Definition Mkdir (f : Fs) (dir : string) (w : W) : option error * W :=
  if fs_readOnly f then (Some (ESent fs_ErrorPermissionDenied), w)
  else
    let p := absPath f dir in
    let '(r, w') := bc_MakeDirectory p w in
    match r with
    | Err e => if errors_Is e ErrAlreadyExists then (None, w')
               else (Some (EErrorf "ocufs: Mkdir %q: %w" [AStr p] (option_list (mapBrokerError (Some e)))), w')
    | Ok _ => (None, w')
    end.

Definition Rmdir (f : Fs) (dir : string) (w : W) : option error * W :=
  if fs_readOnly f then (Some (ESent fs_ErrorPermissionDenied), w)
  else
    let p := absPath f dir in
    let '(r, w') := bc_RemoveDirectory p w in
    match r with
    | Err e => (Some (EErrorf "ocufs: Rmdir %q: %w" [AStr p] (option_list (mapBrokerError (Some e)))), w')
    | Ok _ => (None, w')
    end.

(** ** Object methods (object.go) *)
Definition resolve (o : Object) (w : W) : option error * Object * W :=
  if negb (bool_decide (o_uuid o = "")) then (None, o, w)
  else
    let '(r, w') := bc_ReadMetadata (o_path o) w in
    match r with
    | Err e => if errors_Is e ErrNotFound then (Some (ESent fs_ErrorObjectNotFound), o, w')
               else (Some (EErrorf "ocufs: resolve %q: %w" [AStr (o_path o)] [e]), o, w')
    | Ok resp =>
        match classifyReadMetadata resp, resp with
        | metaArmDirectory, _ => (Some (ESent fs_ErrorIsDir), o, w')
        | metaArmFile, Some m =>
            let fl := mr_File m in
            (None, mkObject (o_fs o) (o_remote o) (o_path o) (f_UUID fl) (f_Size fl)
                     (parseMtime (f_Mtime fl)) (f_Mode fl) (f_SHA fl) (f_MIME fl), w')
        | _, _ => (Some (ESent fs_ErrorObjectNotFound), o, w')
        end
    end.

Definition ModTime (o : Object) (w : W) : Time * Object * W :=
  if bool_decide (o_uuid o = "") then
    let '(_, o', w') := resolve o w in (o_mtime o', o', w')
  else (o_mtime o, o, w).

Definition Size (o : Object) (w : W) : Z * Object * W :=
  if bool_decide (o_uuid o = "") && bool_decide (o_size o = 0) then
    let '(_, o', w') := resolve o w in (o_size o', o', w')
  else (o_size o, o, w).

Definition MimeType (o : Object) (w : W) : string * Object * W :=
  if bool_decide (o_uuid o = "") && bool_decide (o_mime o = "") then
    let '(_, o', w') := resolve o w in (o_mime o', o', w')
  else (o_mime o, o, w).

Definition Hash (o : Object) : result error string := Err (ESent hash_ErrUnsupported).

Definition SetModTime (o : Object) (w : W) : option error * W :=
  if fs_readOnly (o_fs o) then (Some (ESent fs_ErrorPermissionDenied), w)
  else (Some (ESent fs_ErrorCantSetModTime), w).

Definition Update (o : Object) (inp : reader) (src : ObjectInfo) (w : W) : option error * Object * W :=
  if fs_readOnly (o_fs o) then (Some (ESent fs_ErrorPermissionDenied), o, w)
  else
    let '(err, w') := bc_Upload (o_path o) inp (src_Size src) true w in
    match mapBrokerError err with
    | Some e => (Some (EErrorf "ocufs: Update %q: %w" [AStr (o_path o)] [e]), o, w')
    | None => (None, mkObject (o_fs o) (o_remote o) (o_path o) "" (src_Size src)
                       (o_mtime o) (o_mode o) (o_sha o) (o_mime o), w')
    end.

Definition Remove (o : Object) (w : W) : option error * W :=
  if fs_readOnly (o_fs o) then (Some (ESent fs_ErrorPermissionDenied), w)
  else
    let '(r, w') := bc_RemoveFile (o_path o) w in
    match r with
    | Err e => (Some (EErrorf "ocufs: Remove %q: %w" [AStr (o_path o)] (option_list (mapBrokerError (Some e)))), w')
    | Ok _ => (None, w')
    end.

(** The option loop of Open: offset, length, full-read flag; int64
    subtraction wraps. *)
Fixpoint open_options (size : Z) (opts : list OpenOption) (offset length : Z) (fullRead : bool)
    : result error (Z * Z * bool) :=
  match opts with
  | [] => Ok (offset, length, fullRead)
  | SeekOption off :: opts' =>
      let len := int64_wrap (size - off) in
      open_options size opts' off (if len <? 0 then 0 else len) false
  | RangeOption start end_ :: opts' =>
      let '(off, limit) := Decode start end_ size in
      let len := if limit =? -1 then
                   let len := int64_wrap (size - off) in if len <? 0 then 0 else len
                 else limit in
      open_options size opts' off len false
  | OtherOption mandatory :: opts' =>
      if mandatory then Err (EErrorf "ocufs: Open: unsupported mandatory option %T" [] [])
      else open_options size opts' offset length fullRead
  end.

Definition Open (o : Object) (opts : list OpenOption) (w : W) : result error ReadCloser * Object * W :=
  match resolve o w with
  | (Some e, o', w') => (Err e, o', w')
  | (None, o', w') =>
      let uuid := o_uuid o' in
      let size := o_size o' in
      if decide (uuid = "") then
        (Err (EErrorf "ocufs: Open %q: resolved metadata carries no uuid handle" [AStr (o_path o)] []), o', w')
      else match open_options size opts 0 0 true with
      | Err e => (Err e, o', w')
      | Ok (offset, length, fullRead) =>
          let '(r, w2) := if fullRead : bool then bc_Download uuid w' else bc_DownloadRange uuid offset length w' in
          (r, o', w2)
      end
  end.

(** ** Copy, Move, DirMove (copymove.go) *)

(** [call] is the broker op; the source object comes back because Size may
    resolve it. *)
Definition transferFile (f : Fs) (src : fsObject) (dstRemote opName : string) (cantSentinel : sentinel)
    (call : string → string → W → result error AckResponse * W) (w : W)
    : result error Object * fsObject * W :=
  if fs_readOnly f then (Err (ESent fs_ErrorPermissionDenied), src, w)
  else match src with
  | ForeignObject => (Err (ESent cantSentinel), src, w)
  | OcuObject srcObj =>
      if negb (bool_decide (fs_ptr (o_fs srcObj) = fs_ptr f)) then (Err (ESent cantSentinel), src, w)
      else
        let srcPath := o_path srcObj in
        let dstPath := absPath f dstRemote in
        let '(r, w') := call srcPath dstPath w in
        match r with
        | Err e => (Err (EErrorf "ocufs: %s %q → %q: %w" [AStr opName; AStr srcPath; AStr dstPath]
                           (option_list (mapBrokerError (Some e)))), src, w')
        | Ok _ =>
            let '(size, srcObj', w2) := Size srcObj w' in
            (Ok (ack_object f dstRemote dstPath size), OcuObject srcObj', w2)
        end
  end.

Definition Copy (f : Fs) (src : fsObject) (dstRemote : string) (w : W) : result error Object * fsObject * W :=
  transferFile f src dstRemote "Copy" fs_ErrorCantCopy bc_CopyFile w.

Definition Move (f : Fs) (src : fsObject) (dstRemote : string) (w : W) : result error Object * fsObject * W :=
  transferFile f src dstRemote "Move" fs_ErrorCantMove bc_MoveFile w.

Definition DirMove (f : Fs) (srcFs : fsFs) (srcRemote dstRemote : string) (w : W) : option error * W :=
  if fs_readOnly f then (Some (ESent fs_ErrorPermissionDenied), w)
  else match srcFs with
  | ForeignFs => (Some (ESent fs_ErrorCantDirMove), w)
  | OcuFs src =>
      if negb (bool_decide (fs_ptr src = fs_ptr f)) then (Some (ESent fs_ErrorCantDirMove), w)
      else
        let srcPath := absPath f srcRemote in
        let dstPath := absPath f dstRemote in
        let '(r, w') := bc_MoveDirectory srcPath dstPath w in
        match r with
        | Err e => (Some (EErrorf "ocufs: DirMove %q → %q: %w" [AStr srcPath; AStr dstPath]
                            (option_list (mapBrokerError (Some e)))), w')
        | Ok _ => (None, w')
        end
  end.

(** The features buildFeatures hands to rclone's Fill. *)
Record Features := mkFeatures {
  ft_ReadMimeType : bool;
  ft_CanHaveEmptyDirectories : bool;
  ft_Copy : fsObject → string → W → result error Object * fsObject * W;
  ft_Move : fsObject → string → W → result error Object * fsObject * W;
  ft_DirMove : fsFs → string → string → W → option error * W }.

Definition buildFeatures (f : Fs) : Features := mkFeatures true true (Copy f) (Move f) (DirMove f).
End backend.

(** ** What rclone reads without a call *)
Definition Name (f : Fs) : string := fs_name f.
Definition Root (f : Fs) : string := fs_root f.
Definition Fs_String (f : Fs) : string := "ocufs:" +:+ fs_root f.
(** Nanoseconds: one second. *)
Definition Precision (f : Fs) : Z := 1000000000.
(** No hash type is reported. *)
Definition Hashes (f : Fs) : list Z := [].

Definition Object_Fs (o : Object) : Fs := o_fs o.
Definition Object_String (o : Object) : string := o_path o.
Definition Remote (o : Object) : string := o_remote o.
Definition Storable (o : Object) : bool := true.

(** The registration: its name and its options; the constructor is [NewFs]. *)
Record RegInfo := mkRegInfo { ri_Name : string; ri_Description : string; ri_Options : list fsOption }.
Definition regInfo : RegInfo :=
  mkRegInfo "ocufs" "Open Computer Use file-store broker (guest-side mount)" fsOptions.
