(* ===== verification/OcufsSpec.v ===== *)
(** * Properties of the backend

    The depth-1 filter of List against component lists, the listing contract a
    broker owes the backend (a class, discharged by [*brokerrpc.Client]) and
    List's result under it, the agreement of NewObject with resolve, and the
    behaviour of Size, Open, Mkdir and the transfers on their branches. *)
From Stdlib Require Import Ascii String.
From stdpp Require Import base list strings numbers gmap.
From S2P Require Import Prelude GoErrors GoIO GoJson GoPath GoTime BrokerErrors Messages Client Cursor Download Upload Ocufs.
Local Open Scope Z_scope.

(** ** Paths *)

Lemma cleanPath_canonical p : canonical (cleanPath p).
Proof. unfold cleanPath. change ("/" +:+ p) with (String slash p). auto with go. Qed.

Lemma cleanPath_idemp p : cleanPath (cleanPath p) = cleanPath p.
Proof.
  destruct (cleanPath_canonical p) as (cs & Hcs & ->). unfold cleanPath.
  change ("/" +:+ path_of cs) with (String slash (path_of cs)).
  rewrite Clean_rooted, split_path_of by done.
  replace (clean_comps true [] ("" :: match cs with [] => [""] | _ => cs end)) with (clean_comps true [] cs).
  - by rewrite clean_comps_id.
  - simpl. by destruct cs.
Qed.

#[export] Hint Resolve cleanPath_canonical : go.

Definition entry_path (entry : ListDirEntry) : option string :=
  match le_File entry, le_Directory entry with
  | Some ff, _ => Some (ff_Path ff)
  | None, Some d => Some (d_Path d)
  | None, None => None
  end.

Lemma contains_slash_comp c : comp_ok c → contains_char slash c = false.
Proof. by intros (_&_&_&?). Qed.

Lemma path_of_snoc ps name : ps ≠ [] → path_of (ps ++ [name]) = path_of ps +:+ String slash name.
Proof. intros. unfold path_of. rewrite join_with_app by done. by rewrite string_app_cons. Qed.

Lemma join_contains_slash c cs : cs ≠ [] → contains_char slash (join_with slash (c :: cs)) = true.
Proof.
  intros. destruct cs as [|d cs]; [done|].
  change (join_with slash (c :: d :: cs)) with (c +:+ String slash (join_with slash (d :: cs))).
  rewrite contains_char_app. simpl. by rewrite orb_true_r.
Qed.

Section depth1.
Context {ENC : Encoder}.

(** The remote List reports for the child [name] of [dir]. *)
Definition child_remote (f : Fs) (dir name : string) : string :=
  let rel := ToStandardPath (fs_enc f) name in
  if decide (dir = "") then rel else Join [dir; rel].

Lemma absPath_canonical f rel : canonical (absPath f rel).
Proof. unfold absPath. auto with go. Qed.

(** The filter on component lists: the root case. *)
Lemma depth1_root f dir entry p es :
  entry_path entry = Some p → Forall comp_ok es → cleanPath p = path_of es →
  immediateChildRemote f dir "/" entry =
    match es with [name] => Some (child_remote f dir name) | _ => None end.
Proof.
  intros Hp Hes Hc. unfold immediateChildRemote. fold (entry_path entry). rewrite Hp, Hc.
  destruct es as [|e es].
  { by rewrite decide_True. }
  rewrite decide_False; cycle 1.
  { intros H. apply (path_of_inj (e :: es) []) in H; [done|done|constructor]. }
  change ("/" +:+ "/") with "//". rewrite path_of_not_double by done.
  rewrite bool_decide_eq_true_2 by done. simpl.
  unfold path_of. change (String slash (join_with slash (e :: es))) with ("/" +:+ join_with slash (e :: es)).
  rewrite !TrimPrefix_app.
  apply Forall_cons in Hes as [He Hes].
  destruct es as [|e' es].
  - simpl. destruct (Nat.ltb_spec 0 (count_char slash e)) as [H|H].
    { apply count_char_contains in H. rewrite contains_slash_comp in H; done. }
    assert (TrimPrefix e "/" = e) as ->.
    { unfold TrimPrefix. destruct (strip_prefix "/" e) eqn:E; [|done].
      apply strip_prefix_Some in E as ->. by destruct He as (_&_&_&?). }
    rewrite contains_slash_comp by done. unfold child_remote. by case_decide.
  - destruct (Nat.ltb_spec 0 (count_char slash (join_with slash (e :: e' :: es)))) as [H|H]; [done|].
    exfalso. pose proof (join_contains_slash e (e' :: es) ltac:(done)) as Hs.
    apply count_char_contains in Hs. lia.
Qed.

Lemma depth1_below f dir entry p ps es :
  ps ≠ [] → Forall comp_ok ps → entry_path entry = Some p → Forall comp_ok es → cleanPath p = path_of es →
  ∀ remote, immediateChildRemote f dir (path_of ps) entry = Some remote ↔
    ∃ name, es = ps ++ [name] ∧ remote = child_remote f dir name.
Proof.
  intros Hne Hps Hp Hes Hc remote. unfold immediateChildRemote. fold (entry_path entry). rewrite Hp, Hc.
  rewrite (bool_decide_eq_false_2 (path_of ps = "/")); cycle 1.
  { intros H. by apply (path_of_inj ps []) in H. }
  rewrite orb_true_l, andb_true_r.
  destruct (HasPrefix (path_of es) (path_of ps +:+ "/")) eqn:Hpre; simpl.
  - apply path_of_below in Hpre as (rest & Hr & ->); [|done..].
    rewrite decide_False; cycle 1.
    { intros H%path_of_inj; [|done..]. rewrite <-(app_nil_r ps) in H at 2. by apply app_inv_head in H. }
    apply Forall_app in Hes as [_ Hrest].
    assert (path_of (ps ++ rest) = path_of ps +:+ ("/" +:+ join_with slash rest)) as Heq.
    { unfold path_of. rewrite join_with_app by done. done. }
    rewrite Heq. rewrite !TrimPrefix_app.
    destruct rest as [|r rest]; [done|]. apply Forall_cons in Hrest as [Hok Hrest].
    destruct rest as [|r' rest].
    + simpl. rewrite contains_slash_comp by done. unfold child_remote.
      split.
      * intros H. exists r. split; [done|]. case_decide; by simplify_eq.
      * intros (name & [= ->]%app_inv_head & ->). by case_decide.
    + rewrite join_contains_slash by done. split; [done|].
      by intros (name & H%app_inv_head & _).
  - case_decide; (split; [done|]); intros (name & -> & _); exfalso;
      rewrite (proj2 (path_of_below ps (ps ++ [name]) Hne Hps Hes)) in Hpre; try done;
      by exists [name].
Qed.

(** C27: List's depth-1 filter keeps an entry exactly when its canonical
    path has the listed directory's components plus one more, whatever
    non-canonical spelling the broker used, at the root and below it; the
    listed directory itself, deeper descendants, siblings with a common
    textual prefix and paths outside the directory are all dropped. *)
Theorem immediateChildRemote_depth1 (f : Fs) (dir : string) (ps : list string) (entry : ListDirEntry) (p : string)
    (Hps : Forall comp_ok ps) (Hp : entry_path entry = Some p) :
  ∃ es, Forall comp_ok es ∧ cleanPath p = path_of es ∧
    ∀ remote, immediateChildRemote f dir (path_of ps) entry = Some remote ↔
      ∃ name, es = ps ++ [name] ∧ remote = child_remote f dir name.
Proof.
  destruct (cleanPath_canonical p) as (es & Hes & Hc).
  exists es. split; [done|]. split; [done|]. intros remote.
  destruct ps as [|q ps]; [|by apply (depth1_below f dir entry p)].
  change (path_of []) with "/". rewrite (depth1_root f dir entry p es) by done.
  destruct es as [|e [|e' es]]; simpl; split; try done; try (intros (? & ? & _); done).
  - intros [= <-]. eauto.
  - by intros (name & [= ->] & ->).
Qed.
End depth1.

Definition id_encoder : Encoder := {| FromStandardPath _ s := s; ToStandardPath _ s := s |}.
Definition demo_fs : Fs := mkFs 0 "ocufs" "" false defaultEncoding.
Definition dir_entry (p : string) : ListDirEntry := mkEntry None (Some (mkDirectory p "" "")).

Lemma immediateChildRemote_depth1_witness :
  immediateChildRemote (ENC := id_encoder) demo_fs "a" "/a" (dir_entry "//a/./b/") = Some "a/b" ∧
  ∃ es, Forall comp_ok es ∧ cleanPath "//a/./b/" = path_of es ∧
    ∀ remote, immediateChildRemote (ENC := id_encoder) demo_fs "a" (path_of ["a"]) (dir_entry "//a/./b/") = Some remote ↔
      ∃ name, es = ["a"] ++ [name] ∧ remote = child_remote (ENC := id_encoder) demo_fs "a" name.
Proof.
  split; [reflexivity|].
  apply (immediateChildRemote_depth1 (ENC := id_encoder) demo_fs "a" ["a"] (dir_entry "//a/./b/") "//a/./b/").
  - repeat constructor; discriminate.
  - reflexivity.
Defined.

(** ** The listing contract *)

(** What a broker client owes List: streaming with a callback that never fails
    folds the callback over the listing the buffering method returns, and fails
    with the same error on the same world when that method fails. *)
Class ListingLaws {W} (BC : brokerClient W) : Prop := {
  stream_fold : ∀ A (yield : A → ListDirEntry → result error A) (g : A → ListDirEntry → A) path a w,
    (∀ x e, yield x e = Ok (g x e)) →
    match bc_ListDirectoryAll path w with
    | (Ok es, w') => bc_ListDirectoryStream A path yield a w = (foldl g a es, None, w')
    | (Err e, w') => ∃ a', bc_ListDirectoryStream A path yield a w = (a', Some e, w')
    end }.

Section client_laws.
Context `{TW : Transport W, RU : RequestURL}.
Context {A : Type} (yield : A → ListDirEntry → result error A) (g : A → ListDirEntry → A).
Hypothesis Hyield : ∀ x e, yield x e = Ok (g x e).

Lemma yield_all_fold es a : yield_all yield es a = (foldl g a es, None).
Proof using Hyield. revert a. induction es as [|e es IH]; intros a; simpl; [done|]. by rewrite Hyield, IH. Qed.

Lemma list_loop_fold fuel c fsID path am cursor pg all a w all' e w' :
  list_loop (λ all e, Ok (all ++ [e])) fuel c fsID path am cursor pg all w = Some (all', e, w') →
  ∃ es, all' = all ++ es ∧ list_loop yield fuel c fsID path am cursor pg a w = Some (foldl g a es, e, w').
Proof using Hyield.
  revert cursor pg all a w. induction fuel as [|f IH]; intros cursor pg all a w; [done|]. simpl.
  destruct (fetch_page c fsID path am cursor w) as [[resp|err] w1].
  2: { intros; simplify_eq. exists []. by rewrite app_nil_r. }
  rewrite yield_all_collect, yield_all_fold.
  case_decide; [intros; simplify_eq; eauto|].
  destruct (admit_page pg (lr_Cursor resp)) as [g'|err]; [|intros; simplify_eq; eauto].
  intros H2. eapply (IH _ _ _ (foldl g a (default [] (lr_Entries resp)))) in H2 as (es & -> & H2).
  exists (default [] (lr_Entries resp) ++ es). rewrite app_assoc, foldl_app. done.
Qed.

Lemma ListDirectoryStream_fold c path a w :
  match ListDirectoryAll c path w with
  | (Ok es, w') => ListDirectoryStream yield c path a w = (foldl g a es, None, w')
  | (Err e, w') => ∃ a', ListDirectoryStream yield c path a w = (a', Some e, w')
  end.
Proof using Hyield.
  unfold ListDirectoryAll.
  destruct (stamp c OpListDirectory) as [[fsID am]|err] eqn:Hs; cycle 1.
  { unfold ListDirectoryStream. rewrite Hs. eauto. }
  pose proof (ListDirectoryStream_eq (λ all e, Ok (all ++ [e])) c path [] w fsID am Hs) as Hall.
  destruct (ListDirectoryStream (λ all e, Ok (all ++ [e])) c path [] w) as [[all e] w'].
  apply (list_loop_fold _ _ _ _ _ _ _ _ a) in Hall as (es & -> & Hst).
  rewrite (ListDirectoryStream_eq yield c path a w fsID am Hs) in Hst. simplify_eq.
  rewrite Hst. destruct e; eauto.
Qed.
End client_laws.

#[export] Instance client_ListingLaws `{TW : Transport W, RU : RequestURL} (c : Client) :
  ListingLaws (client_broker c).
Proof.
  constructor. intros A yield g path a w Hyield.
  exact (ListDirectoryStream_fold yield g Hyield c path a w).
Qed.

Section listing.
Context {ENC : Encoder} `{BC : brokerClient W, LL : !ListingLaws BC}.

(** The rclone entry of a surviving broker entry. *)
Definition list_entry (f : Fs) (dir : string) (entry : ListDirEntry) : option DirEntry :=
  remote ← immediateChildRemote f dir (absPath f dir) entry;
  match le_File entry, le_Directory entry with
  | Some ff, _ => Some (EntryObject (objectFromFile f remote ff))
  | None, Some d => Some (EntryDir remote (parseMtime (d_Mtime d)))
  | None, None => None
  end.

Lemma list_yield_Ok f dir entries entry :
  list_yield f dir (absPath f dir) entries entry = Ok (entries ++ option_list (list_entry f dir entry)).
Proof.
  unfold list_yield, list_entry.
  destruct (immediateChildRemote f dir (absPath f dir) entry); simpl; [|by rewrite app_nil_r].
  destruct (le_File entry), (le_Directory entry); simpl; by rewrite ?app_nil_r.
Qed.

Lemma foldl_option_list {A B} (h : A → option B) es acc :
  foldl (λ x e, x ++ option_list (h e)) acc es = acc ++ omap h es.
Proof.
  revert acc. induction es as [|e es IH]; intros acc; simpl; [by rewrite app_nil_r|].
  rewrite IH. destruct (h e); simpl; by rewrite <-?app_assoc, ?app_nil_r.
Qed.

Lemma List_fold (f : Fs) (dir : string) (w : W) :
  List f dir w =
    match bc_ListDirectoryAll (absPath f dir) w with
    | (Ok es, w') => (Ok (omap (list_entry f dir) es), w')
    | (Err e, w') =>
        if errors_Is e ErrNotFound then (Err (ESent fs_ErrorDirNotFound), w')
        else (Err (EErrorf "ocufs: List %q: %w" [AStr (absPath f dir)] [e]), w')
    end.
Proof using LL.
  unfold List.
  pose proof (stream_fold (list DirEntry) (list_yield f dir (absPath f dir))
    (λ x e, x ++ option_list (list_entry f dir e)) (absPath f dir) [] w (list_yield_Ok f dir)) as H.
  destruct (bc_ListDirectoryAll (absPath f dir) w) as [[es|e] w'].
  - rewrite H, foldl_option_list. done.
  - destruct H as [a' ->]. done.
Qed.

(** List returns exactly the broker's recursive listing filtered to
    depth one, in broker order, each survivor as the object or directory its
    union arm says; a missing directory becomes rclone's directory-not-found
    and any other failure is wrapped, with no partial listing returned. *)
Theorem List_spec (f : Fs) (dir : string) (w : W) :
  List f dir w =
    match bc_ListDirectoryAll (absPath f dir) w with
    | (Ok es, w') => (Ok (omap (list_entry f dir) es), w')
    | (Err e, w') =>
        if errors_Is e ErrNotFound then (Err (ESent fs_ErrorDirNotFound), w')
        else (Err (EErrorf "ocufs: List %q: %w" [AStr (absPath f dir)] [e]), w')
    end.
Proof using LL. apply List_fold. Qed.
End listing.

Lemma List_spec_witness :
  let BC := client_broker (TW := demo_broker) (RU := demo_url) demo_client in
  List (ENC := id_encoder) (BC := BC) demo_fs "" 0%nat =
    (Ok [EntryObject (mkObject demo_fs "a" "/a" "u1" 3 time_zero "" "" ""); EntryDir "d" time_zero], 2%nat).
Proof.
  intros BC. rewrite (List_spec (ENC := id_encoder) (BC := BC) demo_fs "" 0%nat).
  assert (bc_ListDirectoryAll (brokerClient := BC) (absPath (ENC := id_encoder) demo_fs "") 0%nat
    = (Ok [mkEntry (Some (mkFilesystemFile "/a" 3 "" "" "" "" "u1")) None;
           mkEntry None (Some (mkDirectory "/d" "" ""))], 2%nat)) as ->
    by (apply demo_listing).
  reflexivity.
Defined.

(** ** Lookups *)
Section lookups.
Context {ENC : Encoder} {RD : RangeDecode} `{BC : brokerClient W}.

(** The object a file-arm response describes at [o]'s identity. *)
Definition object_of_meta (o : Object) (m : ReadMetadataResponse) : Object :=
  let fl := mr_File m in
  mkObject (o_fs o) (o_remote o) (o_path o) (f_UUID fl) (f_Size fl)
    (parseMtime (f_Mtime fl)) (f_Mode fl) (f_SHA fl) (f_MIME fl).

Lemma resolve_resolved o w : o_uuid o ≠ "" → resolve o w = (None, o, w).
Proof. intros H. unfold resolve. by rewrite bool_decide_eq_false_2. Qed.

Lemma resolve_file o m w w' :
  o_uuid o = "" → bc_ReadMetadata (o_path o) w = (Ok (Some m), w') →
  classifyReadMetadata (Some m) = metaArmFile → resolve o w = (None, object_of_meta o m, w').
Proof.
  intros Hu Hr Hc. unfold resolve. rewrite bool_decide_eq_true_2 by done. simpl.
  by rewrite Hr, Hc.
Qed.

(** Looking a path up through NewObject and resolving an
    acknowledgement-only object at the same path agree on every broker
    answer: the same object on success, errors that match the same sentinels
    and the same retry class otherwise, and the same exchange on the wire. *)
Theorem NewObject_resolve_agree (f : Fs) (remote : string) (size : Z) (w : W) :
  match NewObject f remote w, resolve (ack_object f remote (absPath f remote) size) w with
  | (Ok x, w1), (None, x', w2) => x = x' ∧ w1 = w2
  | (Err e1, w1), (Some e2, o', w2) =>
      o' = ack_object f remote (absPath f remote) size ∧ w1 = w2 ∧
      is_retry e1 = is_retry e2 ∧ ∀ t, errors_Is e1 t = errors_Is e2 t
  | _, _ => False
  end.
Proof.
  unfold NewObject, resolve. simpl.
  destruct (bc_ReadMetadata (absPath f remote) w) as [[[m|]|e] w']; simpl; [|done|].
  - by destruct (classifyMetaArms _ _ _ _ _).
  - by destruct (errors_Is e ErrNotFound).
Qed.

(** No false zero.  The kernel's getattr on an acknowledgement-only
    object of unknown size costs one metadata lookup: Size reports the
    broker's size, and the ModTime, MimeType and Size that follow report the
    same response's fields without touching the wire again. *)
Theorem getattr_one_lookup (o : Object) (m : ReadMetadataResponse) (w w' : W)
    (Hack : o_uuid o = "" ∧ o_size o = 0)
    (Hread : bc_ReadMetadata (o_path o) w = (Ok (Some m), w'))
    (Hfile : classifyReadMetadata (Some m) = metaArmFile)
    (Huuid : f_UUID (mr_File m) ≠ "") :
  ∃ o', Size o w = (f_Size (mr_File m), o', w') ∧
    ModTime o' w' = (parseMtime (f_Mtime (mr_File m)), o', w') ∧
    MimeType o' w' = (f_MIME (mr_File m), o', w') ∧
    Size o' w' = (f_Size (mr_File m), o', w').
Proof.
  destruct Hack as [Hu Hs]. exists (object_of_meta o m).
  unfold Size at 1. rewrite !bool_decide_eq_true_2 by done. simpl.
  rewrite (resolve_file o m w w') by done. split; [done|].
  unfold ModTime, MimeType, Size. simpl. by rewrite bool_decide_eq_false_2.
Qed.

(** A size that is known is reported without a broker call, so the
    write hot paths (Put, Copy, Move results, and an Update'd object) stay
    wire-free, and when the lookup of an unknown size fails the object is
    left as it was. *)
Theorem Size_wire_free (o : Object) (w : W) :
  (o_uuid o ≠ "" ∨ o_size o ≠ 0 → Size o w = (o_size o, o, w)) ∧
  (∀ e o' w', resolve o w = (Some e, o', w') → ∃ w2, Size o w = (o_size o, o, w2)).
Proof.
  split.
  - intros H. unfold Size.
    destruct (bool_decide (o_uuid o = "") && bool_decide (o_size o = 0)) eqn:E; [|done].
    apply andb_true_iff in E as [?%bool_decide_eq_true ?%bool_decide_eq_true]. naive_solver.
  - intros e o' w' Hr. unfold Size. rewrite Hr.
    assert (o' = o) as -> by (unfold resolve in Hr; go_cases; done).
    destruct (_ && _); eauto.
Qed.
End lookups.

Definition meta_broker : brokerClient nat :=
  {| bc_ListDirectoryStream A path yield a n := (a, None, n);
     bc_ListDirectoryAll path n := (Ok [], n);
     bc_ReadMetadata path n := (Ok (Some (mkMetaResp (mkFile path 7 "2024-05-06T07:08:09Z" "0644" "" "text/plain" "u9") zero_Directory)), S n);
     bc_Download uuid n := (Ok NoBody, S n);
     bc_DownloadRange uuid off len n := (Ok (Bounded (newBoundedBody [] true len)), S n);
     bc_Upload path src size ow n := (None, S n);
     bc_CopyFile s d n := (Ok tt, S n);
     bc_MoveFile s d n := (Ok tt, S n);
     bc_RemoveFile p n := (Ok tt, S n);
     bc_MakeDirectory p n := (Err (MapHTTPStatus 409 [] ""), S n);
     bc_RemoveDirectory p n := (Ok tt, S n);
     bc_MoveDirectory s d n := (Ok tt, S n) |}.

Lemma getattr_one_lookup_witness :
  ∃ o', Size (BC := meta_broker) (ack_object demo_fs "a" "/a" 0) 0%nat = (7, o', 1%nat) ∧
    ModTime (BC := meta_broker) o' 1%nat = (parseMtime "2024-05-06T07:08:09Z", o', 1%nat) ∧
    MimeType (BC := meta_broker) o' 1%nat = ("text/plain", o', 1%nat) ∧
    Size (BC := meta_broker) o' 1%nat = (7, o', 1%nat).
Proof.
  apply (getattr_one_lookup (BC := meta_broker) (ack_object demo_fs "a" "/a" 0)
           (mkMetaResp (mkFile "/a" 7 "2024-05-06T07:08:09Z" "0644" "" "text/plain" "u9") zero_Directory)
           0%nat 1%nat).
  - done.
  - reflexivity.
  - reflexivity.
  - discriminate.
Defined.

Lemma Size_wire_free_witness :
  Size (BC := meta_broker) (ack_object demo_fs "a" "/a" 5) 0%nat = (5, ack_object demo_fs "a" "/a" 5, 0%nat).
Proof.
  apply (proj1 (Size_wire_free (BC := meta_broker) (ack_object demo_fs "a" "/a" 5) 0%nat)).
  right. discriminate.
Defined.

(** ** Reads *)

(** rclone's documented conversion, in int64: an inclusive End becomes a length,
    an absent End means "to the end" (-1), an absent Start with an End asks for
    the last End bytes. *)
Class RangeDecodeLaws (RD : RangeDecode) : Prop := {
  Decode_explicit : ∀ start end_ size, 0 <= start <= int64_max → 0 <= end_ <= int64_max → in_int64 size →
    Decode start end_ size = (start, int64_wrap (end_ - start + 1));
  Decode_open : ∀ start end_ size, 0 <= start <= int64_max → int64_min <= end_ < 0 → in_int64 size →
    Decode start end_ size = (start, -1);
  Decode_suffix : ∀ start end_ size, int64_min <= start < 0 → 0 <= end_ <= int64_max → in_int64 size →
    Decode start end_ size = (int64_wrap (size - end_), -1) }.

(** The byte window an option asks for. *)
Definition wanted_window (size : Z) (opt : OpenOption) : option (Z * Z) :=
  match opt with
  | SeekOption off => Some (off, Z.max 0 (size - off))
  | RangeOption start end_ =>
      if (0 <=? start) && (0 <=? end_) then Some (start, end_ - start + 1)
      else if 0 <=? start then Some (start, Z.max 0 (size - start))
      else Some (size - end_, end_)
  | OtherOption _ => None
  end.

(** The options rclone builds: offsets and suffix lengths within int64, and
    explicit ranges that are not empty and whose length is an int64 too (only the
    range from 0 to the largest int64 has none). *)
Definition option_ok (size : Z) (opt : OpenOption) : Prop :=
  match opt with
  | SeekOption off => 0 <= off <= int64_max
  | RangeOption start end_ =>
      (0 <= start ∧ start <= end_ ∧ end_ <= int64_max ∧ end_ - start < int64_max) ∨ (0 <= start ∧ start <= int64_max ∧ end_ = -1) ∨
      (start = -1 ∧ 0 <= end_ ∧ end_ <= size)
  | OtherOption m => m = false
  end.

Section reads.
Context {ENC : Encoder} {RD : RangeDecode} {RDL : RangeDecodeLaws RD} `{BC : brokerClient W}.

Lemma open_options_step size opt opts off len full :
  0 <= size <= int64_max → option_ok size opt →
  open_options size (opt :: opts) off len full =
    match wanted_window size opt with
    | Some (off', len') => open_options size opts off' len' false
    | None => open_options size opts off len full
    end.
Proof using RDL.
  assert (∀ a, 0 <= a <= int64_max → 0 <= size <= int64_max → int64_wrap (size - a) = size - a) as Hw.
  { intros a ??. apply int64_wrap_id. unfold in_int64, int64_min, int64_max in *. lia. }
  assert (∀ z, (if z <? 0 then 0 else z) = Z.max 0 z) as Hmax.
  { intros z. destruct (Z.ltb_spec z 0); lia. }
  intros Hs Hok. destruct opt as [o|start end_|[]]; simpl; [|simpl in Hok|done..].
  - rewrite Hw by done. by rewrite Hmax.
  - assert (in_int64 size) as Hsz by (unfold in_int64, int64_min, int64_max in *; lia).
    destruct Hok as [(?&?&?&?)|[(?&?&->)|(->&?&?)]].
    + rewrite Decode_explicit, int64_wrap_id by (done || unfold in_int64, int64_min, int64_max in *; lia).
      rewrite !(proj2 (Z.leb_le _ _)) by lia. simpl.
      destruct (Z.eqb_spec (end_ - start + 1) (-1)); [lia|done].
    + rewrite Decode_open by (done || unfold int64_min; lia). rewrite (proj2 (Z.leb_le 0 start)) by lia. simpl.
      rewrite Hw by lia. by rewrite Hmax.
    + rewrite Decode_suffix by (done || unfold int64_min in *; lia). simpl. rewrite (Hw end_) by lia.
      rewrite Hw by lia. rewrite Hmax. f_equal. lia.
Qed.

Lemma open_options_windows size opts off len full :
  0 <= size <= int64_max → Forall (option_ok size) opts →
  open_options size opts off len full =
    match list.last (omap (wanted_window size) opts) with
    | Some (off', len') => Ok (off', len', false)
    | None => Ok (off, len, full)
    end.
Proof using RDL.
  intros Hs Hok. revert off len full.
  induction Hok as [|opt opts Hopt Hopts IH]; intros off len full; [done|].
  rewrite open_options_step by done. rewrite IH. simpl.
  destruct (wanted_window size opt) as [[o' l']|]; [rewrite IH|done].
  rewrite last_cons. change (list_omap _ _ (wanted_window size) opts) with (omap (wanted_window size) opts).
  by destruct (list.last (omap (wanted_window size) opts)) as [[]|].
Qed.

(** C30: Open on a resolved object of a sane size makes exactly one download
    by the object's uuid: the window the last range or seek option asks for
    (inclusive ends become lengths, open ends stop at the object's size, a
    suffix range is its last bytes), or the whole object when no option asks
    for a window. *)
Theorem Open_window (o : Object) (opts : list OpenOption) (w : W)
    (Hu : o_uuid o ≠ "") (Hs : 0 <= o_size o <= int64_max) (Hopts : Forall (option_ok (o_size o)) opts) :
  Open o opts w =
    let '(r, w') := match list.last (omap (wanted_window (o_size o)) opts) with
                    | Some (off, len) => bc_DownloadRange (o_uuid o) off len w
                    | None => bc_Download (o_uuid o) w
                    end in
    (r, o, w').
Proof using RDL.
  unfold Open. rewrite resolve_resolved by done. rewrite decide_False by done.
  rewrite open_options_windows by done.
  by destruct (list.last _) as [[off len]|].
Qed.

(** The one range whose length is no int64 asks for a negative length, which
    the client refuses: the read of a whole object by its widest range fails. *)
Theorem Open_widest_range (o : Object) (w : W) (Hu : o_uuid o ≠ "") (Hs : 0 <= o_size o <= int64_max) :
  Open o [RangeOption 0 int64_max] w =
    let '(r, w') := bc_DownloadRange (o_uuid o) 0 int64_min w in (r, o, w').
Proof using RDL.
  unfold Open. rewrite resolve_resolved by done. rewrite decide_False by done. cbn [open_options].
  rewrite Decode_explicit by (done || unfold in_int64, int64_min, int64_max in *; lia). done.
Qed.

(** Open never sends an empty handle.  Whatever metadata the broker
    returned, a download (whole or ranged) is only issued with a non-empty
    uuid; without one the wire sees at most the metadata lookup, and a
    mandatory option Open does not know also fails before any download. *)
Theorem Open_guards (o : Object) (opts : list OpenOption) (w : W) :
  let '(err, o', w') := resolve o w in
  match err with
  | Some e => Open o opts w = (Err e, o', w')
  | None =>
      (o_uuid o' = "" → ∃ e, Open o opts w = (Err e, o', w')) ∧
      (OtherOption true ∈ opts → ∃ e, Open o opts w = (Err e, o', w'))
  end.
Proof.
  destruct (resolve o w) as [[[e|] o'] w'] eqn:E; unfold Open; rewrite E; [done|].
  split; intros H.
  - rewrite decide_True by done. eauto.
  - case_decide; [eauto|].
    assert (∀ off len full, ∃ e, open_options (o_size o') opts off len full = Err e) as Hmand.
    { clear -H. induction opts as [|opt opts IH]; [by apply elem_of_nil in H|]. intros off len full.
      apply elem_of_cons in H as [<-|H]; [simpl; eauto|].
      destruct opt as [off'|st en|[]]; simpl; [by apply IH| |eauto|by apply IH].
      destruct (Decode st en (o_size o')). by apply IH. }
    destruct (Hmand 0 0 true) as [e ->]. eauto.
Qed.
End reads.

Definition rclone_decode : RangeDecode := λ start end_ size,
  if 0 <=? start then (start, if 0 <=? end_ then int64_wrap (int64_wrap (end_ - start) + 1) else -1)
  else (if 0 <=? end_ then int64_wrap (size - end_) else 0, -1).

#[export] Instance rclone_decode_laws : RangeDecodeLaws rclone_decode.
Proof.
  constructor; intros start end_ size H1 H2 _; unfold Decode, rclone_decode;
    destruct (Z.leb_spec 0 start), (Z.leb_spec 0 end_); try lia; try done.
  by rewrite (int64_wrap_id (end_ - start)) by (unfold in_int64, int64_min, int64_max in *; lia).
Qed.

Lemma Open_window_witness :
  Open (RD := rclone_decode) (BC := meta_broker) (mkObject demo_fs "a" "/a" "u1" 10 time_zero "" "" "")
    [OtherOption false; RangeOption 2 4] 0%nat
  = (Ok (Bounded (newBoundedBody [] true 3)), mkObject demo_fs "a" "/a" "u1" 10 time_zero "" "" "", 1%nat).
Proof.
  rewrite (Open_window (RD := rclone_decode) (BC := meta_broker) (mkObject demo_fs "a" "/a" "u1" 10 time_zero "" "" "")
    [OtherOption false; RangeOption 2 4] 0%nat).
  - reflexivity.
  - discriminate.
  - unfold int64_max; simpl; lia.
  - constructor; [reflexivity|]. constructor; [|constructor]. left. unfold int64_max. lia.
Defined.

Lemma Open_guards_witness :
  ∃ e, Open (RD := rclone_decode) (BC := meta_broker) (mkObject demo_fs "a" "/a" "u1" 10 time_zero "" "" "")
    [RangeOption 0 1; OtherOption true] 0%nat = (Err e, mkObject demo_fs "a" "/a" "u1" 10 time_zero "" "" "", 0%nat).
Proof.
  apply (proj2 (Open_guards (RD := rclone_decode) (BC := meta_broker)
    (mkObject demo_fs "a" "/a" "u1" 10 time_zero "" "" "") [RangeOption 0 1; OtherOption true] 0%nat)).
  apply list_elem_of_further, list_elem_of_here.
Defined.

(** ** Mutations *)
Section mutations.
Context {ENC : Encoder} {RD : RangeDecode} `{BC : brokerClient W}.

(** C31: a read-only Fs refuses all nine mutating methods with rclone's
    permission-denied sentinel before any broker call: the world and the
    object are as they were. *)
Theorem readonly_refuses (f : Fs) (o : Object) (w : W) (Hro : fs_readOnly f = true) (Ho : o_fs o = f) :
  let denied := ESent fs_ErrorPermissionDenied in
  (∀ inp src, Put f inp src w = (Err denied, w)) ∧
  (∀ dir, Mkdir f dir w = (Some denied, w)) ∧
  (∀ dir, Rmdir f dir w = (Some denied, w)) ∧
  SetModTime o w = (Some denied, w) ∧
  (∀ inp src, Update o inp src w = (Some denied, o, w)) ∧
  Remove o w = (Some denied, w) ∧
  (∀ src dst, Copy f src dst w = (Err denied, src, w)) ∧
  (∀ src dst, Move f src dst w = (Err denied, src, w)) ∧
  (∀ srcFs s d, DirMove f srcFs s d w = (Some denied, w)).
Proof.
  unfold Put, Mkdir, Rmdir, SetModTime, Update, Remove, Copy, Move, transferFile, DirMove.
  rewrite Ho, Hro. done.
Qed.

(** What rclone may see of a broker status through a mutating method. *)
Definition status_visible (status : Z) (e : error) : Prop :=
  (errors_Is e fs_ErrorPermissionDenied = true ↔ status = 401 ∨ status = 403) ∧
  (errors_Is e fs_ErrorObjectNotFound = true ↔ status = 404) ∧
  (is_retry e = true ↔ status = 429 ∨ status = 503).

Lemma status_visible_map status body ra fmt args :
  status_visible status (EErrorf fmt args (option_list (mapBrokerError (Some (MapHTTPStatus status body ra))))).
Proof.
  rewrite mapBrokerError_status.
  pose proof (MapHTTPStatus_Is status body ra) as HI. pose proof (MapHTTPStatus_retry status body ra) as HR.
  assert (∀ s, status_class status ≠ Some s → errors_Is (MapHTTPStatus status body ra) s = false) as HF.
  { intros s Hs. rewrite HI. by apply bool_decide_eq_false_2. }
  unfold status_visible. clear HI. revert HR HF.
  unfold status_class. repeat case_decide; simpl; intros HR HF;
    rewrite ?orb_false_r, ?(HF fs_ErrorPermissionDenied), ?(HF fs_ErrorObjectNotFound), ?HR by done;
    repeat split; intros; first [done | lia].
Qed.

(** C24: status classes survive the backend.  When the broker answers any of
    the mutating operations with an HTTP error status, the error rclone gets
    matches permission-denied exactly for 401 and 403, object-not-found
    exactly for 404, and is retryable exactly for 429 and 503; Mkdir on an
    existing directory (409) succeeds, every other method fails on 409. *)
Theorem mutation_status_visible (f : Fs) (o : Object) (status : Z) (body : bytes) (ra : string) (w w' : W)
    (Hrw : fs_readOnly f = false) (Ho : o_fs o = f) :
  let e := MapHTTPStatus status body ra in
  (∀ inp src, bc_Upload (absPath f (src_Remote src)) inp (src_Size src) true w = (Some e, w') →
     ∃ e', Put f inp src w = (Err e', w') ∧ status_visible status e') ∧
  (∀ inp src, bc_Upload (o_path o) inp (src_Size src) true w = (Some e, w') →
     ∃ e', Update o inp src w = (Some e', o, w') ∧ status_visible status e') ∧
  (bc_RemoveFile (o_path o) w = (Err e, w') →
     ∃ e', Remove o w = (Some e', w') ∧ status_visible status e') ∧
  (∀ dir, bc_MakeDirectory (absPath f dir) w = (Err e, w') →
     if decide (status = 409) then Mkdir f dir w = (None, w')
     else ∃ e', Mkdir f dir w = (Some e', w') ∧ status_visible status e') ∧
  (∀ dir, bc_RemoveDirectory (absPath f dir) w = (Err e, w') →
     ∃ e', Rmdir f dir w = (Some e', w') ∧ status_visible status e') ∧
  (∀ dst, bc_CopyFile (o_path o) (absPath f dst) w = (Err e, w') →
     ∃ e', Copy f (OcuObject o) dst w = (Err e', OcuObject o, w') ∧ status_visible status e') ∧
  (∀ dst, bc_MoveFile (o_path o) (absPath f dst) w = (Err e, w') →
     ∃ e', Move f (OcuObject o) dst w = (Err e', OcuObject o, w') ∧ status_visible status e') ∧
  (∀ s d, bc_MoveDirectory (absPath f s) (absPath f d) w = (Err e, w') →
     ∃ e', DirMove f (OcuFs f) s d w = (Some e', w') ∧ status_visible status e').
Proof.
  intros e.
  assert (∃ m, mapBrokerError (Some e) = Some m) as [m Hm].
  { unfold mapBrokerError. repeat case_match; eauto. }
  assert (∀ fmt args, status_visible status (EErrorf fmt args [m])) as Hv.
  { intros. pose proof (status_visible_map status body ra fmt args) as H. fold e in H. by rewrite Hm in H. }
  unfold Put, Update, Remove, Mkdir, Rmdir, Copy, Move, transferFile, DirMove.
  rewrite Ho, Hrw, bool_decide_eq_true_2 by done. simpl (negb _).
  repeat match goal with |- _ ∧ _ => split end; try intros ? ? H; try intros ? H; try intros H;
    rewrite H, ?Hm; simpl option_list; eauto.
  assert (errors_Is e ErrAlreadyExists = bool_decide (status = 409)) as ->.
  { unfold e. rewrite MapHTTPStatus_Is. apply bool_decide_ext. unfold status_class. repeat case_decide; naive_solver lia. }
  case_decide; [by rewrite bool_decide_eq_true_2|]. rewrite bool_decide_eq_false_2 by done. eauto.
Qed.

(** A source that is not this Fs's own (another backend's object, an
    object or Fs of another mount) is refused with the sentinel that makes
    rclone fall back, with no broker call and the source untouched. *)
Theorem foreign_source_refused (f g : Fs) (o : Object) (dst s d : string) (w : W)
    (Hrw : fs_readOnly f = false) (Hg : fs_ptr g ≠ fs_ptr f) (Ho : fs_ptr (o_fs o) ≠ fs_ptr f) :
  Copy f ForeignObject dst w = (Err (ESent fs_ErrorCantCopy), ForeignObject, w) ∧
  Copy f (OcuObject o) dst w = (Err (ESent fs_ErrorCantCopy), OcuObject o, w) ∧
  Move f ForeignObject dst w = (Err (ESent fs_ErrorCantMove), ForeignObject, w) ∧
  Move f (OcuObject o) dst w = (Err (ESent fs_ErrorCantMove), OcuObject o, w) ∧
  DirMove f ForeignFs s d w = (Some (ESent fs_ErrorCantDirMove), w) ∧
  DirMove f (OcuFs g) s d w = (Some (ESent fs_ErrorCantDirMove), w).
Proof.
  unfold Copy, Move, transferFile, DirMove. rewrite Hrw, !bool_decide_eq_false_2 by done. done.
Qed.
End mutations.

Lemma readonly_refuses_witness :
  Mkdir (ENC := id_encoder) (BC := meta_broker) (mkFs 0 "ocufs" "" true []) "d" 0%nat
  = (Some (ESent fs_ErrorPermissionDenied), 0%nat).
Proof.
  exact (proj1 (proj2 (readonly_refuses (ENC := id_encoder) (BC := meta_broker) (mkFs 0 "ocufs" "" true [])
    (ack_object (mkFs 0 "ocufs" "" true []) "a" "/a" 0) 0%nat eq_refl eq_refl)) "d").
Defined.

Lemma mutation_status_visible_witness :
  Mkdir (ENC := id_encoder) (BC := meta_broker) demo_fs "d" 0%nat = (None, 1%nat).
Proof.
  exact (proj1 (proj2 (proj2 (proj2 (mutation_status_visible (ENC := id_encoder) (BC := meta_broker) demo_fs
    (ack_object demo_fs "a" "/a" 0) 409 [] "" 0%nat 1%nat eq_refl eq_refl)))) "d" eq_refl).
Defined.

Lemma foreign_source_refused_witness :
  Copy (ENC := id_encoder) (BC := meta_broker) demo_fs (OcuObject (ack_object (mkFs 1 "other" "" false []) "a" "/a" 0)) "b" 0%nat
  = (Err (ESent fs_ErrorCantCopy), OcuObject (ack_object (mkFs 1 "other" "" false []) "a" "/a" 0), 0%nat).
Proof.
  exact (proj1 (proj2 (foreign_source_refused (ENC := id_encoder) (BC := meta_broker) demo_fs (mkFs 1 "other" "" false [])
    (ack_object (mkFs 1 "other" "" false []) "a" "/a" 0) "b" "" "" 0%nat eq_refl ltac:(discriminate) ltac:(discriminate)))).
Defined.
