(* ===== verification/OcufsSession.v ===== *)
(** * Sessions: what a mounted backend puts on the wire

    rclone drives one [Fs] and the objects it got back from it.  A session is a
    sequence of method calls on a store of live objects; [exec] runs one.  The
    wire discipline is stated against an interface: [BrokerGuard ok P] says that
    a broker client keeps the world property [P] as long as every call it is
    handed satisfies [ok].  The backend is proved to hand out only calls that
    satisfy [call_ok]; the recording client and the real HTTP client each
    discharge the interface with their own [P]. *)
From Stdlib Require Import Ascii String.
From stdpp Require Import base list strings numbers gmap.
From S2P Require Import Prelude GoErrors GoIO GoJson GoPath GoTime BrokerErrors Messages Client Cursor Download Upload Ocufs OcufsSpec.
Local Open Scope Z_scope.

(** ** Broker calls *)
Inductive broker_call : Type :=
| BCListDirectory (path : string)
| BCReadMetadata (path : string)
| BCDownload (uuid : string)
| BCDownloadRange (uuid : string) (offset length : Z)
| BCUpload (path : string) (size : Z) (overwrite : bool)
| BCCopyFile (src dst : string)
| BCMoveFile (src dst : string)
| BCRemoveFile (path : string)
| BCMakeDirectory (path : string)
| BCRemoveDirectory (path : string)
| BCMoveDirectory (src dst : string).

Definition call_paths (bc : broker_call) : list string :=
  match bc with
  | BCListDirectory p | BCReadMetadata p | BCUpload p _ _ | BCRemoveFile p
  | BCMakeDirectory p | BCRemoveDirectory p => [p]
  | BCDownload _ | BCDownloadRange _ _ _ => []
  | BCCopyFile s d | BCMoveFile s d | BCMoveDirectory s d => [s; d]
  end.

Definition call_mutates (bc : broker_call) : bool :=
  match bc with
  | BCListDirectory _ | BCReadMetadata _ | BCDownload _ | BCDownloadRange _ _ _ => false
  | _ => true
  end.

Definition call_handle_ok (bc : broker_call) : Prop :=
  match bc with
  | BCDownload u | BCDownloadRange u _ _ => u ≠ ""
  | BCUpload _ _ overwrite => overwrite = true
  | _ => True
  end.

(** The discipline of one backend: canonical paths only, never an empty
    handle or a create-only upload, and nothing that mutates on a read-only
    Fs. *)
Definition call_ok (f : Fs) (bc : broker_call) : Prop :=
  Forall canonical (call_paths bc) ∧ call_handle_ok bc ∧ (fs_readOnly f = true → call_mutates bc = false).

Class BrokerGuard {W} (BC : brokerClient W) (ok : broker_call → Prop) (P : W → Prop) : Prop := {
  guard_stream : ∀ A p y (a : A) w, ok (BCListDirectory p) → P w → P (snd (bc_ListDirectoryStream A p y a w));
  guard_all : ∀ p w, ok (BCListDirectory p) → P w → P (snd (bc_ListDirectoryAll p w));
  guard_meta : ∀ p w, ok (BCReadMetadata p) → P w → P (snd (bc_ReadMetadata p w));
  guard_download : ∀ u w, ok (BCDownload u) → P w → P (snd (bc_Download u w));
  guard_range : ∀ u off len w, ok (BCDownloadRange u off len) → P w → P (snd (bc_DownloadRange u off len w));
  guard_upload : ∀ p r n ow w, ok (BCUpload p n ow) → P w → P (snd (bc_Upload p r n ow w));
  guard_copy : ∀ s d w, ok (BCCopyFile s d) → P w → P (snd (bc_CopyFile s d w));
  guard_move : ∀ s d w, ok (BCMoveFile s d) → P w → P (snd (bc_MoveFile s d w));
  guard_remove : ∀ p w, ok (BCRemoveFile p) → P w → P (snd (bc_RemoveFile p w));
  guard_mkdir : ∀ p w, ok (BCMakeDirectory p) → P w → P (snd (bc_MakeDirectory p w));
  guard_rmdir : ∀ p w, ok (BCRemoveDirectory p) → P w → P (snd (bc_RemoveDirectory p w));
  guard_dirmove : ∀ s d w, ok (BCMoveDirectory s d) → P w → P (snd (bc_MoveDirectory s d w)) }.

(** ** Sessions *)

(** [None] as a source is an object or Fs of another backend. *)
Inductive fs_op : Type :=
| DoList (dir : string)
| DoNewObject (remote : string)
| DoPut (inp : reader) (src : ObjectInfo)
| DoMkdir (dir : string)
| DoRmdir (dir : string)
| DoModTime (i : nat)
| DoSize (i : nat)
| DoMimeType (i : nat)
| DoSetModTime (i : nat)
| DoUpdate (i : nat) (inp : reader) (src : ObjectInfo)
| DoRemove (i : nat)
| DoOpen (i : nat) (opts : list OpenOption)
| DoCopy (src : option nat) (dstRemote : string)
| DoMove (src : option nat) (dstRemote : string)
| DoDirMove (ours : bool) (srcRemote dstRemote : string).

Definition entry_objects (es : list DirEntry) : list Object :=
  omap (λ e, match e with EntryObject o => Some o | EntryDir _ _ => None end) es.

Section session.
Context {ENC : Encoder} {RD : RangeDecode} `{BC : brokerClient W}.

(** Run a method of the [i]-th live object, if it exists. *)
Definition on_object (i : nat) (st : list Object * W) (m : Object → W → Object * W) : list Object * W :=
  match st.1 !! i with
  | None => st
  | Some o => let '(o', w') := m o st.2 in (<[i := o']> st.1, w')
  end.

Definition transfer (f : Fs) (src : option nat) (dstRemote : string) (st : list Object * W)
    (op : Fs → fsObject → string → W → result error Object * fsObject * W) : list Object * W :=
  let source := match src with
                | Some i => match st.1 !! i with Some o => OcuObject o | None => ForeignObject end
                | None => ForeignObject
                end in
  let '(r, source', w') := op f source dstRemote st.2 in
  let objs := match src, source' with Some i, OcuObject o' => <[i := o']> st.1 | _, _ => st.1 end in
  (objs ++ match r with Ok o => [o] | Err _ => [] end, w').

Definition exec (f : Fs) (op : fs_op) (st : list Object * W) : list Object * W :=
  let '(objs, w) := st in
  match op with
  | DoList dir => let '(r, w') := List f dir w in
                  (objs ++ match r with Ok es => entry_objects es | Err _ => [] end, w')
  | DoNewObject remote => let '(r, w') := NewObject f remote w in
                          (objs ++ match r with Ok o => [o] | Err _ => [] end, w')
  | DoPut inp src => let '(r, w') := Put f inp src w in
                     (objs ++ match r with Ok o => [o] | Err _ => [] end, w')
  | DoMkdir dir => (objs, snd (Mkdir f dir w))
  | DoRmdir dir => (objs, snd (Rmdir f dir w))
  | DoModTime i => on_object i st (λ o w, let '(_, o', w') := ModTime o w in (o', w'))
  | DoSize i => on_object i st (λ o w, let '(_, o', w') := Size o w in (o', w'))
  | DoMimeType i => on_object i st (λ o w, let '(_, o', w') := MimeType o w in (o', w'))
  | DoSetModTime i => on_object i st (λ o w, (o, snd (SetModTime o w)))
  | DoUpdate i inp src => on_object i st (λ o w, let '(_, o', w') := Update o inp src w in (o', w'))
  | DoRemove i => on_object i st (λ o w, (o, snd (Remove o w)))
  | DoOpen i opts => on_object i st (λ o w, let '(_, o', w') := Open o opts w in (o', w'))
  | DoCopy src dst => transfer f src dst st Copy
  | DoMove src dst => transfer f src dst st Move
  | DoDirMove ours s d => (objs, snd (DirMove f (if ours then OcuFs f else ForeignFs) s d w))
  end.

Definition run_session (f : Fs) (ops : list fs_op) (st : list Object * W) : list Object * W :=
  foldl (λ st op, exec f op st) st ops.
End session.

(** ** The backend keeps the discipline *)
Section discipline.
Context {ENC : Encoder} {RD : RangeDecode} `{BC : brokerClient W, LL : !ListingLaws BC}.
Variables (f : Fs) (P : W → Prop).
Context {BG : BrokerGuard BC (call_ok f) P}.

(** A live object belongs to the Fs and has a canonical path. *)
Definition obj_ok (o : Object) : Prop := o_fs o = f ∧ canonical (o_path o).

Definition state_ok (st : list Object * W) : Prop := Forall obj_ok st.1 ∧ P st.2.

Lemma call_ok_read bc : Forall canonical (call_paths bc) → call_handle_ok bc → call_mutates bc = false → call_ok f bc.
Proof. by split. Qed.

Lemma call_ok_write bc : Forall canonical (call_paths bc) → call_handle_ok bc → fs_readOnly f = false → call_ok f bc.
Proof. intros ?? Hro. split; [done|]. split; [done|]. rewrite Hro. done. Qed.

Lemma canonical1 p : canonical p → Forall canonical [p].
Proof. by repeat constructor. Qed.
Lemma canonical2 p q : canonical p → canonical q → Forall canonical [p; q].
Proof. by repeat constructor. Qed.

Hint Resolve canonical1 canonical2 absPath_canonical : core.

Lemma resolve_keeps o w err o' w' :
  resolve o w = (err, o', w') → obj_ok o → P w → obj_ok o' ∧ P w'.
Proof using BG.
  intros Hr [Hf Hp] HP. unfold resolve in Hr.
  destruct (negb (bool_decide (o_uuid o = ""))); [by simplify_eq|].
  pose proof (guard_meta (o_path o) w (call_ok_read (BCReadMetadata _) (canonical1 _ Hp) I eq_refl) HP) as HP'.
  destruct (bc_ReadMetadata (o_path o) w) as [[[m|]|e] w1]; simpl in Hr, HP';
    [destruct (classifyMetaArms _ _ _ _ _)| |destruct (errors_Is e ErrNotFound)]; by simplify_eq.
Qed.

Lemma on_object_keeps i st m :
  state_ok st →
  (∀ o w o' w', obj_ok o → P w → m o w = (o', w') → obj_ok o' ∧ P w') → state_ok (on_object i st m).
Proof.
  intros [Hobjs HP] Hm. unfold on_object. destruct (st.1 !! i) as [o|] eqn:Ho; [|done].
  destruct (m o st.2) as [o' w'] eqn:E.
  destruct (Hm o st.2 o' w') as [Ho' HP']; [by eapply Forall_lookup_1|done|done|].
  split; simpl; [|done]. by apply Forall_insert.
Qed.

Lemma Size_keeps o w n o' w' : Size o w = (n, o', w') → obj_ok o → P w → obj_ok o' ∧ P w'.
Proof using BG.
  unfold Size. intros H Ho HP. destruct (_ && _); [|by simplify_eq].
  destruct (resolve o w) as [[e o1] w1] eqn:E. simplify_eq. by eapply resolve_keeps.
Qed.

Lemma ModTime_keeps o w t o' w' : ModTime o w = (t, o', w') → obj_ok o → P w → obj_ok o' ∧ P w'.
Proof using BG.
  unfold ModTime. intros H Ho HP. destruct (bool_decide _); [|by simplify_eq].
  destruct (resolve o w) as [[e o1] w1] eqn:E. simplify_eq. by eapply resolve_keeps.
Qed.

Lemma MimeType_keeps o w t o' w' : MimeType o w = (t, o', w') → obj_ok o → P w → obj_ok o' ∧ P w'.
Proof using BG.
  unfold MimeType. intros H Ho HP. destruct (_ && _); [|by simplify_eq].
  destruct (resolve o w) as [[e o1] w1] eqn:E. simplify_eq. by eapply resolve_keeps.
Qed.

Lemma Open_keeps o opts w r o' w' : Open o opts w = (r, o', w') → obj_ok o → P w → obj_ok o' ∧ P w'.
Proof using BG.
  unfold Open. intros H Ho HP. destruct (resolve o w) as [[[e|] o1] w1] eqn:E.
  { simplify_eq. by eapply resolve_keeps. }
  destruct (resolve_keeps _ _ _ _ _ E Ho HP) as [Ho1 HP1].
  case_decide as Hu; [by simplify_eq|].
  destruct (open_options _ _ _ _ _) as [[[off len] []]|e]; [| |by simplify_eq].
  - pose proof (guard_download (o_uuid o1) w1 (call_ok_read (BCDownload _) (Forall_nil_2 _) Hu eq_refl) HP1).
    destruct (bc_Download _ _). by simplify_eq.
  - pose proof (guard_range (o_uuid o1) off len w1 (call_ok_read (BCDownloadRange _ _ _) (Forall_nil_2 _) Hu eq_refl) HP1).
    destruct (bc_DownloadRange _ _ _ _). by simplify_eq.
Qed.

Lemma Update_keeps o inp src w r o' w' : Update o inp src w = (r, o', w') → obj_ok o → P w → obj_ok o' ∧ P w'.
Proof using BG.
  unfold Update. intros H [Hf Hp] HP. rewrite Hf in H.
  destruct (fs_readOnly f) eqn:Hro; [by simplify_eq|].
  pose proof (guard_upload (o_path o) inp (src_Size src) true w
    (call_ok_write (BCUpload _ _ _) (canonical1 _ Hp) eq_refl Hro) HP) as HP'.
  destruct (bc_Upload _ _ _ _ _) as [err w1]. destruct (mapBrokerError err); by simplify_eq.
Qed.

Lemma Remove_keeps o w : obj_ok o → P w → P (snd (Remove o w)).
Proof using BG.
  unfold Remove. intros [Hf Hp] HP. rewrite Hf.
  destruct (fs_readOnly f) eqn:Hro; [done|].
  pose proof (guard_remove (o_path o) w (call_ok_write (BCRemoveFile _) (canonical1 _ Hp) I Hro) HP) as HP'.
  by destruct (bc_RemoveFile _ _) as [[] w1].
Qed.

Lemma entry_objects_ok dir es : Forall obj_ok (entry_objects (omap (list_entry f dir) es)).
Proof.
  apply Forall_forall. intros o (en & (e & _ & He)%list_elem_of_omap & Ho)%list_elem_of_omap.
  destruct en as [o'|]; [|done]. injection Ho as ->.
  unfold list_entry in He. destruct (immediateChildRemote _ _ _ _) as [remote|]; [|done]. simpl in He.
  destruct (le_File e), (le_Directory e); simplify_eq; split; simpl; auto with go.
Qed.

Lemma List_keeps objs dir w :
  state_ok (objs, w) → state_ok (exec f (DoList dir) (objs, w)).
Proof using BG LL.
  intros [Hobjs HP]. unfold exec.
  assert (List f dir w =
    match bc_ListDirectoryAll (absPath f dir) w with
    | (Ok es, w') => (Ok (omap (list_entry f dir) es), w')
    | (Err e, w') => (if errors_Is e ErrNotFound then Err (ESent fs_ErrorDirNotFound)
                      else Err (EErrorf "ocufs: List %q: %w" [AStr (absPath f dir)] [e]), w')
    end) as ->.
  { rewrite List_fold. destruct (bc_ListDirectoryAll _ _) as [[|e] ?]; [done|]. by destruct (errors_Is _ _). }
  pose proof (guard_all (absPath f dir) w
    (call_ok_read (BCListDirectory _) (canonical1 _ (absPath_canonical _ _)) I eq_refl) HP) as HP'.
  destruct (bc_ListDirectoryAll _ _) as [[es|e] w']; simpl in *.
  - split; [|done]. apply Forall_app. split; [done|]. apply entry_objects_ok.
  - destruct (errors_Is e ErrNotFound); (split; [|done]); simpl; by rewrite app_nil_r.
Qed.

Lemma NewObject_keeps objs remote w : state_ok (objs, w) → state_ok (exec f (DoNewObject remote) (objs, w)).
Proof using BG.
  intros [Hobjs HP]. unfold exec, NewObject.
  pose proof (guard_meta (absPath f remote) w
    (call_ok_read (BCReadMetadata _) (canonical1 _ (absPath_canonical _ _)) I eq_refl) HP) as HP'.
  destruct (bc_ReadMetadata _ _) as [[[m|]|e] w']; simpl in *;
    [destruct (classifyMetaArms _ _ _ _ _)| |destruct (errors_Is e ErrNotFound)];
    (split; [|done]); simpl; rewrite ?app_nil_r; try done.
  apply Forall_app. split; [done|]. constructor; [|constructor]. split; [done|apply absPath_canonical].
Qed.

Lemma Put_keeps objs inp src w : state_ok (objs, w) → state_ok (exec f (DoPut inp src) (objs, w)).
Proof using BG.
  intros [Hobjs HP]. unfold exec, Put. destruct (fs_readOnly f) eqn:Hro.
  { split; [simpl; by rewrite app_nil_r|done]. }
  pose proof (guard_upload (absPath f (src_Remote src)) inp (src_Size src) true w
    (call_ok_write (BCUpload _ _ _) (canonical1 _ (absPath_canonical _ _)) eq_refl Hro) HP) as HP'.
  destruct (bc_Upload _ _ _ _ _) as [err w']. simpl in *.
  destruct (mapBrokerError err); (split; [|done]); simpl; rewrite ?app_nil_r; try done.
  apply Forall_app. split; [done|]. constructor; [|constructor]. split; [done|apply absPath_canonical].
Qed.

Lemma Mkdir_keeps dir w : P w → P (snd (Mkdir f dir w)).
Proof using BG.
  intros HP. unfold Mkdir. destruct (fs_readOnly f) eqn:Hro; [done|].
  pose proof (guard_mkdir (absPath f dir) w
    (call_ok_write (BCMakeDirectory _) (canonical1 _ (absPath_canonical _ _)) I Hro) HP) as HP'.
  destruct (bc_MakeDirectory _ _) as [[|e] w']; [done|]. by destruct (errors_Is e ErrAlreadyExists).
Qed.

Lemma Rmdir_keeps dir w : P w → P (snd (Rmdir f dir w)).
Proof using BG.
  intros HP. unfold Rmdir. destruct (fs_readOnly f) eqn:Hro; [done|].
  pose proof (guard_rmdir (absPath f dir) w
    (call_ok_write (BCRemoveDirectory _) (canonical1 _ (absPath_canonical _ _)) I Hro) HP) as HP'.
  by destruct (bc_RemoveDirectory _ _) as [[|e] w'].
Qed.

Lemma DirMove_keeps src s d w : P w → P (snd (DirMove f src s d w)).
Proof using BG.
  intros HP. unfold DirMove. destruct (fs_readOnly f) eqn:Hro; [done|].
  destruct src as [g|]; [|done]. destruct (negb _); [done|].
  pose proof (guard_dirmove (absPath f s) (absPath f d) w
    (call_ok_write (BCMoveDirectory _ _) (canonical2 _ _ (absPath_canonical _ _) (absPath_canonical _ _)) I Hro) HP) as HP'.
  by destruct (bc_MoveDirectory _ _ _) as [[|e] w'].
Qed.

Lemma transferFile_keeps src dst opName cs call w r src' w' :
  (∀ s d w, canonical s → canonical d → fs_readOnly f = false → P w → P (snd (call s d w))) →
  transferFile f src dst opName cs call w = (r, src', w') →
  (∀ o, src = OcuObject o → obj_ok o) → P w →
  (∀ o, src' = OcuObject o → obj_ok o) ∧ (∀ o, r = Ok o → obj_ok o) ∧ P w' ∧
  (src = ForeignObject → src' = ForeignObject).
Proof using BG.
  intros Hcall H Hsrc HP. unfold transferFile in H.
  destruct (fs_readOnly f) eqn:Hro; [by simplify_eq|].
  destruct src as [o|]; [|by simplify_eq].
  destruct (Hsrc o eq_refl) as [Hf Hp].
  destruct (negb _); [by simplify_eq|].
  pose proof (Hcall (o_path o) (absPath f dst) w Hp (absPath_canonical _ _) eq_refl HP) as HP'.
  destruct (call _ _ _) as [[u|e] w1]; simpl in HP'; [|by simplify_eq].
  destruct (Size o w1) as [[n o1] w2] eqn:ES. simplify_eq.
  destruct (Size_keeps _ _ _ _ _ ES ltac:(by split) HP') as [Ho1 HP2].
  split; [intros ? [= <-]; done|]. split; [|done].
  intros ? [= <-]. split; [done|]. apply absPath_canonical.
Qed.

Lemma transfer_keeps src dst st op opName cs call :
  (∀ s d w, canonical s → canonical d → fs_readOnly f = false → P w → P (snd (call s d w))) →
  (∀ source dst w, op f source dst w = transferFile f source dst opName cs call w) →
  state_ok st → state_ok (transfer f src dst st op).
Proof using BG.
  intros Hcall Hop [Hobjs HP]. unfold transfer.
  set (source := match src with Some i => _ | None => _ end).
  assert (∀ o, source = OcuObject o → obj_ok o) as Hsrc.
  { intros o Heq. subst source. destruct src as [i|]; [|done].
    destruct (st.1 !! i) eqn:Ho; simplify_eq. by eapply Forall_lookup_1. }
  rewrite Hop. destruct (transferFile f source dst opName cs call st.2) as [[r src'] w'] eqn:E.
  destruct (transferFile_keeps _ _ _ _ _ _ _ _ _ Hcall E Hsrc HP) as (H1 & H2 & H3 & _).
  split; [|done]. simpl. apply Forall_app. split.
  - destruct src as [i|]; [|done]. destruct src' as [o'|]; [|done]. apply Forall_insert; auto.
  - destruct r; [|constructor]. constructor; [auto|constructor].
Qed.

Lemma exec_keeps op st : state_ok st → state_ok (exec f op st).
Proof using BG LL.
  destruct st as [objs w]. intros Hst. pose proof Hst as [Hobjs HP].
  destruct op.
  - by apply List_keeps.
  - by apply NewObject_keeps.
  - by apply Put_keeps.
  - split; [done|]. by apply Mkdir_keeps.
  - split; [done|]. by apply Rmdir_keeps.
  - apply on_object_keeps; [done|]. intros o v o' v' Ho Hv Hm. destruct (ModTime o v) as [[]] eqn:E. simplify_eq. by eapply ModTime_keeps.
  - apply on_object_keeps; [done|]. intros o v o' v' Ho Hv Hm. destruct (Size o v) as [[]] eqn:E. simplify_eq. by eapply Size_keeps.
  - apply on_object_keeps; [done|]. intros o v o' v' Ho Hv Hm. destruct (MimeType o v) as [[]] eqn:E. simplify_eq. by eapply MimeType_keeps.
  - apply on_object_keeps; [done|]. intros o v o' v' Ho Hv Hm. unfold SetModTime in Hm. destruct (fs_readOnly _); by simplify_eq.
  - apply on_object_keeps; [done|]. intros o v o' v' Ho Hv Hm. destruct (Update o _ _ v) as [[]] eqn:E. simplify_eq. by eapply Update_keeps.
  - apply on_object_keeps; [done|]. intros o v o' v' Ho Hv Hm. simplify_eq. split; [done|]. by apply Remove_keeps.
  - apply on_object_keeps; [done|]. intros o v o' v' Ho Hv Hm. destruct (Open o _ v) as [[]] eqn:E. simplify_eq. by eapply Open_keeps.
  - eapply transfer_keeps; [|done|done]. intros. by apply guard_copy; [apply call_ok_write; [apply canonical2|..]|].
  - eapply transfer_keeps; [|done|done]. intros. by apply guard_move; [apply call_ok_write; [apply canonical2|..]|].
  - split; [done|]. by apply DirMove_keeps.
Qed.

Lemma session_keeps ops st : state_ok st → state_ok (run_session f ops st).
Proof using BG LL.
  revert st. induction ops as [|op ops IH]; intros st Hst; [done|]. simpl. by apply IH, exec_keeps.
Qed.
End discipline.

(** ** The recording client *)
Section spy.
Context {W : Type} (BC : brokerClient W).

Definition rec {R} (bc : broker_call) (r : R * W) (log : list broker_call) : R * (list broker_call * W) :=
  (fst r, (log ++ [bc], snd r)).

(** [BC] with a log of the calls made on it. *)
Definition spy : brokerClient (list broker_call * W) := {|
  bc_ListDirectoryStream A p y a '(log, w) := rec (BCListDirectory p) (bc_ListDirectoryStream A p y a w) log;
  bc_ListDirectoryAll p '(log, w) := rec (BCListDirectory p) (bc_ListDirectoryAll p w) log;
  bc_ReadMetadata p '(log, w) := rec (BCReadMetadata p) (bc_ReadMetadata p w) log;
  bc_Download u '(log, w) := rec (BCDownload u) (bc_Download u w) log;
  bc_DownloadRange u o l '(log, w) := rec (BCDownloadRange u o l) (bc_DownloadRange u o l w) log;
  bc_Upload p r n ow '(log, w) := rec (BCUpload p n ow) (bc_Upload p r n ow w) log;
  bc_CopyFile s d '(log, w) := rec (BCCopyFile s d) (bc_CopyFile s d w) log;
  bc_MoveFile s d '(log, w) := rec (BCMoveFile s d) (bc_MoveFile s d w) log;
  bc_RemoveFile p '(log, w) := rec (BCRemoveFile p) (bc_RemoveFile p w) log;
  bc_MakeDirectory p '(log, w) := rec (BCMakeDirectory p) (bc_MakeDirectory p w) log;
  bc_RemoveDirectory p '(log, w) := rec (BCRemoveDirectory p) (bc_RemoveDirectory p w) log;
  bc_MoveDirectory s d '(log, w) := rec (BCMoveDirectory s d) (bc_MoveDirectory s d w) log |}.

#[export] Instance spy_guard (ok : broker_call → Prop) :
  BrokerGuard spy ok (λ w, Forall ok (fst w)).
Proof.
  constructor; intros; destruct_or?; destruct w as [log w]; simpl in *;
    apply Forall_app; (split; [done|]); by constructor.
Qed.

#[export] Instance spy_laws : ListingLaws BC → ListingLaws spy.
Proof.
  intros LL. constructor. intros A yield g path a [log w] Hy.
  pose proof (stream_fold A yield g path a w Hy) as H. simpl.
  destruct (bc_ListDirectoryAll path w) as [[es|e] w']; unfold rec; simpl.
  - by rewrite H.
  - destruct H as [a' ->]. by exists a'.
Qed.
End spy.

(** Every call a session makes on its broker is disciplined, whatever the
    broker answers and whatever rclone asks for: all paths are canonical
    absolute paths, no download is sent with an empty handle, uploads replace,
    and a read-only Fs never makes a mutating call.  Every live object keeps
    belonging to the Fs, at a canonical path. *)
Theorem session_calls_ok {ENC : Encoder} {RD : RangeDecode} {W} (BC : brokerClient W) (LL : ListingLaws BC)
    (f : Fs) (ops : list fs_op) (w : W) :
  let '(objs, (log, _)) := run_session (BC := spy BC) f ops ([], ([], w)) in
  Forall (call_ok f) log ∧ Forall (obj_ok f) objs.
Proof.
  pose proof (session_keeps (BC := spy BC) f (λ w, Forall (call_ok f) (fst w)) ops ([], ([], w))) as H.
  destruct (run_session _ _ _) as [objs [log w']].
  destruct H as [Hobjs Hlog]; [split; constructor|]. done.
Qed.

#[export] Instance meta_broker_laws : ListingLaws meta_broker.
Proof. constructor. intros. done. Qed.

Definition ro_fs : Fs := mkFs 0 "ocufs" "" true defaultEncoding.

Lemma session_calls_ok_witness :
  let ops := [DoNewObject "a/../b"; DoUpdate 0 [] {| src_Remote := "b"; src_Size := 0 |}; DoOpen 0 []; DoRemove 0] in
  (run_session (ENC := id_encoder) (RD := rclone_decode) (BC := spy meta_broker) ro_fs ops ([], ([], 0%nat))).2.1
    = [BCReadMetadata "/b"; BCDownload "u9"] ∧
  Forall (call_ok ro_fs) [BCReadMetadata "/b"; BCDownload "u9"].
Proof.
  intros ops. split; [reflexivity|].
  exact (proj1 (session_calls_ok (ENC := id_encoder) (RD := rclone_decode) meta_broker meta_broker_laws ro_fs ops 0%nat)).
Defined.

(** ** The HTTP client *)

(** The request parameters: the JSON body, or the params field of an upload. *)
Definition has_params (rq : http_request) (kvs : list (string * json)) : Prop :=
  match rq_body rq with
  | BodyJSON j => j = JObj kvs
  | BodyPipe (PWPart name _ :: PWData d :: _) _ => name = "params" ∧ d = bytes_of_string (print_json (JObj kvs))
  | BodyPipe _ _ => False
  end.

(** A request as the frozen wire contract wants it from Fs [f] through client
    [c]: POST to the op's URL under the service URL with the bearer token, the
    client's filesystem id, the op's own intent and downloadable=false, intent
    read on a read-only Fs, and canonical paths in every path field. *)
Definition wire_ok (c : Client) (f : Fs) (rq : http_request) : Prop :=
  rq_method rq = "POST" ∧ rq_authorization rq = bearer c ∧
  ∃ op intent kvs, rq_url rq = opURL c op ∧ IntentFor op = Ok intent ∧
    has_params rq kvs ∧
    ("filesystem_id", JStr (c_fsID c)) ∈ kvs ∧
    ("authorization_metadata", enc_am {| am_Intent := intent; am_Downloadable := false |}) ∈ kvs ∧
    (fs_readOnly f = true → intent = "read") ∧
    ∀ k p, (k, JStr p) ∈ kvs → k ∈ ["path"; "source"; "destination"] → canonical p.

Section http.
Context {S : Type} (srv : http_request → S → do_outcome * S) {RU : RequestURL}.
Notation LW := (list http_request * S)%type.
#[local] Existing Instance logged.
Variables (c : Client) (f : Fs).

Definition log_ok (w : LW) : Prop := Forall (wire_ok c f) (fst w).

Lemma Do_log rq (w : LW) : fst (snd (Do (Transport := logged srv) rq w)) = fst w ++ [rq].
Proof. unfold Do, logged, logged_do. by destruct (srv rq (snd w)). Qed.

Lemma Do_keeps rq (w w' : LW) o : Do (Transport := logged srv) rq w = (o, w') → wire_ok c f rq → log_ok w → log_ok w'.
Proof.
  intros H Hrq Hw. pose proof (Do_log rq w) as Hl. rewrite H in Hl. simpl in Hl.
  unfold log_ok. rewrite Hl. apply Forall_app. split; [done|]. by constructor.
Qed.

Lemma call_keeps op j {T} (dec : json → T → option T) z (w : LW) :
  wire_ok c f (json_request c op j) → log_ok w → log_ok (snd (call (TW := logged srv) c op j dec z w)).
Proof.
  intros Hrq Hw. unfold call. destruct (newRequest_err _); [done|].
  destruct (Do _ w) as [o w'] eqn:E. pose proof (Do_keeps _ _ _ _ E Hrq Hw).
  destruct (do_result o) as [resp|]; [|done].
  destruct (is_2xx _); [|done]. by destruct (decode_body _ _ _).
Qed.

Lemma doDownload_keeps fsID uuid am rng limit (w : LW) :
  wire_ok c f (json_request c OpFileDownload (enc_FileDownloadRequest
    {| fd_FilesystemID := fsID; fd_UUID := uuid; fd_Range := rng; fd_AuthorizationMetadata := am |})) →
  log_ok w → log_ok (snd (doDownload (TW := logged srv) c fsID uuid am rng limit w)).
Proof.
  intros Hrq Hw. unfold doDownload. destruct (newRequest_err _); [done|].
  destruct (Do _ w) as [o w'] eqn:E. pose proof (Do_keeps _ _ _ _ E Hrq Hw).
  destruct (do_result o) as [resp|]; [|done].
  destruct (negb _); [done|]. destruct (_ && _); [|done]. by destruct rng.
Qed.

(** A JSON request is well formed when its members are. *)
Lemma json_wire_ok op intent kvs :
  IntentFor op = Ok intent →
  ("filesystem_id", JStr (c_fsID c)) ∈ kvs →
  ("authorization_metadata", enc_am {| am_Intent := intent; am_Downloadable := false |}) ∈ kvs →
  (fs_readOnly f = true → intent = "read") →
  (∀ k p, (k, JStr p) ∈ kvs → k ∈ ["path"; "source"; "destination"] → canonical p) →
  wire_ok c f (json_request c op (JObj kvs)).
Proof. intros. split; [done|]. split; [done|]. by exists op, intent, kvs. Qed.

Lemma canonical_elem ps k p (kvs : list (string * json)) :
  Forall canonical ps →
  Forall (λ kv, kv.1 ∈ ["path"; "source"; "destination"] → ∃ q, kv.2 = JStr q ∧ q ∈ ps) kvs →
  (k, JStr p) ∈ kvs → k ∈ ["path"; "source"; "destination"] → canonical p.
Proof.
  intros Hps Hkvs Hin Hk. rewrite Forall_forall in Hkvs.
  destruct (Hkvs _ Hin Hk) as (q & [= ->] & Hq). by rewrite Forall_forall in Hps; apply Hps.
Qed.

(** The members of a request: each path field is one of [ps]. *)
Ltac member := rewrite !elem_of_cons; tauto.
Ltac path_fields :=
  repeat (apply Forall_cons; split; [simpl; intros Hk; first
    [ eexists; split; [reflexivity|rewrite !elem_of_cons; tauto]
    | exfalso; refine (bool_decide_eq_false_1 _ _ Hk); reflexivity ]|]);
  apply Forall_nil; done.
Ltac json_ok intent ps H :=
  apply (json_wire_ok _ intent);
  [ reflexivity | member | member | first [done | intros; naive_solver]
  | intros ??; apply (canonical_elem ps); [exact H|path_fields] ].

Lemma list_loop_keeps {A} (yield : A → ListDirEntry → result error A) fuel path cursor g a (w w' : LW) a' e :
  canonical path →
  list_loop (TW := logged srv) yield fuel c (c_fsID c) path {| am_Intent := "read"; am_Downloadable := false |} cursor g a w
    = Some (a', e, w') → log_ok w → log_ok w'.
Proof.
  intros Hp. revert cursor g a w. induction fuel as [|n IH]; intros cursor g a w; [done|]. simpl.
  destruct (fetch_page _ _ _ _ _ _) as [r w1] eqn:Ef. intros H Hw.
  assert (log_ok w1) as Hw1.
  { change w1 with (snd (r, w1)). rewrite <-Ef. apply call_keeps; [|done].
    unfold page_request, enc_ListDirectoryRequest. simpl. unfold omit.
    destruct (bool_decide (cursor = "")); simpl; json_ok "read" [path] (canonical1 path Hp). }
  destruct r as [resp|err]; [|by simplify_eq].
  destruct (yield_all yield _ a) as [a1 [err|]]; [by simplify_eq|].
  case_decide; [by simplify_eq|].
  destruct (admit_page g _); [|by simplify_eq]. by eapply IH.
Qed.

Lemma ListDirectoryStream_keeps {A} (yield : A → ListDirEntry → result error A) path a (w : LW) :
  canonical path → log_ok w → log_ok (snd (ListDirectoryStream (TW := logged srv) yield c path a w)).
Proof.
  intros Hp Hw.
  pose proof (ListDirectoryStream_eq (TW := logged srv) yield c path a w (c_fsID c)
    {| am_Intent := "read"; am_Downloadable := false |} eq_refl) as H.
  destruct (ListDirectoryStream yield c path a w) as [[a' e] w']. by eapply list_loop_keeps.
Qed.

Lemma Upload_keeps path src n overwrite (w : LW) :
  canonical path → fs_readOnly f = false → log_ok w →
  log_ok (snd (Upload (TW := logged srv) c path src n overwrite w)).
Proof.
  intros Hp Hro Hw. unfold Upload.
  change (stamp c OpFileUpload) with (Ok (E := error) (c_fsID c, {| am_Intent := "write"; am_Downloadable := false |})).
  cbv iota beta. destruct (newRequest_err _); [done|].
  destruct (upload_writer_open (c_fsID c) path n overwrite {| am_Intent := "write"; am_Downloadable := false |}
    src (c_messageCeiling c)) as (chunks & Hwr & _).
  rewrite Hwr. destruct (Do _ w) as [o w'] eqn:E.
  apply Do_keeps in E; [| |done].
  - destruct (do_result o) as [resp|]; [|done]. destruct (negb _); [done|].
    destruct (read_all_limit _ _) as [[? [?|]] ?]; [done|]. cbv zeta.
    destruct (if (_ <=? _)%nat then _ else _); [|done]. by destruct (isPipeClosure _).
  - split; [done|]. split; [done|]. eexists OpFileUpload, "write", _.
    split; [done|]. split; [done|]. split; [split; [done|reflexivity]|].
    assert (∀ k p, (k, JStr p) ∈ [("filesystem_id", JStr (c_fsID c)); ("path", JStr path);
       ("declared_size_bytes", JNum n)] ++ omit (negb overwrite) "overwrite_existing" (JBool overwrite) ++
       [("authorization_metadata", enc_am {| am_Intent := "write"; am_Downloadable := false |})] →
      k ∈ ["path"; "source"; "destination"] → canonical p) as Hpaths.
    { intros k p. apply (canonical_elem [path]); [by apply canonical1|]. by destruct overwrite; simpl; path_fields. }
    split; [simpl; member|]. split; [destruct overwrite; simpl; member|]. split; [by rewrite Hro|]. exact Hpaths.
Qed.

(** A mutating JSON op: its paths are [ps] of the call. *)
Ltac write_op :=
  let Hok := fresh in
  intros *; intros Hok ?; pose proof Hok as (? & _); apply call_keeps; [|done];
  apply (json_wire_ok _ "write");
  [ reflexivity | member | member
  | intros Hro; apply (proj2 (proj2 Hok)) in Hro; discriminate
  | intros ??; eapply canonical_elem; [eassumption|path_fields] ].

#[export] Instance client_guard : BrokerGuard (client_broker (TW := logged srv) c) (call_ok f) log_ok.
Proof.
  constructor.
  - intros A p y a w (Hp & _) Hw. apply ListDirectoryStream_keeps; [by inversion Hp|done].
  - intros p w (Hp & _) Hw. unfold client_broker, bc_ListDirectoryAll, ListDirectoryAll.
    pose proof (ListDirectoryStream_keeps (λ all e, Ok (all ++ [e])) p [] w ltac:(by inversion Hp) Hw) as H.
    by destruct (ListDirectoryStream _ _ _ _ _) as [[a [e|]] w'].
  - intros p w (Hp & _) Hw. unfold client_broker, bc_ReadMetadata.
    destruct (ReadMetadata c p w) as [r w'] eqn:E. simpl.
    change w' with (snd (r, w')). rewrite <-E. unfold ReadMetadata.
    apply call_keeps; [|done]. json_ok "read" [p] Hp.
  - intros u w _ Hw. apply doDownload_keeps; [|done].
    unfold enc_FileDownloadRequest. cbn [fd_Range fd_FilesystemID fd_UUID fd_AuthorizationMetadata app]. json_ok "read" (@nil string) (Forall_nil_2 canonical).
  - intros u off len w _ Hw. unfold client_broker, bc_DownloadRange, DownloadRange.
    destruct (off <? 0); [done|]. destruct (len <? 0); [done|]. destruct (len =? 0); [done|].
    apply doDownload_keeps; [|done].
    unfold enc_FileDownloadRequest. cbn [fd_Range fd_FilesystemID fd_UUID fd_AuthorizationMetadata app]. json_ok "read" (@nil string) (Forall_nil_2 canonical).
  - intros p r n ow w Hok Hw. apply Upload_keeps; [by destruct Hok as (Hp & _); inversion Hp| |done].
    destruct (fs_readOnly f) eqn:Hro; [|done]. by destruct Hok as (_ & _ & H); specialize (H Hro).
  - write_op.
  - write_op.
  - write_op.
  - write_op.
  - write_op.
  - write_op.
Qed.

(** C4: end to end, everything a mounted Fs ever sends is a well-formed,
    in-scope request: over any sequence of method calls and against any
    server, each HTTP request is a POST under the service URL carrying the
    client's bearer token and filesystem id, the intent the table gives its
    op with downloadable=false, canonical path fields, and, when the Fs is
    read-only, intent read. *)
Theorem session_wire_ok {ENC : Encoder} {RD : RangeDecode} (ops : list fs_op) (s : S) :
  let '(_, (log, _)) := run_session (BC := client_broker (TW := logged srv) c) f ops ([], ([], s)) in
  Forall (wire_ok c f) log.
Proof.
  pose proof (session_keeps (BC := client_broker (TW := logged srv) c) f log_ok ops ([], ([], s))) as H.
  destruct (run_session _ _ _) as [objs [log s']].
  destruct H as [_ Hlog]; [split; constructor|]. done.
Qed.
End http.
