(* ===== verification/ObjectRace.v ===== *)
(** * Concurrent methods of one Object (backend/ocufs/object.go)

    rclone may drive resolve, Update and Open on one [*Object] at once.  Each
    critical section of [o.mu] is one atomic step; the broker round trips lie
    between them.  [step] interleaves any number of such threads over the shared
    object and the broker's current version of the file. *)
From Stdlib Require Import Ascii String.
From stdpp Require Import base list strings numbers gmap relations.
From S2P Require Import Prelude GoErrors GoIO GoTime Messages Ocufs OcufsSpec.
Local Open Scope Z_scope.

(** ** Critical sections *)

(** resolve, first section: is the object still unresolved? *)
Definition resolve_check (o : Object) : bool := bool_decide (o_uuid o = "").

(** resolve, last section: store the answer, unconditionally. *)
Definition resolve_store (m : ReadMetadataResponse) (o : Object) : Object := object_of_meta o m.

(** Update, after the upload: clear the handle, take the source's size. *)
Definition update_clear (size : Z) (o : Object) : Object :=
  mkObject (o_fs o) (o_remote o) (o_path o) "" size (o_mtime o) (o_mode o) (o_sha o) (o_mime o).

(** Open, after resolve: snapshot handle and size. *)
Definition open_snapshot (o : Object) : string * Z := (o_uuid o, o_size o).

(** ** Threads *)
Inductive thread : Type :=
| ResolveStart
| ResolveWire
| ResolveStore (m : ReadMetadataResponse)
| UpdateStart (size : Z)
| UpdateAck (size : Z)
| OpenStart
| OpenWire
| OpenStore (m : ReadMetadataResponse)
| OpenSnap
| Opened (uuid : string) (size : Z)
| Finished.

(** The object, the broker's current version of the file, every version the
    broker has held, and the threads. *)
Record config := mkConfig {
  cf_obj : Object; cf_broker : ReadMetadataResponse; cf_versions : list ReadMetadataResponse;
  cf_threads : list thread }.

(** One step of one thread: from a thread state and the shared parts to the
    next ones.  A failed lookup or upload ends the thread; a lookup that
    succeeds answers the broker's current version; an upload commits a version
    of the declared size. *)
Inductive thread_step : thread → Object → ReadMetadataResponse →
                        thread → Object → ReadMetadataResponse → Prop :=
| step_resolve_done o b : resolve_check o = false → thread_step ResolveStart o b Finished o b
| step_resolve_go o b : resolve_check o = true → thread_step ResolveStart o b ResolveWire o b
| step_resolve_fail o b : thread_step ResolveWire o b Finished o b
| step_resolve_answer o b : classifyReadMetadata (Some b) = metaArmFile → thread_step ResolveWire o b (ResolveStore b) o b
| step_resolve_store m o b : thread_step (ResolveStore m) o b Finished (resolve_store m o) b
| step_update_fail n o b : thread_step (UpdateStart n) o b Finished o b
| step_update_commit n o b b' : f_Size (mr_File b') = n → thread_step (UpdateStart n) o b (UpdateAck n) o b'
| step_update_ack n o b : thread_step (UpdateAck n) o b Finished (update_clear n o) b
| step_open_have o b : resolve_check o = false → thread_step OpenStart o b OpenSnap o b
| step_open_go o b : resolve_check o = true → thread_step OpenStart o b OpenWire o b
| step_open_fail o b : thread_step OpenWire o b Finished o b
| step_open_answer o b : classifyReadMetadata (Some b) = metaArmFile → thread_step OpenWire o b (OpenStore b) o b
| step_open_store m o b : thread_step (OpenStore m) o b OpenSnap (resolve_store m o) b
| step_open_snap o b : thread_step OpenSnap o b (Opened (open_snapshot o).1 (open_snapshot o).2) o b.

Inductive step : config → config → Prop :=
| step_at i t t' o o' b b' vs ts :
    ts !! i = Some t → thread_step t o b t' o' b' →
    step (mkConfig o b vs ts) (mkConfig o' b' (b' :: vs) (<[i := t']> ts)).

Definition init (o : Object) (b : ReadMetadataResponse) (ts : list thread) : config := mkConfig o b [b] ts.

Definition started (t : thread) : Prop :=
  match t with ResolveStart | UpdateStart _ | OpenStart => True | _ => False end.

(** ** No torn metadata *)

(** [o] carries, handle and size and the rest together, the metadata of one
    version the broker held, or those it started with, or no handle at all. *)
Definition whole (o0 : Object) (vs : list ReadMetadataResponse) (o : Object) : Prop :=
  o_uuid o = "" ∨ o = o0 ∨ ∃ m, m ∈ vs ∧ o = object_of_meta o0 m.

Definition same_identity (o0 o : Object) : Prop :=
  o_fs o = o_fs o0 ∧ o_remote o = o_remote o0 ∧ o_path o = o_path o0.

Definition thread_ok (o0 : Object) (vs : list ReadMetadataResponse) (t : thread) : Prop :=
  match t with
  | ResolveStore m | OpenStore m => m ∈ vs
  | Opened uuid size =>
      uuid = "" ∨ (uuid, size) = open_snapshot o0 ∨
      ∃ m, m ∈ vs ∧ (uuid, size) = (f_UUID (mr_File m), f_Size (mr_File m))
  | _ => True
  end.

Definition race_inv (o0 : Object) (c : config) : Prop :=
  same_identity o0 (cf_obj c) ∧ whole o0 (cf_versions c) (cf_obj c) ∧ cf_broker c ∈ cf_versions c ∧
  Forall (thread_ok o0 (cf_versions c)) (cf_threads c).

Lemma object_of_meta_identity o0 o m : same_identity o0 o → object_of_meta o m = object_of_meta o0 m.
Proof. intros (H1 & H2 & H3). unfold object_of_meta. by rewrite H1, H2, H3. Qed.

Lemma whole_mono o0 vs b o : whole o0 vs o → whole o0 (b :: vs) o.
Proof. intros [?|[?|(m & ? & ?)]]; [by left|by right; left|]. right; right. exists m. split; [by right|done]. Qed.

Lemma thread_ok_mono o0 vs b t : thread_ok o0 vs t → thread_ok o0 (b :: vs) t.
Proof.
  destruct t; simpl; try done; try by right.
  intros [?|[?|(m & ? & ?)]]; [by left|by right; left|]. right; right. exists m. split; [by right|done].
Qed.

Lemma thread_step_ok o0 vs t o b t' o' b' :
  thread_step t o b t' o' b' → same_identity o0 o → whole o0 vs o → b ∈ vs → thread_ok o0 vs t →
  same_identity o0 o' ∧ whole o0 (b' :: vs) o' ∧ thread_ok o0 (b' :: vs) t'.
Proof.
  intros Hs Hid Hw Hb Ht. pose proof (whole_mono o0 vs b o Hw) as Hwb.
  destruct Hs; simpl in *; split_and?; try done; try (by apply whole_mono); try (by constructor);
    try (by left).
  - right; right. exists m. split; [by right|]. by apply object_of_meta_identity.
  - right; right. exists m. split; [by right|]. by apply object_of_meta_identity.
  - destruct Hw as [?|[->|(m & Hm & ->)]]; [by left|by right; left|].
    right; right. exists m. split; [by right|done].
Qed.

Lemma step_inv o0 c c' : step c c' → race_inv o0 c → race_inv o0 c'.
Proof.
  intros [i t t' o o' b b' vs ts Hi Hs] (Hid & Hw & Hb & Hts); simpl in *.
  destruct (thread_step_ok o0 vs t o b t' o' b' Hs Hid Hw Hb) as (Hid' & Hw' & Ht').
  { by eapply (Forall_lookup_1 _ ts). }
  split; [done|]. split; [done|]. split; [by left|]. simpl.
  apply Forall_insert; [|done]. eapply Forall_impl; [exact Hts|]. intros x. apply thread_ok_mono.
Qed.

Lemma init_inv o0 b ts : Forall started ts → race_inv o0 (init o0 b ts).
Proof.
  intros Hts. split; [done|]. split; [by right; left|]. split; [by left|]. simpl.
  eapply Forall_impl; [exact Hts|]. by intros [].
Qed.

(** C32: metadata is never torn.  However many resolves, updates and opens race
    on one object, a handle is always held together with the size (and the
    other fields) of the one broker version it names: every snapshot an Open
    takes is empty-handled, or the pair the object started with, or the handle
    and size of one version the broker held. *)
Theorem race_no_torn (o0 : Object) (b : ReadMetadataResponse) (ts : list thread) (c : config)
    (Hstart : Forall started ts) (Hreach : rtc step (init o0 b ts) c) :
  whole o0 (cf_versions c) (cf_obj c) ∧
  ∀ i uuid size, cf_threads c !! i = Some (Opened uuid size) → uuid ≠ "" →
    (uuid, size) = open_snapshot o0 ∨
    ∃ m, m ∈ cf_versions c ∧ uuid = f_UUID (mr_File m) ∧ size = f_Size (mr_File m).
Proof.
  assert (race_inv o0 c) as (_ & Hw & _ & Hts).
  { pose proof (init_inv o0 b ts Hstart) as Hi. revert Hi. induction Hreach; [done|]. eauto using step_inv. }
  split; [done|]. intros i uuid size Hi Hu.
  pose proof (Forall_lookup_1 _ _ _ _ Hts Hi) as Ht. simpl in Ht.
  destruct Ht as [?|[?|(m & ? & ?)]]; [done|by left|right; exists m; by simplify_eq].
Qed.

(** ** The stale overwrite *)
Definition version (uuid : string) (size : Z) : ReadMetadataResponse :=
  mkMetaResp (mkFile "/a" size "2024-05-06T07:08:09Z" "" "" "" uuid) zero_Directory.

Lemma step_run {i t t' o o' b b' vs ts ts'} :
  ts !! i = Some t → thread_step t o b t' o' b' → <[i := t']> ts = ts' →
  step (mkConfig o b vs ts) (mkConfig o' b' (b' :: vs) ts').
Proof. intros Hi Hs <-. by econstructor. Qed.

(** Advance thread [i] by the step [tac] proves. *)
Ltac run i tac :=
  unfold init; eapply rtc_l; [eapply (step_run (i := i)); [reflexivity|tac|reflexivity]|].

(** The last writer wins, not the first.  An Update can be acknowledged
    with a new size while an older resolve is on the wire; when that resolve
    stores its answer it overwrites the acknowledged size and restores the
    handle of the replaced version, and, the handle being set, no later call
    resolves again. *)
Theorem stale_resolve_overwrites (f : Fs) :
  ∃ o c, rtc step (init (ack_object f "a" "/a" 0) (version "old" 3) [ResolveStart; UpdateStart 9]) c ∧
    cf_obj c = o ∧ cf_threads c = [Finished; Finished] ∧
    cf_broker c = version "new" 9 ∧ open_snapshot o = ("old", 3) ∧ resolve_check o = false.
Proof.
  eexists _, _. split; [|split; [reflexivity|]].
  - run 0%nat ltac:(by apply step_resolve_go).
    run 0%nat ltac:(by apply step_resolve_answer).
    run 1%nat ltac:(by apply (step_update_commit 9 _ _ (version "new" 9))).
    run 1%nat ltac:(apply step_update_ack).
    run 0%nat ltac:(apply step_resolve_store).
    apply rtc_refl.
  - done.
Qed.

Lemma race_no_torn_witness :
  rtc step (init (ack_object demo_fs "a" "/a" 0) (version "u" 3) [OpenStart])
    (mkConfig (object_of_meta (ack_object demo_fs "a" "/a" 0) (version "u" 3)) (version "u" 3)
       [version "u" 3; version "u" 3; version "u" 3; version "u" 3; version "u" 3] [Opened "u" 3]) ∧
  (("u", 3) = open_snapshot (ack_object demo_fs "a" "/a" 0) ∨
   ∃ m, m ∈ [version "u" 3; version "u" 3; version "u" 3; version "u" 3; version "u" 3] ∧
        "u" = f_UUID (mr_File m) ∧ 3 = f_Size (mr_File m)).
Proof.
  assert (rtc step (init (ack_object demo_fs "a" "/a" 0) (version "u" 3) [OpenStart])
    (mkConfig (object_of_meta (ack_object demo_fs "a" "/a" 0) (version "u" 3)) (version "u" 3)
       [version "u" 3; version "u" 3; version "u" 3; version "u" 3; version "u" 3] [Opened "u" 3])) as H.
  { run 0%nat ltac:(by apply step_open_go).
    run 0%nat ltac:(by apply step_open_answer).
    run 0%nat ltac:(apply step_open_store).
    run 0%nat ltac:(apply step_open_snap).
    apply rtc_refl. }
  split; [exact H|].
  refine (proj2 (race_no_torn _ _ [OpenStart] _ _ H) 0%nat "u" 3 eq_refl _); [repeat constructor|discriminate].
Defined.

(** ** The sequential methods are runs of single threads *)
Section sequential.
Context {ENC : Encoder} {RD : RangeDecode} `{BC : brokerClient W}.

(** A lone resolve that the broker answers with its version of the file
    takes the thread's steps and ends with the object [resolve] returns. *)
Lemma resolve_is_run o b w w' err o' :
  bc_ReadMetadata (o_path o) w = (Ok (Some b), w') → classifyReadMetadata (Some b) = metaArmFile →
  fst (resolve o w) = (err, o') →
  ∃ vs, rtc step (init o b [ResolveStart]) (mkConfig o' b vs [Finished]).
Proof.
  intros Hr Hc H. destruct (resolve_check o) eqn:Hu.
  - apply bool_decide_eq_true in Hu as Hu'.
    rewrite (resolve_file o b w w' Hu' Hr Hc) in H. simplify_eq/=. eexists.
    run 0%nat ltac:(by apply step_resolve_go).
    run 0%nat ltac:(by apply step_resolve_answer).
    run 0%nat ltac:(apply step_resolve_store). apply rtc_refl.
  - apply bool_decide_eq_false in Hu as Hu'. rewrite resolve_resolved in H by done. simplify_eq/=. eexists.
    run 0%nat ltac:(by apply step_resolve_done). apply rtc_refl.
Qed.
End sequential.
