(* ===== verification/HostFS.v ===== *)
(** * A host file system

    The calls of packages os and path/filepath that the reference broker makes,
    over one tree of files and directories.  A path is its list of components
    from the file-system root.  Links, permissions and special files are not
    modelled, and what the system reports of times and modes is left to the
    caller.  Every operation is total: it returns an errno or its result, and
    the tree it leaves behind. *)
From Stdlib Require Import Ascii String.
From stdpp Require Import base list strings gmap sorting.
From S2P Require Import Prelude GoIO.

Inductive errno : Type := ENOENT | ENOTDIR | EEXIST | EISDIR | ENOTEMPTY | EINVAL.

#[export] Instance errno_eq_dec : EqDecision errno.
Proof. solve_decision. Defined.

(** [errors.Is(err, os.ErrNotExist)] and [errors.Is(err, os.ErrExist)]. *)
Definition is_not_exist (e : errno) : bool := bool_decide (e = ENOENT).
Definition is_exist (e : errno) : bool := bool_decide (e = EEXIST ∨ e = ENOTEMPTY).

Inductive node : Type :=
| NFile (data : bytes)
| NDir.

#[export] Instance node_eq_dec : EqDecision node.
Proof. solve_decision. Defined.

Definition is_dir (n : node) : bool := match n with NDir => true | NFile _ => false end.

Abbreviation fpath := (list string).
Abbreviation hostfs := (gmap (list string) node).

(** The path walk: every component on the way must be a directory. *)
Fixpoint walk_from (t : hostfs) (at_ : fpath) (rest : fpath) : result errno node :=
  match t !! at_ with
  | None => Err ENOENT
  | Some n =>
      match rest, n with
      | [], _ => Ok n
      | _ :: _, NFile _ => Err ENOTDIR
      | c :: rest', NDir => walk_from t (at_ ++ [c]) rest'
      end
  end.

Definition Stat (t : hostfs) (p : fpath) : result errno node := walk_from t [] p.

(** os.MkdirAll. *)
Fixpoint mkdir_from (t : hostfs) (at_ : fpath) (rest : fpath) : option errno * hostfs :=
  match t !! at_ with
  | Some (NFile _) => (Some ENOTDIR, t)
  | n =>
      let t' := match n with Some _ => t | None => <[at_ := NDir]> t end in
      match rest with
      | [] => (None, t')
      | c :: rest' => mkdir_from t' (at_ ++ [c]) rest'
      end
  end.

Definition MkdirAll (t : hostfs) (p : fpath) : option errno * hostfs := mkdir_from t [] p.

(** filepath.Dir on components. *)
Definition parent (p : fpath) : fpath := removelast p.

(** Whether the directory that would hold [p] is there: its error if not. *)
Definition parent_err (t : hostfs) (p : fpath) : option errno :=
  match p with
  | [] => None
  | _ => match Stat t (parent p) with
         | Err e => Some e
         | Ok NDir => None
         | Ok (NFile _) => Some ENOTDIR
         end
  end.

(** os.OpenFile with O_CREATE|O_TRUNC|O_WRONLY: the file is there and empty. *)
Definition OpenTrunc (t : hostfs) (p : fpath) : option errno * hostfs :=
  match parent_err t p with
  | Some e => (Some e, t)
  | None => match t !! p with
            | Some NDir => (Some EISDIR, t)
            | _ => (None, <[p := NFile []]> t)
            end
  end.

(** Bytes written through the open file at [p]. *)
Definition Write (t : hostfs) (p : fpath) (data : bytes) : hostfs := <[p := NFile data]> t.

(** os.Open and reading to the end: a directory opens but does not read. *)
Definition ReadData (t : hostfs) (p : fpath) : result errno bytes :=
  match Stat t p with
  | Err e => Err e
  | Ok NDir => Err EISDIR
  | Ok (NFile d) => Ok d
  end.

Definition below (p q : fpath) : bool := bool_decide (p `prefix_of` q).

(** The proper descendants of [p]. *)
Definition occupied (t : hostfs) (p : fpath) : bool :=
  existsb (λ q, below p q && bool_decide (q ≠ p)) (map fst (map_to_list t)).

(** os.Remove: a file, or an empty directory. *)
Definition Remove (t : hostfs) (p : fpath) : option errno * hostfs :=
  match Stat t p with
  | Err e => (Some e, t)
  | Ok NDir => if occupied t p then (Some ENOTEMPTY, t) else (None, delete p t)
  | Ok (NFile _) => (None, delete p t)
  end.

(** os.RemoveAll: a missing path is no error. *)
Definition RemoveAll (t : hostfs) (p : fpath) : option errno * hostfs :=
  match Stat t p with
  | Err ENOENT => (None, t)
  | Err e => (Some e, t)
  | Ok _ => (None, filter (λ kv, ¬ p `prefix_of` kv.1) t)
  end.

(** The tree with the subtree at [src] carried to [dst]; whatever was at
    [dst] is gone. *)
Definition carry (src dst : fpath) (t : hostfs) : hostfs :=
  list_to_map (omap (λ kv,
    if below src kv.1 then Some (dst ++ drop (length src) kv.1, kv.2)
    else if below dst kv.1 then None else Some kv) (map_to_list t)).

(** os.Rename: an existing directory at [dst] is refused by package os, the
    rest is rename(2). *)
Definition Rename (t : hostfs) (src dst : fpath) : option errno * hostfs :=
  match Stat t dst with
  | Ok NDir => match Stat t src with Err e => (Some e, t) | Ok _ => (Some EEXIST, t) end
  | _ =>
      match Stat t src with
      | Err e => (Some e, t)
      | Ok n =>
          match parent_err t dst with
          | Some e => (Some e, t)
          | None =>
              if decide (src = dst) then (None, t)
              else if below src dst then (Some EINVAL, t)
              else match t !! dst, n with
                   | Some (NFile _), NDir => (Some ENOTDIR, t)
                   | _, _ => (None, carry src dst t)
                   end
          end
      end
  end.

(** Bytewise order of names. *)
Definition name_le (a b : string) : Prop := String.leb a b = true.
#[export] Instance name_le_dec a b : Decision (name_le a b).
Proof. unfold name_le. apply _. Defined.

(** The names in the directory [p]. *)
Definition child_name (p q : fpath) : option string :=
  match drop (length p) q with
  | [name] => if below p q then Some name else None
  | _ => None
  end.
Definition child_names (t : hostfs) (p : fpath) : list string :=
  merge_sort name_le (omap (child_name p) (map fst (map_to_list t))).

(** os.ReadDir: the entries in name order. *)
Definition ReadDir (t : hostfs) (p : fpath) : result errno (list (string * node)) :=
  match Stat t p with
  | Err e => Err e
  | Ok (NFile _) => Err ENOTDIR
  | Ok NDir => Ok (omap (λ name, pair name <$> t !! (p ++ [name])) (child_names t p))
  end.

(** The order of filepath.WalkDir: names in order, a directory before what it
    holds. *)
Fixpoint walk_leb (p q : fpath) : bool :=
  match p, q with
  | [], _ => true
  | _ :: _, [] => false
  | a :: p', b :: q' => if decide (a = b) then walk_leb p' q' else String.leb a b
  end.
Definition walk_le (p q : fpath) : Prop := walk_leb p q = true.
#[export] Instance walk_le_dec p q : Decision (walk_le p q).
Proof. unfold walk_le. apply _. Defined.

(** The files of the subtree at [p] in walk order. *)
Definition walk_files (t : hostfs) (p : fpath) : list fpath :=
  merge_sort walk_le (omap (λ kv, if below p kv.1 && negb (is_dir kv.2) then Some kv.1 else None) (map_to_list t)).

(** ** Well-formed trees *)

(** What exists lies in a directory. *)
Definition wf_tree (t : hostfs) : Prop :=
  ∀ p c, is_Some (t !! (p ++ [c])) → t !! p = Some NDir.

(** A finite check of it. *)
Lemma wf_tree_check t : map_Forall (λ p _, p = [] ∨ t !! parent p = Some NDir) t → wf_tree t.
Proof.
  intros H p c [n Hn]. destruct (H _ n Hn) as [He|Hp]; [by destruct p|]. unfold parent in Hp. by rewrite removelast_last in Hp.
Qed.

#[local] Open Scope nat_scope.
Lemma wf_prefix t p q : wf_tree t → is_Some (t !! (p ++ q)) → q ≠ [] → t !! p = Some NDir.
Proof.
  intros Hwf. induction q as [|c q IH] using rev_ind; [done|]. intros Hs _.
  rewrite app_assoc in Hs. apply Hwf in Hs.
  destruct q as [|d q]; [by rewrite app_nil_r in Hs|]. apply IH; [eauto|done].
Qed.

Lemma walk_from_Ok t p q n : walk_from t p q = Ok n → t !! (p ++ q) = Some n.
Proof.
  revert p. induction q as [|c q IH]; intros p; simpl.
  - rewrite app_nil_r. destruct (t !! p); by intros [= ->].
  - destruct (t !! p) as [[d|]|]; [done| |done]. intros H%IH. by rewrite <- app_assoc in H.
Qed.

Lemma walk_from_wf t p q n : wf_tree t → t !! (p ++ q) = Some n → walk_from t p q = Ok n.
Proof.
  intros Hwf. revert p. induction q as [|c q IH]; intros p; simpl.
  - rewrite app_nil_r. by intros ->.
  - intros H. rewrite (wf_prefix t p (c :: q)) by (done || eauto). apply IH. by rewrite <- app_assoc.
Qed.

Lemma Stat_Ok t p n : wf_tree t → Stat t p = Ok n ↔ t !! p = Some n.
Proof. intros Hwf. split; [apply (walk_from_Ok t [] p)|apply (walk_from_wf t [] p n Hwf)]. Qed.

Lemma Stat_Err t p : wf_tree t → (∃ e, Stat t p = Err e) ↔ t !! p = None.
Proof.
  intros Hwf. destruct (Stat t p) as [n|e] eqn:E.
  - apply Stat_Ok in E; [|done]. split; [by intros [e' ?]|by rewrite E].
  - split; [|eauto]. intros _. destruct (t !! p) eqn:Hn; [|done]. apply Stat_Ok in Hn; [congruence|done].
Qed.

(** A missing path below directories is reported as such. *)
Definition no_file_above (t : hostfs) (p : fpath) : Prop := ∀ q d, q `prefix_of` p → t !! q ≠ Some (NFile d).

Lemma walk_from_ENOENT t p q : t !! (p ++ q) = None → no_file_above t (p ++ q) → walk_from t p q = Err ENOENT.
Proof.
  revert p. induction q as [|c q IH]; intros p; simpl.
  - rewrite app_nil_r. by intros ->.
  - intros Hn Hf. destruct (t !! p) as [[d|]|] eqn:Hp; [|..|done].
    + exfalso. eapply (Hf p d); [by eexists|done].
    + apply IH; rewrite <- app_assoc; done.
Qed.

Lemma Stat_ENOENT t p : t !! p = None → no_file_above t p → Stat t p = Err ENOENT.
Proof. apply (walk_from_ENOENT t [] p). Qed.

(** ** What each operation does to a well-formed tree *)
Lemma insert_dir_wf t p : wf_tree t → (p = [] ∨ t !! parent p = Some NDir) → t !! p = None → wf_tree (<[p := NDir]> t).
Proof.
  intros Hwf Hpar Hp q c Hs. rewrite lookup_insert in Hs. destruct (decide (p = q ++ [c])) as [->|Hne].
  - destruct Hpar as [Hpar|Hpar]; [by destruct q|]. unfold parent in Hpar. rewrite removelast_last in Hpar.
    rewrite lookup_insert_ne; [done|]. intros H. apply (f_equal length) in H. rewrite length_app in H. simpl in H. lia.
  - apply Hwf in Hs. rewrite lookup_insert. by case_decide.
Qed.

Lemma mkdir_from_spec t p q : wf_tree t → (p = [] ∨ t !! parent p = Some NDir) → no_file_above t (p ++ q) →
  let '(e, t') := mkdir_from t p q in
  e = None ∧ wf_tree t' ∧
  ∀ x, t' !! x = if decide (p `prefix_of` x ∧ x `prefix_of` p ++ q) then Some NDir else t !! x.
Proof.
  revert t p. induction q as [|c q IH]; intros t p Hwf Hpar Hf; simpl.
  - rewrite app_nil_r in *. destruct (t !! p) as [[d|]|] eqn:Hp.
    + exfalso. by eapply (Hf p d).
    + split; [done|]. split; [done|]. intros x. case_decide as Hx; [|done].
      destruct Hx as [H1 H2]. by rewrite (anti_symm prefix x p) by done.
    + split; [done|]. split; [by apply insert_dir_wf|]. intros x. rewrite lookup_insert.
      case_decide as Hx; subst.
      * by rewrite decide_True by done.
      * rewrite decide_False; [done|]. intros [H1 H2]. apply Hx. by apply (anti_symm prefix).
  - set (t' := match t !! p with Some _ => t | None => <[p := NDir]> t end).
    destruct (t !! p) as [[d|]|] eqn:Hp; [exfalso; eapply (Hf p d); [by eexists|done]|..].
    all: assert (wf_tree t') as Hwf' by (subst t'; (done || by apply insert_dir_wf)).
    all: assert (∀ x, t' !! x = if decide (x = p) then Some NDir else t !! x) as Ht'
      by (subst t'; intros x; rewrite ?lookup_insert; repeat case_decide; subst; done).
    all: specialize (IH t' (p ++ [c]) Hwf').
    all: rewrite <- app_assoc in IH; simpl in IH.
    all: assert (no_file_above t' (p ++ c :: q)) as Hf'
      by (intros x d Hx; rewrite Ht'; case_decide; [done|by apply Hf]).
    all: assert (p ++ [c] = [] ∨ t' !! parent (p ++ [c]) = Some NDir) as Hpar'
      by (right; unfold parent; rewrite removelast_last, Ht'; by rewrite decide_True).
    all: specialize (IH Hpar' Hf'); subst t'; destruct (mkdir_from _ (p ++ [c]) q) as [e t2].
    all: destruct IH as (-> & Hwf2 & Hl); split; [done|]; split; [done|].
    all: intros x; rewrite Hl, Ht'.
    all: destruct (decide (x = p)) as [->|Hxp].
    all: try (rewrite (decide_True (P := p `prefix_of` p ∧ _)) by (split; [done|by eexists]); by case_decide).
    all: apply decide_ext.
    all: split; [intros [[k ->] H2]; split; [exists ([c] ++ k); by rewrite <- app_assoc|done]|].
    all: intros [[k ->] H2]; split; [|done].
    all: destruct k as [|c' k]; [by rewrite app_nil_r in Hxp|].
    all: apply prefix_app_inv in H2; apply prefix_cons_inv_1 in H2 as ->; exists k; by rewrite <- app_assoc.
Qed.

(** MkdirAll succeeds when no file is in the way: the path and what is above it
    are directories, and nothing else changed. *)
Lemma MkdirAll_spec t p : wf_tree t → no_file_above t p →
  ∃ t', MkdirAll t p = (None, t') ∧ wf_tree t' ∧ ∀ x, t' !! x = if decide (x `prefix_of` p) then Some NDir else t !! x.
Proof.
  intros Hwf Hf. pose proof (mkdir_from_spec t [] p Hwf ltac:(by left) Hf) as H.
  unfold MkdirAll. destruct (mkdir_from t [] p) as [e t']. destruct H as (-> & Hwf' & Hl).
  exists t'. split; [done|]. split; [done|]. intros x. rewrite Hl. simpl. apply decide_ext.
  split; [by intros [_ ?]|]. intros; split; [apply prefix_nil|done].
Qed.

Lemma mkdir_from_wf t p q : wf_tree t → (p = [] ∨ t !! parent p = Some NDir) → wf_tree (mkdir_from t p q).2.
Proof.
  revert t p. induction q as [|c q IH]; intros t p Hwf Hpar; simpl; destruct (t !! p) as [[d|]|] eqn:Hp; simpl;
    try done; try by apply insert_dir_wf.
  - apply IH; [done|]. right. unfold parent. by rewrite removelast_last.
  - apply IH; [by apply insert_dir_wf|]. right. unfold parent. rewrite removelast_last. by rewrite lookup_insert_eq.
Qed.

Lemma MkdirAll_wf t p : wf_tree t → wf_tree (MkdirAll t p).2.
Proof. intros. apply mkdir_from_wf; [done|by left]. Qed.

Lemma parent_err_None t p : wf_tree t → parent_err t p = None → p = [] ∨ t !! parent p = Some NDir.
Proof.
  intros Hwf. unfold parent_err. destruct p as [|c p]; [by left|]. right.
  destruct (Stat t (parent (c :: p))) as [[d|]|] eqn:Hs; [done| |done]. by apply Stat_Ok.
Qed.

Lemma parent_err_dir t p c : wf_tree t → t !! p = Some NDir → parent_err t (p ++ [c]) = None.
Proof.
  intros Hwf Hp. unfold parent_err, parent. rewrite removelast_last. apply Stat_Ok in Hp; [|done]. rewrite Hp. by destruct p.
Qed.

(** Replacing a file, or creating one in a directory. *)
Lemma insert_file_wf t p d : wf_tree t → (p = [] ∨ t !! parent p = Some NDir) → t !! p ≠ Some NDir →
  wf_tree (<[p := NFile d]> t).
Proof.
  intros Hwf Hpar Hp q c Hs. rewrite lookup_insert in Hs. destruct (decide (p = q ++ [c])) as [->|Hne].
  - destruct Hpar as [Hpar|Hpar]; [by destruct q|]. unfold parent in Hpar. rewrite removelast_last in Hpar.
    rewrite lookup_insert_ne; [done|]. intros H. apply (f_equal length) in H. rewrite length_app in H. simpl in H. lia.
  - apply Hwf in Hs. rewrite lookup_insert. case_decide as H; [|done]. by subst.
Qed.

Lemma OpenTrunc_spec t p : wf_tree t →
  match OpenTrunc t p with
  | (Some _, t') => t' = t
  | (None, t') => t' = <[p := NFile []]> t ∧ t !! p ≠ Some NDir ∧ (p = [] ∨ t !! parent p = Some NDir)
  end.
Proof.
  intros Hwf. unfold OpenTrunc. destruct (parent_err t p) eqn:Hpe; [done|]. apply parent_err_None in Hpe; [|done].
  by destruct (t !! p) as [[d|]|] eqn:Hp.
Qed.

Lemma OpenTrunc_wf t p : wf_tree t → wf_tree (OpenTrunc t p).2.
Proof.
  intros Hwf. pose proof (OpenTrunc_spec t p Hwf) as H. destruct (OpenTrunc t p) as [[e|] t']; simpl; [by subst|].
  destruct H as (-> & ? & ?). by apply insert_file_wf.
Qed.

Lemma Write_wf t p d e : wf_tree t → t !! p = Some (NFile e) → wf_tree (Write t p d).
Proof.
  intros Hwf Hp. apply insert_file_wf; [done| |by rewrite Hp].
  destruct p as [|c p _] using rev_ind; [by left|right]. unfold parent. rewrite removelast_last. apply (Hwf p c). eauto.
Qed.

Lemma occupied_false t p c q : occupied t p = false → t !! (p ++ c :: q) = None.
Proof.
  unfold occupied. intros H. destruct (t !! (p ++ c :: q)) as [n|] eqn:E; [|done].
  assert (p ++ c :: q ∈ map fst (map_to_list t)) as Hin.
  { apply list_elem_of_fmap. exists (p ++ c :: q, n). split; [done|]. by apply elem_of_map_to_list. }
  apply list_elem_of_In in Hin.
  assert (existsb (λ q, below p q && bool_decide (q ≠ p)) (map fst (map_to_list t)) = true) as Ht; [|congruence].
  apply existsb_exists. eexists. split; [exact Hin|]. unfold below. rewrite !bool_decide_eq_true_2; [done| |by eexists].
  intros Heq. apply (f_equal length) in Heq. rewrite length_app in Heq. simpl in Heq. lia.
Qed.

Lemma delete_wf t p : wf_tree t → (∀ c, t !! (p ++ [c]) = None) → wf_tree (delete p t).
Proof.
  intros Hwf Hp q c Hs. rewrite lookup_delete in Hs. case_decide as Hne; [by destruct Hs|].
  pose proof (Hwf q c Hs) as Hd. rewrite lookup_delete. case_decide as Hpq; [|done].
  subst. rewrite Hp in Hs. by destruct Hs.
Qed.

Lemma Remove_wf t p : wf_tree t → wf_tree (Remove t p).2.
Proof.
  intros Hwf. unfold Remove. destruct (Stat t p) as [[d|]|] eqn:Hs; simpl; [..|done].
  - apply Stat_Ok in Hs; [|done]. apply delete_wf; [done|]. intros c. destruct (t !! (p ++ [c])) eqn:E; [|done].
    assert (t !! p = Some NDir) by (apply (Hwf p c); eauto). congruence.
  - destruct (occupied t p) eqn:Ho; [done|]. apply delete_wf; [done|]. intros c. by apply occupied_false.
Qed.

Lemma RemoveAll_wf t p : wf_tree t → wf_tree (RemoveAll t p).2.
Proof.
  intros Hwf. unfold RemoveAll. destruct (Stat t p) as [n|[]] eqn:Hs; simpl; try done.
  intros q c [m Hm]. apply map_lookup_filter_Some in Hm as [Hm Hp]. simpl in Hp.
  apply map_lookup_filter_Some. split; [apply (Hwf q c); eauto|]. simpl. intros Hpq. apply Hp. by apply prefix_app_r.
Qed.

(** Where [carry] puts things: the keys below [dst] come from below [src]. *)
Lemma carry_elem (src dst : fpath) (t : hostfs) (x : fpath) (n : node) : ¬ src `prefix_of` dst →
  (x, n) ∈ omap (λ kv, if below src kv.1 then Some (dst ++ drop (length src) kv.1, kv.2)
                      else if below dst kv.1 then None else Some kv) (map_to_list t) ↔
  (if decide (dst `prefix_of` x) then t !! (src ++ drop (length dst) x)
   else if decide (src `prefix_of` x) then None else t !! x) = Some n.
Proof.
  intros Hsd. rewrite list_elem_of_omap. unfold below. split.
  - intros ([k m] & Hk%elem_of_map_to_list & H). simpl in H. case_bool_decide as Hs.
    + destruct Hs as [l ->]. rewrite drop_app_length in H. simplify_eq.
      rewrite decide_True by (by eexists). by rewrite drop_app_length.
    + case_bool_decide; simplify_eq. by rewrite !decide_False.
  - intros H. case_decide as Hd; [|case_decide as Hs; [done|]].
    + destruct Hd as [l ->]. rewrite drop_app_length in H. exists (src ++ l, n).
      split; [by apply elem_of_map_to_list|]. simpl. rewrite bool_decide_eq_true_2 by (by eexists).
      by rewrite drop_app_length.
    + exists (x, n). split; [by apply elem_of_map_to_list|]. simpl. by rewrite !bool_decide_eq_false_2.
Qed.

Lemma carry_lookup (src dst : fpath) (t : hostfs) (x : fpath) : ¬ src `prefix_of` dst →
  carry src dst t !! x =
    if decide (dst `prefix_of` x) then t !! (src ++ drop (length dst) x)
    else if decide (src `prefix_of` x) then None else t !! x.
Proof.
  intros Hsd. unfold carry. set (l := omap _ _). set (r := if decide (dst `prefix_of` x) then _ else _).
  pose proof (λ n, carry_elem src dst t x n Hsd) as He. fold l in He. change (∀ n, (x, n) ∈ l ↔ r = Some n) in He.
  destruct r as [n|].
  - apply elem_of_list_to_map_1'; [|by apply He]. intros y Hy%He. by simplify_eq.
  - apply not_elem_of_list_to_map_1. intros ([y n] & -> & Hy)%list_elem_of_fmap. by apply He in Hy.
Qed.

(** A rename that succeeds. *)
Lemma Rename_Ok (t : hostfs) src dst t' : wf_tree t → Rename t src dst = (None, t') →
  ∃ n, t !! src = Some n ∧ (dst = [] ∨ t !! parent dst = Some NDir) ∧
    ((src = dst ∧ t' = t) ∨
     (¬ src `prefix_of` dst ∧ ¬ dst `prefix_of` src ∧ t' = carry src dst t ∧
      match t !! dst with None => True | Some m => is_dir m = false ∧ is_dir n = false end)).
Proof.
  intros Hwf. unfold Rename.
  assert (Stat t dst ≠ Ok NDir → match Stat t src with
    | Err e => (Some e, t)
    | Ok n => match parent_err t dst with
      | Some e => (Some e, t)
      | None => if decide (src = dst) then (None, t)
                else if below src dst then (Some EINVAL, t)
                else match t !! dst, n with
                     | Some (NFile _), NDir => (Some ENOTDIR, t)
                     | _, _ => (None, carry src dst t)
                     end
      end
    end = (None, t') →
    ∃ n, t !! src = Some n ∧ (dst = [] ∨ t !! parent dst = Some NDir) ∧
    ((src = dst ∧ t' = t) ∨
     (¬ src `prefix_of` dst ∧ ¬ dst `prefix_of` src ∧ t' = carry src dst t ∧
      match t !! dst with None => True | Some m => is_dir m = false ∧ is_dir n = false end))) as H.
  { intros Hnd. destruct (Stat t src) as [n|] eqn:Hs; [|done]. apply Stat_Ok in Hs; [|done].
    destruct (parent_err t dst) eqn:Hp; [done|]. apply parent_err_None in Hp; [|done].
    case_decide as Heq; [intros [= <-]; eauto 6|].
    unfold below. case_bool_decide as Hb; [done|].
    assert (t !! dst ≠ Some NDir) as Hd by (intros Hd; apply Hnd; by apply Stat_Ok).
    assert (¬ dst `prefix_of` src) as Hds.
    { intros [l ->]. destruct l as [|c l]; [by rewrite app_nil_r in Heq|]. apply Hd. apply (wf_prefix t dst (c :: l)); [done|eauto|done]. }
    destruct (t !! dst) as [[d|]|] eqn:Hdst; [|done|intros; simplify_eq; exists n; eauto 8].
    destruct n; [|done]. intros; simplify_eq. eexists. split; [done|]. split; [done|]. right. by rewrite Hdst || done. }
  destruct (Stat t dst) as [[d|]|e] eqn:Hst; [by apply H| |by apply H].
  by destruct (Stat t src).
Qed.

Lemma Rename_Err t src dst e t' : Rename t src dst = (Some e, t') → t' = t.
Proof. unfold Rename. repeat case_match; by intros; simplify_eq. Qed.

Lemma carry_wf (t : hostfs) src dst n : wf_tree t → t !! src = Some n → (dst = [] ∨ t !! parent dst = Some NDir) →
  ¬ src `prefix_of` dst → ¬ dst `prefix_of` src →
  match t !! dst with None => True | Some m => is_dir m = false ∧ is_dir n = false end →
  wf_tree (carry src dst t).
Proof.
  intros Hwf Hsrc Hpar Hsd Hds Hdst p c [m Hm]. rewrite carry_lookup in Hm |- * by done.
  destruct (decide (dst `prefix_of` p)) as [[l ->]|Hp].
  - rewrite decide_True in Hm by (rewrite <- app_assoc; by eexists).
    rewrite drop_app_length. rewrite <- app_assoc, drop_app_length, app_assoc in Hm. apply (Hwf _ c). eauto.
  - destruct (decide (dst `prefix_of` p ++ [c])) as [Hpc|Hpc].
    + assert (dst = p ++ [c]) as ->.
      { destruct Hpc as [l Hl]. destruct l as [|d l _] using rev_ind; [by rewrite app_nil_r in Hl|].
        rewrite app_assoc in Hl. apply app_inj_tail in Hl as [-> _]. exfalso. apply Hp. by eexists. }
      destruct Hpar as [Hpar|Hpar]; [by destruct p|]. unfold parent in Hpar. rewrite removelast_last in Hpar.
      rewrite decide_False; [done|]. intros Hs. apply Hsd. by apply prefix_app_r.
    + case_decide as Hs; [done|]. rewrite decide_False; [apply (Hwf p c); eauto|].
      intros Hsp. apply Hs. by apply prefix_app_r.
Qed.

Lemma Rename_wf t src dst : wf_tree t → wf_tree (Rename t src dst).2.
Proof.
  intros Hwf. destruct (Rename t src dst) as [[e|] t'] eqn:Hr; simpl; [by apply Rename_Err in Hr as ->|].
  apply Rename_Ok in Hr as (n & Hn & Hpar & [[_ ->]|(? & ? & -> & ?)]); [done| |done]. by eapply carry_wf.
Qed.

(** ** Where each operation can reach *)

(** Nothing outside the subtree at [R] differs. *)
Definition confined (R : fpath) (t t' : hostfs) : Prop := ∀ x, ¬ R `prefix_of` x → t' !! x = t !! x.

(** The directory that holds [R] is there. *)
Definition anchored (R : fpath) (t : hostfs) : Prop := R ≠ [] → t !! parent R = Some NDir.

(** A change of a well-formed tree within [R]. *)
Definition within (R : fpath) (t t' : hostfs) : Prop := wf_tree t → anchored R t → wf_tree t' ∧ confined R t t'.

Lemma parent_outside (R : fpath) : R ≠ [] → ¬ R `prefix_of` parent R.
Proof.
  destruct R as [|c R _] using rev_ind; [done|]. intros _ H%prefix_length. unfold parent in H.
  rewrite removelast_last, length_app in H. simpl in H. lia.
Qed.

Lemma confined_anchored R t t' : confined R t t' → anchored R t → anchored R t'.
Proof. intros Hc Ha HR. rewrite Hc by (by apply parent_outside). by apply Ha. Qed.

#[export] Instance within_preorder R : PreOrder (within R).
Proof.
  split; [by intros t; split|]. intros t1 t2 t3 H12 H23 Hwf Ha.
  destruct (H12 Hwf Ha) as [Hwf2 Hc2]. destruct (H23 Hwf2 (confined_anchored _ _ _ Hc2 Ha)) as [Hwf3 Hc3].
  split; [done|]. intros x Hx. by rewrite Hc3, Hc2.
Qed.

(** Above an anchored root everything is a directory. *)
Lemma anchored_above R t x : wf_tree t → anchored R t → x `prefix_of` R → ¬ R `prefix_of` x → t !! x = Some NDir.
Proof.
  intros Hwf Ha [l ->] Hn. destruct l as [|c l _] using rev_ind; [by rewrite app_nil_r in Hn|].
  assert (t !! (x ++ l) = Some NDir) as Hp.
  { unfold anchored, parent in Ha. rewrite app_assoc, removelast_last in Ha. apply Ha. by destruct (x ++ l). }
  destruct l; [by rewrite app_nil_r in Hp|]. eapply (wf_prefix t x); eauto.
Qed.

Lemma mkdir_from_changes t p q x : (mkdir_from t p q).2 !! x ≠ t !! x → t !! x = None ∧ x `prefix_of` p ++ q.
Proof.
  revert t p. induction q as [|c q IH]; intros t p; simpl; destruct (t !! p) as [[d|]|] eqn:Hp; simpl; try done.
  - rewrite app_nil_r, lookup_insert. by case_decide as H; [subst|].
  - intros H%IH. by rewrite <- app_assoc in H.
  - destruct (decide (x = p)) as [->|Hx]; [intros _; split; [done|by eexists]|].
    intros H. destruct (IH (<[p := NDir]> t) (p ++ [c])) as [H1 H2].
    + rewrite lookup_insert_ne by done. done.
    + rewrite lookup_insert_ne in H1 by done. by rewrite <- app_assoc in H2.
Qed.

Lemma MkdirAll_within R p t : R `prefix_of` p ∨ p = parent R → within R t (MkdirAll t p).2.
Proof.
  intros Hp Hwf Ha. split; [by apply MkdirAll_wf|]. intros x Hx.
  destruct (decide ((MkdirAll t p).2 !! x = t !! x)) as [|Hne]; [done|exfalso].
  apply mkdir_from_changes in Hne as [Hn Hxp]; simpl in Hxp.
  assert (x `prefix_of` R) as HxR.
  { destruct Hp as [Hp| ->]; [by destruct (prefix_weak_total x R p)|].
    etrans; [exact Hxp|]. destruct R as [|c R _] using rev_ind; [done|]. unfold parent. rewrite removelast_last. by eexists. }
  pose proof (anchored_above R t x Hwf Ha HxR Hx). congruence.
Qed.

Lemma parent_below R p : R `prefix_of` p → R `prefix_of` parent p ∨ parent p = parent R.
Proof.
  intros [l ->]. destruct l as [|c l _] using rev_ind; [rewrite app_nil_r; by right|left].
  unfold parent. rewrite app_assoc, removelast_last. by eexists.
Qed.

Lemma insert_confined R p n t : R `prefix_of` p → confined R t (<[p := n]> t).
Proof. intros Hp x Hx. rewrite lookup_insert_ne; [done|]. by intros ->. Qed.

Lemma delete_confined R p t : R `prefix_of` p → confined R t (delete p t).
Proof. intros Hp x Hx. rewrite lookup_delete_ne; [done|]. by intros ->. Qed.

Lemma OpenTrunc_within R p t : R `prefix_of` p → within R t (OpenTrunc t p).2.
Proof.
  intros Hp Hwf _. split; [by apply OpenTrunc_wf|]. pose proof (OpenTrunc_spec t p Hwf) as H.
  destruct (OpenTrunc t p) as [[e|] t']; simpl; [by subst|]. destruct H as (-> & _). by apply insert_confined.
Qed.

Lemma Write_within R p t d e : R `prefix_of` p → t !! p = Some (NFile e) → within R t (Write t p d).
Proof. intros Hp He Hwf _. split; [by eapply Write_wf|]. by apply insert_confined. Qed.

(** What was opened and truncated can be written. *)
Lemma OpenTrunc_Write_within R p t t' d : R `prefix_of` p → OpenTrunc t p = (None, t') → within R t (Write t' p d).
Proof.
  intros Hp E Hwf Ha. pose proof (OpenTrunc_within R p t Hp Hwf Ha) as [Hwf' Hc]. pose proof (OpenTrunc_spec t p Hwf) as Hs.
  rewrite E in *. simpl in *. destruct Hs as (-> & _).
  destruct (Write_within R p _ d [] Hp (lookup_insert_eq _ p _) Hwf' (confined_anchored _ _ _ Hc Ha)) as [Hwf2 Hc2].
  split; [done|]. intros x Hx. by rewrite Hc2, Hc.
Qed.

Lemma Remove_within R p t : R `prefix_of` p → within R t (Remove t p).2.
Proof.
  intros Hp Hwf _. split; [by apply Remove_wf|]. unfold Remove.
  destruct (Stat t p) as [[d|]|]; [|destruct (occupied t p)|]; simpl; (done || by apply delete_confined).
Qed.

Lemma RemoveAll_within R p t : R `prefix_of` p → within R t (RemoveAll t p).2.
Proof.
  intros Hp Hwf _. split; [by apply RemoveAll_wf|]. unfold RemoveAll.
  destruct (Stat t p) as [n|[]]; try done. intros x Hx. simpl.
  assert (¬ p `prefix_of` x) as Hpx by (intros H; apply Hx; by etrans).
  destruct (t !! x) as [m|] eqn:Hm.
  - apply map_lookup_filter_Some. done.
  - apply map_lookup_filter_None. by left.
Qed.

Lemma Rename_within R p q t : R `prefix_of` p → R `prefix_of` q → within R t (Rename t p q).2.
Proof.
  intros Hp Hq Hwf _. split; [by apply Rename_wf|].
  destruct (Rename t p q) as [[e|] t'] eqn:Hr; simpl; [by apply Rename_Err in Hr as ->|].
  apply Rename_Ok in Hr as (n & _ & _ & [[_ ->]|(? & ? & -> & ?)]); [done| |done].
  intros x Hx. rewrite carry_lookup by done.
  rewrite (decide_False (P := q `prefix_of` x)), (decide_False (P := p `prefix_of` x)); [done|..];
    intros Hb; apply Hx; first [by transitivity p|by transitivity q].
Qed.

(** ** Listings *)
Lemma walk_files_elem t p x : x ∈ walk_files t p ↔ p `prefix_of` x ∧ ∃ d, t !! x = Some (NFile d).
Proof.
  unfold walk_files. rewrite merge_sort_Permutation. rewrite list_elem_of_omap. unfold below. split.
  - intros ([k n] & Hk%elem_of_map_to_list & H). simpl in H. destruct n as [d|]; simpl in H; [|by rewrite andb_false_r in H].
    case_bool_decide; simpl in H; [|done]. injection H as <-. eauto.
  - intros (Hp & d & Hd). exists (x, NFile d). split; [by apply elem_of_map_to_list|]. simpl.
    by rewrite bool_decide_eq_true_2.
Qed.

Lemma child_name_Some p q name : child_name p q = Some name ↔ q = p ++ [name].
Proof.
  unfold child_name, below. split.
  - destruct (drop (length p) q) as [|a [|b l]] eqn:E; try done. case_bool_decide as Hp; [|done]. intros [= ->].
    destruct Hp as [l ->]. rewrite drop_app_length in E. congruence.
  - intros ->. rewrite drop_app_length. by rewrite bool_decide_eq_true_2 by (by eexists).
Qed.

Lemma child_names_elem t p name : name ∈ child_names t p ↔ is_Some (t !! (p ++ [name])).
Proof.
  unfold child_names. rewrite merge_sort_Permutation, list_elem_of_omap. split.
  - intros (q & ([k n] & -> & Hkv%elem_of_map_to_list)%list_elem_of_fmap & Hc%child_name_Some). simpl in Hc. subst. eauto.
  - intros [n Hn]. exists (p ++ [name]). split; [|by apply child_name_Some].
    apply list_elem_of_fmap. exists (p ++ [name], n). split; [done|]. by apply elem_of_map_to_list.
Qed.

Lemma child_names_NoDup t p : NoDup (child_names t p).
Proof.
  unfold child_names. rewrite merge_sort_Permutation.
  pose proof (NoDup_fst_map_to_list t) as H. change (fst <$> map_to_list t) with (map fst (map_to_list t)) in H.
  induction H as [|q l Hq _ IH]; simpl; [constructor|]. destruct (child_name p q) as [name|] eqn:E; [|done].
  apply child_name_Some in E as ->. constructor; [|done]. intros (q & Hin & ->%child_name_Some)%list_elem_of_omap. done.
Qed.

#[export] Instance name_le_total : Total name_le.
Proof. intros a b. unfold name_le. destruct (String.leb_total a b); auto. Qed.
#[export] Instance name_le_trans : Transitive name_le.
Proof.
  unfold name_le, String.leb. intros a. induction a as [|x a IH]; intros [|y b] [|z d]; simpl; try done.
  unfold Ascii.compare.
  destruct (N.compare_spec (N_of_ascii x) (N_of_ascii y)), (N.compare_spec (N_of_ascii y) (N_of_ascii z)),
    (N.compare_spec (N_of_ascii x) (N_of_ascii z)); try done; try lia. apply IH.
Qed.

Lemma child_names_sorted t p : StronglySorted name_le (child_names t p).
Proof. unfold child_names. apply StronglySorted_merge_sort; apply _. Qed.

(** A directory's listing: each entry with what it is. *)
Lemma ReadDir_spec t p : wf_tree t → t !! p = Some NDir →
  ∃ es, ReadDir t p = Ok es ∧ NoDup es.*1 ∧ es.*1 = child_names t p ∧ ∀ name n, (name, n) ∈ es ↔ t !! (p ++ [name]) = Some n.
Proof.
  intros Hwf Hp. unfold ReadDir. rewrite (proj2 (Stat_Ok t p NDir Hwf) Hp). eexists. split; [done|].
  assert (∀ l, (∀ name, name ∈ l → is_Some (t !! (p ++ [name]))) →
    (omap (λ name, pair name <$> t !! (p ++ [name])) l).*1 = l) as Hfst.
  { intros l. induction l as [|name l IH]; intros Hl; [done|]. simpl. destruct (Hl name) as [n ->]; [by left|]. simpl.
    f_equal. apply IH. intros. apply Hl. by right. }
  rewrite Hfst by by intros name ?%child_names_elem. split; [apply child_names_NoDup|]. split; [done|].
  intros name n. rewrite list_elem_of_omap. split.
  - intros (name' & _ & H). destruct (t !! (p ++ [name'])) eqn:E; [|done]. simpl in H. by injection H as <- <-.
  - intros Hn. exists name. split; [apply child_names_elem; eauto|]. by rewrite Hn.
Qed.
