(* ===== verification/Filestore.v ===== *)
(** * The reference broker (test/harness/filestore)

    The peer the guest's requests are exercised against: the routing,
    authorisation and throttling of filestore.go and throttle.go, the handlers
    of ops.go and transfer.go, and the path and uuid rules of volume.go, over
    the host file system of [HostFS].  The credential validator is an
    interface, as in the code; what the system reports of times and modes, and
    net/url's path of a request, are arguments; so is what the connection makes
    of a body that breaks off ([Network]). *)
From Stdlib Require Import Ascii String SpecFloat.
From stdpp Require Import base list strings numbers gmap sorting.
From S2P Require Import Prelude GoErrors GoIO GoJson GoFloat GoPath Sha256 BrokerErrors Messages Client HostFS.
Local Open Scope Z_scope.

(** ** Constants and data (filestore.go) *)
Definition restPath : string := "/v1/filestore/fs/".

Definition writeIntentOps : list Op :=
  [OpCreateFile; OpCopyFile; OpMoveFile; OpRemoveFile; OpMakeDirectory; OpMoveDirectory;
   OpRemoveDirectory; OpFileUpload].

Record Scope := mkScope { sc_FilesystemID : string; sc_Root : string; sc_ReadOnly : bool }.

(** ** The per-op ceiling (throttle.go) *)
Definition throttleRefusalStatus : Z := 418.

Definition f64_add (x y : spec_float) : spec_float := SFadd f64_prec f64_emax x y.
Definition f64_sub (x y : spec_float) : spec_float := SFsub f64_prec f64_emax x y.
Definition f64_div (x y : spec_float) : spec_float := SFdiv f64_prec f64_emax x y.

Record tokenBucket := mkBucket { tb_rate : spec_float; tb_burst : spec_float; tb_tokens : spec_float; tb_last : Z }.

Definition newTokenBucket (rate burst : spec_float) (now : Z) : tokenBucket := mkBucket rate burst burst now.

(** Time.Sub saturates; Duration.Seconds adds whole and fractional seconds. *)
Definition Sub (t u : Z) : Z := Z.max int64_min (Z.min int64_max (t - u)).
Definition Seconds (d : Z) : spec_float :=
  f64_add (f64_of_Z (Z.quot d 1000000000)) (f64_div (f64_of_Z (Z.rem d 1000000000)) (f64_of_Z 1000000000)).

Definition allow (now : Z) (b : tokenBucket) : bool * tokenBucket :=
  let elapsed := Seconds (Sub now (tb_last b)) in
  let b1 := if SFltb (f64_of_Z 0) elapsed then
              let tokens := f64_add (tb_tokens b) (f64_mul elapsed (tb_rate b)) in
              mkBucket (tb_rate b) (tb_burst b) (if SFltb (tb_burst b) tokens then tb_burst b else tokens) now
            else b in
  if SFleb (f64_of_Z 1) (tb_tokens b1)
  then (true, mkBucket (tb_rate b1) (tb_burst b1) (f64_sub (tb_tokens b1) (f64_of_Z 1)) (tb_last b1))
  else (false, b1).

(** ** The server *)
Record Server := mkServer {
  sv_scopes : gmap string Scope; sv_throttleEvery : Z; sv_writeCount : Z;
  sv_perOpScope : string; sv_perOpBucket : option tokenBucket;
  sv_fs : hostfs; sv_now : Z }.

Definition set_fs (s : Server) (t : hostfs) : Server :=
  mkServer (sv_scopes s) (sv_throttleEvery s) (sv_writeCount s) (sv_perOpScope s) (sv_perOpBucket s) t (sv_now s).

Record PerOpThrottle := { pt_FilesystemID : string; pt_Rate : spec_float; pt_Burst : spec_float }.

(** NewServer on a host file system, at a time; the validator is there. *)
Definition NewServer (scopes : list Scope) (throttleEvery : Z) (t : option PerOpThrottle) (fs : hostfs) (now : Z) : Server :=
  let scopeMap := foldl (λ m sc, <[sc_FilesystemID sc := sc]> m) ∅ scopes in
  match t with
  | Some t => if decide (pt_FilesystemID t = "") then mkServer scopeMap throttleEvery 0 "" None fs now
              else mkServer scopeMap throttleEvery 0 (pt_FilesystemID t) (Some (newTokenBucket (pt_Rate t) (pt_Burst t) now)) fs now
  | None => mkServer scopeMap throttleEvery 0 "" None fs now
  end.

Definition chargePerOp (requestedFSID : string) (s : Server) : bool * Server :=
  match sv_perOpBucket s with
  | None => (true, s)
  | Some b =>
      if negb (bool_decide (requestedFSID = sv_perOpScope s)) then (true, s)
      else let '(ok, b') := allow (sv_now s) b in
           (ok, mkServer (sv_scopes s) (sv_throttleEvery s) (sv_writeCount s) (sv_perOpScope s) (Some b') (sv_fs s) (sv_now s))
  end.

Definition throttled (s : Server) : bool * Server :=
  if sv_throttleEvery s <=? 0 then (false, s)
  else let n := int64_wrap (sv_writeCount s + 1) in
       (Z.rem n (sv_throttleEvery s) =? 0,
        mkServer (sv_scopes s) (sv_throttleEvery s) n (sv_perOpScope s) (sv_perOpBucket s) (sv_fs s) (sv_now s)).

Definition authorize (s : Server) (opName subjectFSID requestedFSID : string) : result (Z * string) Scope :=
  if decide (requestedFSID = "") then Err (400, "filesystem_id is required")
  else if negb (bool_decide (subjectFSID = requestedFSID)) then
    Err (403, "credential is not bound to the requested filesystem_id")
  else match sv_scopes s !! requestedFSID with
  | None => Err (403, "unknown filesystem_id")
  | Some scope =>
      if sc_ReadOnly scope && bool_decide (opName ∈ writeIntentOps)
      then Err (403, "scope is read-only; write refused") else Ok scope
  end.

(** ** Responses (httpjson) *)

(** json.Encoder ends the text with a newline. *)
Definition json_response (status : Z) (retryAfter : string) (v : json) : http_response :=
  let body := bytes_of_string (print_json v +:+ String "010"%char "") in
  mkResp status retryAfter (zlen body) [Seg body None].
Definition httpjson_Error (status : Z) (msg : string) : http_response :=
  json_response status "" (JObj [("error", JStr msg)]).
Definition httpjson_OK (v : json) : http_response := json_response 200 "" v.
Definition empty_struct : json := JObj [].

(** ** Request bodies *)

(** json.Unmarshal: one value, then nothing but white space. *)
Definition Unmarshal {T} (dec : json → T → option T) (zero : T) (raw : string) : option T :=
  match parse_first raw with
  | PDone j rest => if decide (skip_ws rest = "") then dec j zero else None
  | _ => None
  end.

Record authorizationMetadata := mkAM { wam_Intent : string; wam_Downloadable : bool }.
Definition dec_authorizationMetadata : json → authorizationMetadata → option authorizationMetadata :=
  decode_struct ["intent"; "downloadable"]
    (λ f v t, if decide (f = "intent") then (λ x, mkAM x (wam_Downloadable t)) <$> dec_string v (wam_Intent t)
              else (λ x, mkAM (wam_Intent t) x) <$> dec_bool v (wam_Downloadable t)) false.

Record commonBody := mkCommon { cb_FilesystemID : string; cb_AuthorizationMetadata : authorizationMetadata }.
Definition dec_commonBody : json → commonBody → option commonBody :=
  decode_struct ["filesystem_id"; "authorization_metadata"]
    (λ f v t, if decide (f = "filesystem_id") then (λ x, mkCommon x (cb_AuthorizationMetadata t)) <$> dec_string v (cb_FilesystemID t)
              else (λ x, mkCommon (cb_FilesystemID t) x) <$> dec_authorizationMetadata v (cb_AuthorizationMetadata t)) false.
Definition zero_commonBody : commonBody := mkCommon "" (mkAM "" false).

Definition dec_pathBody : json → string → option string := decode_struct ["path"] (λ _ v t, dec_string v t) false.

Record srcDstBody := mkSrcDst { sd_Source : string; sd_Destination : string; sd_OverwriteExisting : bool }.
Definition dec_srcDstBody : json → srcDstBody → option srcDstBody :=
  decode_struct ["source"; "destination"; "overwrite_existing"]
    (λ f v t, if decide (f = "source") then (λ x, mkSrcDst x (sd_Destination t) (sd_OverwriteExisting t)) <$> dec_string v (sd_Source t)
              else if decide (f = "destination") then (λ x, mkSrcDst (sd_Source t) x (sd_OverwriteExisting t)) <$> dec_string v (sd_Destination t)
              else (λ x, mkSrcDst (sd_Source t) (sd_Destination t) x) <$> dec_bool v (sd_OverwriteExisting t)) false.

Record uploadParams := mkParams {
  up_FilesystemID : string; up_Path : string; up_DeclaredSizeBytes : Z; up_OverwriteExisting : bool;
  up_AuthorizationMetadata : authorizationMetadata }.
Definition dec_uploadParams : json → uploadParams → option uploadParams :=
  decode_struct ["filesystem_id"; "path"; "declared_size_bytes"; "overwrite_existing"; "authorization_metadata"]
    (λ f v t, let '(mkParams fs p d o am) := t in
      if decide (f = "filesystem_id") then (λ x, mkParams x p d o am) <$> dec_string v fs
      else if decide (f = "path") then (λ x, mkParams fs x d o am) <$> dec_string v p
      else if decide (f = "declared_size_bytes") then (λ x, mkParams fs p x o am) <$> dec_int64 v d
      else if decide (f = "overwrite_existing") then (λ x, mkParams fs p d x am) <$> dec_bool v o
      else (λ x, mkParams fs p d o x) <$> dec_authorizationMetadata v am) false.

Record rangeWindow := mkWindow { rw_Offset : Z; rw_Length : Z }.
Definition dec_rangeWindow : json → rangeWindow → option rangeWindow :=
  decode_struct ["offset"; "length"]
    (λ f v t, if decide (f = "offset") then (λ x, mkWindow x (rw_Length t)) <$> dec_int64 v (rw_Offset t)
              else (λ x, mkWindow (rw_Offset t) x) <$> dec_int64 v (rw_Length t)) false.

Record downloadBody := mkDownload {
  db_FilesystemID : string; db_UUID : string; db_Range : option rangeWindow; db_AuthorizationMetadata : authorizationMetadata }.
Definition dec_downloadBody : json → downloadBody → option downloadBody :=
  decode_struct ["filesystem_id"; "uuid"; "range"; "authorization_metadata"]
    (λ f v t, let '(mkDownload fs u r am) := t in
      if decide (f = "filesystem_id") then (λ x, mkDownload x u r am) <$> dec_string v fs
      else if decide (f = "uuid") then (λ x, mkDownload fs x r am) <$> dec_string v u
      else if decide (f = "range") then (λ x, mkDownload fs u x am) <$> dec_ptr (mkWindow 0 0) dec_rangeWindow v r
      else (λ x, mkDownload fs u r x) <$> dec_authorizationMetadata v am) false.

(** ** Paths and uuids (volume.go) *)
Definition maxRequestBytes : Z := Z.shiftl 1 20.

Definition clean_rel (rel : string) : string := Clean ("/" +:+ TrimPrefix rel "/").

(** The components of a clean absolute path. *)
Definition abs_comps (s : string) : fpath := clean_comps true [] (split_on slash s).

(** The scope roots are absolute, so filepath.Abs only cleans. *)
Definition resolveUnder (root rel : string) : option fpath :=
  let abs := Join [root; clean_rel rel] in
  let rootAbs := Clean root in
  let absAbs := Clean abs in
  if negb (bool_decide (absAbs = rootAbs)) && negb (HasPrefix absAbs (rootAbs +:+ "/")) then None
  else Some (abs_comps absAbs).

Definition hex_byte (z : Z) : string := String (hexdigit (z / 16)) (String (hexdigit (z mod 16)) "").
Fixpoint hex_encode (bs : list Z) : string :=
  match bs with [] => "" | b :: bs' => hex_byte b +:+ hex_encode bs' end.

Definition uuidForRelPath (fsID rel : string) : string :=
  hex_encode (take 16 (Sum256 (fsID +:+ String "000"%char (clean_rel rel)))).

(** filepath.Rel from the root of the walk. *)
Definition rel_of (p : fpath) : string := match p with [] => "." | _ => join_with slash p end.

Definition relPathForUUID (t : hostfs) (scope : Scope) (uuid : string) : option string :=
  let root := abs_comps (sc_Root scope) in
  List.find (λ rel, bool_decide (uuidForRelPath (sc_FilesystemID scope) rel = uuid))
    (map (λ p, rel_of (drop (length root) p)) (walk_files t root)).

(** [readAllLimited] and the text of a JSON body.  A multipart text begins
    with its boundary's dashes, so it is no JSON. *)
Definition readAllLimited (bs : bytes) : bytes := ztake maxRequestBytes bs.
Definition raw_body (b : request_body) : option string :=
  match b with
  | BodyJSON j => Some (string_of_bytes (readAllLimited (bytes_of_string (print_json j))))
  | BodyPipe _ _ => None
  end.

(** ** What the host and the edge supply *)

(** The texts os.FileInfo and os errors print as, the size reported for a
    directory, and the clock. *)
Class Host := {
  host_mtime : Z → hostfs → fpath → string;
  host_mode : hostfs → fpath → string;
  host_dir_size : hostfs → fpath → Z;
  host_err : errno → fpath → string;
  host_next : Z → Z }.

(** [Validate] of the Authorization header: the filesystem_id it is bound to;
    [None] is its error. *)
Class CredentialValidator := Validate : string → option string.

(** The path net/url gives a request's URL. *)
Class UrlPath := url_path : string → string.

(** StaticCredentialValidator, for credentials without surrounding space. *)
Definition StaticValidate (creds : gmap string string) (authzHeader : string) : option string :=
  if negb (HasPrefix authzHeader "Bearer ") then None
  else let cred := TrimPrefix authzHeader "Bearer " in
       if decide (cred = "") then None else creds !! cred.

(** ** Response shapes (ops.go) *)
Record wireFile := mkWireFile {
  wf_Path : string; wf_Size : Z; wf_Mtime : string; wf_Mode : string; wf_MIME : string; wf_UUID : string }.
Record wireDir := mkWireDir { wd_Path : string; wd_Mode : string; wd_Mtime : string }.

Definition omit_str (k v : string) : list (string * json) := omit (bool_decide (v = "")) k (JStr v).

Definition enc_wireFile (f : wireFile) : json :=
  JObj (omit_str "path" (wf_Path f) ++ omit (wf_Size f =? 0) "size" (JNum (wf_Size f)) ++ omit_str "mtime" (wf_Mtime f)
        ++ omit_str "mode" (wf_Mode f) ++ omit_str "mime" (wf_MIME f) ++ omit_str "uuid" (wf_UUID f)).
Definition enc_wireDir (d : wireDir) : json :=
  JObj (omit_str "path" (wd_Path d) ++ omit_str "mode" (wd_Mode d) ++ omit_str "mtime" (wd_Mtime d)).

(** The file-or-directory union of readMetadata and of a listing entry. *)
Definition enc_arm (a : wireFile + wireDir) : json :=
  match a with
  | inl f => JObj [("file", enc_wireFile f)]
  | inr d => JObj [("directory", enc_wireDir d)]
  end.

(** A nil slice marshals as null. *)
Definition enc_entries (es : list (wireFile + wireDir)) : json :=
  JObj [("entries", match es with [] => JNull | _ => JArr (map enc_arm es) end)].

(** ** The handlers *)
Section handlers.
Context {HO : Host} {CV : CredentialValidator} {UP : UrlPath}.

Definition writeMetaError (e : errno) : http_response :=
  if is_not_exist e then httpjson_Error 404 "not found"
  else if is_exist e then httpjson_Error 409 "already exists"
  else httpjson_Error 500 "operation failed".

Definition node_size (t : hostfs) (p : fpath) (n : node) : Z :=
  match n with NFile d => zlen d | NDir => host_dir_size t p end.

Definition file_arm (s : Server) (scope : Scope) (rel : string) (p : fpath) (n : node) : wireFile :=
  mkWireFile rel (node_size (sv_fs s) p n) (host_mtime (sv_now s) (sv_fs s) p) (host_mode (sv_fs s) p) ""
    (uuidForRelPath (sc_FilesystemID scope) rel).
Definition dir_arm (s : Server) (rel : string) (p : fpath) : wireDir :=
  mkWireDir rel (host_mode (sv_fs s) p) (host_mtime (sv_now s) (sv_fs s) p).

(** fileMeta: the fields of the file at [abs]. *)
Definition fileMeta (s : Server) (scope : Scope) (rel : string) (abs : fpath) : result errno wireFile :=
  match Stat (sv_fs s) abs with
  | Err e => Err e
  | Ok n => Ok (file_arm s scope rel abs n)
  end.

Definition file_response (s : Server) (scope : Scope) (rel : string) (abs : fpath) : http_response :=
  match fileMeta s scope rel abs with
  | Err e => writeMetaError e
  | Ok f => httpjson_OK (JObj [("file", enc_wireFile f)])
  end.

(** The preamble of the path ops: the path field, resolved. *)
Definition with_path (scope : Scope) (raw : string) (s : Server)
    (k : string → fpath → http_response * Server) : http_response * Server :=
  match Unmarshal dec_pathBody "" raw with
  | None => (httpjson_Error 400 "malformed body", s)
  | Some rel => match resolveUnder (sc_Root scope) rel with
                | None => (httpjson_Error 400 "path escapes scope", s)
                | Some abs => k rel abs
                end
  end.

Definition handleCreateFile (scope : Scope) (raw : string) (s : Server) : http_response * Server :=
  with_path scope raw s (λ rel abs,
    match MkdirAll (sv_fs s) (parent abs) with
    | (Some e, t) => (httpjson_Error 500 ("mkdir parent failed: " +:+ host_err e (parent abs)), set_fs s t)
    | (None, t) =>
        match OpenTrunc t abs with
        | (Some e, t') => (writeMetaError e, set_fs s t')
        | (None, t') => (file_response (set_fs s t') scope rel abs, set_fs s t')
        end
    end).

Definition handleReadFile (scope : Scope) (raw : string) (s : Server) : http_response * Server :=
  with_path scope raw s (λ rel abs, (file_response s scope rel abs, s)).

Definition handleReadMetadata (scope : Scope) (raw : string) (s : Server) : http_response * Server :=
  with_path scope raw s (λ rel abs,
    (match Stat (sv_fs s) abs with
     | Err e => writeMetaError e
     | Ok NDir => httpjson_OK (enc_arm (inr (dir_arm s rel abs)))
     | Ok n => httpjson_OK (enc_arm (inl (file_arm s scope rel abs n)))
     end, s)).

Definition list_arm (s : Server) (scope : Scope) (rel : string) (abs : fpath) (e : string * node) : wireFile + wireDir :=
  let childRel := Join [rel; e.1] in
  match e.2 with
  | NDir => inr (dir_arm s childRel (abs ++ [e.1]))
  | n => inl (file_arm s scope childRel (abs ++ [e.1]) n)
  end.

Definition handleListDirectory (scope : Scope) (raw : string) (s : Server) : http_response * Server :=
  with_path scope raw s (λ rel abs,
    (match ReadDir (sv_fs s) abs with
     | Err e => writeMetaError e
     | Ok entries => httpjson_OK (enc_entries (map (list_arm s scope rel abs) entries))
     end, s)).

(** An acknowledgement, or the error of a file-system call. *)
Definition ack (s : Server) (r : option errno * hostfs) : http_response * Server :=
  (match r.1 with Some e => writeMetaError e | None => httpjson_OK empty_struct end, set_fs s r.2).

Definition handleMakeDirectory (scope : Scope) (raw : string) (s : Server) : http_response * Server :=
  with_path scope raw s (λ _ abs, ack s (MkdirAll (sv_fs s) abs)).
Definition handleRemoveDirectory (scope : Scope) (raw : string) (s : Server) : http_response * Server :=
  with_path scope raw s (λ _ abs, ack s (RemoveAll (sv_fs s) abs)).
Definition handleRemoveFile (scope : Scope) (raw : string) (s : Server) : http_response * Server :=
  with_path scope raw s (λ _ abs, ack s (Remove (sv_fs s) abs)).

Definition resolveSrcDst (scope : Scope) (sd : srcDstBody) : result string (fpath * fpath) :=
  match resolveUnder (sc_Root scope) (sd_Source sd) with
  | None => Err "source escapes scope"
  | Some srcAbs => match resolveUnder (sc_Root scope) (sd_Destination sd) with
                   | None => Err "destination escapes scope"
                   | Some dstAbs => Ok (srcAbs, dstAbs)
                   end
  end.

Definition applySrcDstOp (op : hostfs → fpath → fpath → option errno * hostfs)
    (scope : Scope) (raw : string) (s : Server) : http_response * Server :=
  match Unmarshal dec_srcDstBody (mkSrcDst "" "" false) raw with
  | None => (httpjson_Error 400 "malformed body", s)
  | Some sd =>
      match resolveSrcDst scope sd with
      | Err msg => (httpjson_Error 400 msg, s)
      | Ok (srcAbs, dstAbs) =>
          if negb (sd_OverwriteExisting sd) && match Stat (sv_fs s) dstAbs with Ok _ => true | Err _ => false end
          then (httpjson_Error 409 "destination exists", s)
          else match MkdirAll (sv_fs s) (parent dstAbs) with
               | (Some e, t) => (httpjson_Error 500 ("mkdir parent failed: " +:+ host_err e (parent dstAbs)), set_fs s t)
               | (None, t) => ack s (op t srcAbs dstAbs)
               end
      end
  end.

(** The source is open while the destination is truncated, so what is copied
    is what the source holds after that. *)
Definition copyFileContents (t : hostfs) (srcAbs dstAbs : fpath) : option errno * hostfs :=
  match Stat t srcAbs with
  | Err e => (Some e, t)
  | Ok n =>
      match OpenTrunc t dstAbs with
      | (Some e, t') => (Some e, t')
      | (None, t') =>
          match ReadData t' srcAbs with
          | Err e => (Some e, t')
          | Ok d => (None, Write t' dstAbs d)
          end
      end
  end.

Definition handleCopyFile := applySrcDstOp copyFileContents.
Definition handleMoveFile := applySrcDstOp Rename.
Definition handleMoveDirectory := applySrcDstOp Rename.

(** ** Transfers (transfer.go) *)
Definition maxUploadBytes : Z := Z.shiftl 1 30.

(** What mime/multipart reads of a pipe: the parts in order, each with its
    data; [None] when the body ends before the closing boundary. *)
Record part := mkPart { pa_name : string; pa_filename : string; pa_data : bytes }.

Fixpoint parse_parts (writes : list pipe_write) (cur : option part) : option (list part) :=
  match writes with
  | [] => None
  | PWEnd :: _ => Some (option_list cur)
  | PWPart name filename :: ws =>
      match parse_parts ws (Some (mkPart name filename [])) with
      | Some ps => Some (option_list cur ++ ps)
      | None => None
      end
  | PWData d :: ws =>
      match cur with
      | Some p => parse_parts ws (Some (mkPart (pa_name p) (pa_filename p) (pa_data p ++ d)))
      | None => None
      end
  end.

(** r.ParseMultipartForm.  The reader stops at the closing boundary, so how
    the pipe was closed behind it makes no difference; without one the body has
    broken off and is refused. *)
Definition ParseMultipartForm (rq : http_request) : option (list part) :=
  match rq_body rq with
  | BodyPipe writes _ =>
      if decide (rq_content_type rq = "multipart/form-data") then parse_parts writes None else None
  | BodyJSON _ => None
  end.

(** r.FormValue: the first part of that name that is no file. *)
Definition FormValue (ps : list part) (name : string) : string :=
  match List.find (λ p, bool_decide (pa_name p = name) && bool_decide (pa_filename p = "")) ps with
  | Some p => string_of_bytes (pa_data p)
  | None => ""
  end.
(** r.FormFile: the first file part of that name. *)
Definition FormFile (ps : list part) (name : string) : option bytes :=
  pa_data <$> List.find (λ p, bool_decide (pa_name p = name) && negb (bool_decide (pa_filename p = ""))) ps.

Definition zero_params : uploadParams := mkParams "" "" 0 false (mkAM "" false).

(** From the authorised, resolved upload on: the part, the write and the size
    check. *)
Definition store_upload (s : Server) (scope : Scope) (params : uploadParams) (abs : fpath) (file : option bytes)
    : http_response * Server :=
  match file with
  | None => (httpjson_Error 400 "missing file part", s)
  | Some data =>
      if negb (up_OverwriteExisting params) && match Stat (sv_fs s) abs with Ok _ => true | Err _ => false end
      then (httpjson_Error 409 "destination exists", s)
      else match MkdirAll (sv_fs s) (parent abs) with
      | (Some _, t) => (httpjson_Error 500 "mkdir parent failed", set_fs s t)
      | (None, t) =>
          match OpenTrunc t abs with
          | (Some e, t') => (writeMetaError e, set_fs s t')
          | (None, t') =>
              let written := ztake maxUploadBytes data in
              let s1 := set_fs s (Write t' abs written) in
              if negb (zlen written =? up_DeclaredSizeBytes params)
              then (httpjson_Error 422 "streamed size does not match declared size",
                    set_fs s1 (Remove (sv_fs s1) abs).2)
              else (file_response s1 scope (up_Path params) abs, s1)
          end
      end
  end.

Definition handleFileUpload (rq : http_request) (s : Server) : http_response * Server :=
  match Validate (rq_authorization rq) with
  | None => (httpjson_Error 401 "missing or unknown credential", s)
  | Some subjectFSID =>
      match ParseMultipartForm rq with
      | None => (httpjson_Error 400 "malformed multipart body", s)
      | Some ps =>
          let rawParams := FormValue ps "params" in
          if decide (rawParams = "") then (httpjson_Error 400 "missing params field", s)
          else match Unmarshal dec_uploadParams zero_params rawParams with
          | None => (httpjson_Error 400 "malformed params field", s)
          | Some params =>
              match authorize s OpFileUpload subjectFSID (up_FilesystemID params) with
              | Err (status, msg) => (httpjson_Error status msg, s)
              | Ok scope =>
                  let '(admitted, s1) := chargePerOp (up_FilesystemID params) s in
                  if negb admitted then (httpjson_Error throttleRefusalStatus "per-op ceiling exceeded; back off and retry", s1)
                  else
                    let '(refused, s2) := throttled s1 in
                    if refused : bool then (json_response 429 "1" (JObj [("error", JStr "throttled; retry after backoff")]), s2)
                    else match resolveUnder (sc_Root scope) (up_Path params) with
                         | None => (httpjson_Error 400 "path escapes scope", s2)
                         | Some abs => store_upload s2 scope params abs (FormFile ps "file")
                         end
              end
          end
      end
  end.

Definition zero_download : downloadBody := mkDownload "" "" None (mkAM "" false).

(** The byte window: start and length, or the message of a refusal. *)
Definition byte_window (rng : option rangeWindow) (total : Z) : result string (Z * Z) :=
  match rng with
  | None => Ok (0, total)
  | Some r =>
      if (rw_Offset r <? 0) || (rw_Length r <? 0) then Err "negative range"
      else
        let start := if rw_Offset r >? total then total else rw_Offset r in
        let end_ := int64_wrap (start + rw_Length r) in
        if end_ <? start then Err "range overflows"
        else Ok (start, (if end_ >? total then total else end_) - start)
  end.

Definition handleFileDownload (scope : Scope) (raw : string) (s : Server) : http_response * Server :=
  match Unmarshal dec_downloadBody zero_download raw with
  | None => (httpjson_Error 400 "malformed body", s)
  | Some db =>
      if decide (db_UUID db = "") then (httpjson_Error 400 "uuid is required", s)
      else match relPathForUUID (sv_fs s) scope (db_UUID db) with
      | None => (httpjson_Error 404 "not found", s)
      | Some rel =>
          match resolveUnder (sc_Root scope) rel with
          | None => (httpjson_Error 400 "path escapes scope", s)
          | Some abs =>
              match Stat (sv_fs s) abs with
              | Err e => (writeMetaError e, s)
              | Ok n =>
                  match byte_window (db_Range db) (node_size (sv_fs s) abs n) with
                  | Err msg => (httpjson_Error 400 msg, s)
                  | Ok (start, length) =>
                      let body := match n with
                                  | NFile d => [Seg (ztake length (zdrop start d)) None]
                                  | NDir => [Seg [] (Some (errors_New "unexpected EOF"))]
                                  end in
                      (mkResp 200 "" length body, s)
                  end
              end
          end
      end
  end.

(** ** Routing (filestore.go) *)
Definition dispatch (opName : string) (scope : Scope) (raw : string) (s : Server) : http_response * Server :=
  if decide (opName = OpCreateFile) then handleCreateFile scope raw s
  else if decide (opName = OpReadFile) then handleReadFile scope raw s
  else if decide (opName = OpReadMetadata) then handleReadMetadata scope raw s
  else if decide (opName = OpListDirectory) then handleListDirectory scope raw s
  else if decide (opName = OpCopyFile) then handleCopyFile scope raw s
  else if decide (opName = OpMoveFile) then handleMoveFile scope raw s
  else if decide (opName = OpRemoveFile) then handleRemoveFile scope raw s
  else if decide (opName = OpMakeDirectory) then handleMakeDirectory scope raw s
  else if decide (opName = OpMoveDirectory) then handleMoveDirectory scope raw s
  else if decide (opName = OpRemoveDirectory) then handleRemoveDirectory scope raw s
  else if decide (opName = OpFileDownload) then handleFileDownload scope raw s
  else (httpjson_Error 404 "unimplemented operation", s).

Definition decodeCommon (rq : http_request) : option (string * commonBody) :=
  match raw_body (rq_body rq) with
  | None => None
  | Some raw => pair raw <$> Unmarshal dec_commonBody zero_commonBody raw
  end.

Definition route (rq : http_request) (s : Server) : http_response * Server :=
  if negb (bool_decide (rq_method rq = "POST")) then (httpjson_Error 405 "only POST is supported", s)
  else
    let opName := TrimPrefix (url_path (rq_url rq)) restPath in
    if decide (opName = OpFileUpload) then handleFileUpload rq s
    else match Validate (rq_authorization rq) with
    | None => (httpjson_Error 401 "missing or unknown credential", s)
    | Some subjectFSID =>
        match decodeCommon rq with
        | None => (httpjson_Error 400 "malformed request body", s)
        | Some (raw, body) =>
            match authorize s opName subjectFSID (cb_FilesystemID body) with
            | Err (status, msg) => (httpjson_Error status msg, s)
            | Ok scope =>
                let '(admitted, s1) := chargePerOp (cb_FilesystemID body) s in
                if negb admitted then (httpjson_Error throttleRefusalStatus "per-op ceiling exceeded; back off and retry", s1)
                else dispatch opName scope raw s1
            end
        end
    end.

(** ** The server at the other end of the wire *)

(** The mux hands the requests below [restPath] to [route]. *)
Definition ServeHTTP (rq : http_request) (s : Server) : http_response * Server :=
  if HasPrefix (url_path (rq_url rq)) restPath then route rq s
  else (mkResp 404 "" 19 [Seg (bytes_of_string ("404 page not found" +:+ String "010"%char "")) None], s).

Definition pipe_length (b : request_body) : nat := match b with BodyJSON _ => 0 | BodyPipe ws _ => length ws end.

(** The connection.  [nw_early]: how many writes of a body it takes before an
    answer that does not wait for the body.  For a body that breaks off, sent at
    the broker's time: [nw_arrives], how many of its writes reach the broker
    before the break, and [nw_answered], whether the broker's answer is back
    before the break ends the exchange. *)
Record Network := mkNetwork {
  nw_early : http_request → nat; nw_arrives : http_request → Z → nat; nw_answered : http_request → Z → bool }.

Definition calm : Network := mkNetwork (λ _, 0%nat) (λ _ _, 0%nat) (λ _ _, false).

(** The request as the broker gets to read it. *)
Definition arriving (net : Network) (rq : http_request) (now : Z) : http_request :=
  match rq_body rq with
  | BodyPipe ws (Some e) =>
      mkReq (rq_method rq) (rq_url rq) (rq_content_type rq) (rq_authorization rq)
        (BodyPipe (take (nw_arrives net rq now) ws) (Some e))
  | _ => rq
  end.

(** One exchange.  The sender of a body that breaks off gets its own error,
    unless the answer came first. *)
Definition exchange (net : Network) (rq : http_request) (s : Server) : do_outcome * Server :=
  let '(resp, s') := ServeHTTP (arriving net rq (sv_now s)) s in
  let s' := mkServer (sv_scopes s') (sv_throttleEvery s') (sv_writeCount s') (sv_perOpScope s') (sv_perOpBucket s')
              (sv_fs s') (host_next (sv_now s')) in
  let result := match rq_body rq with
                | BodyPipe _ (Some e) => if nw_answered net rq (sv_now s) then Ok resp else Err e
                | _ => Ok resp
                end in
  (mkDo result (match Validate (rq_authorization rq) with Some _ => pipe_length (rq_body rq) | None => nw_early net rq end), s').
End handlers.
