(* ===== verification/FilestoreSpec.v ===== *)
(** * Properties of the reference broker

    Where a request path resolves to, what every handler keeps of the host
    tree, and how far one request and a whole session can reach in it. *)
From Stdlib Require Import Ascii String.
From stdpp Require Import base list strings numbers gmap sorting.
From S2P Require Import Prelude GoErrors GoIO GoJson GoPath BrokerErrors Messages Client HostFS Filestore.
Local Open Scope Z_scope.

(** ** Where a path resolves to *)
Lemma clean_comps_app stk cs ds : clean_comps true stk (cs ++ ds) = clean_comps true (rev (clean_comps true stk cs)) ds.
Proof.
  revert stk. induction cs as [|c cs IH]; intros stk; simpl; [by rewrite rev_involutive|].
  repeat case_decide; auto. destruct stk; [auto|]. case_decide; auto.
Qed.

Lemma clean_comps_path stk cs : Forall comp_ok cs → clean_comps true stk (split_on slash (path_of cs)) = rev stk ++ cs.
Proof.
  intros Hcs. rewrite split_path_of by done. destruct cs as [|c cs].
  - simpl. by rewrite app_nil_r.
  - transitivity (clean_comps true stk (c :: cs)); [done|by apply clean_comps_id].
Qed.

Lemma abs_comps_path cs : Forall comp_ok cs → abs_comps (path_of cs) = cs.
Proof. intros. unfold abs_comps. by rewrite clean_comps_path. Qed.

Lemma abs_comps_ok s : Forall comp_ok (abs_comps s).
Proof. unfold abs_comps. apply clean_comps_ok; [done|]. apply split_on_nochar. Qed.

Lemma Clean_abs s : Clean (String slash s) = path_of (abs_comps (String slash s)).
Proof. apply Clean_rooted. Qed.

Definition rel_comps (rel : string) : fpath := abs_comps (clean_rel rel).

Lemma clean_rel_path rel : clean_rel rel = path_of (rel_comps rel).
Proof.
  unfold rel_comps, clean_rel. change ("/" +:+ TrimPrefix rel "/") with (String slash (TrimPrefix rel "/")).
  rewrite Clean_abs. by rewrite abs_comps_path by apply abs_comps_ok.
Qed.

Lemma rel_comps_ok rel : Forall comp_ok (rel_comps rel).
Proof. apply abs_comps_ok. Qed.

Lemma rel_comps_path cs : Forall comp_ok cs → rel_comps (path_of cs) = cs.
Proof.
  intros Hcs. unfold rel_comps, clean_rel. unfold path_of at 1.
  change (String slash (join_with slash cs)) with ("/" +:+ join_with slash cs). rewrite TrimPrefix_app.
  change ("/" +:+ join_with slash cs) with (path_of cs). rewrite Clean_path_of by done. by apply abs_comps_path.
Qed.

Lemma join_abs r cs : Forall comp_ok cs →
  Join [String slash r; path_of cs] = path_of (abs_comps (String slash r) ++ cs).
Proof.
  intros Hcs. unfold Join. rewrite !filter_cons_True by done. rewrite filter_nil.
  cbn [join_with]. change (String slash r +:+ String slash (path_of cs)) with (String slash (r +:+ String slash (path_of cs))).
  rewrite Clean_rooted. f_equal.
  change (split_on slash (String slash (r +:+ String slash (path_of cs)))) with (split_on slash (String slash r +:+ String slash (path_of cs))).
  rewrite split_on_app, clean_comps_app, clean_comps_path, rev_involutive by done.
  unfold abs_comps. done.
Qed.

(** Resolving under an absolute root other than the root directory never
    fails and appends the cleaned components. *)
Lemma resolveUnder_eq r rel : abs_comps (String slash r) ≠ [] →
  resolveUnder (String slash r) rel = Some (abs_comps (String slash r) ++ rel_comps rel).
Proof.
  intros Hne. unfold resolveUnder. rewrite clean_rel_path, join_abs by apply rel_comps_ok.
  set (R := abs_comps (String slash r)) in *.
  assert (Forall comp_ok R) as HR by apply abs_comps_ok.
  assert (Forall comp_ok (R ++ rel_comps rel)) as HC by (apply Forall_app; split; [done|apply rel_comps_ok]).
  rewrite Clean_path_of by done. rewrite Clean_abs. fold R. rewrite abs_comps_path by done.
  destruct (rel_comps rel) as [|c cs] eqn:E.
  - rewrite app_nil_r. by rewrite bool_decide_eq_true_2.
  - rewrite (proj2 (path_of_below R (R ++ c :: cs) Hne HR HC)) by (by exists (c :: cs)). by rewrite andb_false_r.
Qed.

Lemma resolveUnder_below root rel abs : HasPrefix root "/" = true → resolveUnder root rel = Some abs → abs_comps root `prefix_of` abs.
Proof.
  intros (r & ->)%HasPrefix_spec. change ("/" +:+ r) with (String slash r).
  destruct (decide (abs_comps (String slash r) = [])) as [->|Hne]; [intros; apply prefix_nil|].
  rewrite resolveUnder_eq by done. intros [= <-]. by eexists.
Qed.

(** Under the root directory itself every sub-path is refused: the prefix
    tested is then two slashes. *)
Example resolveUnder_root_refuses : resolveUnder "/" "a" = None ∧ resolveUnder "/" "/" = Some [].
Proof. done. Qed.

(** A copy onto itself truncates the file before it is read: nothing is left
    of it, and success is reported. *)
Lemma copy_onto_itself_empties t p d : wf_tree t → t !! p = Some (NFile d) →
  copyFileContents t p p = (None, <[p := NFile []]> t).
Proof.
  intros Hwf Hp. pose proof (OpenTrunc_wf t p Hwf) as Hwf'. unfold copyFileContents.
  rewrite (proj2 (Stat_Ok t p (NFile d) Hwf) Hp).
  assert (parent_err t p = None) as He.
  { destruct p as [|c p _] using rev_ind; [done|]. apply parent_err_dir; [done|]. by eapply Hwf. }
  assert (OpenTrunc t p = (None, <[p := NFile []]> t)) as E by by unfold OpenTrunc; rewrite He, Hp.
  rewrite E in *.
  simpl in Hwf'. unfold ReadData. rewrite (proj2 (Stat_Ok _ p (NFile []) Hwf')) by apply lookup_insert_eq.
  unfold Write. by rewrite insert_insert_eq.
Qed.

(** ** What a request can do to the server *)

(** The configuration stays and the tree changes within [R]. *)
Definition serves_within (R : fpath) (s s' : Server) : Prop :=
  sv_scopes s' = sv_scopes s ∧ within R (sv_fs s) (sv_fs s').

Definition is_write (opName : string) : bool := bool_decide (opName ∈ writeIntentOps).

Section handlers.
Context {HO : Host} {CV : CredentialValidator} {UP : UrlPath}.

Lemma set_fs_within R s t : within R (sv_fs s) t → serves_within R s (set_fs s t).
Proof. done. Qed.

Lemma serves_within_refl R s : serves_within R s s.
Proof. by split. Qed.

Section scope.
Variables (scope : Scope).
Hypothesis Hroot : HasPrefix (sc_Root scope) "/" = true.
Notation R := (abs_comps (sc_Root scope)).

Lemma with_path_within raw s k :
  (∀ rel abs, R `prefix_of` abs → serves_within R s (k rel abs).2) → serves_within R s (with_path scope raw s k).2.
Proof using Hroot.
  intros Hk. unfold with_path. destruct (Unmarshal _ _ _) as [rel|]; [|apply serves_within_refl].
  destruct (resolveUnder (sc_Root scope) rel) as [abs|] eqn:E; [|apply serves_within_refl].
  apply Hk. by eapply resolveUnder_below.
Qed.

Lemma mkdir_parent_within abs t : R `prefix_of` abs → within R t (MkdirAll t (parent abs)).2.
Proof. intros Hp. apply MkdirAll_within. by apply parent_below. Qed.

Lemma createFile_within raw s : serves_within R s (handleCreateFile scope raw s).2.
Proof using Hroot.
  apply with_path_within. intros rel abs Hp. pose proof (mkdir_parent_within abs (sv_fs s) Hp) as Hm.
  destruct (MkdirAll _ _) as [[e|] t]; [by apply set_fs_within|].
  pose proof (OpenTrunc_within R abs t Hp) as Ho.
  destruct (OpenTrunc t abs) as [[e|] t']; apply set_fs_within; by transitivity t.
Qed.

Lemma ack_within s t r : within R (sv_fs s) t → within R t r.2 → serves_within R s (ack s r).2.
Proof. intros. apply set_fs_within. by transitivity t. Qed.

Lemma copyFileContents_within t p q : R `prefix_of` p → R `prefix_of` q → within R t (copyFileContents t p q).2.
Proof.
  intros Hp Hq. unfold copyFileContents. destruct (Stat t p); [|done].
  pose proof (OpenTrunc_within R q t Hq) as Ho.
  destruct (OpenTrunc t q) as [[e|] t'] eqn:E; [done|].
  destruct (ReadData t' p); [|done]. by apply OpenTrunc_Write_within.
Qed.

Lemma applySrcDstOp_within op raw s :
  (∀ t p q, R `prefix_of` p → R `prefix_of` q → within R t (op t p q).2) → serves_within R s (applySrcDstOp op scope raw s).2.
Proof using Hroot.
  intros Hop. unfold applySrcDstOp. destruct (Unmarshal _ _ _) as [sd|]; [|apply serves_within_refl].
  unfold resolveSrcDst. destruct (resolveUnder _ (sd_Source sd)) as [p|] eqn:Ep; [|apply serves_within_refl].
  destruct (resolveUnder _ (sd_Destination sd)) as [q|] eqn:Eq; [|apply serves_within_refl].
  apply resolveUnder_below in Ep, Eq; [|done..].
  destruct (_ && _); [apply serves_within_refl|].
  pose proof (mkdir_parent_within q (sv_fs s) Eq) as Hm.
  destruct (MkdirAll _ _) as [[e|] t]; [by apply set_fs_within|]. apply (ack_within s t); [done|]. by apply Hop.
Qed.

Lemma store_upload_within s params abs file : R `prefix_of` abs → serves_within R s (store_upload s scope params abs file).2.
Proof.
  intros Hp. unfold store_upload. destruct file as [data|]; [|apply serves_within_refl].
  destruct (_ && _); [apply serves_within_refl|].
  pose proof (mkdir_parent_within abs (sv_fs s) Hp) as Hm.
  destruct (MkdirAll _ _) as [[e|] t]; [by apply set_fs_within|].
  pose proof (OpenTrunc_within R abs t Hp) as Ho.
  destruct (OpenTrunc t abs) as [[e|] t'] eqn:E; [apply set_fs_within; by transitivity t|].
  assert (within R (sv_fs s) (Write t' abs (ztake maxUploadBytes data))) as Hw
    by (transitivity t; [done|by apply OpenTrunc_Write_within]).
  destruct (negb _); [|done]. split; [done|].
  transitivity (Write t' abs (ztake maxUploadBytes data)); [done|]. by apply Remove_within.
Qed.

Lemma download_same raw s : (handleFileDownload scope raw s).2 = s.
Proof.
  unfold handleFileDownload. destruct (Unmarshal _ _ _); [|done]. case_decide; [done|].
  destruct (relPathForUUID _ _ _); [|done]. destruct (resolveUnder _ _) as [abs|]; [|done].
  destruct (Stat _ abs); [|done]. by destruct (byte_window _ _) as [[]|].
Qed.

Lemma with_path_same raw s (k : string → fpath → http_response) : (with_path scope raw s (λ rel abs, (k rel abs, s))).2 = s.
Proof. unfold with_path. destruct (Unmarshal _ _ _); [|done]. by destruct (resolveUnder _ _). Qed.

(** An authorised JSON op changes the tree within its scope, and not at all
    when its name is not one of the writing ops. *)
Lemma dispatch_within opName raw s :
  serves_within R s (dispatch opName scope raw s).2 ∧ (is_write opName = false → (dispatch opName scope raw s).2 = s).
Proof using Hroot.
  unfold dispatch. repeat case_decide; subst; (split; [|try (intros Hw; vm_compute in Hw; discriminate Hw)]); try apply serves_within_refl; try done.
  - apply createFile_within.
  - unfold handleReadFile. rewrite with_path_same. apply serves_within_refl.
  - intros _. apply with_path_same.
  - unfold handleReadMetadata. rewrite with_path_same. apply serves_within_refl.
  - intros _. apply with_path_same.
  - unfold handleListDirectory. rewrite with_path_same. apply serves_within_refl.
  - intros _. apply with_path_same.
  - apply applySrcDstOp_within, copyFileContents_within.
  - apply applySrcDstOp_within. intros. by apply Rename_within.
  - apply with_path_within. intros. apply (ack_within s (sv_fs s)); [done|]. by apply Remove_within.
  - apply with_path_within. intros. apply (ack_within s (sv_fs s)); [done|]. apply MkdirAll_within. by left.
  - apply applySrcDstOp_within. intros. by apply Rename_within.
  - apply with_path_within. intros. apply (ack_within s (sv_fs s)); [done|]. by apply RemoveAll_within.
  - rewrite download_same. apply serves_within_refl.
  - intros _. apply download_same.
Qed.
End scope.

(** ** Authorisation *)
Lemma chargePerOp_keeps fsID s : sv_scopes (chargePerOp fsID s).2 = sv_scopes s ∧ sv_fs (chargePerOp fsID s).2 = sv_fs s.
Proof. unfold chargePerOp. destruct (sv_perOpBucket s); [|done]. destruct (negb _); [done|]. by destruct (allow _ _). Qed.

Lemma throttled_keeps s : sv_scopes (throttled s).2 = sv_scopes s ∧ sv_fs (throttled s).2 = sv_fs s.
Proof. unfold throttled. by destruct (_ <=? _). Qed.

Lemma authorize_Ok s opName subject fsID scope : authorize s opName subject fsID = Ok scope →
  subject = fsID ∧ sv_scopes s !! fsID = Some scope ∧ (is_write opName = true → sc_ReadOnly scope = false).
Proof.
  unfold authorize, is_write. case_decide; [done|]. case_bool_decide; simpl; [|done].
  destruct (sv_scopes s !! fsID) as [sc|]; [|done]. destruct (sc_ReadOnly sc) eqn:E; simpl.
  - case_bool_decide; [done|]. by intros [= <-].
  - by intros [= <-].
Qed.

(** The scope roots are absolute paths. *)
Definition rooted (s : Server) : Prop := ∀ fsID scope, sv_scopes s !! fsID = Some scope → HasPrefix (sc_Root scope) "/" = true.

(** The scope a request's credential is bound to, when it may be written. *)
Definition writable_scope (s : Server) (rq : http_request) (scope : Scope) : Prop :=
  ∃ fsID, Validate (rq_authorization rq) = Some fsID ∧ sv_scopes s !! fsID = Some scope ∧ sc_ReadOnly scope = false.

Definition request_effect (s : Server) (rq : http_request) (s' : Server) : Prop :=
  sv_scopes s' = sv_scopes s ∧
  (sv_fs s' = sv_fs s ∨ ∃ scope, writable_scope s rq scope ∧ within (abs_comps (sc_Root scope)) (sv_fs s) (sv_fs s')).

Lemma request_effect_same s rq s' : sv_scopes s' = sv_scopes s → sv_fs s' = sv_fs s → request_effect s rq s'.
Proof. split; [done|by left]. Qed.

Lemma upload_effect rq s : rooted s → request_effect s rq (handleFileUpload rq s).2.
Proof.
  intros Hr. unfold handleFileUpload. destruct (Validate _) as [subject|] eqn:Ev; [|by apply request_effect_same].
  destruct (ParseMultipartForm rq) as [ps|]; [|by apply request_effect_same].
  case_decide; [by apply request_effect_same|]. destruct (Unmarshal _ _ _) as [params|]; [|by apply request_effect_same].
  destruct (authorize _ _ _ _) as [scope|[]] eqn:Ea; [|by apply request_effect_same].
  apply authorize_Ok in Ea as (<- & Hs & Hw).
  pose proof (chargePerOp_keeps subject s) as [H1 H2]. destruct (chargePerOp subject s) as [[] s1]; simpl in *;
    [|by apply request_effect_same].
  pose proof (throttled_keeps s1) as [H3 H4]. destruct (throttled s1) as [[] s2]; simpl in *;
    [apply request_effect_same; congruence|].
  destruct (resolveUnder _ _) as [abs|] eqn:Er; [|apply request_effect_same; simpl; congruence].
  apply resolveUnder_below in Er; [|by eapply Hr].
  destruct (store_upload_within scope s2 params abs (FormFile ps "file") Er) as [Hsc Hin]. split; [congruence|].
  right. exists scope. rewrite H4, H2 in Hin. split; [|done]. exists subject. auto.
Qed.

Lemma serve_effect rq s : rooted s → request_effect s rq (ServeHTTP rq s).2.
Proof.
  intros Hr. unfold ServeHTTP, route. destruct (HasPrefix _ _); [|by apply request_effect_same].
  destruct (negb _); [by apply request_effect_same|]. case_decide as Hop; [by apply upload_effect|].
  set (opName := TrimPrefix _ _). destruct (Validate _) as [subject|] eqn:Ev; [|by apply request_effect_same].
  destruct (decodeCommon rq) as [[raw body]|]; [|by apply request_effect_same].
  destruct (authorize _ _ _ _) as [scope|[]] eqn:Ea; [|by apply request_effect_same].
  apply authorize_Ok in Ea as (-> & Hs & Hw).
  pose proof (chargePerOp_keeps (cb_FilesystemID body) s) as [H1 H2].
  destruct (chargePerOp _ s) as [[] s1]; simpl in *; [|by apply request_effect_same].
  destruct (dispatch_within scope (Hr _ _ Hs) opName raw s1) as [[Hsc Hin] Hro].
  split; [congruence|]. destruct (is_write opName) eqn:Ew; [|left; by rewrite Hro].
  right. exists scope. rewrite H2 in Hin. split; [|done]. eexists. eauto.
Qed.

(** However much of a body arrives, the credential does. *)
Lemma arriving_credential net rq now : rq_authorization (arriving net rq now) = rq_authorization rq.
Proof. unfold arriving. by destruct (rq_body rq) as [j|ws [e|]]. Qed.

Lemma exchange_effect net rq s : rooted s → request_effect s rq (exchange net rq s).2.
Proof.
  intros Hr. pose proof (serve_effect (arriving net rq (sv_now s)) s Hr) as H. unfold exchange.
  destruct (ServeHTTP _ s) as [resp s']. unfold request_effect, writable_scope in *. by rewrite arriving_credential in H.
Qed.

(** ** Sessions *)
Definition serve_all (net : Network) (rqs : list http_request) (s : Server) : Server :=
  foldl (λ s rq, (exchange net rq s).2) s rqs.

(** A server whose tree is well formed and whose scopes lie in existing
    directories, none inside another. *)
Record deployed (s : Server) : Prop := {
  dep_wf : wf_tree (sv_fs s);
  dep_rooted : rooted s;
  dep_anchored : ∀ fsID scope, sv_scopes s !! fsID = Some scope → anchored (abs_comps (sc_Root scope)) (sv_fs s);
  dep_disjoint : ∀ a b sa sb, sv_scopes s !! a = Some sa → sv_scopes s !! b = Some sb → a ≠ b →
                   ¬ abs_comps (sc_Root sa) `prefix_of` abs_comps (sc_Root sb) }.

Lemma parent_prefix (R : fpath) : parent R `prefix_of` R.
Proof. destruct R as [|c R _] using rev_ind; [done|]. unfold parent. rewrite removelast_last. by eexists. Qed.

Lemma effect_deployed s rq s' : deployed s → request_effect s rq s' →
  deployed s' ∧ ∀ p, sv_fs s' !! p ≠ sv_fs s !! p → ∃ scope, writable_scope s rq scope ∧ abs_comps (sc_Root scope) `prefix_of` p.
Proof.
  intros [Hwf Hr Ha Hd] [Hsc [Heq|(scope & (fsID & Hv & Hs & Hro) & Hin)]].
  - split; [|by rewrite Heq]. unfold rooted in *. split; unfold rooted; rewrite ?Heq, ?Hsc; done.
  - destruct (Hin Hwf (Ha _ _ Hs)) as [Hwf' Hc]. split.
    + split; unfold rooted; rewrite ?Hsc; try done. intros b sb Hb.
      destruct (decide (b = fsID)) as [->|Hne].
      * simplify_eq. by eapply confined_anchored; [|apply (Ha fsID)].
      * intros HR. rewrite Hc; [by apply (Ha b)|]. intros Hp. eapply (Hd fsID b); [done..|].
        etrans; [exact Hp|apply parent_prefix].
    + intros p Hp. exists scope. split; [by exists fsID|].
      destruct (decide (abs_comps (sc_Root scope) `prefix_of` p)); [done|]. exfalso. by apply Hp, Hc.
Qed.

Lemma serve_all_keeps net rqs s : deployed s →
  deployed (serve_all net rqs s) ∧ sv_scopes (serve_all net rqs s) = sv_scopes s ∧
  ∀ p, sv_fs (serve_all net rqs s) !! p ≠ sv_fs s !! p →
    ∃ rq scope, rq ∈ rqs ∧ writable_scope s rq scope ∧ abs_comps (sc_Root scope) `prefix_of` p.
Proof.
  revert s. induction rqs as [|rq rqs IH]; intros s Hd; simpl; [done|].
  pose proof (exchange_effect net rq s (dep_rooted s Hd)) as He. set (s1 := (exchange net rq s).2) in *.
  destruct (effect_deployed s rq s1 Hd He) as [Hd1 Hp1]. destruct He as [Hsc _].
  destruct (IH s1 Hd1) as (Hd2 & Hs2 & Hp2). split; [done|]. split; [congruence|]. intros p Hp.
  destruct (decide (sv_fs (serve_all net rqs s1) !! p = sv_fs s1 !! p)) as [Heq|Hne].
  - destruct (Hp1 p) as (scope & ? & ?); [unfold serve_all in *; congruence|]. exists rq, scope. split; [by left|done].
  - destruct (Hp2 p Hne) as (rq' & scope & ? & (fsID & ? & Hs & ?) & ?). exists rq', scope.
    split; [by right|]. split; [|done]. exists fsID. rewrite Hsc in Hs. auto.
Qed.

(** C29: the host tree stays well formed.  Whatever requests the broker is
    sent, with any bodies, credentials and interleaving of scopes, it keeps a
    tree in which everything that exists lies in a directory, and keeps its
    scopes where they were, each in an existing directory and none inside
    another. *)
Theorem requests_keep_tree (net : Network) (rqs : list http_request) (s : Server) (Hs : deployed s) :
  deployed (serve_all net rqs s) ∧ sv_scopes (serve_all net rqs s) = sv_scopes s.
Proof. destruct (serve_all_keeps net rqs s Hs) as (? & ? & _). done. Qed.

(** C6: confinement.  If any path of the host differs after any requests, it
    lies in a scope that is not read-only and that one of the requests carried
    a credential for; nothing else on the host can change. *)
Theorem requests_confined (net : Network) (rqs : list http_request) (s : Server) (p : fpath)
    (Hs : deployed s) (Hp : sv_fs (serve_all net rqs s) !! p ≠ sv_fs s !! p) :
  ∃ rq fsID scope, rq ∈ rqs ∧ Validate (rq_authorization rq) = Some fsID ∧ sv_scopes s !! fsID = Some scope ∧
    sc_ReadOnly scope = false ∧ abs_comps (sc_Root scope) `prefix_of` p.
Proof.
  destruct (serve_all_keeps net rqs s Hs) as (_ & _ & H).
  destruct (H p Hp) as (rq & scope & ? & (fsID & ? & ? & ?) & ?). exists rq, fsID, scope. auto.
Qed.
End handlers.

(** ** A deployment with a read-only and a writable scope *)
Definition demo_host : Host := {|
  host_mtime _ _ _ := "2025-01-02T03:04:05Z"; host_mode _ _ := "-rw-------"; host_dir_size _ _ := 4096;
  host_err _ _ := "failed"; host_next now := now + 1 |}.
Definition demo_credentials : CredentialValidator := StaticValidate {["tok" := "fs1"]}.
Definition demo_urls : UrlPath := λ url, TrimPrefix url "https://edge".

Definition demo_scope : Scope := mkScope "fs1" "/srv/out" false.
Definition demo_uploads : Scope := mkScope "up" "/srv/in" true.
Definition demo_tree : hostfs :=
  <[["srv"; "out"; "old"; "f"] := NFile ["x"; "y"]%char]> (<[["srv"; "out"; "old"] := NDir]>
    (<[["srv"; "out"] := NDir]> (<[["srv"] := NDir]> {[[] := NDir]}))).
Definition demo_pair : Server := NewServer [demo_scope; demo_uploads] 0 None demo_tree 0.

Lemma demo_deployed : deployed demo_pair.
Proof.
  assert (∀ fsID sc, sv_scopes demo_pair !! fsID = Some sc → (fsID = "fs1" ∧ sc = demo_scope) ∨ (fsID = "up" ∧ sc = demo_uploads)) as Hsc.
  { intros fsID sc. change (sv_scopes demo_pair) with (<["up" := demo_uploads]> (<["fs1" := demo_scope]> (∅ : gmap string Scope))).
    rewrite !lookup_insert_Some, lookup_empty. naive_solver. }
  split.
  - apply wf_tree_check. apply (bool_decide_unpack _). vm_compute. exact I.
  - by intros fsID sc [[-> ->]|[-> ->]]%Hsc.
  - by intros fsID sc [[-> ->]|[-> ->]]%Hsc.
  - intros a b sa sb [[-> ->]|[-> ->]]%Hsc [[-> ->]|[-> ->]]%Hsc Hne; try done; apply (bool_decide_unpack _); vm_compute; exact I.
Qed.

Definition demo_request : http_request :=
  mkReq "POST" "https://edge/v1/filestore/fs/makeDirectory" "application/json" "Bearer tok"
    (BodyJSON (enc_path_request "fs1" "/d" {| am_Intent := "write"; am_Downloadable := false |})).

Lemma requests_keep_tree_witness :
  deployed (serve_all (HO := demo_host) (CV := demo_credentials) (UP := demo_urls) calm [demo_request] demo_pair) ∧
  sv_scopes (serve_all (HO := demo_host) (CV := demo_credentials) (UP := demo_urls) calm [demo_request] demo_pair) = sv_scopes demo_pair.
Proof. exact (requests_keep_tree (HO := demo_host) (CV := demo_credentials) (UP := demo_urls) calm [demo_request] demo_pair demo_deployed). Defined.

Lemma requests_confined_witness :
  ∃ rq fsID scope, rq ∈ [demo_request] ∧ Validate (CredentialValidator := demo_credentials) (rq_authorization rq) = Some fsID ∧
    sv_scopes demo_pair !! fsID = Some scope ∧ sc_ReadOnly scope = false ∧ abs_comps (sc_Root scope) `prefix_of` ["srv"; "out"; "d"].
Proof.
  exact (requests_confined (HO := demo_host) (CV := demo_credentials) (UP := demo_urls) calm [demo_request] demo_pair
    ["srv"; "out"; "d"] demo_deployed ltac:(vm_compute; discriminate)).
Defined.
