(* ===== verification/WireCodec.v ===== *)
(** * What the client writes, the broker reads, and back

    The request structs of the client against the request decoders of the
    reference broker, and the broker's responses against the client's response
    decoders: each is read back field by field. *)
From Stdlib Require Import Ascii String.
From stdpp Require Import base list strings numbers gmap sorting.
From S2P Require Import Prelude GoErrors GoIO GoJson GoPath JsonText Sha256 BrokerErrors Messages Client Cursor HostFS Filestore.
Local Open Scope Z_scope.

(** ** Text *)
Lemma string_bytes s : string_of_bytes (bytes_of_string s) = s.
Proof. apply String.string_of_list_ascii_of_string. Qed.

(** Coercion keeps a sequence at the head or replaces its first byte. *)
Lemma coerce_cases a s :
  (∃ p r, String a s = p +:+ r ∧ (String.length r <= String.length s)%nat ∧
     ∀ t, coerce_utf8 (String a s +:+ t) = p +:+ coerce_utf8 (r +:+ t)) ∨
  coerce_utf8 (String a s) = replacement +:+ coerce_utf8 s.
Proof.
  destruct (byte_of a <? 0x80) eqn:Ha.
  { left. exists (String a ""), s. split; [done|]. split; [done|]. intros t. simpl. by rewrite Ha. }
  destruct s as [|b s]; [right; simpl; by rewrite Ha|].
  destruct (utf8_two (byte_of a) (byte_of b)) eqn:H2.
  { left. exists (String a (String b "")), s. split; [done|]. split; [simpl; lia|]. intros t. simpl. by rewrite Ha, H2. }
  destruct s as [|x s]; [right; simpl; by rewrite Ha, H2|].
  destruct (utf8_three (byte_of a) (byte_of b) (byte_of x)) eqn:H3.
  { left. exists (String a (String b (String x ""))), s. split; [done|]. split; [simpl; lia|]. intros t. simpl. by rewrite Ha, H2, H3. }
  destruct s as [|d s]; [right; simpl; by rewrite Ha, H2, H3|].
  destruct (utf8_four (byte_of a) (byte_of b) (byte_of x) (byte_of d)) eqn:H4.
  { left. exists (String a (String b (String x (String d "")))), s. split; [done|]. split; [simpl; lia|]. intros t. simpl. by rewrite Ha, H2, H3, H4. }
  right. cbn [coerce_utf8]. by rewrite Ha, H2, H3, H4.
Qed.

Lemma string_ind_len (P : string → Prop) :
  (∀ s, (∀ r, (String.length r < String.length s)%nat → P r) → P s) → ∀ s, P s.
Proof.
  intros H s. remember (String.length s) as n eqn:Hn. revert s Hn.
  induction (lt_wf n) as [n _ IH]. intros s ->. apply H. intros r Hr. by eapply IH.
Qed.

Lemma coerce_length s : (String.length s <= String.length (coerce_utf8 s))%nat.
Proof.
  induction s as [[|a s] IH] using string_ind_len; [done|].
  destruct (coerce_cases a s) as [(p & r & Hs & Hr & H)|H].
  - specialize (H ""). rewrite !string_app_nil_r in H. rewrite H, Hs, !string_length_app.
    specialize (IH r ltac:(simpl; lia)). lia.
  - rewrite H, string_length_app. specialize (IH s ltac:(simpl; lia)). simpl in *. lia.
Qed.

Lemma coerce_app s t : valid_utf8 s → coerce_utf8 (s +:+ t) = s +:+ coerce_utf8 t.
Proof.
  unfold valid_utf8. induction s as [[|a s] IH] using string_ind_len; [done|]. intros Hv.
  destruct (coerce_cases a s) as [(p & r & Hs & Hr & H)|H].
  - rewrite H. pose proof (H "") as H0. rewrite !string_app_nil_r, Hv, Hs in H0. apply string_app_inj_r in H0.
    rewrite IH by (done || (simpl; lia)). by rewrite Hs, string_app_assoc.
  - exfalso. rewrite H in Hv. pose proof (coerce_length s) as Hl. apply (f_equal String.length) in Hv.
    rewrite string_length_app in Hv. simpl in Hv. lia.
Qed.

Lemma valid_utf8_app s t : valid_utf8 s → valid_utf8 t → valid_utf8 (s +:+ t).
Proof. unfold valid_utf8 at 2 3. intros Hs Ht. by rewrite coerce_app, Ht. Qed.

Lemma valid_utf8_ascii_cons a s : byte_of a < 128 → valid_utf8 s → valid_utf8 (String a s).
Proof. unfold valid_utf8. intros Ha Hs. simpl. rewrite (proj2 (Z.ltb_lt _ _)) by done. by rewrite Hs. Qed.

(** A mount path the wire can carry: clean components of valid text. *)
Definition sendable (cs : list string) : Prop := Forall (λ c, comp_ok c ∧ valid_utf8 c) cs.

#[export] Instance comp_ok_dec x : Decision (comp_ok x).
Proof. unfold comp_ok. apply _. Defined.
#[export] Instance valid_utf8_dec s : Decision (valid_utf8 s).
Proof. unfold valid_utf8. apply _. Defined.
#[export] Instance sendable_dec cs : Decision (sendable cs).
Proof. unfold sendable. apply _. Defined.

Lemma sendable_ok cs : sendable cs → Forall comp_ok cs.
Proof. intros H. eapply Forall_impl; [exact H|]. by intros c []. Qed.

Lemma sendable_path cs : sendable cs → valid_utf8 (path_of cs).
Proof.
  intros H. apply valid_utf8_ascii_cons; [done|].
  induction H as [|c cs [_ Hc] _ IH]; [done|]. destruct cs as [|d cs]; [done|].
  change (join_with slash (c :: d :: cs)) with (c +:+ String slash (join_with slash (d :: cs))).
  apply valid_utf8_app; [done|]. by apply valid_utf8_ascii_cons.
Qed.

Lemma sendable_app cs ds : sendable (cs ++ ds) ↔ sendable cs ∧ sendable ds.
Proof. apply Forall_app. Qed.

Lemma sendable_prefix cs ds : cs `prefix_of` ds → sendable ds → sendable cs.
Proof. intros [l ->] [? _]%sendable_app. done. Qed.

#[export] Hint Resolve sendable_ok sendable_path : go.

Lemma hexdigit_ascii z : 0 <= z < 16 → byte_of (hexdigit z) < 128.
Proof.
  intros Hz. assert (Forall (λ z, byte_of (hexdigit z) < 128) (seqZ 0 16)) as H by (vm_compute; repeat constructor).
  rewrite Forall_forall in H. apply H, elem_of_seqZ. lia.
Qed.

Lemma hex_encode_valid bs : Forall (λ b, 0 <= b < 256) bs → valid_utf8 (hex_encode bs).
Proof.
  induction 1 as [|b bs Hb _ IH]; [done|]. cbn [hex_encode]. unfold hex_byte. rewrite !string_app_cons.
  apply valid_utf8_ascii_cons; [apply hexdigit_ascii; split; [apply Z.div_pos; lia|apply Z.div_lt_upper_bound; lia]|].
  apply valid_utf8_ascii_cons; [apply hexdigit_ascii, Z.mod_pos_bound; lia|]. done.
Qed.

Lemma uuid_valid fsID rel : valid_utf8 (uuidForRelPath fsID rel).
Proof. apply hex_encode_valid. apply Forall_take, Sum256_range. Qed.

Lemma uuid_nonempty fsID rel : uuidForRelPath fsID rel ≠ "".
Proof.
  unfold uuidForRelPath. pose proof (Sum256_length (fsID +:+ String "000"%char (clean_rel rel))) as H.
  by destruct (Sum256 _).
Qed.

(** ** Reading a whole text *)
Lemma Unmarshal_print {T} (dec : json → T → option T) zero j : clean_json j → Unmarshal dec zero (print_json j) = dec j zero.
Proof.
  intros Hj. unfold Unmarshal. rewrite <- (string_app_nil_r (print_json j)), parse_print by (done || by apply num_end_ends).
  by rewrite decide_True.
Qed.

(** A request text within the broker's body limit. *)
Definition fits_request (j : json) : Prop := zlen (bytes_of_string (print_json j)) <= maxRequestBytes.

Lemma raw_body_json j : fits_request j → raw_body (BodyJSON j) = Some (print_json j).
Proof. intros H. simpl. unfold readAllLimited. by rewrite ztake_all, string_bytes. Qed.

(** A response text within the client's body limit. *)
Definition response_text (v : json) : string := print_json v +:+ String "010"%char "".
Definition fits_response (v : json) : Prop := zlen (bytes_of_string (response_text v)) <= maxJSONResponseBytes.

Lemma decode_response {T} (dec : json → T → option T) zero v : clean_json v → fits_response v →
  decode_body dec zero [Seg (bytes_of_string (response_text v)) None] =
    match dec v zero with Some t => Ok t | None => Err (errors_New "json: cannot unmarshal value into Go struct field") end.
Proof.
  intros Hv Hf. unfold decode_body. cbn [content]. rewrite app_nil_r, ztake_all, string_bytes by done.
  unfold response_text. rewrite parse_print; [done|done|]. apply num_end_ends. split; [done|]. vm_compute. set_solver.
Qed.

(** ** Requests *)
Section requests.
Variables (fsID : string) (am : AuthorizationMetadata).
Hypothesis Hfs : valid_utf8 fsID.
Hypothesis Ham : valid_utf8 (am_Intent am).

Definition wire_am : authorizationMetadata := mkAM (am_Intent am) (am_Downloadable am).

Lemma enc_am_clean : clean_json (enc_am am).
Proof using Ham. done. Qed.

Lemma path_request_clean path : valid_utf8 path → clean_json (enc_path_request fsID path am).
Proof using Hfs Ham. done. Qed.

Lemma read_path_common path : dec_commonBody (enc_path_request fsID path am) zero_commonBody = Some (mkCommon fsID wire_am).
Proof. reflexivity. Qed.

Lemma read_path path : dec_pathBody (enc_path_request fsID path am) "" = Some path.
Proof. reflexivity. Qed.

Lemma list_request path :
  enc_ListDirectoryRequest {| ld_FilesystemID := fsID; ld_Path := path; ld_AuthorizationMetadata := am; ld_Cursor := "" |}
  = enc_path_request fsID path am.
Proof. reflexivity. Qed.

(** copyFile and moveFile share their shape; moveDirectory has no overwrite
    field. *)
Definition enc_move (src dst : string) : json :=
  enc_MoveFileRequest {| mf_FilesystemID := fsID; mf_Source := src; mf_Destination := dst; mf_OverwriteExisting := true;
                         mf_AuthorizationMetadata := am |}.
Definition enc_copy (src dst : string) : json :=
  enc_CopyFileRequest {| cf_FilesystemID := fsID; cf_Source := src; cf_Destination := dst; cf_OverwriteExisting := true;
                         cf_AuthorizationMetadata := am |}.
Definition enc_movedir (src dst : string) : json :=
  enc_MoveDirectoryRequest {| mvd_FilesystemID := fsID; mvd_Source := src; mvd_Destination := dst; mvd_AuthorizationMetadata := am |}.

Lemma enc_copy_move src dst : enc_copy src dst = enc_move src dst.
Proof. reflexivity. Qed.

Lemma move_clean src dst : valid_utf8 src → valid_utf8 dst → clean_json (enc_move src dst) ∧ clean_json (enc_movedir src dst).
Proof using Hfs Ham. done. Qed.

Lemma read_move src dst :
  dec_commonBody (enc_move src dst) zero_commonBody = Some (mkCommon fsID wire_am) ∧
  dec_srcDstBody (enc_move src dst) (mkSrcDst "" "" false) = Some (mkSrcDst src dst true).
Proof. done. Qed.

Lemma read_movedir src dst :
  dec_commonBody (enc_movedir src dst) zero_commonBody = Some (mkCommon fsID wire_am) ∧
  dec_srcDstBody (enc_movedir src dst) (mkSrcDst "" "" false) = Some (mkSrcDst src dst false).
Proof. done. Qed.

Definition enc_upload (path : string) (n : Z) (overwrite : bool) : json :=
  enc_FileUploadRequest {| fu_FilesystemID := fsID; fu_Path := path; fu_DeclaredSizeBytes := n;
                           fu_OverwriteExisting := overwrite; fu_AuthorizationMetadata := am |}.

Lemma upload_clean path n overwrite : valid_utf8 path → clean_json (enc_upload path n overwrite).
Proof using Hfs Ham. by destruct overwrite. Qed.

Lemma read_int64 z old : in_int64 z → dec_int64 (JNum z) old = Some z.
Proof. intros H. unfold dec_int64. by rewrite bool_decide_eq_true_2. Qed.

Lemma read_upload path n overwrite : in_int64 n →
  dec_uploadParams (enc_upload path n overwrite) zero_params = Some (mkParams fsID path n overwrite wire_am).
Proof.
  intros Hn. unfold dec_uploadParams, enc_upload, enc_FileUploadRequest. pose proof (read_int64 n 0 Hn) as E.
  destruct overwrite; lazy -[dec_int64]; by rewrite E.
Qed.

Definition enc_download (uuid : string) (rng : option Range) : json :=
  enc_FileDownloadRequest {| fd_FilesystemID := fsID; fd_UUID := uuid; fd_Range := rng; fd_AuthorizationMetadata := am |}.

Lemma download_clean uuid rng : valid_utf8 uuid → clean_json (enc_download uuid rng).
Proof using Hfs Ham. by destruct rng. Qed.

Definition wire_range (r : Range) : rangeWindow := mkWindow (r_Offset r) (r_Length r).
Definition range_in_int64 (rng : option Range) : Prop :=
  match rng with None => True | Some r => in_int64 (r_Offset r) ∧ in_int64 (r_Length r) end.

Lemma read_download uuid rng : range_in_int64 rng →
  dec_commonBody (enc_download uuid rng) zero_commonBody = Some (mkCommon fsID wire_am) ∧
  dec_downloadBody (enc_download uuid rng) zero_download = Some (mkDownload fsID uuid (wire_range <$> rng) wire_am).
Proof.
  destruct rng as [[o l]|]; [|done]. intros [Ho Hl]. simpl in Ho, Hl. split; [done|].
  unfold dec_downloadBody, enc_download, enc_FileDownloadRequest, enc_Range, dec_rangeWindow, dec_ptr.
  pose proof (read_int64 o 0 Ho) as E1. pose proof (read_int64 l 0 Hl) as E2.
  lazy -[dec_int64]. by rewrite E1, E2.
Qed.
End requests.

(** ** Responses *)
Definition file_of (f : wireFile) : File := mkFile (wf_Path f) (wf_Size f) (wf_Mtime f) (wf_Mode f) "" (wf_MIME f) (wf_UUID f).
Definition fsfile_of (f : wireFile) : FilesystemFile :=
  mkFilesystemFile (wf_Path f) (wf_Size f) (wf_Mtime f) (wf_Mode f) "" (wf_MIME f) (wf_UUID f).
Definition dir_of (d : wireDir) : Directory := mkDirectory (wd_Path d) (wd_Mode d) (wd_Mtime d).

Definition meta_of (a : wireFile + wireDir) : ReadMetadataResponse :=
  match a with
  | inl f => mkMetaResp (file_of f) zero_Directory
  | inr d => mkMetaResp zero_File (dir_of d)
  end.
Definition entry_of (a : wireFile + wireDir) : ListDirEntry :=
  match a with
  | inl f => mkEntry (Some (fsfile_of f)) None
  | inr d => mkEntry None (Some (dir_of d))
  end.

(** The texts of an arm are valid and its size is an int64. *)
Definition clean_arm (a : wireFile + wireDir) : Prop :=
  match a with
  | inl f => valid_utf8 (wf_Path f) ∧ in_int64 (wf_Size f) ∧ valid_utf8 (wf_Mtime f) ∧ valid_utf8 (wf_Mode f)
             ∧ valid_utf8 (wf_MIME f) ∧ valid_utf8 (wf_UUID f)
  | inr d => valid_utf8 (wd_Path d) ∧ valid_utf8 (wd_Mode d) ∧ valid_utf8 (wd_Mtime d)
  end.

Section members.
Context {T : Type} (fields : list string) (set : string → json → T → option T).

Lemma decode_app kvs kvs' t t' : decode_members fields set false kvs t = Some t' →
  decode_members fields set false (kvs ++ kvs') t = decode_members fields set false kvs' t'.
Proof.
  revert t. induction kvs as [|[k v] kvs IH]; intros t; simpl; [by intros [= ->]|].
  destruct (match_field fields k); [|by apply IH]. destruct (set s v t); [by apply IH|done].
Qed.

(** An omitted zero value decodes like a present one. *)
Lemma decode_omit b k v t t' : k ∈ fields → set k v t = Some t' → (b = true → t' = t) →
  decode_members fields set false (omit b k v) t = Some t'.
Proof.
  intros Hk Hs Hb. destruct b; simpl; [by rewrite Hb|]. rewrite match_field_exact by done. by rewrite Hs.
Qed.
End members.

Lemma in_int64_0 : in_int64 0.
Proof. unfold in_int64, int64_min, int64_max. lia. Qed.

(** One member of a struct with [omitempty] tags. *)
Ltac read_omit :=
  unfold omit_str; eapply decode_omit;
    [set_solver
    |lazy -[dec_int64]; rewrite ?read_int64 by done; reflexivity
    |let H := fresh in intros H; (apply bool_decide_eq_true in H || apply Z.eqb_eq in H); simpl in *; congruence].

Lemma read_File f : in_int64 (wf_Size f) → dec_File (enc_wireFile f) zero_File = Some (file_of f).
Proof.
  intros Hs. destruct f as [p n mt mo mi u]. simpl in Hs. unfold dec_File, enc_wireFile, decode_struct, zero_File, file_of. cbn [wf_Path wf_Size wf_Mtime wf_Mode wf_MIME wf_UUID].
  do 5 (erewrite decode_app; [|read_omit]). read_omit.
Qed.

Lemma read_FilesystemFile f : in_int64 (wf_Size f) → dec_FilesystemFile (enc_wireFile f) zero_FilesystemFile = Some (fsfile_of f).
Proof.
  intros Hs. destruct f as [p n mt mo mi u]. simpl in Hs. unfold dec_FilesystemFile, enc_wireFile, decode_struct, zero_FilesystemFile, fsfile_of. cbn [wf_Path wf_Size wf_Mtime wf_Mode wf_MIME wf_UUID].
  do 5 (erewrite decode_app; [|read_omit]). read_omit.
Qed.

Lemma read_Directory d : dec_Directory (enc_wireDir d) zero_Directory = Some (dir_of d).
Proof.
  destruct d as [p mo mt]. unfold dec_Directory, enc_wireDir, decode_struct, zero_Directory, dir_of. cbn [wd_Path wd_Mtime wd_Mode].
  do 2 (erewrite decode_app; [|read_omit]). read_omit.
Qed.

Lemma omit_clean b k v : valid_utf8 k → clean_json v → Forall (λ kv, valid_utf8 kv.1 ∧ clean_json kv.2) (omit b k v).
Proof. intros. destruct b; constructor; [done|constructor]. Qed.

Lemma enc_wireFile_clean f : clean_arm (inl f) → clean_json (enc_wireFile f).
Proof.
  intros (Hp & _ & Ht & Hm & Hi & Hu). apply clean_obj. unfold omit_str.
  repeat (apply Forall_app; split); by apply omit_clean.
Qed.

Lemma enc_wireDir_clean d : clean_arm (inr d) → clean_json (enc_wireDir d).
Proof.
  intros (Hp & Hm & Ht). apply clean_obj. unfold omit_str. repeat (apply Forall_app; split); by apply omit_clean.
Qed.

Lemma enc_arm_clean a : clean_arm a → clean_json (enc_arm a).
Proof.
  destruct a as [f|d]; intros H; (split; [done|split; [|done]]); [by apply enc_wireFile_clean|by apply enc_wireDir_clean].
Qed.

(** readMetadata's response comes back as the arm that was sent. *)
Lemma read_meta a : clean_arm a → dec_ReadMetadataResponse (enc_arm a) zero_ReadMetadataResponse = Some (meta_of a).
Proof.
  destruct a as [f|d]; intros H; unfold dec_ReadMetadataResponse, enc_arm, decode_struct; cbn [decode_members];
    rewrite match_field_exact by set_solver; unfold set_ReadMetadataResponse; cbn [mr_File mr_Directory zero_ReadMetadataResponse].
  - rewrite decide_True by done. by rewrite read_File by apply H.
  - rewrite decide_False by done. by rewrite read_Directory.
Qed.

Lemma read_entry a : clean_arm a → dec_ListDirEntry (enc_arm a) (mkEntry None None) = Some (entry_of a).
Proof.
  destruct a as [f|d]; intros H; unfold dec_ListDirEntry, enc_arm, decode_struct; cbn [decode_members];
    rewrite match_field_exact by set_solver; unfold set_ListDirEntry; cbn [le_File le_Directory].
  - rewrite decide_True by done. unfold dec_ptr. cbn [from_option].
    pose proof (read_FilesystemFile f (proj1 (proj2 H))) as E. unfold enc_wireFile in *. by rewrite E.
  - rewrite decide_False by done. unfold dec_ptr. cbn [from_option].
    pose proof (read_Directory d) as E. unfold enc_wireDir in *. by rewrite E.
Qed.

(** A listing comes back entry by entry; an empty one arrives as null. *)
Lemma read_entries es : Forall clean_arm es →
  dec_ListDirectoryResponse (enc_entries es) zero_ListDirectoryResponse =
    Some (mkListResp (match es with [] => None | _ => Some (map entry_of es) end) "").
Proof.
  intros Hes. unfold dec_ListDirectoryResponse, enc_entries, decode_struct. cbn [decode_members].
  rewrite match_field_exact by set_solver. unfold set_ListDirectoryResponse. rewrite decide_True by done.
  cbn [lr_Entries zero_ListDirectoryResponse].
  assert (dec_all (mkEntry None None) dec_ListDirEntry (map enc_arm es) [] = Some (map entry_of es)) as E.
  { induction Hes as [|a es Ha _ IH]; [done|]. cbn [map dec_all head tail default]. simpl default.
    rewrite read_entry by done. by rewrite IH. }
  destruct es as [|a es]; [done|]. unfold dec_slice. cbn [default]. simpl default. by rewrite E.
Qed.

Lemma enc_entries_clean es : Forall clean_arm es → clean_json (enc_entries es).
Proof.
  intros Hes. split; [done|]. split; [|done].
  assert (Forall clean_json (map enc_arm es)) as H.
  { apply Forall_fmap. eapply Forall_impl; [exact Hes|]. intros a. apply enc_arm_clean. }
  destruct es; [done|]. by apply clean_arr.
Qed.

(** ** Texts that fit

    Paths within the host's limit, and short texts elsewhere, keep requests and
    metadata responses below the limits of both sides. *)
Definition path_max : Z := 4096.
Definition short (s : string) : Prop := zslen s <= path_max.

Lemma zlen_bytes s : zlen (bytes_of_string s) = zslen s.
Proof. rewrite zlen_length. unfold zslen. f_equal. induction s as [|a s IH]; simpl; congruence. Qed.

(** The bound of a printed object, its literal keys evaluated. *)
Ltac size_bound :=
  etrans; [apply print_length|]; try change (Z.shiftl 1 20) with 1048576;
  cbn [json_size app fst snd enc_am enc_path_request];
  repeat match goal with
  | |- context [zslen (coerce_utf8 (String ?a ?b))] =>
      let v := eval vm_compute in (zslen (coerce_utf8 (String a b))) in
      change (zslen (coerce_utf8 (String a b))) with v
  | H : valid_utf8 ?s |- context [coerce_utf8 ?s] => rewrite H
  end.

Section fits.
Variables (fsID : string) (am : AuthorizationMetadata).
Hypotheses (Hfs : valid_utf8 fsID) (Hfs' : short fsID) (Ham : valid_utf8 (am_Intent am)) (Ham' : short (am_Intent am)).

Lemma path_request_fits path : valid_utf8 path → short path → fits_request (enc_path_request fsID path am).
Proof using Hfs Hfs' Ham Ham'.
  intros Hp Hp'. unfold fits_request. rewrite zlen_bytes. unfold short, path_max, maxRequestBytes in *. size_bound. lia.
Qed.

Lemma move_request_fits src dst : valid_utf8 src → short src → valid_utf8 dst → short dst →
  fits_request (enc_move fsID am src dst) ∧ fits_request (enc_movedir fsID am src dst).
Proof using Hfs Hfs' Ham Ham'.
  intros Hs Hs' Hd Hd'. unfold fits_request. rewrite !zlen_bytes. unfold short, path_max, maxRequestBytes in *.
  unfold enc_move, enc_movedir, enc_MoveFileRequest, enc_MoveDirectoryRequest. cbn [mf_FilesystemID mf_Source mf_Destination
    mf_OverwriteExisting mf_AuthorizationMetadata mvd_FilesystemID mvd_Source mvd_Destination mvd_AuthorizationMetadata].
  split; size_bound; lia.
Qed.

Lemma download_request_fits uuid rng : valid_utf8 uuid → short uuid → range_in_int64 rng → fits_request (enc_download fsID am uuid rng).
Proof using Hfs Hfs' Ham Ham'.
  intros Hu Hu' Hr. unfold fits_request. rewrite zlen_bytes. unfold short, path_max, maxRequestBytes in *.
  unfold enc_download, enc_FileDownloadRequest. cbn [fd_FilesystemID fd_UUID fd_Range fd_AuthorizationMetadata].
  destruct rng as [[o l]|]; [|size_bound; lia].
  destruct Hr as [Ho Hl]. cbn [r_Offset r_Length] in *. unfold enc_Range. cbn [r_Offset r_Length].
  pose proof (pretty_length o Ho). pose proof (pretty_length l Hl). size_bound. lia.
Qed.
End fits.

(** An arm with short texts. *)
Definition short_arm (a : wireFile + wireDir) : Prop :=
  match a with
  | inl f => short (wf_Path f) ∧ short (wf_Mtime f) ∧ short (wf_Mode f) ∧ short (wf_MIME f) ∧ short (wf_UUID f)
  | inr d => short (wd_Path d) ∧ short (wd_Mode d) ∧ short (wd_Mtime d)
  end.

Lemma arm_fits a : clean_arm a → short_arm a → fits_response (enc_arm a).
Proof.
  intros Hc Hs. unfold fits_response, response_text. rewrite zlen_bytes, zslen_app. change (zslen (String "010" "")) with 1.
  unfold maxJSONResponseBytes. assert (zslen (print_json (enc_arm a)) <= 1000000); [|change (Z.shiftl 64 20) with 67108864; lia].
  destruct a as [f|d]; simpl in Hc, Hs; unfold short, path_max in *.
  - destruct Hc as (H1 & H2 & H3 & H4 & H5 & H6). pose proof (pretty_length _ H2).
    unfold enc_arm, enc_wireFile, omit_str, omit. destruct f as [p z mt mo mi u]. cbn [wf_Path wf_Size wf_Mtime wf_Mode wf_MIME wf_UUID] in *.
    repeat case_match; size_bound; lia.
  - destruct Hc as (H1 & H2 & H3). unfold enc_arm, enc_wireDir, omit_str, omit. destruct d as [p mo mt]. cbn [wd_Path wd_Mode wd_Mtime] in *.
    repeat case_match; size_bound; lia.
Qed.

Lemma hex_encode_length bs : zslen (hex_encode bs) = 2 * Z.of_nat (length bs).
Proof.
  induction bs as [|b bs IH]; [done|]. cbn [hex_encode]. rewrite zslen_app, IH. unfold hex_byte, zslen. simpl. lia.
Qed.

Lemma uuid_short fsID rel : short (uuidForRelPath fsID rel).
Proof.
  unfold short, uuidForRelPath, path_max. rewrite hex_encode_length, length_take, Sum256_length. lia.
Qed.

(** A mount path within the host's limit. *)
Definition mountable (cs : list string) : Prop := sendable cs ∧ short (path_of cs).

#[export] Instance mountable_dec cs : Decision (mountable cs).
Proof. unfold mountable, short. apply _. Defined.

Lemma path_of_length cs ds : zslen (path_of cs) <= zslen (path_of (cs ++ ds)).
Proof.
  destruct ds as [|d ds]; [by rewrite app_nil_r|]. destruct cs as [|x cs]; [unfold zslen; simpl; lia|].
  unfold path_of. rewrite join_with_app by done. unfold zslen. cbn [String.length]. rewrite string_length_app. lia.
Qed.

Lemma mountable_prefix cs ds : cs `prefix_of` ds → mountable ds → mountable cs.
Proof.
  intros Hp [Hs Hl]. split; [by eapply sendable_prefix|]. destruct Hp as [l ->]. unfold short in *.
  pose proof (path_of_length cs l). lia.
Qed.
