(* ===== verification/EndToEnd.v ===== *)
(** * The mount against the reference broker

    The rclone backend of [Ocufs], over the REST client, over one HTTP
    exchange with the server of [Filestore]: what each method of the backend
    does to the files of its scope, and what it reads of them. *)
From Stdlib Require Import Ascii String.
From stdpp Require Import base list strings numbers gmap sorting.
From S2P Require Import Prelude GoErrors GoIO GoJson GoPath GoTime JsonText Sha256 BrokerErrors Messages Client Cursor Download Upload Ocufs OcufsSpec HostFS Filestore FilestoreSpec WireCodec.
Local Open Scope Z_scope.

(** What the host prints of times and modes is short text. *)
Class HostLaws (HO : Host) : Prop := {
  host_mtime_text : ∀ now t p, valid_utf8 (host_mtime now t p) ∧ short (host_mtime now t p);
  host_mode_text : ∀ t p, valid_utf8 (host_mode t p) ∧ short (host_mode t p) }.

Definition later `{HO : Host} (s : Server) : Server :=
  mkServer (sv_scopes s) (sv_throttleEvery s) (sv_writeCount s) (sv_perOpScope s) (sv_perOpBucket s)
    (sv_fs s) (host_next (sv_now s)).

(** A closed decidable fact about op names. *)
Ltac op_in := apply (bool_decide_unpack _); vm_compute; exact I.

Section stack.
Context {HO : Host} {HL : HostLaws HO} {CV : CredentialValidator} {UP : UrlPath} {RU : RequestURL}.
Context (net : Network).
#[local] Instance wire : Transport Server := exchange net.

Variables (c : Client) (scope : Scope).
Notation R := (abs_comps (sc_Root scope)).

(** The client reaches its scope: its URLs are well formed and lead to the
    broker's routes, its bearer is exchanged for a credential of its
    filesystem, and the scope's root is an absolute path. *)
Record reaches : Prop := {
  re_url : ∀ op, newRequest_err (opURL c op) = None;
  re_path : ∀ op, url_path (opURL c op) = restPath +:+ op;
  re_cred : Validate (bearer c) = Some (c_fsID c);
  re_id : c_fsID c ≠ "" ∧ valid_utf8 (c_fsID c) ∧ short (c_fsID c);
  re_root : ∃ r, sc_Root scope = String slash r;
  re_sub : R ≠ [] }.

(** A server that serves the scope without throttling, over a tree the host
    can hold. *)
Record serving (s : Server) : Prop := {
  sv_scope : sv_scopes s !! c_fsID c = Some scope;
  sv_free : sv_perOpBucket s = None ∧ sv_throttleEvery s <= 0;
  sv_wf : wf_tree (sv_fs s);
  sv_dir : sv_fs s !! R = Some NDir;
  sv_sizes : ∀ cs d, sv_fs s !! (R ++ cs) = Some (NFile d) → in_int64 (zlen d);
  sv_names : ∀ cs n, sv_fs s !! (R ++ cs) = Some n → sendable cs }.

(** What the scope holds at a path of the mount. *)
Definition volume (s : Server) (cs : fpath) : option node := sv_fs s !! (R ++ cs).

Hypothesis Hre : reaches.

Lemma resolve_path cs : Forall comp_ok cs → resolveUnder (sc_Root scope) (path_of cs) = Some (R ++ cs).
Proof using Hre.
  intros Hcs. destruct (re_root Hre) as [r Hr]. pose proof (re_sub Hre) as Hs. rewrite Hr in *.
  rewrite resolveUnder_eq by done. by rewrite rel_comps_path.
Qed.

(** ** Which handler serves an op *)
Lemma dispatch_read raw s :
  dispatch OpReadMetadata scope raw s = handleReadMetadata scope raw s ∧
  dispatch OpListDirectory scope raw s = handleListDirectory scope raw s ∧
  dispatch OpFileDownload scope raw s = handleFileDownload scope raw s.
Proof. done. Qed.

Lemma dispatch_write raw s :
  dispatch OpMakeDirectory scope raw s = handleMakeDirectory scope raw s ∧
  dispatch OpRemoveDirectory scope raw s = handleRemoveDirectory scope raw s ∧
  dispatch OpRemoveFile scope raw s = handleRemoveFile scope raw s ∧
  dispatch OpCopyFile scope raw s = handleCopyFile scope raw s ∧
  dispatch OpMoveFile scope raw s = handleMoveFile scope raw s ∧
  dispatch OpMoveDirectory scope raw s = handleMoveDirectory scope raw s.
Proof. done. Qed.

(** A JSON op the scope admits. *)
Definition json_read (op : Op) : Prop := op ≠ OpFileUpload ∧ is_write op = false.
Definition json_write (op : Op) : Prop := op ≠ OpFileUpload ∧ sc_ReadOnly scope = false.
Definition admitted (op : Op) : Prop := op ≠ OpFileUpload ∧ sc_ReadOnly scope && is_write op = false.

Lemma admitted_read op : json_read op → admitted op.
Proof. intros [? H]. split; [done|]. by rewrite H, andb_false_r. Qed.
Lemma admitted_write op : json_write op → admitted op.
Proof. intros [? H]. split; [done|]. by rewrite H. Qed.

(** ** One JSON call *)
Definition read_am : AuthorizationMetadata := {| am_Intent := "read"; am_Downloadable := false |}.
Definition write_am : AuthorizationMetadata := {| am_Intent := "write"; am_Downloadable := false |}.
Definition wire_intent (op : Op) : AuthorizationMetadata := if bool_decide (op ∈ write_ops) then write_am else read_am.

Lemma stamp_op op : op ∈ read_ops ++ write_ops → stamp c op = Ok (c_fsID c, wire_intent op).
Proof.
  intros Hin. assert (Forall (λ op, StampAuthMeta op = Ok (wire_intent op)) (read_ops ++ write_ops)) as H.
  { repeat (apply Forall_cons; split; [vm_compute; reflexivity|]). constructor. }
  rewrite Forall_forall in H. unfold stamp. by rewrite (H op Hin).
Qed.

Lemma wire_intent_valid op : valid_utf8 (am_Intent (wire_intent op)).
Proof. unfold wire_intent. by destruct (bool_decide _). Qed.
Lemma wire_intent_short op : short (am_Intent (wire_intent op)).
Proof. unfold wire_intent. by destruct (bool_decide _). Qed.

Lemma exchange_json op j s resp s' :
  serving s → admitted op → clean_json j → fits_request j →
  dec_commonBody j zero_commonBody = Some (mkCommon (c_fsID c) (wire_am (wire_intent op))) →
  dispatch op scope (print_json j) s = (resp, s') →
  Do (json_request c op j) s = (mkDo (Ok resp) 0, later s').
Proof using Hre.
  intros Hs [Hop Hro] Hj Hf Hd Hdisp. unfold Do, wire, exchange, arriving, ServeHTTP, json_request. cbn [rq_url rq_body rq_authorization].
  rewrite (re_path Hre). unfold HasPrefix at 1. rewrite strip_prefix_app. rewrite bool_decide_eq_true_2 by eauto.
  unfold route. cbn [rq_method rq_url rq_authorization]. rewrite (re_path Hre), TrimPrefix_app.
  rewrite bool_decide_eq_true_2 by done. cbn [negb]. rewrite decide_False by done.
  rewrite (re_cred Hre). unfold decodeCommon. cbn [rq_body].
  rewrite raw_body_json by done. rewrite Unmarshal_print, Hd by done. cbn [fmap option_fmap option_map].
  unfold authorize. cbn [cb_FilesystemID]. rewrite decide_False by (apply (re_id Hre)).
  rewrite bool_decide_eq_true_2 by done. cbn [negb]. rewrite (sv_scope s Hs).
  unfold is_write in Hro. rewrite Hro. unfold chargePerOp. rewrite (proj1 (sv_free s Hs)). cbn [negb].
  by rewrite Hdisp.
Qed.

Lemma call_OK {T} op j s s' v (dec : json → T → option T) zero t :
  serving s → admitted op → clean_json j → fits_request j →
  dec_commonBody j zero_commonBody = Some (mkCommon (c_fsID c) (wire_am (wire_intent op))) →
  dispatch op scope (print_json j) s = (httpjson_OK v, s') → clean_json v → fits_response v → dec v zero = Some t →
  call c op j dec zero s = (Ok t, later s').
Proof using Hre.
  intros Hs Hop Hj Hf Hd Hdisp Hv Hfv Hdec. unfold call. rewrite (re_url Hre).
  rewrite (exchange_json op j s _ s' Hs Hop Hj Hf Hd Hdisp).
  cbn [do_result]. change (rs_status (httpjson_OK v)) with 200. change (is_2xx 200) with true. cbv iota beta.
  change (rs_body (httpjson_OK v)) with [Seg (bytes_of_string (response_text v)) None].
  by rewrite decode_response, Hdec by done.
Qed.

Lemma call_status {T} op j s s' status msg (dec : json → T → option T) zero :
  serving s → admitted op → clean_json j → fits_request j →
  dec_commonBody j zero_commonBody = Some (mkCommon (c_fsID c) (wire_am (wire_intent op))) →
  dispatch op scope (print_json j) s = (httpjson_Error status msg, s') → is_2xx status = false →
  ∃ body, call c op j dec zero s = (Err (MapHTTPStatus status body ""), later s').
Proof using Hre.
  intros Hs Hop Hj Hf Hd Hdisp Hst. unfold call. rewrite (re_url Hre).
  rewrite (exchange_json op j s _ s' Hs Hop Hj Hf Hd Hdisp).
  cbn [do_result]. change (rs_status (httpjson_Error status msg)) with status. rewrite Hst. eexists. reflexivity.
Qed.

(** ** The path ops *)
Definition path_json (op : Op) (cs : fpath) : json := enc_path_request (c_fsID c) (path_of cs) (wire_intent op).

Lemma path_json_clean op cs : sendable cs → clean_json (path_json op cs).
Proof using Hre. intros Hcs. apply path_request_clean; [apply (re_id Hre)|apply wire_intent_valid|auto with go]. Qed.

Lemma path_json_fits op cs : mountable cs → fits_request (path_json op cs).
Proof using Hre.
  intros [Hcs Hsh]. destruct (re_id Hre) as (_ & ? & ?). apply path_request_fits; try done;
    [apply wire_intent_valid|apply wire_intent_short|auto with go].
Qed.

Lemma path_json_common op cs : dec_commonBody (path_json op cs) zero_commonBody = Some (mkCommon (c_fsID c) (wire_am (wire_intent op))).
Proof. apply read_path_common. Qed.

Lemma with_path_eq op cs s k : sendable cs →
  with_path scope (print_json (path_json op cs)) s k = k (path_of cs) (R ++ cs).
Proof using Hre.
  intros Hcs. unfold with_path. rewrite Unmarshal_print by by apply path_json_clean.
  unfold path_json. rewrite read_path. by rewrite resolve_path by auto with go.
Qed.

(** How the broker reports what is at a path. *)
Definition arm_at (s : Server) (cs : fpath) (n : node) : wireFile + wireDir :=
  match n with
  | NDir => inr (dir_arm s (path_of cs) (R ++ cs))
  | NFile _ => inl (file_arm s scope (path_of cs) (R ++ cs) n)
  end.

Lemma arm_at_clean s cs n : serving s → sendable cs → volume s cs = Some n → clean_arm (arm_at s cs n).
Proof using HL.
  intros Hs Hv%sendable_path Hn. pose proof (host_mtime_text (sv_now s) (sv_fs s) (R ++ cs)) as [? _].
  pose proof (host_mode_text (sv_fs s) (R ++ cs)) as [? _]. destruct n as [d|]; [|done].
  split; [done|]. split; [by eapply sv_sizes|]. repeat split; try done. apply uuid_valid.
Qed.

Lemma arm_at_short s cs n : short (path_of cs) → short_arm (arm_at s cs n).
Proof using HL.
  intros Hv. pose proof (host_mtime_text (sv_now s) (sv_fs s) (R ++ cs)) as [_ ?].
  pose proof (host_mode_text (sv_fs s) (R ++ cs)) as [_ ?]. destruct n as [d|]; simpl; repeat split; try done; apply uuid_short.
Qed.

(** No file stands where a directory of the path should be. *)
Definition clear (s : Server) (cs : fpath) : Prop := ∀ q d, q `prefix_of` cs → volume s q ≠ Some (NFile d).

Lemma clear_above s cs : serving s → clear s cs → no_file_above (sv_fs s) (R ++ cs).
Proof.
  intros Hs Hc q d Hq. destruct (prefix_weak_total q R (R ++ cs) Hq ltac:(by eexists)) as [[l Hl]|[l ->]].
  - destruct l as [|x l]; [rewrite app_nil_r in Hl; subst; by rewrite (sv_dir s Hs)|].
    rewrite (wf_prefix (sv_fs s) q (x :: l)); [done|apply (sv_wf s Hs)| |done]. rewrite <- Hl, (sv_dir s Hs). eauto.
  - apply prefix_app_inv in Hq. by apply Hc.
Qed.

Lemma stat_volume s cs : serving s →
  match volume s cs with
  | Some n => Stat (sv_fs s) (R ++ cs) = Ok n
  | None => ∃ e, Stat (sv_fs s) (R ++ cs) = Err e ∧ (clear s cs → e = ENOENT)
  end.
Proof.
  intros Hs. unfold volume. destruct (sv_fs s !! (R ++ cs)) as [n|] eqn:E.
  - apply Stat_Ok; [apply (sv_wf s Hs)|done].
  - destruct (proj2 (Stat_Err _ (R ++ cs) (sv_wf s Hs)) E) as [e He]. exists e. split; [done|]. intros Hc.
    rewrite (Stat_ENOENT _ _ E) in He by by apply clear_above. congruence.
Qed.

Lemma ReadMetadata_call cs s :
  ReadMetadata c (path_of cs) s =
    call c OpReadMetadata (path_json OpReadMetadata cs) dec_ReadMetadataResponse zero_ReadMetadataResponse s.
Proof. unfold ReadMetadata. by rewrite stamp_op by op_in. Qed.

Lemma metadata_dispatch s cs : sendable cs →
  dispatch OpReadMetadata scope (print_json (path_json OpReadMetadata cs)) s =
    (match Stat (sv_fs s) (R ++ cs) with
     | Err e => writeMetaError e
     | Ok n => httpjson_OK (enc_arm (arm_at s cs n))
     end, s).
Proof using Hre.
  intros Hcs. rewrite (proj1 (dispatch_read _ s)). unfold handleReadMetadata. rewrite with_path_eq by done.
  by destruct (Stat _ _) as [[]|].
Qed.

Lemma ReadMetadata_at s cs : serving s → mountable cs →
  match volume s cs with
  | Some n => ReadMetadata c (path_of cs) s = (Ok (meta_of (arm_at s cs n)), later s)
  | None => clear s cs → ∃ body, ReadMetadata c (path_of cs) s = (Err (MapHTTPStatus 404 body ""), later s)
  end.
Proof using Hre HL.
  intros Hs Hm. destruct (Hm) as [Hcs Hsh]. pose proof (path_json_fits OpReadMetadata cs Hm) as Hf.
  pose proof (stat_volume s cs Hs) as Hst. pose proof (metadata_dispatch s cs Hcs) as Hd.
  assert (admitted OpReadMetadata) as Ha by (apply admitted_read; split; op_in).
  pose proof (path_json_clean OpReadMetadata cs Hcs) as Hj. rewrite ReadMetadata_call.
  pose proof (path_json_common OpReadMetadata cs) as Hc.
  destruct (volume s cs) as [n|] eqn:En.
  - rewrite Hst in Hd. pose proof (arm_at_clean s cs n Hs Hcs En) as Hcl.
    exact (call_OK _ _ s s _ _ _ _ Hs Ha Hj Hf Hc Hd (enc_arm_clean _ Hcl)
      (arm_fits _ Hcl (arm_at_short s cs n Hsh)) (read_meta _ Hcl)).
  - intros Hcl. destruct Hst as (e & He & Heq). rewrite He, (Heq Hcl) in Hd.
    exact (call_status _ _ s s 404 "not found" _ _ Hs Ha Hj Hf Hc Hd eq_refl).
Qed.

(** ** Acknowledged ops *)
Definition meta_status (e : errno) : Z := if is_not_exist e then 404 else if is_exist e then 409 else 500.

Lemma writeMetaError_status e : ∃ msg, writeMetaError e = httpjson_Error (meta_status e) msg ∧ is_2xx (meta_status e) = false.
Proof. unfold writeMetaError, meta_status. destruct (is_not_exist e); [eauto|]. destruct (is_exist e); eauto. Qed.

Lemma ack_reply op j s r :
  serving s → admitted op → clean_json j → fits_request j →
  dec_commonBody j zero_commonBody = Some (mkCommon (c_fsID c) (wire_am (wire_intent op))) →
  dispatch op scope (print_json j) s = ack s r →
  match r.1 with
  | None => call c op j dec_AckResponse tt s = (Ok tt, later (set_fs s r.2))
  | Some e => ∃ body, call c op j dec_AckResponse tt s = (Err (MapHTTPStatus (meta_status e) body ""), later (set_fs s r.2))
  end.
Proof using Hre.
  intros Hs Ha Hj Hf Hc Hd. unfold ack in Hd. destruct r as [[e|] t]; simpl in *.
  - destruct (writeMetaError_status e) as (msg & He & Hst). rewrite He in Hd.
    exact (call_status op j s _ _ msg _ _ Hs Ha Hj Hf Hc Hd Hst).
  - refine (call_OK op j s _ empty_struct _ _ _ Hs Ha Hj Hf Hc Hd I _ eq_refl). vm_compute. discriminate.
Qed.

(** The tree after an acknowledged op on one path. *)
Lemma path_ack (op : Op) (cs : fpath) (s : Server) (h : Scope → string → Server → http_response * Server) (g : hostfs → fpath → option errno * hostfs) :
  (∀ raw : string, dispatch op scope raw s = h scope raw s) →
  (∀ raw : string, h scope raw s = with_path scope raw s (λ _ abs, ack s (g (sv_fs s) abs))) →
  serving s → admitted op → mountable cs →
  let r := g (sv_fs s) (R ++ cs) in
  match r.1 with
  | None => call c op (path_json op cs) dec_AckResponse tt s = (Ok tt, later (set_fs s r.2))
  | Some e => ∃ body, call c op (path_json op cs) dec_AckResponse tt s = (Err (MapHTTPStatus (meta_status e) body ""), later (set_fs s r.2))
  end.
Proof using Hre.
  intros Hh Hg Hs Ha Hcs. pose proof (proj1 Hcs).
  apply ack_reply; [done|done|by apply path_json_clean|by apply path_json_fits|apply path_json_common|].
  rewrite Hh, Hg. by rewrite with_path_eq.
Qed.

(** ** Trees that keep serving *)
Definition storable (cs : fpath) (n : node) : Prop :=
  sendable cs ∧ match n with NFile d => in_int64 (zlen d) | NDir => True end.

Lemma serving_tree (s : Server) t now :
  serving s → wf_tree t → t !! R = Some NDir →
  (∀ cs n, t !! (R ++ cs) = Some n → sv_fs s !! (R ++ cs) = Some n ∨ storable cs n) →
  serving (mkServer (sv_scopes s) (sv_throttleEvery s) (sv_writeCount s) (sv_perOpScope s) (sv_perOpBucket s) t now).
Proof.
  intros [H1 H2 H3 H4 H5 H6] Hwf Hd Hnew. split; try done; simpl.
  - intros cs d Hp. destruct (Hnew cs _ Hp) as [Hp'|[_ Hz]]; [by eapply H5|done].
  - intros cs n Hn. destruct (Hnew cs n Hn) as [Hp|[? _]]; [by eapply H6|done].
Qed.

Lemma serving_storable (s : Server) cs n : serving s → volume s cs = Some n → storable cs n.
Proof. intros Hs Hn. split; [by eapply sv_names|]. destruct n; [by eapply sv_sizes|done]. Qed.

Lemma serving_later s : serving s → serving (later s).
Proof. by intros []. Qed.

Lemma parent_app (cs : fpath) : cs ≠ [] → parent (R ++ cs) = R ++ parent cs.
Proof.
  destruct cs as [|x cs _] using rev_ind; [done|]. intros _. unfold parent. by rewrite app_assoc, !removelast_last.
Qed.

Lemma clear_prefix s cs ds : cs `prefix_of` ds → clear s ds → clear s cs.
Proof. intros Hp Hc q d Hq. apply Hc. by etrans. Qed.

(** ** The abstract file system *)

(** What the paths of a volume hold after an op. *)
Definition after_mkdir (cs : fpath) (v : fpath → option node) : fpath → option node :=
  λ x, if decide (x `prefix_of` cs) then Some NDir else v x.
Definition after_put (cs : fpath) (d : bytes) (v : fpath → option node) : fpath → option node :=
  λ x, if decide (x = cs) then Some (NFile d) else after_mkdir (parent cs) v x.
Definition after_remove (cs : fpath) (v : fpath → option node) : fpath → option node :=
  λ x, if decide (x = cs) then None else v x.
Definition after_rmdir (cs : fpath) (v : fpath → option node) : fpath → option node :=
  λ x, if decide (cs `prefix_of` x) then None else v x.
Definition after_move (src dst : fpath) (v : fpath → option node) : fpath → option node :=
  λ x, if decide (dst `prefix_of` x) then v (src ++ drop (length dst) x)
       else if decide (src `prefix_of` x) then None else after_mkdir (parent dst) v x.

Lemma prefix_root (cs x : fpath) : R ++ x `prefix_of` R ++ cs ↔ x `prefix_of` cs.
Proof. split; [apply prefix_app_inv|apply prefix_app]. Qed.

Lemma mkdir_volume s cs : serving s → sendable cs → clear s cs →
  ∃ t, MkdirAll (sv_fs s) (R ++ cs) = (None, t) ∧ serving (set_fs s t) ∧
    ∀ x, volume (set_fs s t) x = after_mkdir cs (volume s) x.
Proof.
  intros Hs Hcs Hc. destruct (MkdirAll_spec (sv_fs s) (R ++ cs) (sv_wf s Hs) (clear_above s cs Hs Hc)) as (t & Hm & Hwf & Hl).
  assert (∀ x, volume (set_fs s t) x = after_mkdir cs (volume s) x) as Hv.
  { intros x. unfold volume, after_mkdir. simpl. rewrite Hl. apply decide_ext, prefix_root. }
  exists t. split; [done|]. split; [|done]. apply serving_tree; [done|done|..].
  - rewrite Hl. rewrite decide_True by (by eexists). done.
  - intros x n Hn. specialize (Hv x). unfold volume, after_mkdir in Hv. simpl in Hv. rewrite Hv in Hn.
    case_decide as Hx; [|by left]. right. injection Hn as <-. split; [by eapply sendable_prefix|done].
Qed.

(** What upload and copy do to the tree. *)
Lemma put_volume s cs d : serving s → cs ≠ [] → sendable cs → in_int64 (zlen d) → clear s (parent cs) → volume s cs ≠ Some NDir →
  ∃ t1 t2, MkdirAll (sv_fs s) (parent (R ++ cs)) = (None, t1) ∧ OpenTrunc t1 (R ++ cs) = (None, t2) ∧
    (∀ x, t2 !! (R ++ x) = if decide (x = cs) then Some (NFile []) else after_mkdir (parent cs) (volume s) x) ∧
    wf_tree t1 ∧ wf_tree t2 ∧ serving (set_fs s (Write t2 (R ++ cs) d)) ∧
    ∀ x, volume (set_fs s (Write t2 (R ++ cs) d)) x = after_put cs d (volume s) x.
Proof.
  intros Hs Hne Hcs Hd Hc Hnd. rewrite parent_app by done.
  destruct (mkdir_volume s (parent cs) Hs) as (t1 & Hm & Hs1 & Hv1); [by eapply sendable_prefix; [apply parent_prefix|]|done|].
  pose proof (sv_wf _ Hs1) as Hwf1. simpl in Hwf1.
  assert (t1 !! (R ++ parent cs) = Some NDir) as Hp.
  { change (volume (set_fs s t1) (parent cs) = Some NDir). rewrite Hv1. unfold after_mkdir. by rewrite decide_True. }
  assert (¬ cs `prefix_of` parent cs) as Hncs by (by apply parent_outside).
  assert (t1 !! (R ++ cs) ≠ Some NDir) as Hnd1.
  { change (volume (set_fs s t1) cs ≠ Some NDir). rewrite Hv1. unfold after_mkdir. by rewrite decide_False. }
  assert (OpenTrunc t1 (R ++ cs) = (None, <[R ++ cs := NFile []]> t1)) as Ho.
  { unfold OpenTrunc. destruct cs as [|x cs _] using rev_ind; [done|]. unfold parent in Hp. rewrite removelast_last in Hp.
    rewrite app_assoc, parent_err_dir by done. rewrite <- app_assoc. destruct (t1 !! (R ++ cs ++ [x])) as [[]|]; done. }
  exists t1, (<[R ++ cs := NFile []]> t1). split; [done|]. split; [done|].
  assert (∀ n x, <[R ++ cs := n]> t1 !! (R ++ x) = if decide (x = cs) then Some n else after_mkdir (parent cs) (volume s) x) as Hl.
  { intros n x. rewrite lookup_insert. change (t1 !! (R ++ x)) with (volume (set_fs s t1) x). rewrite Hv1.
    apply decide_ext. split; [by intros ?%app_inv_head|congruence]. }
  assert (parent (R ++ cs) = R ++ parent cs) as Hpar by (by apply parent_app).
  split; [apply Hl|]. split; [done|].
  assert (∀ e, wf_tree (<[R ++ cs := NFile e]> t1)) as Hwf2 by (intros e; apply insert_file_wf; [done|right; by rewrite Hpar|done]).
  split; [done|]. unfold Write. rewrite insert_insert_eq.
  assert (∀ x, volume (set_fs s (<[R ++ cs := NFile d]> t1)) x = after_put cs d (volume s) x) as Hv by (intros x; apply Hl).
  split; [|done]. apply serving_tree; [done|done|..].
  - rewrite lookup_insert_ne; [apply (sv_dir _ Hs1)|]. intros H. apply (f_equal length) in H. rewrite length_app in H.
    destruct cs; simpl in *; [done|lia].
  - intros x n Hn. specialize (Hv x). unfold volume in Hv at 1. simpl in Hv. rewrite Hv in Hn. unfold after_put, after_mkdir in Hn.
    case_decide as Hx; [right; injection Hn as <-; subst; done|]. case_decide as Hx2; [|by left].
    right. injection Hn as <-. split; [|done]. eapply sendable_prefix; [|exact Hcs]. etrans; [exact Hx2|apply parent_prefix].
Qed.

(** ** Uploads *)
Lemma parse_data chunks p :
  parse_parts (map PWData chunks ++ [PWEnd]) (Some p) = Some [mkPart (pa_name p) (pa_filename p) (pa_data p ++ mjoin chunks)].
Proof.
  revert p. induction chunks as [|d chunks IH]; intros p; simpl.
  - rewrite app_nil_r. by destruct p.
  - rewrite IH. simpl. by rewrite <- app_assoc.
Qed.

Definition upload_json (cs : fpath) (n : Z) : json := enc_upload (c_fsID c) (wire_intent OpFileUpload) (path_of cs) n true.

(** The request body: the parameters and the source's bytes. *)
Lemma upload_parts cs src n : is_EOF (final_err src) = true →
  ∃ writes, upload_writer None (c_fsID c) (path_of cs) n true (wire_intent OpFileUpload) src (c_messageCeiling c) = (None, writes) ∧
    parse_parts writes None = Some [mkPart "params" "" (bytes_of_string (print_json (upload_json cs n)));
                                    mkPart "file" "upload" (content src)].
Proof.
  intros He. destruct (upload_writer_open (c_fsID c) (path_of cs) n true (wire_intent OpFileUpload) src (c_messageCeiling c))
    as (chunks & Hw & Hj & _). rewrite He in Hw. eexists. split; [exact Hw|].
  cbn [app parse_parts]. rewrite parse_data. cbn [option_list app pa_name pa_filename pa_data]. by rewrite Hj.
Qed.

Lemma print_nonempty j : clean_json j → print_json j ≠ "".
Proof. intros (a & t & -> & _)%print_head. done. Qed.

Lemma handle_upload s cs src n rq : serving s → sc_ReadOnly scope = false → mountable cs → in_int64 n →
  rq_authorization rq = bearer c →
  ParseMultipartForm rq = Some [mkPart "params" "" (bytes_of_string (print_json (upload_json cs n)));
                                mkPart "file" "upload" (content src)] →
  handleFileUpload rq s = store_upload s scope (mkParams (c_fsID c) (path_of cs) n true (wire_am (wire_intent OpFileUpload))) (R ++ cs) (Some (content src)).
Proof using Hre.
  intros Hs Hro [Hcs Hsh] Hn Hau Hp. unfold handleFileUpload. rewrite Hau, (re_cred Hre), Hp.
  assert (clean_json (upload_json cs n)) as Hj
    by (apply upload_clean; [apply (re_id Hre)|apply wire_intent_valid|auto with go]).
  change (FormValue _ "params") with (string_of_bytes (bytes_of_string (print_json (upload_json cs n)))).
  rewrite string_bytes. rewrite decide_False by by apply print_nonempty.
  rewrite Unmarshal_print by done. unfold upload_json. rewrite read_upload by done.
  unfold authorize. cbn [up_FilesystemID up_Path]. destruct (re_id Hre) as (Hne & _ & _). rewrite decide_False by done.
  rewrite bool_decide_eq_true_2 by done. cbn [negb]. rewrite (sv_scope s Hs), Hro. cbn [andb].
  unfold chargePerOp. destruct (sv_free s Hs) as [-> Hth]. cbn [negb]. unfold throttled.
  rewrite (proj2 (Z.leb_le _ _) Hth). by rewrite resolve_path by auto with go.
Qed.

Lemma read_response_end status v : snd (fst (read_all_limit maxErrorBodyBytes (rs_body (json_response status "" v)))) = None.
Proof.
  unfold json_response. cbn [rs_body]. generalize (bytes_of_string (print_json v +:+ String "010" "")). intros d.
  unfold read_all_limit. change (maxErrorBodyBytes <=? 0) with false. cbv iota.
  by destruct (zlen d <=? maxErrorBodyBytes).
Qed.

Lemma Upload_at s cs src : serving s → sc_ReadOnly scope = false → mountable cs → cs ≠ [] →
  is_EOF (final_err src) = true → zlen (content src) <= maxUploadBytes → clear s (parent cs) → volume s cs ≠ Some NDir →
  ∃ s', Upload c (path_of cs) src (zlen (content src)) true s = (None, s') ∧ serving s' ∧
    ∀ x, volume s' x = after_put cs (content src) (volume s) x.
Proof using Hre.
  intros Hs Hro Hm Hne He Hlen Hc Hnd. pose proof (zlen_nonneg (content src)) as Hpos.
  assert (in_int64 (zlen (content src))) as Hi.
  { unfold in_int64, int64_min, int64_max, maxUploadBytes in *. change (Z.shiftl 1 30) with 1073741824 in Hlen. lia. }
  destruct (put_volume s cs (content src) Hs Hne (proj1 Hm) Hi Hc Hnd) as (t1 & t2 & H1 & H2 & _ & _ & _ & Hs3 & Hv3).
  set (t3 := Write t2 (R ++ cs) (content src)) in *.
  exists (later (set_fs s t3)). split; [|split; [by apply serving_later|done]].
  destruct (upload_parts cs src (zlen (content src)) He) as (writes & Hw & Hp).
  unfold Upload. rewrite stamp_op by op_in. rewrite (re_url Hre), Hw.
  assert (store_upload s scope (mkParams (c_fsID c) (path_of cs) (zlen (content src)) true (wire_am (wire_intent OpFileUpload)))
    (R ++ cs) (Some (content src)) = (file_response (set_fs s t3) scope (path_of cs) (R ++ cs), set_fs s t3)) as Hst.
  { unfold store_upload. cbn [up_OverwriteExisting negb andb up_DeclaredSizeBytes up_Path].
    rewrite H1, H2, ztake_all by done. rewrite Z.eqb_refl. done. }
  unfold Do, wire, exchange, arriving, ServeHTTP, upload_request. cbn [rq_url rq_body rq_authorization].
  rewrite (re_path Hre). unfold HasPrefix at 1. rewrite strip_prefix_app. rewrite bool_decide_eq_true_2 by eauto.
  unfold route. cbn [rq_method rq_url rq_authorization]. rewrite (re_path Hre), TrimPrefix_app.
  rewrite bool_decide_eq_true_2 by done. cbn [negb]. rewrite decide_True by done.
  rewrite (handle_upload s cs src (zlen (content src))), Hst by done.
  rewrite (re_cred Hre). cbn [do_result do_consumed pipe_length].
  assert (file_response (set_fs s t3) scope (path_of cs) (R ++ cs) =
    httpjson_OK (JObj [("file", enc_wireFile (file_arm (set_fs s t3) scope (path_of cs) (R ++ cs) (NFile (content src))))])) as ->.
  { unfold file_response, fileMeta. rewrite (proj2 (Stat_Ok _ _ (NFile (content src)) (sv_wf _ Hs3))); [done|].
    change (volume (set_fs s t3) cs = Some (NFile (content src))). rewrite Hv3. unfold after_put. by rewrite decide_True. }
  unfold httpjson_OK. pose proof (read_response_end 200
    (JObj [("file", enc_wireFile (file_arm (set_fs s t3) scope (path_of cs) (R ++ cs) (NFile (content src))))])) as Hrd.
  change (is_2xx (rs_status (json_response 200 "" ?v))) with true. cbn [negb].
  destruct (read_all_limit _ _) as [[b e] r]. simpl in Hrd. subst e. by rewrite (proj2 (Nat.leb_le _ _)).
Qed.

(** ** Copies and moves *)
Definition move_json (op : Op) (src dst : fpath) : json := enc_move (c_fsID c) (wire_intent op) (path_of src) (path_of dst).
Definition movedir_json (src dst : fpath) : json := enc_movedir (c_fsID c) (wire_intent OpMoveDirectory) (path_of src) (path_of dst).

(** With the destination's directory made, the op decides. *)
Lemma srcdst_ack (op : Op) (j : json) (src dst : fpath) (over : bool) (g : hostfs → fpath → fpath → option errno * hostfs) (s : Server) :
  (∀ raw : string, dispatch op scope raw s = applySrcDstOp g scope raw s) →
  dec_commonBody j zero_commonBody = Some (mkCommon (c_fsID c) (wire_am (wire_intent op))) →
  dec_srcDstBody j (mkSrcDst "" "" false) = Some (mkSrcDst (path_of src) (path_of dst) over) →
  clean_json j → fits_request j → serving s → admitted op → sendable src → sendable dst → dst ≠ [] →
  clear s (parent dst) → (over = true ∨ volume s dst = None) →
  ∃ t1, MkdirAll (sv_fs s) (parent (R ++ dst)) = (None, t1) ∧
    serving (set_fs s t1) ∧ (∀ x, volume (set_fs s t1) x = after_mkdir (parent dst) (volume s) x) ∧
    let r := g t1 (R ++ src) (R ++ dst) in
    match r.1 with
    | None => call c op j dec_AckResponse tt s = (Ok tt, later (set_fs s r.2))
    | Some e => ∃ body, call c op j dec_AckResponse tt s = (Err (MapHTTPStatus (meta_status e) body ""), later (set_fs s r.2))
    end.
Proof using Hre.
  intros Hd Hc Hdec Hj Hf Hs Ha Hsrc Hdst Hne Hcl Hov.
  destruct (mkdir_volume s (parent dst) Hs) as (t1 & Hm & Hs1 & Hv1); [by eapply sendable_prefix; [apply parent_prefix|]|done|].
  exists t1. split; [by rewrite parent_app|]. split; [done|]. split; [done|]. apply ack_reply; try done. rewrite Hd. unfold applySrcDstOp.
  rewrite Unmarshal_print, Hdec by done. unfold resolveSrcDst. cbn [sd_Source sd_Destination sd_OverwriteExisting].
  rewrite !resolve_path by auto with go.
  assert (negb over && match Stat (sv_fs s) (R ++ dst) with Ok _ => true | Err _ => false end = false) as ->.
  { destruct Hov as [->|Hn]; [done|]. pose proof (stat_volume s dst Hs) as Hst. rewrite Hn in Hst. destruct Hst as (e & -> & _).
    by destruct over. }
  by rewrite parent_app, Hm.
Qed.

Lemma move_json_ok op src dst : mountable src → mountable dst →
  clean_json (move_json op src dst) ∧ fits_request (move_json op src dst) ∧
  clean_json (movedir_json src dst) ∧ fits_request (movedir_json src dst).
Proof using Hre.
  intros [Hs Hs'] [Hd Hd']. destruct (re_id Hre) as (_ & Hi & Hi').
  pose proof (sendable_path _ Hs) as Vs. pose proof (sendable_path _ Hd) as Vd.
  split; [exact (proj1 (move_clean _ _ Hi (wire_intent_valid op) _ _ Vs Vd))|].
  split; [exact (proj1 (move_request_fits _ _ Hi Hi' (wire_intent_valid op) (wire_intent_short op) _ _ Vs Hs' Vd Hd'))|].
  split; [exact (proj2 (move_clean _ _ Hi (wire_intent_valid OpMoveDirectory) _ _ Vs Vd))|].
  exact (proj2 (move_request_fits _ _ Hi Hi' (wire_intent_valid OpMoveDirectory) (wire_intent_short OpMoveDirectory) _ _ Vs Hs' Vd Hd')).
Qed.

(** A rename within the volume, its parent made. *)
Lemma rename_volume (s : Server) (src dst : fpath) t1 : serving s → sendable dst → dst ≠ [] → src ≠ [] →
  serving (set_fs s t1) → (∀ x, volume (set_fs s t1) x = after_mkdir (parent dst) (volume s) x) →
  (∃ n, volume s src = Some n) → ¬ src `prefix_of` dst → ¬ dst `prefix_of` src →
  match volume s dst, volume s src with Some NDir, _ => False | Some (NFile _), Some NDir => False | _, _ => True end →
  ∃ t, Rename t1 (R ++ src) (R ++ dst) = (None, t) ∧ serving (set_fs s t) ∧
    ∀ x, volume (set_fs s t) x = after_move src dst (volume s) x.
Proof.
  intros Hs Hdst Hdne Hsne Hs1 Hv1 [n Hn] Hsd Hds Hok.
  assert (∀ x, dst `prefix_of` x → ¬ x `prefix_of` parent dst) as Hpar.
  { intros x Hx Hp. apply (parent_outside dst Hdne). by etrans. }
  assert (t1 !! (R ++ src) = Some n) as Hsrc.
  { change (volume (set_fs s t1) src = Some n). rewrite Hv1. unfold after_mkdir. rewrite decide_False; [done|].
    intros H. apply Hsd. etrans; [exact H|apply parent_prefix]. }
  assert (t1 !! (R ++ dst) = volume s dst) as Hd1.
  { change (volume (set_fs s t1) dst = volume s dst). rewrite Hv1. unfold after_mkdir. by rewrite decide_False by by apply Hpar. }
  assert (t1 !! (R ++ parent dst) = Some NDir) as Hp1.
  { change (volume (set_fs s t1) (parent dst) = Some NDir). rewrite Hv1. unfold after_mkdir. by rewrite decide_True. }
  pose proof (sv_wf _ Hs1) as Hwf1. simpl in Hwf1.
  assert (parent_err t1 (R ++ dst) = None) as Hpe.
  { destruct dst as [|x dst _] using rev_ind; [done|]. unfold parent in Hp1. rewrite removelast_last in Hp1.
    rewrite app_assoc. by apply parent_err_dir. }
  assert (Stat t1 (R ++ src) = Ok n) as Hst by by apply Stat_Ok.
  assert (Rename t1 (R ++ src) (R ++ dst) = (None, carry (R ++ src) (R ++ dst) t1)) as Hr.
  { unfold Rename. rewrite Hst, Hpe, Hd1. rewrite decide_False by (intros ->%app_inv_head; by apply Hds).
    unfold below. rewrite bool_decide_eq_false_2 by by rewrite prefix_root. rewrite Hn in Hok.
    destruct (Stat t1 (R ++ dst)) as [[d|]|e] eqn:Ed.
    - apply Stat_Ok in Ed; [|done]. rewrite Ed in Hd1. rewrite <- Hd1 in *. by destruct n.
    - apply Stat_Ok in Ed; [|done]. rewrite Ed in Hd1. by rewrite <- Hd1 in Hok.
    - destruct (volume s dst) as [[d|]|]; [by destruct n|done|done]. }
  eexists. split; [exact Hr|].
  assert (∀ x, volume (set_fs s (carry (R ++ src) (R ++ dst) t1)) x = after_move src dst (volume s) x) as Hv.
  { intros x. unfold volume. simpl. rewrite carry_lookup by by rewrite prefix_root. unfold after_move.
    destruct (decide (dst `prefix_of` x)) as [Hx|Hx].
    - rewrite decide_True by by apply prefix_root. destruct Hx as [l ->]. rewrite app_assoc, !drop_app_length, <- app_assoc.
      change (volume (set_fs s t1) (src ++ l) = volume s (src ++ l)). rewrite Hv1. unfold after_mkdir.
      rewrite decide_False; [done|]. intros H. apply Hsd. etrans; [by eexists|]. etrans; [exact H|apply parent_prefix].
    - rewrite decide_False by by rewrite prefix_root. destruct (decide (src `prefix_of` x)).
      + by rewrite decide_True by by apply prefix_root.
      + rewrite decide_False by by rewrite prefix_root. apply Hv1. }
  split; [|done]. apply serving_tree; [done|..].
  - pose proof (Rename_wf t1 (R ++ src) (R ++ dst) Hwf1) as H. by rewrite Hr in H.
  - pose proof (Hv []) as H. unfold volume at 1 in H. simpl in H. rewrite app_nil_r in H. rewrite H. unfold after_move.
    rewrite decide_False by (intros ?%prefix_nil_inv; done). rewrite decide_False by (intros ?%prefix_nil_inv; done).
    unfold after_mkdir. rewrite decide_True by apply prefix_nil. done.
  - intros x m Hx. pose proof (Hv x) as Hvx. unfold volume at 1 in Hvx. simpl in Hvx. rewrite Hvx in Hx. unfold after_move in Hx.
    case_decide as Hdx.
    + right. destruct Hdx as [l ->]. rewrite drop_app_length in Hx. apply (serving_storable s) in Hx; [|done].
      destruct Hx as [Hx ?]. split; [|done]. apply sendable_app in Hx as [_ ?]. by apply sendable_app.
    + case_decide; [done|]. unfold after_mkdir in Hx. case_decide as Hp; [|by left].
      right. injection Hx as <-. split; [|done]. eapply sendable_prefix; [|exact Hdst]. etrans; [exact Hp|apply parent_prefix].
Qed.

Lemma copy_volume (s : Server) (src dst : fpath) d t1 : serving s → dst ≠ [] → sendable dst → src ≠ dst →
  volume s src = Some (NFile d) → clear s (parent dst) → volume s dst ≠ Some NDir →
  MkdirAll (sv_fs s) (parent (R ++ dst)) = (None, t1) →
  ∃ t, copyFileContents t1 (R ++ src) (R ++ dst) = (None, t) ∧ serving (set_fs s t) ∧
    ∀ x, volume (set_fs s t) x = after_put dst d (volume s) x.
Proof.
  intros Hs Hne Hdst Hsd Hsrc Hcl Hnd Hm. pose proof (serving_storable s src _ Hs Hsrc) as [_ Hi].
  destruct (put_volume s dst d Hs Hne Hdst Hi Hcl Hnd) as (t1' & t2 & H1 & H2 & Hl & Hwf1 & Hwf2 & Hs3 & Hv3).
  rewrite Hm in H1. injection H1 as <-. exists (Write t2 (R ++ dst) d). split; [|done].
  assert (¬ src `prefix_of` parent dst) as Hnp by (intros Hp; by apply (Hcl src d)).
  assert (t2 !! (R ++ src) = Some (NFile d)) as Hs2.
  { rewrite Hl, decide_False by done. unfold after_mkdir. by rewrite decide_False. }
  assert (t1 !! (R ++ src) = Some (NFile d)) as Hs1.
  { unfold OpenTrunc in H2. destruct (parent_err t1 _); [done|].
    destruct (t1 !! (R ++ dst)) as [[e|]|]; try done; injection H2 as <-;
      by rewrite lookup_insert_ne in Hs2 by by intros ?%app_inv_head. }
  unfold copyFileContents. rewrite (proj2 (Stat_Ok _ _ _ Hwf1) Hs1), H2. unfold ReadData.
  by rewrite (proj2 (Stat_Ok _ _ _ Hwf2) Hs2).
Qed.

(** ** Removals *)
Lemma shrink_serving (s : Server) t : serving s → wf_tree t → t !! R = Some NDir →
  (∀ cs n, t !! (R ++ cs) = Some n → volume s cs = Some n) → serving (set_fs s t).
Proof. intros Hs Hwf Hd Hl. apply serving_tree; [done|done|done|]. intros cs n Hn. left. by apply Hl. Qed.

Lemma root_not (cs : fpath) : cs ≠ [] → ¬ R ++ cs `prefix_of` R.
Proof. intros Hne H%prefix_length. rewrite length_app in H. destruct cs; [done|simpl in H; lia]. Qed.

Lemma remove_volume (s : Server) cs d : serving s → volume s cs = Some (NFile d) →
  ∃ t, Remove (sv_fs s) (R ++ cs) = (None, t) ∧ serving (set_fs s t) ∧
    ∀ x, volume (set_fs s t) x = after_remove cs (volume s) x.
Proof.
  intros Hs Hd. pose proof (Remove_wf (sv_fs s) (R ++ cs) (sv_wf s Hs)) as Hwf.
  assert (Remove (sv_fs s) (R ++ cs) = (None, delete (R ++ cs) (sv_fs s))) as Hr.
  { unfold Remove. by rewrite (proj2 (Stat_Ok _ _ (NFile d) (sv_wf s Hs))). }
  rewrite Hr in Hwf. simpl in Hwf. eexists. split; [exact Hr|].
  assert (∀ x, volume (set_fs s (delete (R ++ cs) (sv_fs s))) x = after_remove cs (volume s) x) as Hv.
  { intros x. unfold volume, after_remove. simpl. rewrite lookup_delete. apply decide_ext.
    split; [by intros ?%app_inv_head|congruence]. }
  split; [|done]. apply shrink_serving; [done|done|..].
  - rewrite lookup_delete_ne; [apply (sv_dir s Hs)|]. intros Hc. pose proof (sv_dir s Hs) as H. rewrite <- Hc in H.
    unfold volume in Hd. congruence.
  - intros x n Hn. specialize (Hv x). unfold volume at 1 in Hv. simpl in Hv. rewrite Hv in Hn. unfold after_remove in Hn.
    by case_decide.
Qed.

Lemma rmdir_volume (s : Server) cs n : serving s → cs ≠ [] → volume s cs = Some n →
  ∃ t, RemoveAll (sv_fs s) (R ++ cs) = (None, t) ∧ serving (set_fs s t) ∧
    ∀ x, volume (set_fs s t) x = after_rmdir cs (volume s) x.
Proof.
  intros Hs Hne Hn. pose proof (RemoveAll_wf (sv_fs s) (R ++ cs) (sv_wf s Hs)) as Hwf.
  set (t := filter (λ kv, ¬ R ++ cs `prefix_of` kv.1) (sv_fs s)).
  assert (RemoveAll (sv_fs s) (R ++ cs) = (None, t)) as Hr.
  { unfold RemoveAll. by rewrite (proj2 (Stat_Ok _ _ n (sv_wf s Hs))). }
  rewrite Hr in Hwf. simpl in Hwf. exists t. split; [done|].
  assert (∀ x, t !! x = if decide (R ++ cs `prefix_of` x) then None else sv_fs s !! x) as Hl.
  { intros x. unfold t. destruct (decide (R ++ cs `prefix_of` x)) as [Hp|Hp].
    - apply map_lookup_filter_None. right. intros m _ Hx. by apply Hx.
    - destruct (sv_fs s !! x) as [m|] eqn:E; [by apply map_lookup_filter_Some|apply map_lookup_filter_None; by left]. }
  assert (∀ x, volume (set_fs s t) x = after_rmdir cs (volume s) x) as Hv.
  { intros x. unfold volume, after_rmdir. simpl. rewrite Hl. apply decide_ext, prefix_root. }
  split; [|done]. apply shrink_serving; [done|done|..].
  - rewrite Hl, decide_False by by apply root_not. apply (sv_dir s Hs).
  - intros x m Hx. specialize (Hv x). unfold volume at 1 in Hv. simpl in Hv. rewrite Hv in Hx. unfold after_rmdir in Hx. by case_decide.
Qed.

(** ** Downloads *)
Lemma trim_join cs : Forall comp_ok cs → TrimPrefix (join_with slash cs) "/" = join_with slash cs.
Proof.
  intros Hcs. unfold TrimPrefix. destruct (strip_prefix "/" (join_with slash cs)) as [r|] eqn:E; [|done].
  apply strip_prefix_Some in E. exfalso. destruct cs as [|x cs]; [done|]. apply Forall_cons in Hcs as [(Hx & _ & _ & Hs) _].
  destruct x as [|a x]; [done|]. assert (a = "/"%char) as ->.
  { destruct cs; simpl in E; injection E; done. }
  done.
Qed.

Lemma uuid_rel fsID cs : Forall comp_ok cs → cs ≠ [] → uuidForRelPath fsID (rel_of cs) = uuidForRelPath fsID (path_of cs).
Proof.
  intros Hcs Hne. unfold uuidForRelPath, rel_of. destruct cs as [|x cs]; [done|]. do 4 f_equal.
  unfold clean_rel. rewrite trim_join by done.
  change (path_of (x :: cs)) with ("/" +:+ join_with slash (x :: cs)). by rewrite TrimPrefix_app.
Qed.

Lemma resolve_rel cs : Forall comp_ok cs → cs ≠ [] → resolveUnder (sc_Root scope) (rel_of cs) = Some (R ++ cs).
Proof using Hre.
  intros Hcs Hne. destruct (re_root Hre) as [r Hr]. pose proof (re_sub Hre) as Hs. rewrite Hr in *.
  rewrite resolveUnder_eq by done. do 2 f_equal. unfold rel_of. destruct cs as [|x cs]; [done|].
  unfold rel_comps, clean_rel. rewrite trim_join by done. change ("/" +:+ join_with slash (x :: cs)) with (path_of (x :: cs)).
  rewrite Clean_path_of by done. by apply abs_comps_path.
Qed.

(** The handles of the volume's files differ. *)
Definition uuid_of (cs : fpath) : string := uuidForRelPath (sc_FilesystemID scope) (path_of cs).
Definition distinct_handles (v : fpath → option node) : Prop :=
  ∀ x y d e, v x = Some (NFile d) → v y = Some (NFile e) → uuid_of x = uuid_of y → x = y.
Definition distinct_uuids (s : Server) : Prop := distinct_handles (volume s).

Lemma volume_file_nonroot s cs d : serving s → volume s cs = Some (NFile d) → cs ≠ [].
Proof. intros Hs Hd ->. unfold volume in Hd. rewrite app_nil_r, (sv_dir s Hs) in Hd. done. Qed.

(** The scan finds the file a handle was made for. *)
Lemma find_uuid s cs d : serving s → distinct_uuids s → volume s cs = Some (NFile d) →
  relPathForUUID (sv_fs s) scope (uuid_of cs) = Some (rel_of cs).
Proof.
  intros Hs Hu Hd. unfold relPathForUUID. set (l := map _ _).
  assert (∀ rel, rel ∈ l → ∃ x e, rel = rel_of x ∧ volume s x = Some (NFile e)) as Hl.
  { intros rel Hin. unfold l in Hin. apply list_elem_of_fmap in Hin as (p & -> & ([x ->] & e & He)%walk_files_elem).
    exists x, e. by rewrite drop_app_length. }
  assert (∀ x e, volume s x = Some (NFile e) → uuidForRelPath (sc_FilesystemID scope) (rel_of x) = uuid_of x) as Hux.
  { intros x e He. apply uuid_rel; [by eapply sendable_ok, sv_names|by eapply volume_file_nonroot]. }
  destruct (List.find _ l) as [rel|] eqn:E.
  - apply List.find_some in E as [Hin%list_elem_of_In Heq]. apply Hl in Hin as (x & e & -> & He).
    case_bool_decide as Hb; [|done]. rewrite (Hux x e) in Hb by done. by rewrite (Hu x cs e d He Hd Hb).
  - exfalso. assert (rel_of cs ∈ l) as Hin.
    { apply list_elem_of_fmap. exists (R ++ cs). rewrite drop_app_length. split; [done|].
      apply walk_files_elem. split; [by eexists|]. eauto. }
    apply list_elem_of_In in Hin. apply (List.find_none _ _ E) in Hin. rewrite (Hux cs d) in Hin by done.
    by rewrite bool_decide_eq_true_2 in Hin.
Qed.

Definition download_json (cs : fpath) (rng : option Range) : json := enc_download (c_fsID c) (wire_intent OpFileDownload) (uuid_of cs) rng.

Lemma uuid_of_text cs : uuid_of cs ≠ "" ∧ valid_utf8 (uuid_of cs) ∧ short (uuid_of cs).
Proof. unfold uuid_of. split; [apply uuid_nonempty|]. split; [apply uuid_valid|apply uuid_short]. Qed.

Lemma download_json_ok cs rng : range_in_int64 rng → clean_json (download_json cs rng) ∧ fits_request (download_json cs rng).
Proof using Hre.
  intros Hr. destruct (re_id Hre) as (_ & Hi & Hi'), (uuid_of_text cs) as (_ & Hv & Hsh). split.
  - exact (download_clean _ _ Hi (wire_intent_valid _) _ _ Hv).
  - exact (download_request_fits _ _ Hi Hi' (wire_intent_valid _) (wire_intent_short _) _ _ Hv Hsh Hr).
Qed.

Lemma handle_download s cs d rng : serving s → distinct_uuids s → volume s cs = Some (NFile d) → range_in_int64 rng →
  dispatch OpFileDownload scope (print_json (download_json cs rng)) s =
    (match byte_window (wire_range <$> rng) (zlen d) with
     | Err msg => httpjson_Error 400 msg
     | Ok (start, length) => mkResp 200 "" length [Seg (ztake length (zdrop start d)) None]
     end, s).
Proof using Hre.
  intros Hs Hu Hd Hr. rewrite (proj2 (proj2 (dispatch_read _ s))). unfold handleFileDownload.
  rewrite (Unmarshal_print _ _ _ (proj1 (download_json_ok cs rng Hr))).
  unfold download_json. rewrite (proj2 (read_download _ _ _ _ Hr)). cbn [db_UUID db_Range].
  rewrite (decide_False (P := uuid_of cs = "")) by exact (proj1 (uuid_of_text cs)). rewrite (find_uuid s cs d) by done.
  rewrite resolve_rel by first [by eapply sendable_ok, sv_names|by eapply volume_file_nonroot].
  rewrite (proj2 (Stat_Ok _ _ (NFile d) (sv_wf s Hs)) Hd). cbn [node_size].
  by destruct (byte_window _ _) as [[start length]|msg].
Qed.

(** A window that lies in int64 is served as that slice. *)
Definition window (rng : option Range) (d : bytes) : Z * Z :=
  match rng with
  | None => (0, zlen d)
  | Some r => let start := Z.min (r_Offset r) (zlen d) in (start, Z.min (start + r_Length r) (zlen d) - start)
  end.
Definition window_ok (rng : option Range) (d : bytes) : Prop :=
  match rng with None => True | Some r => 0 <= r_Offset r ∧ 0 <= r_Length r ∧ Z.min (r_Offset r) (zlen d) + r_Length r <= int64_max end.

Lemma byte_window_ok rng d : window_ok rng d → byte_window (wire_range <$> rng) (zlen d) = Ok (window rng d).
Proof.
  destruct rng as [[o l]|]; [|done]. simpl. intros (Ho & Hl & Hsum). unfold window. cbn [r_Offset r_Length] in *.
  rewrite (proj2 (Z.ltb_ge o 0)), (proj2 (Z.ltb_ge l 0)) by done. cbn [orb]. pose proof (zlen_nonneg d).
  assert ((if o >? zlen d then zlen d else o) = Z.min o (zlen d)) as -> by (destruct (Z.gtb_spec o (zlen d)); lia).
  rewrite int64_wrap_id by (unfold in_int64, int64_min, int64_max in *; lia).
  rewrite (proj2 (Z.ltb_ge _ _)) by lia.
  destruct (Z.gtb_spec (Z.min o (zlen d) + l) (zlen d)); do 2 f_equal; lia.
Qed.

Lemma doDownload_at s cs d rng limit : serving s → distinct_uuids s → volume s cs = Some (NFile d) →
  range_in_int64 rng → window_ok rng d → (window rng d).2 <= limit →
  doDownload c (c_fsID c) (uuid_of cs) (wire_intent OpFileDownload) rng limit s =
    (let '(start, length) := window rng d in
     Ok (Bounded (newBoundedBody [Seg (ztake length (zdrop start d)) None] (bool_decide (is_Some rng)) limit)), later s).
Proof using Hre.
  intros Hs Hu Hd Hr Hw Hlim. unfold doDownload. rewrite (re_url Hre).
  assert (admitted OpFileDownload) as Ha by (apply admitted_read; split; op_in).
  destruct (download_json_ok cs rng Hr) as [Hj Hf].
  pose proof (handle_download s cs d rng Hs Hu Hd Hr) as Hdisp. rewrite (byte_window_ok rng d Hw) in Hdisp.
  pose proof (proj1 (read_download (c_fsID c) (wire_intent OpFileDownload) (uuid_of cs) rng Hr)) as Hc.
  destruct (window rng d) as [start length]. cbn [snd] in Hlim.
  change (enc_FileDownloadRequest _) with (download_json cs rng).
  rewrite (exchange_json OpFileDownload _ s _ s Hs Ha Hj Hf Hc Hdisp). cbn [do_result rs_status rs_content_length rs_body].
  change (is_2xx 200) with true. cbn [negb].
  assert ((length >=? 0) && (length >? limit) = false) as ->; [|done].
  destruct (Z.gtb_spec length limit); [lia|]. by rewrite andb_false_r.
Qed.

(** ** Listings *)
Lemma join_child cs name : Forall comp_ok cs → comp_ok name → Join [path_of cs; name] = path_of (cs ++ [name]).
Proof.
  intros Hcs Hn. assert (name ≠ "") as Hne by apply Hn. unfold Join. rewrite !filter_cons_True by done. rewrite filter_nil.
  cbn [join_with]. assert (path_of cs +:+ String slash name = String slash (join_with slash cs +:+ String slash name)) as -> by done.
  rewrite Clean_rooted. f_equal.
  change (clean_comps true [] (split_on slash (String slash (join_with slash cs +:+ String slash name))))
    with (clean_comps true [] (split_on slash (join_with slash cs +:+ String slash name))).
  rewrite split_on_app, clean_comps_app.
  change (clean_comps true [] (split_on slash (join_with slash cs))) with (clean_comps true [] (split_on slash (path_of cs))).
  rewrite clean_comps_path by done. cbn [rev app].
  assert (Forall comp_ok [name]) as Hf by (by constructor).
  rewrite (split_on_single slash name) by apply Hn. cbn [clean_comps].
  destruct Hn as (?&?&?&?). rewrite !decide_False by done. simpl. by rewrite rev_involutive.
Qed.

(** What a listing of [cs] sends for its children. *)
Definition child_arm (s : Server) (cs : fpath) (e : string * node) : wireFile + wireDir := arm_at s (cs ++ [e.1]) e.2.

Lemma list_arm_child s cs e : serving s → sendable cs → volume s (cs ++ [e.1]) = Some e.2 →
  list_arm s scope (path_of cs) (R ++ cs) e = child_arm s cs e.
Proof.
  intros Hs Hcs He. destruct e as [name n]. simpl in *. pose proof (sv_names s Hs _ _ He) as Hn.
  apply sendable_app in Hn as [_ Hn%sendable_ok]. apply Forall_cons in Hn as [Hn _].
  unfold list_arm, child_arm, arm_at. cbn [fst snd]. rewrite join_child by auto with go.
  rewrite <- app_assoc. by destruct n.
Qed.

Definition list_json (cs : fpath) : json := path_json OpListDirectory cs.

(** The children of a directory of the volume. *)
Definition children (s : Server) (cs : fpath) (es : list (string * node)) : Prop :=
  NoDup es.*1 ∧ StronglySorted name_le es.*1 ∧ ∀ name n, (name, n) ∈ es ↔ volume s (cs ++ [name]) = Some n.

Lemma children_of s cs : serving s → volume s cs = Some NDir →
  ∃ es, ReadDir (sv_fs s) (R ++ cs) = Ok es ∧ children s cs es.
Proof.
  intros Hs Hd. destruct (ReadDir_spec (sv_fs s) (R ++ cs) (sv_wf s Hs) Hd) as (es & He & Hnd & Hnames & Hin).
  exists es. split; [done|]. split; [done|]. split; [rewrite Hnames; apply child_names_sorted|].
  intros name n. rewrite Hin. unfold volume. by rewrite <- app_assoc.
Qed.

Lemma list_arms_clean s cs es : serving s → children s cs es → Forall clean_arm (map (child_arm s cs) es).
Proof using HL.
  intros Hs (_ & _ & Hc). apply Forall_fmap, Forall_forall. intros [name n] Hin%Hc. unfold child_arm. cbn [fst snd compose].
  apply arm_at_clean; [done|by eapply sv_names|done].
Qed.

Lemma ListDirectoryAll_at s cs : serving s → mountable cs → volume s cs = Some NDir →
  ∃ es, children s cs es ∧
    (fits_response (enc_entries (map (child_arm s cs) es)) →
     ListDirectoryAll c (path_of cs) s = (Ok (map entry_of (map (child_arm s cs) es)), later s)).
Proof using Hre HL.
  intros Hs Hm Hd. destruct (children_of s cs Hs Hd) as (es & He & Hch). exists es. split; [done|]. intros Hfit.
  pose proof (list_arms_clean s cs es Hs Hch) as Hcl. destruct (Hch) as (_ & _ & Hin).
  assert (admitted OpListDirectory) as Ha by (apply admitted_read; split; op_in).
  assert (dispatch OpListDirectory scope (print_json (path_json OpListDirectory cs)) s =
    (httpjson_OK (enc_entries (map (child_arm s cs) es)), s)) as Hdisp.
  { rewrite (proj1 (proj2 (dispatch_read _ s))). unfold handleListDirectory. rewrite with_path_eq by apply Hm. rewrite He.
    do 3 f_equal. apply map_ext_in. intros e Hie%list_elem_of_In. apply list_arm_child; [done|apply Hm|].
    destruct e as [name n]. by apply Hin. }
  pose proof (call_OK OpListDirectory _ s s _ _ _ _ Hs Ha (path_json_clean OpListDirectory cs (proj1 Hm)) (path_json_fits OpListDirectory cs Hm)
    (path_json_common OpListDirectory cs) Hdisp (enc_entries_clean _ Hcl) Hfit (read_entries _ Hcl)) as Hcall.
  unfold ListDirectoryAll, ListDirectoryStream. rewrite stamp_op by op_in. unfold list_fuel. cbn [list_loop].
  unfold fetch_page. change (page_request (c_fsID c) (path_of cs) (wire_intent OpListDirectory) "") with (path_json OpListDirectory cs).
  rewrite Hcall. cbn [lr_Entries lr_Cursor]. rewrite yield_all_collect. cbn [app].
  rewrite decide_True by done. by destruct (map (child_arm s cs) es).
Qed.
End stack.
