(* ===== verification/MountRefinement.v ===== *)
(** * The mount refines an abstract file system

    The abstract volume is a function from paths to nodes; each backend
    operation has an abstract effect and an abstract precondition.  Any
    sequence of operations admissible in the abstract volume succeeds through
    the client, the wire and the reference broker, and leaves exactly the
    abstract result; reads and listings report it. *)
From Stdlib Require Import Ascii String.
From stdpp Require Import base list strings numbers gmap sorting.
From S2P Require Import Prelude GoErrors GoIO GoJson GoPath GoTime JsonText BrokerErrors Messages Client Cursor Download Upload Ocufs OcufsSpec HostFS Filestore FilestoreSpec WireCodec EndToEnd.
Local Open Scope Z_scope.

(** ** The abstract volume *)
Abbreviation vol := (fpath → option node).

#[export] Instance vol_equiv : Equiv vol := pointwise_relation fpath eq.
#[export] Instance vol_equivalence : Equivalence (≡@{vol}).
Proof. unfold equiv, vol_equiv. apply _. Qed.

#[export] Instance after_mkdir_proper cs : Proper ((≡) ==> (≡)) (after_mkdir cs).
Proof. intros v w H x. unfold after_mkdir. by rewrite (H x). Qed.
#[export] Instance after_put_proper cs d : Proper ((≡) ==> (≡)) (after_put cs d).
Proof. intros v w H x. unfold after_put. by rewrite (after_mkdir_proper _ v w H x). Qed.
#[export] Instance after_remove_proper cs : Proper ((≡) ==> (≡)) (after_remove cs).
Proof. intros v w H x. unfold after_remove. by rewrite (H x). Qed.
#[export] Instance after_rmdir_proper cs : Proper ((≡) ==> (≡)) (after_rmdir cs).
Proof. intros v w H x. unfold after_rmdir. by rewrite (H x). Qed.
#[export] Instance after_move_proper src dst : Proper ((≡) ==> (≡)) (after_move src dst).
Proof. intros v w H x. unfold after_move. by rewrite (H _), (after_mkdir_proper _ v w H x). Qed.

Definition vclear (v : vol) (cs : fpath) : Prop := ∀ q d, q `prefix_of` cs → v q ≠ Some (NFile d).
#[export] Instance vclear_proper : Proper ((≡) ==> (=) ==> iff) vclear.
Proof. intros v w H cs ? <-. unfold vclear. by setoid_rewrite (H _ : v _ = w _). Qed.

(** The prefixes of a path decide it. *)
Definition no_file (o : option node) : bool := match o with Some (NFile _) => false | _ => true end.
#[export] Instance vclear_dec v cs : Decision (vclear v cs).
Proof.
  refine (cast_if (decide (Forall (λ n, no_file (v (take n cs)) = true) (seq 0 (S (length cs)))))).
  - intros q d [l ->] Hq. rewrite Forall_forall in f. assert (length q ∈ seq 0 (S (length (q ++ l)))) as Hin.
    { apply elem_of_seq. rewrite length_app. lia. }
    specialize (f _ Hin). simpl in f. by rewrite take_app_length, Hq in f.
  - intros Hc. apply n. apply Forall_forall. intros k _. destruct (v (take k cs)) as [[d|]|] eqn:E; try done.
    exfalso. apply (Hc (take k cs) d); [|done]. exists (drop k cs). by rewrite take_drop.
Defined.
#[export] Instance is_file_dec (o : option node) : Decision (∃ d, o = Some (NFile d)).
Proof. refine (match o with Some (NFile d) => left _ | _ => right _ end); [by exists d|by intros [d ?]..]. Defined.

(** An operation of the mount, by remote names; a source object is looked up
    first, as the VFS does. *)
Inductive mount_op : Type :=
| MPut (remote : string) (src : reader)
| MMkdir (dir : string)
| MRmdir (dir : string)
| MRemove (remote : string)
| MCopy (src dst : string)
| MMove (src dst : string)
| MDirMove (src dst : string).

(** ** Running operations, over any broker *)
Section exec.
Context {ENC : Encoder} `{B : brokerClient W} (f : Fs).

Definition is_Ok {E A} (r : result E A) : bool := match r with Ok _ => true | Err _ => false end.
Definition is_nil (e : option error) : bool := match e with None => true | Some _ => false end.

Definition mount_exec (op : mount_op) (s : W) : bool * W :=
  let on_object r (k : Object → W → bool * W) :=
    match NewObject f r s with (Ok o, s1) => k o s1 | (Err _, s1) => (false, s1) end in
  match op with
  | MPut r src => let '(res, s') := Put f src {| src_Remote := r; src_Size := zlen (content src) |} s in (is_Ok res, s')
  | MMkdir d => let '(e, s') := Mkdir f d s in (is_nil e, s')
  | MRmdir d => let '(e, s') := Rmdir f d s in (is_nil e, s')
  | MRemove r => on_object r (λ o s1, let '(e, s') := Ocufs.Remove o s1 in (is_nil e, s'))
  | MCopy a b => on_object a (λ o s1, let '(res, _, s') := Copy f (OcuObject o) b s1 in (is_Ok res, s'))
  | MMove a b => on_object a (λ o s1, let '(res, _, s') := Move f (OcuObject o) b s1 in (is_Ok res, s'))
  | MDirMove a b => let '(e, s') := DirMove f (OcuFs f) a b s in (is_nil e, s')
  end.

(** A run stops at the first failure. *)
Fixpoint mount_run (ops : list mount_op) (s : W) : bool * W :=
  match ops with
  | [] => (true, s)
  | op :: ops' => let '(ok, s1) := mount_exec op s in if ok : bool then mount_run ops' s1 else (false, s1)
  end.
End exec.

Section mount.
Context {HO : Host} {HL : HostLaws HO} {CV : CredentialValidator} {UP : UrlPath} {RU : RequestURL}.
Context {ENC : Encoder} {RD : RangeDecode}.
Context (net : Network) (c : Client) (scope : Scope) (f : Fs).
#[local] Instance BC : brokerClient Server := client_broker (TW := wire net) c.

(** The components of the broker path a remote name stands for. *)
Definition mp (remote : string) : fpath := abs_comps (absPath f remote).

Lemma absPath_mp remote : absPath f remote = path_of (mp remote).
Proof. unfold mp. destruct (absPath_canonical f remote) as (cs & Hcs & ->). by rewrite abs_comps_path. Qed.

(** What an operation needs of the volume, and what it makes of it. *)
Definition mount_pre (op : mount_op) (v : vol) : Prop :=
  match op with
  | MPut r src => mountable (mp r) ∧ mp r ≠ [] ∧ vclear v (parent (mp r)) ∧ v (mp r) ≠ Some NDir ∧
                  is_EOF (final_err src) = true ∧ zlen (content src) <= maxUploadBytes
  | MMkdir d => mountable (mp d) ∧ vclear v (mp d)
  | MRmdir d => mountable (mp d) ∧ mp d ≠ [] ∧ v (mp d) = Some NDir
  | MRemove r => mountable (mp r) ∧ ∃ d, v (mp r) = Some (NFile d)
  | MCopy a b | MMove a b =>
      mountable (mp a) ∧ mountable (mp b) ∧ mp b ≠ [] ∧ mp a ≠ mp b ∧ vclear v (parent (mp b)) ∧ v (mp b) ≠ Some NDir ∧
      ∃ d, v (mp a) = Some (NFile d)
  | MDirMove a b =>
      mountable (mp a) ∧ mountable (mp b) ∧ mp a ≠ [] ∧ mp b ≠ [] ∧ ¬ mp a `prefix_of` mp b ∧ vclear v (parent (mp b)) ∧
      v (mp b) = None ∧ v (mp a) = Some NDir
  end.

Definition file_at (v : vol) (cs : fpath) : bytes := match v cs with Some (NFile d) => d | _ => [] end.

Definition mount_spec (v : vol) (op : mount_op) : vol :=
  match op with
  | MPut r src => after_put (mp r) (content src) v
  | MMkdir d => after_mkdir (mp d) v
  | MRmdir d => after_rmdir (mp d) v
  | MRemove r => after_remove (mp r) v
  | MCopy a b => after_put (mp b) (file_at v (mp a)) v
  | MMove a b | MDirMove a b => after_move (mp a) (mp b) v
  end.

Fixpoint admissible (ops : list mount_op) (v : vol) : Prop :=
  match ops with
  | [] => True
  | op :: ops' => mount_pre op v ∧ admissible ops' (mount_spec v op)
  end.

#[export] Instance mount_pre_dec op v : Decision (mount_pre op v).
Proof. destruct op; simpl; apply _. Defined.
#[export] Instance admissible_dec ops v : Decision (admissible ops v).
Proof. revert v. induction ops as [|op ops IH]; intros v; simpl; apply _. Defined.

#[export] Instance mount_spec_proper : Proper ((≡) ==> (=) ==> (≡)) mount_spec.
Proof.
  intros v w H op ? <-. destruct op; simpl; try by rewrite H.
  unfold file_at. rewrite (H (mp src)). by rewrite H.
Qed.

#[export] Instance mount_pre_proper : Proper ((=) ==> (≡) ==> iff) mount_pre.
Proof. intros op ? <- v w H. destruct op; simpl; rewrite ?H; repeat rewrite (H (mp _)); try done. Qed.

Lemma admissible_proper ops v w : v ≡ w → admissible ops v → admissible ops w.
Proof.
  revert v w. induction ops as [|op ops IH]; intros v w H; simpl; [done|]. intros [Hp Ha].
  split; [by rewrite <- H|]. eapply IH; [|exact Ha]. by rewrite H.
Qed.

(** ** One operation *)
Hypothesis Hre : reaches c scope.

Lemma serving_volume_eq s t : volume scope (later (set_fs s t)) = volume scope (set_fs s t).
Proof. done. Qed.

(** The object the broker's metadata of a file describes. *)
Definition object_at (s : Server) (remote : string) (d : bytes) : Object :=
  let m := file_of (file_arm s scope (path_of (mp remote)) (abs_comps (sc_Root scope) ++ mp remote) (NFile d)) in
  mkObject f remote (path_of (mp remote)) (uuid_of scope (mp remote)) (zlen d) (parseMtime (f_Mtime m)) (f_Mode m) "" "".

Lemma path_of_nonempty cs : path_of cs ≠ "".
Proof. done. Qed.

(** A lookup reports exactly what the volume holds. *)
Lemma NewObject_at s remote : serving c scope s → mountable (mp remote) →
  match volume scope s (mp remote) with
  | Some (NFile d) => NewObject f remote s = (Ok (object_at s remote d), later s)
  | Some NDir => NewObject f remote s = (Err (ESent fs_ErrorIsDir), later s)
  | None => vclear (volume scope s) (mp remote) → NewObject f remote s = (Err (ESent fs_ErrorObjectNotFound), later s)
  end.
Proof using Hre HL.
  intros Hs Hm. pose proof (ReadMetadata_at net c scope Hre s (mp remote) Hs Hm) as H.
  unfold NewObject. rewrite absPath_mp. unfold bc_ReadMetadata, BC, client_broker.
  destruct (volume scope s (mp remote)) as [[d|]|] eqn:E.
  - by rewrite H.
  - by rewrite H.
  - intros Hc. destruct (H Hc) as [body ->]. rewrite MapHTTPStatus_Is. by rewrite bool_decide_eq_true_2.
Qed.

Definition step_ok (op : mount_op) (s : Server) : Prop :=
  ∃ s', mount_exec f op s = (true, s') ∧ serving c scope s' ∧ volume scope s' ≡ mount_spec (volume scope s) op.

Section writes.
Hypothesis Hf : fs_readOnly f = false.
Hypothesis Hsc : sc_ReadOnly scope = false.

Lemma admitted_any op : op ≠ OpFileUpload → admitted scope op.
Proof using Hsc. intros. by apply admitted_write. Qed.

Lemma put_step r src s : serving c scope s → mount_pre (MPut r src) (volume scope s) → step_ok (MPut r src) s.
Proof using Hre Hf Hsc.
  intros Hs (Hm & Hne & Hc & Hd & He & Hl). unfold step_ok, mount_exec, Put. rewrite Hf, absPath_mp. cbn [src_Remote src_Size].
  destruct (Upload_at net c scope Hre s (mp r) src Hs Hsc Hm Hne He Hl Hc Hd) as (s' & Hu & Hs' & Hv).
  unfold bc_Upload, BC, client_broker. rewrite Hu. exists s'. done.
Qed.

Lemma mkdir_step d s : serving c scope s → mount_pre (MMkdir d) (volume scope s) → step_ok (MMkdir d) s.
Proof using Hre Hf Hsc.
  intros Hs (Hm & Hc). unfold step_ok, mount_exec, Mkdir. rewrite Hf, absPath_mp.
  destruct (mkdir_volume c scope s (mp d) Hs (proj1 Hm) Hc) as (t & Ht & Hs' & Hv).
  pose proof (path_ack net c scope Hre OpMakeDirectory (mp d) s handleMakeDirectory MkdirAll
    (λ raw, proj1 (dispatch_write scope raw s)) (λ raw, eq_refl) Hs (admitted_any OpMakeDirectory ltac:(op_in)) Hm) as Hcall.
  cbv zeta in Hcall. rewrite Ht in Hcall. cbn [fst snd] in Hcall.
  unfold bc_MakeDirectory, BC, client_broker, MakeDirectory. rewrite stamp_op by op_in.
  change (enc_MakeDirectoryRequest _) with (path_json c OpMakeDirectory (mp d)). rewrite Hcall.
  exists (later (set_fs s t)). split; [done|]. split; [by apply serving_later|exact Hv].
Qed.

Lemma rmdir_step d s : serving c scope s → mount_pre (MRmdir d) (volume scope s) → step_ok (MRmdir d) s.
Proof using Hre Hf Hsc.
  intros Hs (Hm & Hne & Hd). unfold step_ok, mount_exec, Rmdir. rewrite Hf, absPath_mp.
  destruct (rmdir_volume c scope s (mp d) NDir Hs Hne Hd) as (t & Ht & Hs' & Hv).
  pose proof (path_ack net c scope Hre OpRemoveDirectory (mp d) s handleRemoveDirectory RemoveAll
    (λ raw, proj1 (proj2 (dispatch_write scope raw s))) (λ raw, eq_refl) Hs (admitted_any OpRemoveDirectory ltac:(op_in)) Hm) as Hcall.
  cbv zeta in Hcall. rewrite Ht in Hcall. cbn [fst snd] in Hcall.
  unfold bc_RemoveDirectory, BC, client_broker, RemoveDirectory. rewrite stamp_op by op_in.
  change (enc_RemoveDirectoryRequest _) with (path_json c OpRemoveDirectory (mp d)). rewrite Hcall.
  exists (later (set_fs s t)). split; [done|]. split; [by apply serving_later|exact Hv].
Qed.

Lemma remove_step r s : serving c scope s → mount_pre (MRemove r) (volume scope s) → step_ok (MRemove r) s.
Proof using Hre HL Hf Hsc.
  intros Hs (Hm & d & Hd). unfold step_ok, mount_exec. pose proof (NewObject_at s r Hs Hm) as Ho. rewrite Hd in Ho. rewrite Ho.
  assert (serving c scope (later s)) as Hs1 by by apply serving_later.
  destruct (remove_volume c scope (later s) (mp r) d Hs1 Hd) as (t & Ht & Hs' & Hv).
  pose proof (path_ack net c scope Hre OpRemoveFile (mp r) (later s) handleRemoveFile HostFS.Remove
    (λ raw, proj1 (proj2 (proj2 (dispatch_write scope raw (later s))))) (λ raw, eq_refl) Hs1 (admitted_any OpRemoveFile ltac:(op_in)) Hm) as Hcall.
  cbv zeta in Hcall. rewrite Ht in Hcall. cbn [fst snd] in Hcall.
  unfold Ocufs.Remove, object_at. cbn [o_fs o_path]. rewrite Hf.
  unfold bc_RemoveFile, BC, client_broker, RemoveFile. rewrite stamp_op by op_in.
  change (enc_RemoveFileRequest _) with (path_json c OpRemoveFile (mp r)). rewrite Hcall.
  exists (later (set_fs (later s) t)). split; [done|]. split; [by apply serving_later|exact Hv].
Qed.

Lemma wf_below s x y n : serving c scope s → x `prefix_of` y → x ≠ y → volume scope s y = Some n → volume scope s x = Some NDir.
Proof.
  intros Hs [l ->] Hne Hn. destruct l as [|e l]; [by rewrite app_nil_r in Hne|].
  unfold volume in *. apply (wf_prefix (sv_fs s) _ (e :: l)); [apply (sv_wf _ _ s Hs)| |done]. rewrite <- app_assoc. eauto.
Qed.

(** What a source file and a destination path leave open. *)
Lemma file_src_apart s a b d : serving c scope s → a ≠ b → volume scope s a = Some (NFile d) → b ≠ [] →
  vclear (volume scope s) (parent b) → volume scope s b ≠ Some NDir → ¬ a `prefix_of` b ∧ ¬ b `prefix_of` a ∧ a ≠ [].
Proof.
  intros Hs Hab Hd Hbne Hc Hb. split; [|split].
  - intros [l ->]. destruct l as [|e l _] using rev_ind; [by rewrite app_nil_r in Hab|].
    apply (Hc a d); [|done]. rewrite app_assoc. unfold parent. rewrite removelast_last. by eexists.
  - intros Hp. apply Hb. by eapply wf_below.
  - by eapply volume_file_nonroot.
Qed.

Lemma bc_CopyFile_call x y w :
  bc_CopyFile x y w = call (TW := wire net) c OpCopyFile (enc_move (c_fsID c) (wire_intent OpCopyFile) x y) dec_AckResponse tt w.
Proof. change (bc_CopyFile x y w) with (CopyFile (TW := wire net) c x y w). unfold CopyFile. by rewrite stamp_op by op_in. Qed.

Lemma bc_MoveFile_call x y w :
  bc_MoveFile x y w = call (TW := wire net) c OpMoveFile (enc_move (c_fsID c) (wire_intent OpMoveFile) x y) dec_AckResponse tt w.
Proof. change (bc_MoveFile x y w) with (MoveFile (TW := wire net) c x y w). unfold MoveFile. by rewrite stamp_op by op_in. Qed.

Lemma bc_MoveDirectory_call x y w :
  bc_MoveDirectory x y w = call (TW := wire net) c OpMoveDirectory (enc_movedir (c_fsID c) (wire_intent OpMoveDirectory) x y) dec_AckResponse tt w.
Proof. change (bc_MoveDirectory x y w) with (MoveDirectory (TW := wire net) c x y w). unfold MoveDirectory. by rewrite stamp_op by op_in. Qed.

Lemma copy_step a b s : serving c scope s → mount_pre (MCopy a b) (volume scope s) → step_ok (MCopy a b) s.
Proof using Hre HL Hf Hsc.
  intros Hs (Hma & Hmb & Hbne & Hab & Hc & Hb & d & Hd). unfold step_ok, mount_exec.
  pose proof (NewObject_at s a Hs Hma) as Ho. rewrite Hd in Ho. rewrite Ho.
  assert (serving c scope (later s)) as Hs1 by by apply serving_later.
  destruct (move_json_ok c scope Hre OpCopyFile (mp a) (mp b) Hma Hmb) as (Hj & Hft & _ & _).
  destruct (srcdst_ack net c scope Hre OpCopyFile (move_json c OpCopyFile (mp a) (mp b)) (mp a) (mp b) true copyFileContents (later s)
    (λ raw, proj1 (proj2 (proj2 (proj2 (dispatch_write scope raw (later s))))))
    (proj1 (read_move _ _ _ _)) (proj2 (read_move _ _ _ _)) Hj Hft Hs1 (admitted_any OpCopyFile ltac:(op_in)) (proj1 Hma) (proj1 Hmb) Hbne Hc (or_introl eq_refl))
    as (t1 & Hm & Hs2 & Hv2 & Hcall).
  destruct (copy_volume c scope (later s) (mp a) (mp b) d t1 Hs1 Hbne (proj1 Hmb) Hab Hd Hc Hb Hm) as (t & Ht & Hs3 & Hv3).
  cbv zeta in Hcall. rewrite Ht in Hcall. cbn [fst snd] in Hcall.
  unfold Copy, transferFile, object_at. rewrite Hf. cbn [o_fs o_path]. rewrite bool_decide_eq_true_2 by done. cbn [negb].
  rewrite absPath_mp. rewrite bc_CopyFile_call. unfold move_json in Hcall. rewrite Hcall. unfold Size. cbn [o_uuid].
  rewrite bool_decide_eq_false_2 by exact (proj1 (uuid_of_text scope (mp a))). cbn [andb].
  exists (later (set_fs (later s) t)). split; [done|]. split; [by apply serving_later|]. intros x. etrans; [exact (Hv3 x)|].
  unfold mount_spec, file_at. by rewrite Hd.
Qed.

Lemma move_step a b s : serving c scope s → mount_pre (MMove a b) (volume scope s) → step_ok (MMove a b) s.
Proof using Hre HL Hf Hsc.
  intros Hs (Hma & Hmb & Hbne & Hab & Hc & Hb & d & Hd). unfold step_ok, mount_exec.
  pose proof (NewObject_at s a Hs Hma) as Ho. rewrite Hd in Ho. rewrite Ho.
  assert (serving c scope (later s)) as Hs1 by by apply serving_later.
  destruct (move_json_ok c scope Hre OpMoveFile (mp a) (mp b) Hma Hmb) as (Hj & Hft & _ & _).
  destruct (file_src_apart s (mp a) (mp b) d Hs Hab Hd Hbne Hc Hb) as (Hap & Hbp & Hane).
  destruct (srcdst_ack net c scope Hre OpMoveFile (move_json c OpMoveFile (mp a) (mp b)) (mp a) (mp b) true Rename (later s)
    (λ raw, proj1 (proj2 (proj2 (proj2 (proj2 (dispatch_write scope raw (later s)))))))
    (proj1 (read_move _ _ _ _)) (proj2 (read_move _ _ _ _)) Hj Hft Hs1 (admitted_any OpMoveFile ltac:(op_in)) (proj1 Hma) (proj1 Hmb) Hbne Hc (or_introl eq_refl))
    as (t1 & Hm & Hs2 & Hv2 & Hcall).
  destruct (rename_volume c scope (later s) (mp a) (mp b) t1 Hs1 (proj1 Hmb) Hbne Hane Hs2 Hv2) as (t & Ht & Hs3 & Hv3);
    [by exists (NFile d)|done|done| |].
  { change (volume scope (later s)) with (volume scope s). rewrite Hd. by destruct (volume scope s (mp b)) as [[]|]. }
  cbv zeta in Hcall. rewrite Ht in Hcall. cbn [fst snd] in Hcall.
  unfold Move, transferFile, object_at. rewrite Hf. cbn [o_fs o_path]. rewrite bool_decide_eq_true_2 by done. cbn [negb].
  rewrite absPath_mp. rewrite bc_MoveFile_call. unfold move_json in Hcall. rewrite Hcall. unfold Size. cbn [o_uuid].
  rewrite bool_decide_eq_false_2 by exact (proj1 (uuid_of_text scope (mp a))). cbn [andb].
  exists (later (set_fs (later s) t)). split; [done|]. split; [by apply serving_later|exact Hv3].
Qed.

Lemma dirmove_step a b s : serving c scope s → mount_pre (MDirMove a b) (volume scope s) → step_ok (MDirMove a b) s.
Proof using Hre Hf Hsc.
  intros Hs (Hma & Hmb & Hane & Hbne & Hap & Hc & Hb & Hd). unfold step_ok, mount_exec.
  destruct (move_json_ok c scope Hre OpMoveDirectory (mp a) (mp b) Hma Hmb) as (_ & _ & Hj & Hft).
  assert (¬ mp b `prefix_of` mp a) as Hbp.
  { intros Hp. assert (volume scope s (mp b) = Some NDir); [|congruence]. apply (wf_below s (mp b) (mp a) NDir); try done. intros He. apply Hap. by rewrite He. }
  destruct (srcdst_ack net c scope Hre OpMoveDirectory (movedir_json c (mp a) (mp b)) (mp a) (mp b) false Rename s
    (λ raw, proj2 (proj2 (proj2 (proj2 (proj2 (dispatch_write scope raw s))))))
    (proj1 (read_movedir _ _ _ _)) (proj2 (read_movedir _ _ _ _)) Hj Hft Hs (admitted_any OpMoveDirectory ltac:(op_in)) (proj1 Hma) (proj1 Hmb) Hbne Hc (or_intror Hb))
    as (t1 & Hm & Hs2 & Hv2 & Hcall).
  destruct (rename_volume c scope s (mp a) (mp b) t1 Hs (proj1 Hmb) Hbne Hane Hs2 Hv2) as (t & Ht & Hs3 & Hv3);
    [by exists NDir|done|done| |].
  { by rewrite Hd, Hb. }
  cbv zeta in Hcall. rewrite Ht in Hcall. cbn [fst snd] in Hcall.
  unfold DirMove. rewrite Hf. rewrite bool_decide_eq_true_2 by done. cbn [negb].
  rewrite !absPath_mp. rewrite bc_MoveDirectory_call. unfold movedir_json in Hcall. rewrite Hcall.
  exists (later (set_fs s t)). split; [done|]. split; [by apply serving_later|exact Hv3].
Qed.

Lemma mount_step op s : serving c scope s → mount_pre op (volume scope s) → step_ok op s.
Proof using Hre HL Hf Hsc.
  destruct op; [apply put_step|apply mkdir_step|apply rmdir_step|apply remove_step|apply copy_step|apply move_step|apply dirmove_step].
Qed.

Lemma mount_run_ok ops s : serving c scope s → admissible ops (volume scope s) →
  ∃ s', mount_run f ops s = (true, s') ∧ serving c scope s' ∧ volume scope s' ≡ foldl mount_spec (volume scope s) ops.
Proof using Hre HL Hf Hsc.
  revert s. induction ops as [|op ops IH]; intros s Hs; simpl; [intros _; by exists s|]. intros [Hp Ha].
  destruct (mount_step op s Hs Hp) as (s1 & -> & Hs1 & Hv1).
  destruct (IH s1 Hs1) as (s2 & Hr & Hs2 & Hv2); [by apply (admissible_proper ops _ _ (symmetry Hv1))|].
  exists s2. split; [done|]. split; [done|]. rewrite Hv2. clear -Hv1. revert Hv1. generalize (volume scope s1) (mount_spec (volume scope s) op).
  induction ops as [|op' ops IH]; intros v w H; simpl; [done|]. apply IH. by rewrite H.
Qed.
End writes.

(** ** Reads *)

(** A stream whose every drain yields exactly [d] and a clean end. *)
Definition yields (rc : ReadCloser) (d : bytes) : Prop :=
  (∃ e, drains rc d e) ∧ ∀ ds e, drains rc ds e → ds = d ∧ is_EOF e = true.

Lemma bounded_yields d ranged limit : zlen d <= limit → yields (Bounded (newBoundedBody [Seg d None] ranged limit)) d.
Proof.
  intros Hl. pose proof (zlen_nonneg d) as Hpos.
  assert (∀ ds e, drains (Bounded (newBoundedBody [Seg d None] ranged limit)) ds e → ds = d ∧ is_EOF e = true) as H.
  { intros ds e Hd. destruct (drains_inv _ _ _ Hd [Seg d None] (newBoundedBody [Seg d None] ranged limit) [] eq_refl) as [(_ & H2 & H3)|(H1 & _)].
    - unfold stream_inv. simpl. rewrite app_nil_r. repeat split; lia.
    - simpl in H2. rewrite app_nil_r in H2. by subst.
    - simpl in H1. rewrite app_nil_r in H1. lia. }
  split; [|done]. destruct (bounded_drains [Seg d None] ranged limit 1 ltac:(lia)) as (ds & e & Hd).
  exists e. by destruct (H ds e Hd) as [<- _].
Qed.

Lemma NoBody_yields : yields NoBody [].
Proof.
  split; [exists (ESent io_EOF); by apply (drains_end NoBody 1 [] _ NoBody)|].
  intros ds e Hd. inversion Hd as [? k ? ? rc' Hk Hr|? k ? rc' ? ? Hk Hr]; subst; simpl in Hr; [by simplify_eq|done].
Qed.

Lemma Open_at s o r d (opts : list OpenOption) off : o_uuid o = uuid_of scope (mp r) → o_size o = zlen d →
  serving c scope s → distinct_uuids scope s → volume scope s (mp r) = Some (NFile d) →
  (opts = [] ∧ off = 0 ∧ zlen d <= c_maxDownloadBytes c) ∨ (opts = [SeekOption off] ∧ 0 <= off ∧ in_int64 off) →
  ∃ rc s', Open o opts s = (Ok rc, o, s') ∧ sv_fs s' = sv_fs s ∧ yields rc (zdrop off d).
Proof using Hre.
  intros Huid Hsz Hs Hu Hd Hopts. pose proof (serving_storable c scope s (mp r) _ Hs Hd) as [_ Hi].
  unfold Open. rewrite resolve_resolved by (rewrite Huid; exact (proj1 (uuid_of_text scope (mp r)))). rewrite Huid, Hsz.
  rewrite decide_False by exact (proj1 (uuid_of_text scope (mp r))).
  destruct Hopts as [(-> & -> & Hl)|(-> & Ho & Hoi)]; cbn [open_options].
  - change (bc_Download ?u ?w) with (Download (TW := wire net) c u w). unfold Download. rewrite stamp_op by op_in.
    rewrite (doDownload_at net c scope Hre s (mp r) d None (c_maxDownloadBytes c) Hs Hu Hd I I Hl). unfold window.
    eexists _, (later s). split; [done|]. split; [done|]. rewrite zdrop_drop. cbn [drop Z.to_nat]. rewrite ztake_all by done.
    by apply bounded_yields.
  - set (len := if int64_wrap (zlen d - off) <? 0 then 0 else int64_wrap (zlen d - off)).
    pose proof (zlen_nonneg d) as Hpos.
    assert (len = Z.max 0 (zlen d - off)) as Hlen.
    { unfold len. rewrite int64_wrap_id by (unfold in_int64, int64_min, int64_max in *; lia).
      destruct (Z.ltb_spec (zlen d - off) 0); lia. }
    change (bc_DownloadRange ?u ?o ?l ?w) with (DownloadRange (TW := wire net) c u o l w). unfold DownloadRange.
    rewrite (proj2 (Z.ltb_ge off 0)), (proj2 (Z.ltb_ge len 0)) by lia.
    destruct (Z.eqb_spec len 0) as [H0|H0].
    + eexists _, s. split; [done|]. split; [done|]. rewrite zdrop_drop, drop_ge; [apply NoBody_yields|]. rewrite zlen_length in *. lia.
    + rewrite stamp_op by op_in.
      assert (window (Some {| r_Offset := off; r_Length := len |}) d = (off, zlen d - off)) as Hw.
      { unfold window. cbn [r_Offset r_Length]. f_equal; lia. }
      rewrite (doDownload_at net c scope Hre s (mp r) d (Some {| r_Offset := off; r_Length := len |}) len Hs Hu Hd);
        [|split; [done|unfold in_int64, int64_min, int64_max in *; simpl; lia]
         |simpl; unfold in_int64, int64_min, int64_max in *; lia|rewrite Hw; simpl; lia].
      rewrite Hw. eexists _, (later s). split; [done|]. split; [done|].
      rewrite ztake_all by (rewrite zlen_zdrop by lia; lia). apply bounded_yields. rewrite zlen_zdrop; lia.
Qed.

(** ** Listings *)

(** The rclone entry for a child. *)
Definition mount_entry (s : Server) (dir : string) (e : string * node) : DirEntry :=
  let cs := mp dir ++ [e.1] in
  let remote := child_remote f dir e.1 in
  match arm_at scope s cs e.2 with
  | inl w => EntryObject (mkObject f remote (path_of cs) (wf_UUID w) (wf_Size w) (parseMtime (wf_Mtime w)) (wf_Mode w) "" (wf_MIME w))
  | inr w => EntryDir remote (parseMtime (wd_Mtime w))
  end.

Lemma list_entry_child s dir name n : serving c scope s → volume scope s (mp dir ++ [name]) = Some n →
  list_entry f dir (entry_of (child_arm scope s (mp dir) (name, n))) = Some (mount_entry s dir (name, n)).
Proof.
  intros Hs Hn. pose proof (sendable_ok _ (sv_names _ _ s Hs _ _ Hn)) as Hok.
  set (p := path_of (mp dir ++ [name])).
  set (entry := entry_of (child_arm scope s (mp dir) (name, n))).
  assert (entry_path entry = Some p) as Hp by by destruct n.
  assert (cleanPath p = p) as Hcl.
  { unfold cleanPath. change ("/" +:+ p) with (String slash p). rewrite Clean_rooted.
    transitivity (path_of (clean_comps true [] (split_on slash p))); [done|]. unfold p. by rewrite clean_comps_path. }
  assert (Forall comp_ok (mp dir)) as Hdir by (by apply Forall_app in Hok as [? _]).
  assert (immediateChildRemote f dir (absPath f dir) entry = Some (child_remote f dir name)) as Himm.
  { rewrite absPath_mp. destruct (mp dir) as [|x ds] eqn:E.
    - change (path_of []) with "/". rewrite (depth1_root f dir entry p [name]) by done. done.
    - apply (depth1_below f dir entry p (x :: ds) ((x :: ds) ++ [name])); try done. eauto. }
  unfold list_entry. rewrite Himm. cbn [mbind option_bind]. unfold entry, child_arm, mount_entry. cbn [fst snd].
  destruct n as [d|]; simpl; [|done]. unfold objectFromFile. simpl. by fold p; rewrite Hcl.
Qed.

Lemma List_at s dir : serving c scope s → mountable (mp dir) → volume scope s (mp dir) = Some NDir →
  ∃ es, children scope s (mp dir) es ∧
    (fits_response (enc_entries (map (child_arm scope s (mp dir)) es)) →
     List f dir s = (Ok (map (mount_entry s dir) es), later s)).
Proof using Hre HL.
  intros Hs Hm Hd. destruct (ListDirectoryAll_at net c scope Hre s (mp dir) Hs Hm Hd) as (es & Hch & Hl).
  exists es. split; [done|]. intros Hfit. rewrite List_fold. rewrite absPath_mp.
  change (bc_ListDirectoryAll ?p ?w) with (ListDirectoryAll (TW := wire net) c p w). rewrite Hl by done. f_equal. f_equal.
  destruct Hch as (_ & _ & Hin). clear Hl Hfit. assert (∀ e, e ∈ es → volume scope s (mp dir ++ [e.1]) = Some e.2) as H
    by (intros [name n] He; by apply Hin). clear Hin.
  induction es as [|[name n] es IH]; [done|]. cbn [map omap list_omap].
  rewrite list_entry_child; [|done|apply (H (name, n)); by left]. f_equal. apply IH. intros e He. apply H. by right.
Qed.

(** ** The mount against the abstract volume *)
Section claims.
Hypothesis Hf : fs_readOnly f = false.
Hypothesis Hsc : sc_ReadOnly scope = false.

(** C1: refinement.  Any sequence of uploads, directory creations and
    removals, file removals, copies, moves and directory moves that is
    admissible in the abstract volume succeeds end to end (backend, client,
    JSON and multipart over HTTP, routing and authorisation, host file
    system), leaves the broker serving, and leaves the volume in exactly the
    state the abstract operations give, path by path. *)
Theorem mount_refines_volume (ops : list mount_op) (s : Server)
    (Hs : serving c scope s) (Hops : admissible ops (volume scope s)) :
  ∃ s', mount_run f ops s = (true, s') ∧ serving c scope s' ∧
    ∀ p, volume scope s' p = foldl mount_spec (volume scope s) ops p.
Proof using Hre HL Hf Hsc. by apply mount_run_ok. Qed.

(** C2: what was written is read back.  After any admissible sequence that
    leaves the stored files with different handles, a lookup of a path reports
    what the abstract volume holds there: a file as an object of its size,
    whose stream, opened whole (when it fits the download cap) or from any
    offset, yields exactly its bytes and a clean end; a directory and a missing
    path as their rclone errors (a path below a file is not looked up as missing:
    the broker answers 500 there). *)
Theorem mount_reads_back (ops : list mount_op) (s : Server)
    (Hs : serving c scope s) (Hops : admissible ops (volume scope s))
    (Hu : distinct_handles scope (foldl mount_spec (volume scope s) ops)) :
  let v := foldl mount_spec (volume scope s) ops in
  ∃ s', mount_run f ops s = (true, s') ∧ ∀ remote, mountable (mp remote) →
    match v (mp remote) with
    | Some (NFile d) => ∃ o s1, NewObject f remote s' = (Ok o, s1) ∧ o_remote o = remote ∧ o_size o = zlen d ∧
        (zlen d <= c_maxDownloadBytes c → ∃ rc s2, Open o [] s1 = (Ok rc, o, s2) ∧ yields rc d) ∧
        (∀ off, 0 <= off <= int64_max → ∃ rc s2, Open o [SeekOption off] s1 = (Ok rc, o, s2) ∧ yields rc (zdrop off d))
    | Some NDir => ∃ s1, NewObject f remote s' = (Err (ESent fs_ErrorIsDir), s1)
    | None => vclear v (mp remote) → ∃ s1, NewObject f remote s' = (Err (ESent fs_ErrorObjectNotFound), s1)
    end.
Proof using Hre HL Hf Hsc.
  destruct (mount_run_ok Hf Hsc ops s Hs Hops) as (s' & Hr & Hs' & Hv). exists s'. split; [done|]. intros remote Hm.
  assert (distinct_uuids scope s') as Hu' by (intros x y d e Hx Hy; rewrite Hv in Hx, Hy; by apply (Hu x y d e)).
  pose proof (NewObject_at s' remote Hs' Hm) as Ho. rewrite (Hv (mp remote) : _ = _) in Ho.
  destruct (foldl mount_spec _ ops (mp remote)) as [[d|]|] eqn:E; [|by eexists|intros Hc; eexists; apply Ho; by rewrite Hv].
  exists (object_at s' remote d), (later s'). split; [done|]. split; [done|]. split; [done|].
  assert (serving c scope (later s')) as Hl by by apply serving_later.
  assert (volume scope (later s') (mp remote) = Some (NFile d)) as Hd by (etrans; [exact (Hv (mp remote))|done]).
  split.
  - intros Hmax. destruct (Open_at (later s') (object_at s' remote d) remote d [] 0 eq_refl eq_refl Hl Hu' Hd) as (rc & s2 & ? & _ & Hy); [by left|].
    exists rc, s2. split; [done|]. by rewrite zdrop_drop in Hy.
  - intros off Hoff. destruct (Open_at (later s') (object_at s' remote d) remote d [SeekOption off] off eq_refl eq_refl Hl Hu' Hd) as (rc & s2 & ? & _ & Hy).
    + right. unfold in_int64, int64_min, int64_max in *. split; [done|lia].
    + eauto.
Qed.

(** C28: a listing of a directory of the volume reports its children and only
    them, once each and in name order, each as an object or a directory at its
    own remote with its size and handle. *)
Theorem mount_lists_children (s : Server) (dir : string)
    (Hs : serving c scope s) (Hm : mountable (mp dir)) (Hd : volume scope s (mp dir) = Some NDir) :
  ∃ es, NoDup es.*1 ∧ StronglySorted name_le es.*1 ∧
    (∀ name n, (name, n) ∈ es ↔ volume scope s (mp dir ++ [name]) = Some n) ∧
    (fits_response (enc_entries (map (child_arm scope s (mp dir)) es)) →
     List f dir s = (Ok (map (mount_entry s dir) es), later s)).
Proof using Hre HL.
  destruct (List_at s dir Hs Hm Hd) as (es & (H1 & H2 & H3) & Hl). exists es. auto.
Qed.

(** Rmdir against the reference broker is recursive: on a directory that
    holds anything it reports success and every path below is gone, where the
    caller's contract is to fail on a directory that is not empty. *)
Theorem Rmdir_deletes_subtree (s : Server) (dir : string)
    (Hs : serving c scope s) (Hm : mountable (mp dir)) (Hne : mp dir ≠ []) (Hd : volume scope s (mp dir) = Some NDir) :
  ∃ s', Rmdir f dir s = (None, s') ∧ (∀ p, volume scope s' (mp dir ++ p) = None) ∧
    ∀ p, ¬ mp dir `prefix_of` p → volume scope s' p = volume scope s p.
Proof using Hre Hf Hsc.
  destruct (rmdir_step Hf Hsc dir s Hs (conj Hm (conj Hne Hd))) as (s' & Hr & Hs' & Hv). unfold mount_exec in Hr.
  destruct (Rmdir f dir s) as [[e|] s1]; [done|]. injection Hr as ->. exists s'. split; [done|]. split.
  - intros p. etrans; [exact (Hv (mp dir ++ p))|]. simpl. unfold after_rmdir. rewrite decide_True; [done|by eexists].
  - intros p Hp. etrans; [exact (Hv p)|]. simpl. unfold after_rmdir. by rewrite decide_False.
Qed.
End claims.
End mount.

(** ** A deployment *)
#[local] Existing Instance demo_host.
#[local] Existing Instance demo_credentials.
#[local] Existing Instance demo_urls.
#[local] Instance demo_host_laws : HostLaws demo_host.
Proof. split; intros; split; (reflexivity || (vm_compute; discriminate)). Qed.

Definition demo_server : Server := NewServer [demo_scope] 0 None demo_tree 0.
Definition mount_client : Client := mkClient "https://edge" "fs1" "tok" 262144 1073741824 65536.
#[local] Instance demo_accept : RequestURL := λ _, None.
#[local] Existing Instance id_encoder.
#[local] Instance demo_decode : RangeDecode := λ start end_ size, (start, end_).

#[local] Instance demo_backend : brokerClient Server := BC calm mount_client.

Lemma demo_reaches : reaches mount_client demo_scope.
Proof.
  split; try done.
  - by exists "srv/out".
Qed.

Lemma demo_serving : serving mount_client demo_scope demo_server.
Proof.
  assert (map_Forall (λ p n, sendable (drop 2 p) ∧ (if n is NFile d then zlen d else 0) <= 100) demo_tree) as H
    by (apply (bool_decide_unpack _); vm_compute; exact I).
  split; try done.
  - apply wf_tree_check. apply (bool_decide_unpack _). vm_compute. exact I.
  - intros cs d Hd. pose proof (proj2 (H _ (NFile d) Hd)). pose proof (zlen_nonneg d). unfold in_int64, int64_min, int64_max. simpl in *. lia.
  - intros cs n Hn. exact (proj1 (H _ n Hn)).
Qed.

Definition demo_ops : list mount_op :=
  [MPut "a/b.txt" [Seg ["h"]%char None; Seg ["i"]%char None]; MMkdir "d"; MCopy "a/b.txt" "d/c.txt"; MMove "a/b.txt" "x.txt";
   MDirMove "d" "e"; MRmdir "a"; MRemove "x.txt"].

Lemma demo_admissible : admissible demo_fs demo_ops (volume demo_scope demo_server).
Proof. apply (bool_decide_unpack _). vm_compute. exact I. Qed.

Lemma mount_refines_volume_witness :
  ∃ s', mount_run demo_fs demo_ops demo_server = (true, s') ∧
    serving mount_client demo_scope s' ∧
    ∀ p, volume demo_scope s' p = foldl (mount_spec demo_fs) (volume demo_scope demo_server) demo_ops p.
Proof.
  exact (mount_refines_volume calm mount_client demo_scope demo_fs demo_reaches eq_refl eq_refl demo_ops demo_server
    demo_serving demo_admissible).
Defined.

Definition demo_put : list mount_op := [MPut "a/b.txt" [Seg ["h"; "i"]%char None]].

Lemma demo_distinct : distinct_handles demo_scope (foldl (mount_spec demo_fs) (volume demo_scope demo_server) demo_put).
Proof.
  assert (∀ x d, foldl (mount_spec demo_fs) (volume demo_scope demo_server) demo_put x = Some (NFile d) →
    x = ["a"; "b.txt"] ∨ x = ["old"; "f"]) as H.
  { intros x d. cbn [foldl demo_put mount_spec]. change (mp demo_fs "a/b.txt") with ["a"; "b.txt"]. unfold after_put, after_mkdir.
    case_decide; [by left|]. case_decide; [done|]. unfold volume. change (sv_fs demo_server) with demo_tree. unfold demo_tree.
    change (abs_comps (sc_Root demo_scope)) with ["srv"; "out"]. rewrite !lookup_insert_Some, lookup_singleton_Some. naive_solver. }
  assert (uuid_of demo_scope ["a"; "b.txt"] ≠ uuid_of demo_scope ["old"; "f"]) as Hne by (vm_compute; discriminate).
  intros x y d e Hx%H Hy%H. destruct Hx as [->| ->], Hy as [->| ->]; intros He.
  - reflexivity.
  - exfalso. exact (Hne He).
  - exfalso. exact (Hne (eq_sym He)).
  - reflexivity.
Qed.

(** The demo's upload, read back. *)
Lemma mount_reads_back_witness :
  ∃ s' o s1 rc s2, mount_run demo_fs demo_put demo_server = (true, s') ∧
    NewObject demo_fs "a/b.txt" s' = (Ok o, s1) ∧ Open o [] s1 = (Ok rc, o, s2) ∧ yields rc ["h"; "i"]%char.
Proof.
  destruct (mount_reads_back calm mount_client demo_scope demo_fs demo_reaches eq_refl eq_refl demo_put demo_server demo_serving
    ltac:(apply (bool_decide_unpack _); vm_compute; exact I) demo_distinct) as (s' & Hr & H).
  destruct (H "a/b.txt" ltac:(apply (bool_decide_unpack _); vm_compute; exact I)) as (o & s1 & Ho & _ & _ & Hw & _).
  destruct (Hw ltac:(vm_compute; discriminate)) as (rc & s2 & Hop & Hy).
  exists s', o, s1, rc, s2. auto.
Defined.

Lemma mount_lists_children_witness :
  ∃ es, NoDup es.*1 ∧ StronglySorted name_le es.*1 ∧
    (∀ name n, (name, n) ∈ es ↔ volume demo_scope demo_server (["old"] ++ [name]) = Some n) ∧
    (fits_response (enc_entries (map (child_arm demo_scope demo_server ["old"]) es)) →
     List demo_fs "old" demo_server = (Ok (map (mount_entry demo_scope demo_fs demo_server "old") es), later demo_server)).
Proof.
  exact (mount_lists_children calm mount_client demo_scope demo_fs demo_reaches demo_server "old" demo_serving
    ltac:(apply (bool_decide_unpack _); vm_compute; exact I) eq_refl).
Defined.

Lemma Rmdir_deletes_subtree_witness :
  volume demo_scope demo_server ["old"; "f"] = Some (NFile ["x"; "y"]%char) ∧
  ∃ s', Rmdir demo_fs "old" demo_server = (None, s') ∧ (∀ p, volume demo_scope s' (["old"] ++ p) = None) ∧
    ∀ p, ¬ ["old"] `prefix_of` p → volume demo_scope s' p = volume demo_scope demo_server p.
Proof.
  split; [reflexivity|].
  exact (Rmdir_deletes_subtree calm mount_client demo_scope demo_fs demo_reaches eq_refl eq_refl demo_server "old" demo_serving
    ltac:(apply (bool_decide_unpack _); vm_compute; exact I) ltac:(discriminate) eq_refl).
Defined.
