(* ===== verification/BrokerSim.v ===== *)
(** * Two worlds behind one client

    When two transports answer a client's requests alike, every broker operation
    and every backend method that takes its turns on them returns the same, and
    keeps the worlds related.  The relation is the interface [BrokerSim]; the
    client discharges it, the backend and the mount are proved against it.  It
    is for all upload sources, or only for those that end cleanly, whose bodies
    do not break off. *)
From Stdlib Require Import Ascii String.
From stdpp Require Import base list strings numbers gmap.
From S2P Require Import Prelude GoErrors GoIO GoJson GoPath BrokerErrors Messages Client Cursor Download Upload Ocufs HostFS MountRefinement.
Local Open Scope Z_scope.

(** ** Related computations *)
Section sim.
Context {W1 W2 : Type} (R : W1 → W2 → Prop).

(** From related worlds: the same result, and related worlds. *)
Definition sim {A} (f : W1 → A * W1) (g : W2 → A * W2) : Prop :=
  ∀ w1 w2, R w1 w2 → ∃ a w1' w2', f w1 = (a, w1') ∧ g w2 = (a, w2') ∧ R w1' w2'.

Lemma sim_ret {A} (a : A) : sim (λ w, (a, w)) (λ w, (a, w)).
Proof. intros w1 w2 H. by exists a, w1, w2. Qed.

Lemma sim_bind {A B} f g (k : A → W1 → B * W1) (l : A → W2 → B * W2) : sim f g → (∀ a, sim (k a) (l a)) →
  sim (λ w, let '(a, w') := f w in k a w') (λ w, let '(a, w') := g w in l a w').
Proof.
  intros Hf Hk w1 w2 H. destruct (Hf w1 w2 H) as (a & w1' & w2' & -> & -> & H'). by apply Hk.
Qed.
End sim.

(** The two sides of a [sim] at related worlds, and their common outcome. *)
Ltac sim_run H := destruct H as (? & ? & ? & -> & -> & ?); [eassumption|].
Ltac sim_done := by eexists _, _, _.

(** The sources in play: all of them, or only the clean ones. *)
Definition source_ok (clean : bool) (src : reader) : Prop := clean = true → is_EOF (final_err src) = true.

Section brokers.
Context {W1 W2 : Type} (R : W1 → W2 → Prop) (clean : bool).

(** ** The client *)
Section client.
Context (T1 : Transport W1) (T2 : Transport W2) {RU : RequestURL} (c : Client).

(** A request of the client: its token, one of its URLs, and a body that breaks
    off only if a source may. *)
Definition own_request (rq : http_request) : Prop :=
  rq_authorization rq = bearer c ∧ (∃ op, rq_url rq = opURL c op) ∧
  (clean = true → ∀ ws e, rq_body rq ≠ BodyPipe ws (Some e)).

Hypothesis Hdo : ∀ rq, own_request rq → sim R (Do (Transport := T1) rq) (Do (Transport := T2) rq).

Lemma sim_json op j : sim R (Do (Transport := T1) (json_request c op j)) (Do (Transport := T2) (json_request c op j)).
Proof using Hdo. apply Hdo. split; [done|]. split; [by exists op|done]. Qed.

Lemma sim_call {T} op j (dec : json → T → option T) zero : sim R (call (TW := T1) c op j dec zero) (call (TW := T2) c op j dec zero).
Proof using Hdo.
  unfold call. destruct (newRequest_err _); [apply sim_ret|]. intros w1 w2 H. sim_run (sim_json op j w1 w2).
  destruct (do_result _) as [resp|]; [|sim_done]. destruct (is_2xx _); [|sim_done]. destruct (decode_body _ _ _); sim_done.
Qed.

Lemma sim_doDownload fsID uuid am rng limit :
  sim R (doDownload (TW := T1) c fsID uuid am rng limit) (doDownload (TW := T2) c fsID uuid am rng limit).
Proof using Hdo.
  unfold doDownload. destruct (newRequest_err _); [apply sim_ret|]. intros w1 w2 H.
  sim_run (sim_json OpFileDownload (enc_FileDownloadRequest
    {| fd_FilesystemID := fsID; fd_UUID := uuid; fd_Range := rng; fd_AuthorizationMetadata := am |}) w1 w2).
  destruct (do_result _) as [resp|]; [|sim_done]. destruct (is_2xx _); [|sim_done]. cbn [negb].
  destruct (_ && _); [destruct rng; sim_done|sim_done].
Qed.

Lemma sim_Upload path src total overwrite : source_ok clean src →
  sim R (Upload (TW := T1) c path src total overwrite) (Upload (TW := T2) c path src total overwrite).
Proof using Hdo.
  intros He. unfold Upload. destruct (stamp c OpFileUpload) as [[fsID am]|e]; [|apply sim_ret].
  destruct (newRequest_err _); [apply sim_ret|].
  destruct (upload_writer_open fsID path total overwrite am src (c_messageCeiling c)) as (cs & -> & _).
  intros w1 w2 H. set (openErr := if is_EOF _ then _ else _). set (writes := _ ++ _).
  assert (own_request (upload_request c writes openErr)) as Hrq.
  { split; [done|]. split; [by exists OpFileUpload|]. intros Hc ws e. unfold openErr. by rewrite (He Hc). }
  sim_run (Hdo _ Hrq w1 w2). destruct (do_result _) as [resp|]; [|sim_done].
  destruct (is_2xx _); [|sim_done]. cbn [negb]. destruct (read_all_limit _ _) as [[b [e|]] r']; [sim_done|].
  destruct (if (_ <=? _)%nat then _ else _) as [e|]; [|sim_done]. destruct (isPipeClosure e); sim_done.
Qed.

(** A listing takes its pages in lockstep. *)
Lemma sim_list_loop {A} (yield : A → ListDirEntry → result error A) fuel fsID path am : ∀ cursor g a w1 w2, R w1 w2 →
  match list_loop (TW := T1) yield fuel c fsID path am cursor g a w1, list_loop (TW := T2) yield fuel c fsID path am cursor g a w2 with
  | Some (r1, w1'), Some (r2, w2') => r1 = r2 ∧ R w1' w2'
  | None, None => True
  | _, _ => False
  end.
Proof using Hdo.
  induction fuel as [|fuel IH]; intros cursor g a w1 w2 H; [done|]. cbn [list_loop]. unfold fetch_page.
  sim_run (sim_call OpListDirectory (page_request fsID path am cursor) dec_ListDirectoryResponse zero_ListDirectoryResponse w1 w2).
  match goal with |- context [match ?r with Ok _ => _ | Err _ => _ end] => destruct r as [resp|] end; [|done].
  destruct (yield_all _ _ _) as [a' [e|]]; [done|]. destruct (decide _); [done|].
  destruct (admit_page _ _); [by apply IH|done].
Qed.

Lemma sim_ListDirectoryStream {A} (yield : A → ListDirEntry → result error A) path a :
  sim R (ListDirectoryStream (TW := T1) yield c path a) (ListDirectoryStream (TW := T2) yield c path a).
Proof using Hdo.
  unfold ListDirectoryStream. destruct (stamp c OpListDirectory) as [[fsID am]|e]; [|apply (sim_ret R (a, Some e))].
  intros w1 w2 H. pose proof (sim_list_loop yield (list_fuel c) fsID path am "" (newPageGuard "ListDirectoryStream" (c_maxListPages c)) a w1 w2 H) as Hl.
  destruct (list_loop _ _ _ _ _ _ _ _ _ w1) as [[r1 w1']|], (list_loop _ _ _ _ _ _ _ _ _ w2) as [[r2 w2']|]; try done.
  - destruct Hl as [-> ?]. by exists r2, w1', w2'.
  - by exists (a, Some (errors_New "unreachable")), w1, w2.
Qed.
End client.
End brokers.

(** ** The interface *)
Class BrokerSim {W1 W2 : Type} (R : W1 → W2 → Prop) (clean : bool) (B1 : brokerClient W1) (B2 : brokerClient W2) : Prop := {
  bs_ListDirectoryStream A path yield a :
    sim R (bc_ListDirectoryStream (brokerClient := B1) A path yield a) (bc_ListDirectoryStream (brokerClient := B2) A path yield a);
  bs_ListDirectoryAll path : sim R (bc_ListDirectoryAll (brokerClient := B1) path) (bc_ListDirectoryAll (brokerClient := B2) path);
  bs_ReadMetadata path : sim R (bc_ReadMetadata (brokerClient := B1) path) (bc_ReadMetadata (brokerClient := B2) path);
  bs_Download uuid : sim R (bc_Download (brokerClient := B1) uuid) (bc_Download (brokerClient := B2) uuid);
  bs_DownloadRange uuid o l : sim R (bc_DownloadRange (brokerClient := B1) uuid o l) (bc_DownloadRange (brokerClient := B2) uuid o l);
  bs_Upload path src n ow : source_ok clean src →
    sim R (bc_Upload (brokerClient := B1) path src n ow) (bc_Upload (brokerClient := B2) path src n ow);
  bs_CopyFile x y : sim R (bc_CopyFile (brokerClient := B1) x y) (bc_CopyFile (brokerClient := B2) x y);
  bs_MoveFile x y : sim R (bc_MoveFile (brokerClient := B1) x y) (bc_MoveFile (brokerClient := B2) x y);
  bs_RemoveFile x : sim R (bc_RemoveFile (brokerClient := B1) x) (bc_RemoveFile (brokerClient := B2) x);
  bs_MakeDirectory x : sim R (bc_MakeDirectory (brokerClient := B1) x) (bc_MakeDirectory (brokerClient := B2) x);
  bs_RemoveDirectory x : sim R (bc_RemoveDirectory (brokerClient := B1) x) (bc_RemoveDirectory (brokerClient := B2) x);
  bs_MoveDirectory x y : sim R (bc_MoveDirectory (brokerClient := B1) x y) (bc_MoveDirectory (brokerClient := B2) x y) }.

Ltac sim_unary := destruct (stamp _ _) as [[? ?]|]; [by eapply sim_call|apply sim_ret].

(** Transports that answer alike make brokers that do. *)
Lemma client_sim {W1 W2 : Type} (R : W1 → W2 → Prop) (clean : bool) (T1 : Transport W1) (T2 : Transport W2) {RU : RequestURL} (c : Client) :
  (∀ rq, own_request clean c rq → sim R (Do (Transport := T1) rq) (Do (Transport := T2) rq)) →
  BrokerSim R clean (client_broker (TW := T1) c) (client_broker (TW := T2) c).
Proof.
  intros Hdo. split; intros; cbn [client_broker bc_ListDirectoryStream bc_ListDirectoryAll bc_ReadMetadata bc_Download
    bc_DownloadRange bc_Upload bc_CopyFile bc_MoveFile bc_RemoveFile bc_MakeDirectory bc_RemoveDirectory bc_MoveDirectory].
  - by eapply sim_ListDirectoryStream.
  - intros w1 w2 H. unfold ListDirectoryAll.
    sim_run (sim_ListDirectoryStream R clean T1 T2 c Hdo (λ all e, Ok (all ++ [e])) path [] w1 w2).
    match goal with x : (_ * option error)%type |- _ => destruct x as [? [?|]] end; sim_done.
  - apply (sim_bind R _ _ (λ r w', (match r with Ok m => Ok (Some m) | Err e => Err e end, w'))
             (λ r w', (match r with Ok m => Ok (Some m) | Err e => Err e end, w'))); [|intros r; apply sim_ret].
    unfold ReadMetadata. sim_unary.
  - unfold Download. destruct (stamp _ _) as [[? ?]|]; [by eapply sim_doDownload|apply sim_ret].
  - unfold DownloadRange. destruct (o <? 0); [apply sim_ret|]. destruct (l <? 0); [apply sim_ret|].
    destruct (l =? 0); [apply sim_ret|]. destruct (stamp _ _) as [[? ?]|]; [by eapply sim_doDownload|apply sim_ret].
  - by eapply sim_Upload.
  - unfold CopyFile. sim_unary.
  - unfold MoveFile. sim_unary.
  - unfold RemoveFile. sim_unary.
  - unfold MakeDirectory. sim_unary.
  - unfold RemoveDirectory. sim_unary.
  - unfold MoveDirectory. sim_unary.
Qed.

(** ** The backend *)
Section backend.
Context {W1 W2 : Type} (R : W1 → W2 → Prop) (clean : bool) {B1 : brokerClient W1} {B2 : brokerClient W2} {BS : BrokerSim R clean B1 B2}.
Context {ENC : Encoder} {RD : RangeDecode}.

(** A method that answers from one broker call. *)
Ltac sim_broker H := intros w1 w2 ?; sim_run (H w1 w2).

Lemma sim_NewObject f remote : sim R (NewObject (BC := B1) f remote) (NewObject (BC := B2) f remote).
Proof using BS.
  unfold NewObject. sim_broker (bs_ReadMetadata (absPath f remote)).
  match goal with x : result error (option ReadMetadataResponse) |- _ => destruct x as [[m|]|e] end; [|sim_done|].
  - destruct (classifyReadMetadata _); sim_done.
  - destruct (errors_Is e ErrNotFound); sim_done.
Qed.

Lemma sim_List f dir : sim R (List (BC := B1) f dir) (List (BC := B2) f dir).
Proof using BS.
  unfold List. sim_broker (bs_ListDirectoryStream _ (absPath f dir) (list_yield f dir (absPath f dir)) []).
  match goal with x : (_ * option error)%type |- _ => destruct x as [? [e|]] end; [|sim_done].
  destruct (errors_Is e ErrNotFound); sim_done.
Qed.

Lemma sim_Put f inp src : source_ok clean inp → sim R (Put (BC := B1) f inp src) (Put (BC := B2) f inp src).
Proof using BS.
  intros He. unfold Put. destruct (fs_readOnly f); [apply sim_ret|].
  sim_broker (bs_Upload (absPath f (src_Remote src)) inp (src_Size src) true He).
  destruct (mapBrokerError _); sim_done.
Qed.

Lemma sim_Mkdir f dir : sim R (Mkdir (BC := B1) f dir) (Mkdir (BC := B2) f dir).
Proof using BS.
  unfold Mkdir. destruct (fs_readOnly f); [apply sim_ret|]. sim_broker (bs_MakeDirectory (absPath f dir)).
  match goal with x : result error AckResponse |- _ => destruct x as [?|e] end; [sim_done|].
  destruct (errors_Is e ErrAlreadyExists); sim_done.
Qed.

Lemma sim_Rmdir f dir : sim R (Rmdir (BC := B1) f dir) (Rmdir (BC := B2) f dir).
Proof using BS.
  unfold Rmdir. destruct (fs_readOnly f); [apply sim_ret|]. sim_broker (bs_RemoveDirectory (absPath f dir)).
  match goal with x : result error AckResponse |- _ => destruct x end; sim_done.
Qed.

Lemma sim_Remove o : sim R (Ocufs.Remove (BC := B1) o) (Ocufs.Remove (BC := B2) o).
Proof using BS.
  unfold Ocufs.Remove. destruct (fs_readOnly _); [apply sim_ret|]. sim_broker (bs_RemoveFile (o_path o)).
  match goal with x : result error AckResponse |- _ => destruct x end; sim_done.
Qed.

Lemma sim_resolve o : sim R (resolve (BC := B1) o) (resolve (BC := B2) o).
Proof using BS.
  unfold resolve. destruct (negb _); [apply (sim_ret R (None, o))|]. sim_broker (bs_ReadMetadata (o_path o)).
  match goal with x : result error (option ReadMetadataResponse) |- _ => destruct x as [m|e] end.
  - destruct (classifyReadMetadata m), m; sim_done.
  - destruct (errors_Is e ErrNotFound); sim_done.
Qed.

Lemma sim_Size o : sim R (Size (BC := B1) o) (Size (BC := B2) o).
Proof using BS.
  unfold Size. destruct (_ && _); [|apply (sim_ret R (o_size o, o))]. sim_broker (sim_resolve o).
  match goal with x : (option error * Object)%type |- _ => destruct x end. sim_done.
Qed.

Lemma sim_transfer f src dst name cant (call1 : string → string → W1 → result error AckResponse * W1) call2 :
  (∀ x y, sim R (call1 x y) (call2 x y)) →
  sim R (transferFile (BC := B1) f src dst name cant call1) (transferFile (BC := B2) f src dst name cant call2).
Proof using BS.
  intros Hcall. unfold transferFile. destruct (fs_readOnly f); [apply (sim_ret R (_, src))|].
  destruct src as [o|]; [|apply (sim_ret R (_, ForeignObject))].
  destruct (negb _); [apply (sim_ret R (_, OcuObject o))|]. sim_broker (Hcall (o_path o) (absPath f dst)).
  match goal with x : result error AckResponse |- _ => destruct x end; [|sim_done].
  match goal with H : R ?v1 ?v2 |- context [Size o ?v1] => sim_run (sim_Size o v1 v2) end.
  match goal with x : (Z * Object)%type |- _ => destruct x end. sim_done.
Qed.

Lemma sim_DirMove f src x y : sim R (DirMove (BC := B1) f src x y) (DirMove (BC := B2) f src x y).
Proof using BS.
  unfold DirMove. destruct (fs_readOnly f); [apply sim_ret|]. destruct src as [s|]; [|apply sim_ret].
  destruct (negb _); [apply sim_ret|]. sim_broker (bs_MoveDirectory (absPath f x) (absPath f y)).
  match goal with x : result error AckResponse |- _ => destruct x end; sim_done.
Qed.

Lemma sim_Open o opts : sim R (Open (BC := B1) o opts) (Open (BC := B2) o opts).
Proof using BS.
  unfold Open. sim_broker (sim_resolve o).
  match goal with x : (option error * Object)%type |- _ => destruct x as [[e|] o'] end; [sim_done|].
  destruct (decide (o_uuid o' = "")); [sim_done|]. destruct (open_options _ _ _ _ _) as [[[off len] full]|]; [|sim_done].
  match goal with H : R ?v1 ?v2 |- _ =>
    destruct full; [sim_run (bs_Download (o_uuid o') v1 v2)|sim_run (bs_DownloadRange (o_uuid o') off len v1 v2)]
  end; sim_done.
Qed.

(** ** The mount *)

(** An operation whose upload, if it makes one, has a source in play. *)
Definition ends_well (op : mount_op) : Prop := match op with MPut _ src => source_ok clean src | _ => True end.

(** An operation on an object looked up first. *)
Lemma sim_on_object f r (k1 : Object → W1 → bool * W1) k2 : (∀ o, sim R (k1 o) (k2 o)) →
  sim R (λ w, match NewObject (BC := B1) f r w with (Ok o, w') => k1 o w' | (Err _, w') => (false, w') end)
        (λ w, match NewObject (BC := B2) f r w with (Ok o, w') => k2 o w' | (Err _, w') => (false, w') end).
Proof using BS.
  intros Hk. sim_broker (sim_NewObject f r).
  match goal with x : result error Object |- _ => destruct x as [o|] end; [by apply Hk|sim_done].
Qed.

Lemma sim_exec f op : ends_well op → sim R (mount_exec (B := B1) f op) (mount_exec (B := B2) f op).
Proof using BS.
  intros Hend. destruct op; unfold mount_exec.
  - apply sim_bind; [by apply sim_Put|intros ?; apply sim_ret].
  - apply sim_bind; [apply sim_Mkdir|intros ?; apply sim_ret].
  - apply sim_bind; [apply sim_Rmdir|intros ?; apply sim_ret].
  - apply sim_on_object. intros o. apply sim_bind; [apply sim_Remove|intros ?; apply sim_ret].
  - apply sim_on_object. intros o. unfold Copy. sim_broker (sim_transfer f (OcuObject o) dst "Copy" fs_ErrorCantCopy _ _ bs_CopyFile).
    match goal with x : (_ * fsObject)%type |- _ => destruct x end. sim_done.
  - apply sim_on_object. intros o. unfold Move. sim_broker (sim_transfer f (OcuObject o) dst "Move" fs_ErrorCantMove _ _ bs_MoveFile).
    match goal with x : (_ * fsObject)%type |- _ => destruct x end. sim_done.
  - apply sim_bind; [apply sim_DirMove|intros ?; apply sim_ret].
Qed.

Lemma sim_run_ops f ops : Forall ends_well ops → sim R (mount_run (B := B1) f ops) (mount_run (B := B2) f ops).
Proof using BS.
  induction 1 as [|op ops Hop _ IH]; [apply sim_ret|]. cbn [mount_run].
  apply sim_bind; [by apply sim_exec|]. intros [|]; [exact IH|apply sim_ret].
Qed.
End backend.
