(* ===== verification/Fleet.v ===== *)
(** * Several mounts on one broker

    The guests of one deployment share a broker.  Here the mounts of a fleet,
    each a backend over its own client, take turns in any order, operation by
    operation.  A mount whose own operations are admissible gets of its volume
    exactly what it would get alone, whatever the others do and whether or not
    what they do succeeds. *)
From Stdlib Require Import Ascii String.
From stdpp Require Import base list strings numbers gmap.
From S2P Require Import Prelude GoErrors GoIO GoJson GoPath BrokerErrors Messages Client Cursor Download Upload Ocufs OcufsSpec HostFS Filestore FilestoreSpec WireCodec EndToEnd MountRefinement BrokerSim.
Local Open Scope Z_scope.

(** ** What no request changes of the broker *)

(** The throttles are off, and stay off. *)
Definition unthrottled (s : Server) : Prop := sv_perOpBucket s = None ∧ sv_throttleEvery s <= 0.

Section settings.
Context {HO : Host} {CV : CredentialValidator} {UP : UrlPath}.

Lemma unthrottled_set_fs s t : unthrottled s → unthrottled (set_fs s t).
Proof. done. Qed.

Lemma with_path_unthrottled scope raw s k : unthrottled s → (∀ rel abs, unthrottled (k rel abs).2) →
  unthrottled (with_path scope raw s k).2.
Proof. intros Hs Hk. unfold with_path. destruct (Unmarshal _ _ _); [|done]. by destruct (resolveUnder _ _). Qed.

Lemma applySrcDstOp_unthrottled op scope raw s : unthrottled s → unthrottled (applySrcDstOp op scope raw s).2.
Proof.
  intros Hs. unfold applySrcDstOp. destruct (Unmarshal _ _ _); [|done]. destruct (resolveSrcDst _ _) as [[p q]|]; [|done].
  destruct (_ && _); [done|]. by destruct (MkdirAll _ _) as [[e|] t].
Qed.

Lemma store_upload_unthrottled s scope params abs file : unthrottled s → unthrottled (store_upload s scope params abs file).2.
Proof.
  intros Hs. unfold store_upload. destruct file; [|done]. destruct (_ && _); [done|]. destruct (MkdirAll _ _) as [[e|] t]; [done|].
  destruct (OpenTrunc _ _) as [[e|] t']; [done|]. by destruct (negb _).
Qed.

Lemma dispatch_unthrottled opName scope raw s : unthrottled s → unthrottled (dispatch opName scope raw s).2.
Proof.
  intros Hs. unfold dispatch. repeat case_decide; try (by apply applySrcDstOp_unthrottled); try (by apply with_path_unthrottled).
  - apply with_path_unthrottled; [done|]. intros rel abs. destruct (MkdirAll _ _) as [[e|] t]; [done|].
    by destruct (OpenTrunc _ _) as [[e|] t'].
  - by rewrite download_same.
  - done.
Qed.

Lemma charges_nothing fsID s : unthrottled s → chargePerOp fsID s = (true, s) ∧ throttled s = (false, s).
Proof.
  intros [Hb Ht]. unfold chargePerOp, throttled. rewrite Hb. split; [done|]. by apply Z.leb_le in Ht as ->.
Qed.

Lemma upload_unthrottled rq s : unthrottled s → unthrottled (handleFileUpload rq s).2.
Proof.
  intros Hs. unfold handleFileUpload. destruct (Validate _); [|done]. destruct (ParseMultipartForm rq); [|done].
  case_decide; [done|]. destruct (Unmarshal _ _ _) as [params|]; [|done]. destruct (authorize _ _ _ _) as [|[]]; [|done].
  rewrite (proj1 (charges_nothing _ s Hs)). cbn [negb]. rewrite (proj2 (charges_nothing "" s Hs)).
  destruct (resolveUnder _ _); [by apply store_upload_unthrottled|done].
Qed.

Lemma exchange_unthrottled net rq s : unthrottled s → unthrottled (exchange net rq s).2.
Proof.
  intros Hs. assert (unthrottled (ServeHTTP (arriving net rq (sv_now s)) s).2) as H.
  { set (rq' := arriving _ _ _). unfold ServeHTTP, route. destruct (HasPrefix _ _); [|done]. destruct (negb _); [done|]. case_decide; [by apply upload_unthrottled|].
    destruct (Validate _); [|done]. destruct (decodeCommon _) as [[raw body]|]; [|done].
    destruct (authorize _ _ _ _) as [|[]]; [|done]. rewrite (proj1 (charges_nothing _ s Hs)). cbn [negb].
    by apply dispatch_unthrottled. }
  unfold exchange. destruct (ServeHTTP _ s) as [resp s']. exact H.
Qed.
End settings.

(** ** The fleet *)
Record member := mkMember { me_client : Client; me_scope : Scope; me_fs : Fs }.

Section fleet.
Context {HO : Host} {HL : HostLaws HO} {CV : CredentialValidator} {UP : UrlPath} {RU : RequestURL}.
Context {ENC : Encoder} {RD : RangeDecode}.
Context (net : Network) (ms : list member).

(** What reaches the broker: an operation of the mount [i], or a request of
    anyone else. *)
Inductive job : Type :=
| JOp (i : nat) (op : mount_op)
| JRequest (rq : http_request).

(** A job's success; an operation of no mount fails, a bare request counts as
    done. *)
Definition fleet_exec (j : job) (s : Server) : bool * Server :=
  match j with
  | JOp i op =>
      match ms !! i with
      | Some m => mount_exec (B := client_broker (TW := wire net) (me_client m)) (me_fs m) op s
      | None => (false, s)
      end
  | JRequest rq => (true, (exchange net rq s).2)
  end.

(** A failed operation does not stop the others. *)
Fixpoint fleet_run (jobs : list job) (s : Server) : list bool * Server :=
  match jobs with
  | [] => ([], s)
  | j :: jobs' =>
      let '(ok, s1) := fleet_exec j s in
      let '(oks, s2) := fleet_run jobs' s1 in (ok :: oks, s2)
  end.

(** The operations of one mount, in order, and the results it got. *)
Definition own_op (i : nat) (j : job) : option mount_op :=
  match j with JOp k op => if decide (k = i) then Some op else None | JRequest _ => None end.
Definition own_ops (i : nat) (jobs : list job) : list mount_op := omap (own_op i) jobs.
Definition own_results (i : nat) (jobs : list job) (oks : list bool) : list bool :=
  omap (λ r, if own_op i r.1 then Some r.2 else None) (zip jobs oks).

(** What every request of a client keeps, a whole operation keeps. *)
Lemma mount_exec_keeps (J : Server → Prop) c f op s :
  (∀ rq s, own_request false c rq → J s → J (exchange net rq s).2) → J s →
  J (mount_exec (B := client_broker (TW := wire net) c) f op s).2.
Proof.
  intros HJ Hs. set (R := λ a b : Server, a = b ∧ J a).
  assert (BrokerSim R false (client_broker (TW := wire net) c) (client_broker (TW := wire net) c)) as BS.
  { apply (client_sim R false). intros rq Hrq w1 w2 [<- Hw]. specialize (HJ rq w1 Hrq Hw). unfold Do, wire.
    destruct (exchange net rq w1) as [out w']. by exists out, w', w'. }
  destruct (sim_exec R false (BS := BS) f op ltac:(by destruct op) s s) as (a & w1 & w2 & -> & _ & _ & Hw); [done|]. exact Hw.
Qed.

(** The broker as a deployment. *)
Definition steady (s0 s : Server) : Prop := deployed s ∧ unthrottled s ∧ sv_scopes s = sv_scopes s0.

Lemma exchange_steady s0 rq s : steady s0 s → steady s0 (exchange net rq s).2.
Proof.
  intros (Hd & Hu & Hsc). pose proof (exchange_effect net rq s (dep_rooted s Hd)) as He.
  split; [by apply (effect_deployed s rq)|]. split; [by apply exchange_unthrottled|]. by rewrite (proj1 He).
Qed.

(** A request under another filesystem's credential, or none, leaves a scope
    as it is. *)
Lemma exchange_foreign fsID scope rq s : deployed s → sv_scopes s !! fsID = Some scope →
  Validate (rq_authorization rq) ≠ Some fsID → ∀ cs, volume scope (exchange net rq s).2 cs = volume scope s cs.
Proof.
  intros Hd Hsc Hv cs. unfold volume. set (p := abs_comps (sc_Root scope) ++ cs).
  destruct (decide (sv_fs (exchange net rq s).2 !! p = sv_fs s !! p)) as [|Hne]; [done|exfalso].
  pose proof (exchange_effect net rq s (dep_rooted s Hd)) as He.
  destruct (proj2 (effect_deployed s rq _ Hd He) p Hne) as (scope' & (fsID' & Hv' & Hsc' & _) & Hp).
  assert (fsID' ≠ fsID) as Hids by congruence.
  destruct (prefix_weak_total (abs_comps (sc_Root scope')) (abs_comps (sc_Root scope)) p Hp ltac:(by eexists)) as [H|H];
    revert H; eapply (dep_disjoint s Hd); done.
Qed.

(** A deployment that holds what a mount serves serves it. *)
Lemma steady_serving c scope s s' : serving c scope s → steady s s' →
  (∀ cs, volume scope s' cs = volume scope s cs) → serving c scope s'.
Proof.
  intros Hs (Hd & Hu & Hsc) Hv. split.
  - rewrite Hsc. apply Hs.
  - exact Hu.
  - apply Hd.
  - pose proof (Hv []) as H. unfold volume in H. rewrite app_nil_r in H. rewrite H. apply Hs.
  - intros cs d H. apply (sv_sizes _ _ s Hs cs). etrans; [symmetry; exact (Hv cs)|exact H].
  - intros cs n H. apply (sv_names _ _ s Hs cs n). etrans; [symmetry; exact (Hv cs)|exact H].
Qed.

(** A mount that may write its scope. *)
Record writer (m : member) : Prop := {
  wr_reaches : reaches (me_client m) (me_scope m);
  wr_fs : fs_readOnly (me_fs m) = false;
  wr_scope : sc_ReadOnly (me_scope m) = false }.

(** A job of somebody who holds no credential of the filesystem: any operation
    of another mount, or any request at all. *)
Definition foreign (fsID : string) (j : job) : Prop :=
  match j with
  | JOp k op => ∀ m, ms !! k = Some m → Validate (bearer (me_client m)) ≠ Some fsID
  | JRequest rq => Validate (rq_authorization rq) ≠ Some fsID
  end.

Lemma foreign_step m j s : foreign (c_fsID (me_client m)) j → deployed s → serving (me_client m) (me_scope m) s →
  deployed (fleet_exec j s).2 ∧ serving (me_client m) (me_scope m) (fleet_exec j s).2 ∧
  ∀ cs, volume (me_scope m) (fleet_exec j s).2 cs = volume (me_scope m) s cs.
Proof.
  intros Hf Hd Hs. set (J t := steady s t ∧ ∀ cs, volume (me_scope m) t cs = volume (me_scope m) s cs).
  assert (steady s s) as Hst by (split; [done|]; split; [exact (sv_free _ _ s Hs)|done]).
  assert (∀ rq t, Validate (rq_authorization rq) ≠ Some (c_fsID (me_client m)) → J t → J (exchange net rq t).2) as HJ.
  { intros rq t Hv [Ht Hvol]. split; [by apply exchange_steady|]. intros cs. rewrite <- Hvol.
    apply (exchange_foreign (c_fsID (me_client m))); [apply Ht| |done]. destruct Ht as (_ & _ & ->). apply Hs. }
  assert (J (fleet_exec j s).2) as [Hst' Hv']; [|split; [apply Hst'|]; split; [by eapply steady_serving|done]].
  destruct j as [k op|rq]; simpl in *; [|by apply HJ]. destruct (ms !! k) as [m'|] eqn:Hm'; [|done].
  apply mount_exec_keeps; [|done]. intros rq t (Hauth & _). apply HJ. rewrite Hauth. by apply Hf.
Qed.

(** The abstract run of equal volumes. *)
Lemma foldl_spec_proper f ops v w : v ≡ w → ∀ p, foldl (mount_spec f) v ops p = foldl (mount_spec f) w ops p.
Proof.
  revert v w. induction ops as [|op ops IH]; intros v w H; [exact H|]. simpl. apply IH. by rewrite H.
Qed.

(** The step of the mount itself. *)
Lemma own_step i m op s : ms !! i = Some m → writer m → deployed s → serving (me_client m) (me_scope m) s →
  mount_pre (me_fs m) op (volume (me_scope m) s) →
  ∃ s', fleet_exec (JOp i op) s = (true, s') ∧ deployed s' ∧ serving (me_client m) (me_scope m) s' ∧
    volume (me_scope m) s' ≡ mount_spec (me_fs m) (volume (me_scope m) s) op.
Proof.
  intros Hm Hw Hd Hs Hp. unfold fleet_exec. rewrite Hm.
  destruct (mount_step net (me_client m) (me_scope m) (me_fs m) (wr_reaches m Hw) (wr_fs m Hw) (wr_scope m Hw) op s Hs Hp)
    as (s' & Hx & Hs' & Hv).
  pose proof (mount_exec_keeps (steady s) (me_client m) (me_fs m) op s) as Hk. unfold BC in Hx. rewrite Hx in Hk.
  exists s'. split; [done|]. split; [|done]. apply Hk; [intros; by apply exchange_steady|].
  split; [done|]. split; [exact (sv_free _ _ s Hs)|done].
Qed.

(** C5: guests of one broker do not interfere.  Interleave the operations of a
    mount with those of any other mounts, admissible or not (an upload whose
    source fails included), and with any requests of anyone, whole or broken
    off, as long as none of them carries a credential of this mount's
    filesystem; let the connection do what it may with the broken ones: when the mount's own operations are admissible in its
    own volume they all succeed, and the volume is at the end what they alone
    make of it, path by path. *)
Theorem guests_isolated (i : nat) (m : member) (jobs : list job) (s : Server)
    (Hm : ms !! i = Some m) (Hw : writer m) (Hd : deployed s) (Hs : serving (me_client m) (me_scope m) s)
    (Hothers : Forall (λ j, own_op i j = None → foreign (c_fsID (me_client m)) j) jobs)
    (Hops : admissible (me_fs m) (own_ops i jobs) (volume (me_scope m) s)) :
  let '(oks, s') := fleet_run jobs s in
  Forall (λ ok, ok = true) (own_results i jobs oks) ∧ serving (me_client m) (me_scope m) s' ∧
  ∀ p, volume (me_scope m) s' p = foldl (mount_spec (me_fs m)) (volume (me_scope m) s) (own_ops i jobs) p.
Proof.
  revert s Hd Hs Hops. induction Hothers as [|j jobs Hj Hothers IH]; intros s Hd Hs Hops; [by split; [constructor|]|].
  cbn [fleet_run]. unfold own_ops in *. simpl in *. destruct (own_op i j) as [op|] eqn:Hop.
  - assert (j = JOp i op) as -> by (destruct j; simpl in Hop; [case_decide; naive_solver|done]).
    destruct Hops as [Hp Hops].
    destruct (own_step i m op s Hm Hw Hd Hs Hp) as (s1 & -> & Hd1 & Hs1 & Hv1).
    specialize (IH s1 Hd1 Hs1 (admissible_proper _ _ _ _ (symmetry Hv1) Hops)).
    destruct (fleet_run jobs s1) as [oks s2]. destruct IH as (Hr & Hs2 & Hv2).
    unfold own_results. simpl. rewrite decide_True by done. split; [by constructor|]. split; [done|]. intros p. rewrite Hv2.
    by apply foldl_spec_proper.
  - destruct (foreign_step m j s (Hj eq_refl) Hd Hs) as (Hd1 & Hs1 & Hv1).
    destruct (fleet_exec j s) as [ok s1]. simpl in *.
    assert (volume (me_scope m) s ≡ volume (me_scope m) s1) as Hv by (intros cs; by rewrite Hv1).
    specialize (IH s1 Hd1 Hs1 (admissible_proper _ _ _ _ Hv Hops)).
    destruct (fleet_run jobs s1) as [oks s2]. destruct IH as (Hr & Hs2 & Hv2).
    unfold own_results. simpl. rewrite Hop. split; [done|]. split; [done|]. intros p. rewrite Hv2.
    symmetry. by apply foldl_spec_proper.
Qed.
End fleet.

(** ** Two guests *)
#[local] Existing Instance demo_host.
#[local] Existing Instance demo_host_laws.
#[local] Existing Instance demo_urls.
#[local] Existing Instance demo_accept.
#[local] Existing Instance id_encoder.
#[local] Instance two_credentials : CredentialValidator := StaticValidate {["tok" := "fs1"; "tok2" := "fs2"]}.

Definition other_scope : Scope := mkScope "fs2" "/srv/two" false.
Definition other_client : Client := mkClient "https://edge" "fs2" "tok2" 262144 1073741824 65536.
Definition two_tree : hostfs := <[["srv"; "two"] := NDir]> demo_tree.
Definition two_server : Server := NewServer [demo_scope; other_scope] 0 None two_tree 0.
Definition first_guest : member := mkMember mount_client demo_scope demo_fs.
Definition two_members : list member := [first_guest; mkMember other_client other_scope demo_fs].

Lemma two_deployed : deployed two_server.
Proof.
  assert (∀ fsID sc, sv_scopes two_server !! fsID = Some sc → (fsID = "fs1" ∧ sc = demo_scope) ∨ (fsID = "fs2" ∧ sc = other_scope)) as Hsc.
  { intros fsID sc. change (sv_scopes two_server) with (<["fs2" := other_scope]> (<["fs1" := demo_scope]> (∅ : gmap string Scope))).
    rewrite !lookup_insert_Some, lookup_empty. naive_solver. }
  split.
  - apply wf_tree_check. apply (bool_decide_unpack _). vm_compute. exact I.
  - by intros fsID sc [[-> ->]|[-> ->]]%Hsc.
  - by intros fsID sc [[-> ->]|[-> ->]]%Hsc.
  - intros a b sa sb [[-> ->]|[-> ->]]%Hsc [[-> ->]|[-> ->]]%Hsc Hne; try done; apply (bool_decide_unpack _); vm_compute; exact I.
Qed.

Lemma two_serving : serving (me_client first_guest) (me_scope first_guest) two_server.
Proof.
  assert (map_Forall (λ p n, sendable (drop 2 p) ∧ (if n is NFile d then zlen d else 0) <= 100) two_tree) as H
    by (apply (bool_decide_unpack _); vm_compute; exact I).
  split; try done.
  - apply two_deployed.
  - intros cs d Hd. pose proof (proj2 (H _ (NFile d) Hd)). pose proof (zlen_nonneg d). unfold in_int64, int64_min, int64_max. simpl in *. lia.
  - intros cs n Hn. exact (proj1 (H _ n Hn)).
Qed.

Lemma two_writer : writer first_guest.
Proof. split; [|done|done]. split; try done. by exists "srv/out". Qed.

(** The other guest writes a file of the same name, breaks off an upload over
    it, tries to remove a missing one, and a stranger tries to write without a
    credential. *)
Definition torn_net : Network := mkNetwork (λ _, 0%nat) (λ _ _, 5%nat) (λ _ _, false).
Definition stranger_request : http_request :=
  mkReq "POST" "https://edge/v1/filestore/fs/removeDirectory" "application/json" "Bearer forged"
    (BodyJSON (enc_path_request "fs1" "/a" {| am_Intent := "write"; am_Downloadable := false |})).

Definition two_jobs : list job :=
  [JOp 0 (MPut "a/b.txt" [Seg ["h"; "i"]%char None]); JOp 1 (MPut "a/b.txt" [Seg ["n"; "o"]%char None]);
   JOp 1 (MPut "a/b.txt" [Seg ["x"]%char (Some (errors_New "disk error"))]); JOp 1 (MRemove "missing"); JRequest stranger_request; JOp 0 (MMove "a/b.txt" "x.txt"); JOp 1 (MRmdir "a"); JOp 0 (MRmdir "a")].

Lemma guests_isolated_witness :
  let '(oks, s') := fleet_run torn_net two_members two_jobs two_server in
  Forall (λ ok, ok = true) (own_results 0 two_jobs oks) ∧ serving (me_client first_guest) (me_scope first_guest) s' ∧
  ∀ p, volume (me_scope first_guest) s' p =
    foldl (mount_spec (me_fs first_guest)) (volume (me_scope first_guest) two_server) (own_ops 0 two_jobs) p.
Proof.
  apply (guests_isolated torn_net two_members 0 first_guest two_jobs two_server eq_refl two_writer two_deployed two_serving).
  - repeat (apply Forall_cons; split; [first [discriminate|intros _ m [= <-]|intros _]; vm_compute; discriminate|]).
    constructor.
  - apply (bool_decide_unpack _). vm_compute. exact I.
Defined.

(** An upload whose source fails can destroy what it would replace: the client
    closes the multipart body before it breaks the pipe, so the broker can take
    the form for whole, find it shorter than declared and remove the
    destination. *)
Theorem broken_upload_destroys :
  let put src size := Put (BC := client_broker (TW := wire torn_net) mount_client) demo_fs src {| src_Remote := "a/b.txt"; src_Size := size |} in
  let '(r1, s1) := put [Seg ["h"; "i"]%char None] 2 two_server in
  let '(r2, s2) := put [Seg ["y"; "o"]%char (Some (errors_New "disk error"))] 9 s1 in
  is_Ok r1 = true ∧ volume demo_scope s1 ["a"; "b.txt"] = Some (NFile ["h"; "i"]%char) ∧
  is_Ok r2 = false ∧ volume demo_scope s2 ["a"; "b.txt"] = None.
Proof. vm_compute. done. Qed.
