(* ===== verification/Base64.v ===== *)
(** * encoding/base64, RawURLEncoding

    The unpadded URL alphabet of RFC 4648, as the harness's tokens use it:
    [EncodeToString] and [DecodeString] with Go's leniency (carriage returns and
    newlines are skipped, the unused low bits of a short final group are not
    checked). *)
From Stdlib Require Import Ascii String.
From stdpp Require Import base list strings numbers.
From S2P Require Import Prelude GoJson.
Local Open Scope Z_scope.

(** The encoding table and its inverse. *)
Definition alphabet : string := "ABCDEFGHIJKLMNOPQRSTUVWXYZabcdefghijklmnopqrstuvwxyz0123456789-_".

Definition enc6 (v : Z) : ascii := default zero (String.get (Z.to_nat v) alphabet).

Definition dec6 (a : ascii) : option Z :=
  let b := byte_of a in
  if between 65 b 90 then Some (b - 65)
  else if between 97 b 122 then Some (b - 71)
  else if between 48 b 57 then Some (b + 4)
  else if b =? 45 then Some 62
  else if b =? 95 then Some 63
  else None.

(** The [i]-th sextet of a value, as [encode[val>>n&0x3F]]. *)
Definition sextet (v n : Z) : ascii := enc6 (Z.land (Z.shiftr v n) 0x3F).

Fixpoint EncodeToString (src : string) : string :=
  match src with
  | String a (String b (String c rest)) =>
      let v := Z.lor (Z.lor (Z.shiftl (byte_of a) 16) (Z.shiftl (byte_of b) 8)) (byte_of c) in
      String (sextet v 18) (String (sextet v 12) (String (sextet v 6) (String (sextet v 0) (EncodeToString rest))))
  | String a (String b "") =>
      let v := Z.lor (Z.shiftl (byte_of a) 16) (Z.shiftl (byte_of b) 8) in
      String (sextet v 18) (String (sextet v 12) (String (sextet v 6) ""))
  | String a "" =>
      let v := Z.shiftl (byte_of a) 16 in
      String (sextet v 18) (String (sextet v 12) "")
  | "" => ""
  end.

(** The input without the line breaks the decoder skips. *)
Fixpoint drop_breaks (s : string) : string :=
  match s with
  | "" => ""
  | String a s' => if (byte_of a =? 10) || (byte_of a =? 13) then drop_breaks s' else String a (drop_breaks s')
  end.

(** byte(val >> n) *)
Definition low_byte (v n : Z) : ascii := chr (Z.land (Z.shiftr v n) 0xFF).

(** A group of four, three or two sextets; a lone one is an error. *)
Fixpoint decode_groups (s : string) : option string :=
  match s with
  | "" => Some ""
  | String a "" => None
  | String a (String b "") =>
      x ← dec6 a; y ← dec6 b;
      let v := Z.lor (Z.shiftl x 18) (Z.shiftl y 12) in
      Some (String (low_byte v 16) "")
  | String a (String b (String c "")) =>
      x ← dec6 a; y ← dec6 b; z ← dec6 c;
      let v := Z.lor (Z.lor (Z.shiftl x 18) (Z.shiftl y 12)) (Z.shiftl z 6) in
      Some (String (low_byte v 16) (String (low_byte v 8) ""))
  | String a (String b (String c (String d rest))) =>
      x ← dec6 a; y ← dec6 b; z ← dec6 c; w ← dec6 d;
      let v := Z.lor (Z.lor (Z.lor (Z.shiftl x 18) (Z.shiftl y 12)) (Z.shiftl z 6)) w in
      r ← decode_groups rest;
      Some (String (low_byte v 16) (String (low_byte v 8) (String (low_byte v 0) r)))
  end.

(** [None] is a CorruptInputError. *)
Definition DecodeString (s : string) : option string := decode_groups (drop_breaks s).

(** RFC 4648, with the padding dropped. *)
Example encode_ex : map EncodeToString [""; "f"; "fo"; "foo"; "foob"; "fooba"; "foobar"]
  = [""; "Zg"; "Zm8"; "Zm9v"; "Zm9vYg"; "Zm9vYmE"; "Zm9vYmFy"].
Proof. vm_compute. reflexivity. Qed.
Example decode_ex : map DecodeString ["Zm9v" +:+ String "010"%char "YmFy"; "Z"; "Zh"; "Zg=="; "_-8"]
  = [Some "foobar"; None; Some "f"; None; Some (String (chr 255) (String (chr 239) ""))].
Proof. vm_compute. reflexivity. Qed.

(** ** Round trip *)

Lemma byte_of_range a : 0 <= byte_of a < 256.
Proof. unfold byte_of. pose proof (N_ascii_bounded a). lia. Qed.

Lemma chr_byte a : chr (byte_of a) = a.
Proof. unfold chr, byte_of. by rewrite N2Z.id, ascii_N_embedding. Qed.

(** What the table's entries look like: decodable, and one of the 64. *)
Definition b64_char (a : ascii) : bool := bool_decide (is_Some (dec6 a)).

Lemma enc6_table : forallb (λ v, bool_decide (dec6 (enc6 v) = Some v)) (seqZ 0 64) = true.
Proof. vm_compute. reflexivity. Qed.

Lemma dec_enc6 v : 0 <= v < 64 → dec6 (enc6 v) = Some v.
Proof.
  intros Hv. pose proof enc6_table as H. rewrite forallb_forall in H.
  apply (bool_decide_eq_true_1 (dec6 (enc6 v) = Some v)), H, list_elem_of_In, elem_of_seqZ. lia.
Qed.

Lemma sextet_eq v n : 0 <= n → sextet v n = enc6 ((v / 2 ^ n) mod 64).
Proof. intros Hn. unfold sextet. change 0x3F with (Z.ones 6). by rewrite Z.land_ones, Z.shiftr_div_pow2. Qed.

Lemma dec_sextet v n : 0 <= n → dec6 (sextet v n) = Some ((v / 2 ^ n) mod 64).
Proof. intros Hn. rewrite sextet_eq by done. apply dec_enc6, Z.mod_pos_bound. lia. Qed.

Lemma low_byte_eq v n : 0 <= n → low_byte v n = chr ((v / 2 ^ n) mod 256).
Proof. intros Hn. unfold low_byte. change 0xFF with (Z.ones 8). by rewrite Z.land_ones, Z.shiftr_div_pow2. Qed.

(** Or-ing a value below 2^n under a multiple of 2^n is addition. *)
Lemma lor_shiftl x y n : 0 <= n → 0 <= y < 2 ^ n → Z.lor (Z.shiftl x n) y = x * 2 ^ n + y.
Proof.
  intros Hn Hy. rewrite <- Z.shiftl_mul_pow2, <- Z.add_lor_land by done.
  replace (Z.land (Z.shiftl x n) y) with 0; [lia|]. apply Z.bits_inj'. intros i Hi.
  rewrite Z.bits_0, Z.land_spec, Z.shiftl_spec by done. destruct (Z.lt_ge_cases i n).
  - by rewrite Z.testbit_neg_r by lia.
  - rewrite <- (Z.mod_small y (2 ^ n)), Z.mod_pow2_bits_high by lia. by rewrite andb_false_r.
Qed.

Lemma lor_shiftl2 x y m n : 0 <= n <= m → 0 <= y * 2 ^ n < 2 ^ m →
  Z.lor (Z.shiftl x m) (Z.shiftl y n) = x * 2 ^ m + y * 2 ^ n.
Proof. intros Hn Hy. rewrite (Z.shiftl_mul_pow2 y) by lia. apply lor_shiftl; lia. Qed.

(** The 24 bits of a group, put together from bytes and from sextets. *)
Lemma join_bytes a b c : 0 <= b < 256 → 0 <= c < 256 →
  Z.lor (Z.lor (Z.shiftl a 16) (Z.shiftl b 8)) c = a * 65536 + b * 256 + c.
Proof.
  intros Hb Hc. rewrite lor_shiftl2 by lia.
  replace (a * 2 ^ 16 + b * 2 ^ 8) with ((a * 256 + b) * 2 ^ 8) by lia.
  rewrite <- (Z.shiftl_mul_pow2 _ 8), lor_shiftl by lia. lia.
Qed.

Lemma join_sextets x y z w : 0 <= y < 64 → 0 <= z < 64 → 0 <= w < 64 →
  Z.lor (Z.lor (Z.lor (Z.shiftl x 18) (Z.shiftl y 12)) (Z.shiftl z 6)) w = x * 262144 + y * 4096 + z * 64 + w.
Proof.
  intros Hy Hz Hw. rewrite (lor_shiftl2 x) by lia.
  replace (x * 2 ^ 18 + y * 2 ^ 12) with ((x * 64 + y) * 2 ^ 12) by lia.
  rewrite <- (Z.shiftl_mul_pow2 _ 12), (lor_shiftl2 _ z) by lia.
  replace ((x * 64 + y) * 2 ^ 12 + z * 2 ^ 6) with ((x * 4096 + y * 64 + z) * 2 ^ 6) by lia.
  rewrite <- (Z.shiftl_mul_pow2 _ 6), lor_shiftl by lia. lia.
Qed.

Lemma split_sextets v : 0 <= v < 2 ^ 24 →
  (v / 2 ^ 18) mod 64 * 262144 + (v / 2 ^ 12) mod 64 * 4096 + (v / 2 ^ 6) mod 64 * 64 + (v / 2 ^ 0) mod 64 = v.
Proof.
  intros Hv. change (2 ^ 18) with (64 * 64 * 64). change (2 ^ 12) with (64 * 64). change (2 ^ 6) with 64.
  rewrite <- !Z.div_div, Z.div_1_r by done.
  pose proof (Z.div_mod v 64). pose proof (Z.div_mod (v / 64) 64). pose proof (Z.div_mod (v / 64 / 64) 64).
  rewrite (Z.mod_small (v / 64 / 64 / 64)); [lia|].
  split; [repeat (apply Z.div_pos; [|done]); lia|]. rewrite !Z.div_div by done. apply Z.div_lt_upper_bound; lia.
Qed.

Lemma low_bytes a b c : let v := byte_of a * 65536 + byte_of b * 256 + byte_of c in
  low_byte v 16 = a ∧ low_byte v 8 = b ∧ low_byte v 0 = c.
Proof.
  intros v. pose proof (byte_of_range a). pose proof (byte_of_range b). pose proof (byte_of_range c).
  rewrite !low_byte_eq by lia.
  assert (v / 2 ^ 8 = byte_of a * 256 + byte_of b) as H8.
  { subst v. change (2 ^ 8) with 256. symmetry. apply (Z.div_unique _ _ _ (byte_of c)); lia. }
  assert (v / 2 ^ 16 = byte_of a) as H16.
  { change (2 ^ 16) with (2 ^ 8 * 2 ^ 8). rewrite <- Z.div_div by done. rewrite H8. change (2 ^ 8) with 256.
    symmetry. apply (Z.div_unique _ _ _ (byte_of b)); lia. }
  rewrite H8, H16, Z.div_1_r. subst v. split_and!.
  - rewrite Z.mod_small by lia. apply chr_byte.
  - rewrite Z.add_comm, Z.mod_add, Z.mod_small by lia. apply chr_byte.
  - replace (byte_of a * 65536 + byte_of b * 256 + byte_of c) with (byte_of c + (byte_of a * 256 + byte_of b) * 256) by lia.
    rewrite Z.mod_add, Z.mod_small by lia. apply chr_byte.
Qed.

(** The sextets of three bytes put back together. *)
Definition group (a b c : ascii) : Z := byte_of a * 65536 + byte_of b * 256 + byte_of c.
Definition sx (v n : Z) : Z := (v / 2 ^ n) mod 64.

Lemma group_range a b c : 0 <= group a b c < 2 ^ 24.
Proof. pose proof (byte_of_range a). pose proof (byte_of_range b). pose proof (byte_of_range c). unfold group. lia. Qed.

Lemma sx_range v n : 0 <= sx v n < 64.
Proof. apply Z.mod_pos_bound. lia. Qed.

Lemma regroup v : 0 <= v < 2 ^ 24 →
  Z.lor (Z.lor (Z.lor (Z.shiftl (sx v 18) 18) (Z.shiftl (sx v 12) 12)) (Z.shiftl (sx v 6) 6)) (sx v 0) = v.
Proof. intros Hv. rewrite join_sextets by apply sx_range. by apply split_sextets. Qed.

Lemma bytes_of_group a b c :
  low_byte (group a b c) 16 = a ∧ low_byte (group a b c) 8 = b ∧ low_byte (group a b c) 0 = c.
Proof. apply low_bytes. Qed.

Lemma group3 a b c : Z.lor (Z.lor (Z.shiftl (byte_of a) 16) (Z.shiftl (byte_of b) 8)) (byte_of c) = group a b c.
Proof. apply join_bytes; apply byte_of_range. Qed.
Lemma group2 a b : Z.lor (Z.shiftl (byte_of a) 16) (Z.shiftl (byte_of b) 8) = group a b zero.
Proof. rewrite <- group3. by rewrite Z.lor_0_r. Qed.
Lemma group1 a : Z.shiftl (byte_of a) 16 = group a zero zero.
Proof. rewrite <- group2. by rewrite Z.lor_0_r. Qed.

(** The low sextets of a short group are zero. *)
Lemma sx_short2 a b : sx (group a b zero) 0 = 0.
Proof.
  unfold sx, group. change (byte_of zero) with 0. rewrite Z.div_1_r.
  replace (byte_of a * 65536 + byte_of b * 256 + 0) with ((byte_of a * 1024 + byte_of b * 4) * 64) by lia.
  by apply Z.mod_mul.
Qed.
Lemma sx_short1 a : sx (group a zero zero) 6 = 0.
Proof.
  unfold sx, group. change (byte_of zero) with 0. change (2 ^ 6) with 64.
  replace (byte_of a * 65536 + 0 * 256 + 0) with (byte_of a * 16 * 64 * 64) by lia.
  rewrite Z.div_mul by done. by apply Z.mod_mul.
Qed.

Lemma decode_encode_groups n : ∀ src, (String.length src <= n)%nat → decode_groups (EncodeToString src) = Some src.
Proof.
  induction n as [|n IH]; intros [|a [|b [|c rest]]] Hn; try done; cbn [String.length] in Hn; try lia.
  - cbn [EncodeToString decode_groups]. rewrite !dec_sextet, group1 by done. cbn [mbind option_bind].
    fold (sx (group a zero zero) 18) (sx (group a zero zero) 12).
    pose proof (regroup _ (group_range a zero zero)) as H. rewrite sx_short1, sx_short2, Z.shiftl_0_l, !Z.lor_0_r in H.
    rewrite H. by destruct (bytes_of_group a zero zero) as (-> & _).
  - cbn [EncodeToString decode_groups]. rewrite !dec_sextet, group2 by done. cbn [mbind option_bind].
    fold (sx (group a b zero) 18) (sx (group a b zero) 12) (sx (group a b zero) 6).
    pose proof (regroup _ (group_range a b zero)) as H. rewrite sx_short2, !Z.lor_0_r in H.
    rewrite H. by destruct (bytes_of_group a b zero) as (-> & -> & _).
  - cbn [EncodeToString decode_groups]. rewrite !dec_sextet, group3 by done. cbn [mbind option_bind].
    fold (sx (group a b c) 18) (sx (group a b c) 12) (sx (group a b c) 6) (sx (group a b c) 0).
    rewrite regroup by apply group_range. rewrite IH by lia. cbn [mbind option_bind].
    by destruct (bytes_of_group a b c) as (-> & -> & ->).
Qed.

(** Every character of an encoding is one of the 64. *)
Fixpoint all_b64 (s : string) : bool :=
  match s with "" => true | String a s' => b64_char a && all_b64 s' end.

Lemma sextet_char v n : 0 <= n → b64_char (sextet v n) = true.
Proof. intros Hn. apply bool_decide_eq_true. rewrite dec_sextet by done. by eexists. Qed.

Lemma encode_b64 n : ∀ src, (String.length src <= n)%nat → all_b64 (EncodeToString src) = true.
Proof.
  induction n as [|n IH]; intros [|a [|b [|c rest]]] Hn; try done; cbn [String.length] in Hn; try lia;
    cbn [EncodeToString all_b64]; rewrite !sextet_char by done; [done..|]. apply IH. lia.
Qed.

Lemma EncodeToString_chars src : all_b64 (EncodeToString src) = true.
Proof. by apply (encode_b64 (String.length src)). Qed.

(** What a character of the alphabet is not. *)
Lemma b64_char_range a : b64_char a = true → 45 <= byte_of a <= 122 ∧ byte_of a ≠ 46.
Proof.
  intros Ha%bool_decide_eq_true. destruct Ha as [v Hv]. unfold dec6, between in Hv.
  destruct (Z.leb_spec 65 (byte_of a)), (Z.leb_spec (byte_of a) 90); simpl in Hv; try lia;
  destruct (Z.leb_spec 97 (byte_of a)), (Z.leb_spec (byte_of a) 122); simpl in Hv; try lia;
  destruct (Z.leb_spec 48 (byte_of a)), (Z.leb_spec (byte_of a) 57); simpl in Hv; try lia;
  destruct (Z.eqb_spec (byte_of a) 45); try lia; destruct (Z.eqb_spec (byte_of a) 95); try lia; done.
Qed.

Lemma drop_breaks_b64 s : all_b64 s = true → drop_breaks s = s.
Proof.
  induction s as [|a s IH]; [done|]. simpl. intros [Ha Hs]%andb_true_iff. pose proof (b64_char_range a Ha).
  rewrite (proj2 (Z.eqb_neq _ 10)), (proj2 (Z.eqb_neq _ 13)) by lia. simpl. by rewrite IH.
Qed.

(** Decoding undoes encoding. *)
Lemma Decode_Encode src : DecodeString (EncodeToString src) = Some src.
Proof.
  unfold DecodeString. rewrite drop_breaks_b64 by apply EncodeToString_chars. by apply (decode_encode_groups (String.length src)).
Qed.

Lemma b64_no_dot s : all_b64 s = true → ¬ "."%char ∈ list_ascii_of_string s.
Proof.
  induction s as [|a s IH]; simpl; [intros _; apply not_elem_of_nil|].
  intros [Ha Hs]%andb_true_iff [<-|Hin]%elem_of_cons; [|by apply IH]. by apply b64_char_range in Ha as [_ []].
Qed.
