(* ===== verification/GoForm.v ===== *)
(** * Forms: net/url query escaping and strings.TrimSpace

    [url.QueryEscape], [QueryUnescape], [Values.Encode] and [ParseQuery], which
    carry the token exchange, and [strings.TrimSpace]. *)
From Stdlib Require Import Ascii String.
From stdpp Require Import base list strings numbers.
From S2P Require Import Prelude GoPath GoJson Base64.
Local Open Scope Z_scope.

(** ** strings.TrimSpace *)

(** The white space of unicode.IsSpace, as its UTF-8 text. *)
Definition spaces : list string :=
  map (λ z, String (chr z) "") [9; 10; 11; 12; 13; 32] ++
  map utf8_encode ([0x85; 0xA0; 0x1680; 0x2028; 0x2029; 0x202F; 0x205F; 0x3000] ++ seqZ 0x2000 11).

Fixpoint rev_string (s : string) : string :=
  match s with "" => "" | String a s' => rev_string s' +:+ String a "" end.

(** Drop leading texts of [ws], at most [fuel] of them. *)
Fixpoint trim_left_of (ws : list string) (fuel : nat) (s : string) : string :=
  match fuel with
  | O => s
  | S f => match List.find (λ w, HasPrefix s w) ws with
           | Some w => trim_left_of ws f (TrimPrefix s w)
           | None => s
           end
  end.

Definition TrimSpace (s : string) : string :=
  let l := trim_left_of spaces (String.length s) s in
  rev_string (trim_left_of (map rev_string spaces) (String.length l) (rev_string l)).

Example TrimSpace_ex : TrimSpace (" " +:+ utf8_encode 0x2003 +:+ "a b" +:+ utf8_encode 0xA0 +:+ String (chr 10) "") = "a b".
Proof. vm_compute. reflexivity. Qed.

(** ** Query escaping *)

(** The bytes a query component keeps. *)
Definition unreserved (a : ascii) : bool :=
  let b := byte_of a in
  between 97 b 122 || between 65 b 90 || between 48 b 57 || (b =? 45) || (b =? 95) || (b =? 46) || (b =? 126).

Definition upper_hex (z : Z) : ascii := chr (if z <? 10 then 48 + z else 55 + z).

Definition escape_byte (a : ascii) : string :=
  if unreserved a then String a ""
  else if byte_of a =? 32 then "+"
  else String (chr 37) (String (upper_hex (Z.shiftr (byte_of a) 4)) (String (upper_hex (Z.land (byte_of a) 15)) "")).

Fixpoint QueryEscape (s : string) : string :=
  match s with "" => "" | String a s' => escape_byte a +:+ QueryEscape s' end.

(** [None] is an EscapeError. *)
Fixpoint QueryUnescape (s : string) : option string :=
  match s with
  | "" => Some ""
  | String a s' =>
      if byte_of a =? 37 then
        match s' with
        | String b (String c rest) =>
            x ← hexval b; y ← hexval c; r ← QueryUnescape rest; Some (String (chr (16 * x + y)) r)
        | _ => None
        end
      else r ← QueryUnescape s'; Some (String (if byte_of a =? 43 then chr 32 else a) r)
  end.

(** ** Values *)

(** Values.Encode of single-valued keys, given in key order. *)
Definition amp : ascii := "&"%char.
Definition eq_char : ascii := "="%char.
Definition Encode (kvs : list (string * string)) : string :=
  join_with amp (map (λ kv, QueryEscape kv.1 +:+ String eq_char (QueryEscape kv.2)) kvs).

(** strings.Cut at a character. *)
Fixpoint Cut (c : ascii) (s : string) : string * string :=
  match s with
  | "" => ("", "")
  | String a s' => if decide (a = c) then ("", s') else let '(x, y) := Cut c s' in (String a x, y)
  end.

(** One piece between ampersands: nothing, an error, or a pair. *)
Definition parse_piece (piece : string) : option (result unit (string * string)) :=
  if contains_char ";"%char piece then Some (Err tt)
  else if decide (piece = "") then None
  else let '(k, v) := Cut eq_char piece in
       match QueryUnescape k with
       | None => Some (Err tt)
       | Some key => match QueryUnescape v with
                     | None => Some (Err tt)
                     | Some value => Some (Ok (key, value))
                     end
       end.

(** ParseQuery: the pairs in order, and whether there was an error. *)
Fixpoint parse_pieces (pieces : list string) : list (string * string) * bool :=
  match pieces with
  | [] => ([], false)
  | p :: ps =>
      let '(kvs, bad) := parse_pieces ps in
      match parse_piece p with
      | None => (kvs, bad)
      | Some (Err _) => (kvs, true)
      | Some (Ok kv) => (kv :: kvs, bad)
      end
  end.
Definition ParseQuery (query : string) : list (string * string) * bool := parse_pieces (split_on amp query).

(** Values.Get: the first value of the key, or the empty string. *)
Definition Get (kvs : list (string * string)) (key : string) : string :=
  match List.find (λ kv, bool_decide (kv.1 = key)) kvs with Some kv => kv.2 | None => "" end.

Example form_ex : ParseQuery (Encode [("grant_type", "a:b c"); ("t", "x&y=%+")]) = ([("grant_type", "a:b c"); ("t", "x&y=%+")], false).
Proof. vm_compute. reflexivity. Qed.

(** ** Round trips *)
Lemma hex_digits_table : forallb (λ z, bool_decide (hexval (upper_hex z) = Some z)) (seqZ 0 16) = true.
Proof. vm_compute. reflexivity. Qed.

Lemma hexval_upper z : 0 <= z < 16 → hexval (upper_hex z) = Some z.
Proof.
  intros Hz. pose proof hex_digits_table as H. rewrite forallb_forall in H.
  apply (bool_decide_eq_true_1 (hexval (upper_hex z) = Some z)), H, list_elem_of_In, elem_of_seqZ. lia.
Qed.

Lemma unreserved_plain a : unreserved a = true → byte_of a ≠ 37 ∧ byte_of a ≠ 43 ∧ byte_of a ≠ 38 ∧ byte_of a ≠ 59 ∧ byte_of a ≠ 61.
Proof.
  unfold unreserved, between. rewrite !orb_true_iff, !andb_true_iff, !Z.leb_le, !Z.eqb_eq. lia.
Qed.

Lemma nibbles b : 0 <= b < 256 → 0 <= Z.shiftr b 4 < 16 ∧ 0 <= Z.land b 15 < 16 ∧ 16 * Z.shiftr b 4 + Z.land b 15 = b.
Proof.
  intros Hb. change 15 with (Z.ones 4). rewrite Z.land_ones, Z.shiftr_div_pow2 by lia. change (2 ^ 4) with 16.
  pose proof (Z.mod_pos_bound b 16). pose proof (Z.div_mod b 16).
  split; [|lia]. split; [apply Z.div_pos; lia|apply Z.div_lt_upper_bound; lia].
Qed.

Lemma unescape_byte a s : QueryUnescape (escape_byte a +:+ s) = (r ← QueryUnescape s; Some (String a r)).
Proof.
  unfold escape_byte. destruct (unreserved a) eqn:Hu.
  { apply unreserved_plain in Hu as (H1 & H2 & _). change (String a "" +:+ s) with (String a s). cbn [QueryUnescape].
    by rewrite (proj2 (Z.eqb_neq _ 37)), (proj2 (Z.eqb_neq _ 43)) by done. }
  destruct (Z.eqb_spec (byte_of a) 32) as [He|].
  { rewrite <- (chr_byte a), He. reflexivity. }
  pose proof (nibbles _ (byte_of_range a)) as (Hh & Hl & Hsum).
  change (String (chr 37) (String (upper_hex (Z.shiftr (byte_of a) 4)) (String (upper_hex (Z.land (byte_of a) 15)) "")) +:+ s)
    with (String (chr 37) (String (upper_hex (Z.shiftr (byte_of a) 4)) (String (upper_hex (Z.land (byte_of a) 15)) s))).
  cbn [QueryUnescape]. change (byte_of (chr 37) =? 37) with true. cbv iota.
  rewrite !hexval_upper by done. cbn [mbind option_bind]. by rewrite Hsum, chr_byte.
Qed.

Lemma QueryUnescape_Escape s : QueryUnescape (QueryEscape s) = Some s.
Proof. induction s as [|a s IH]; [done|]. cbn [QueryEscape]. by rewrite unescape_byte, IH. Qed.

(** An escaped text has none of the separators. *)
Definition separator (a : ascii) : Prop := byte_of a = 38 ∨ byte_of a = 59 ∨ byte_of a = 61.

Lemma escape_table : forallb (λ z, let s := escape_byte (chr z) in
    negb (contains_char amp s) && negb (contains_char ";"%char s) && negb (contains_char eq_char s)) (seqZ 0 256) = true.
Proof. vm_compute. reflexivity. Qed.

Lemma escape_byte_plain a :
  contains_char amp (escape_byte a) = false ∧ contains_char ";"%char (escape_byte a) = false ∧ contains_char eq_char (escape_byte a) = false.
Proof.
  pose proof escape_table as H. rewrite forallb_forall in H. specialize (H (byte_of a)). simpl in H. rewrite chr_byte in H.
  assert (In (byte_of a) (seqZ 0 256)) as Hin by (apply list_elem_of_In, elem_of_seqZ; pose proof (byte_of_range a); lia).
  apply H in Hin. clear H. apply andb_true_iff in Hin as [Hin H3]. apply andb_true_iff in Hin as [H1 H2].
  by apply negb_true_iff in H1, H2, H3.
Qed.

Lemma contains_app c s t : contains_char c (s +:+ t) = contains_char c s || contains_char c t.
Proof. induction s as [|a s IH]; [done|]. simpl. by rewrite IH, orb_assoc. Qed.

Lemma QueryEscape_plain s :
  contains_char amp (QueryEscape s) = false ∧ contains_char ";"%char (QueryEscape s) = false ∧ contains_char eq_char (QueryEscape s) = false.
Proof.
  induction s as [|a s (H1 & H2 & H3)]; [done|]. cbn [QueryEscape]. rewrite !contains_app, H1, H2, H3, !orb_false_r.
  apply escape_byte_plain.
Qed.

Lemma Cut_at c s t : contains_char c s = false → Cut c (s +:+ String c t) = (s, t).
Proof.
  induction s as [|a s IH]; simpl; intros H; [by rewrite decide_True|].
  apply orb_false_iff in H as [Ha Hs]. apply bool_decide_eq_false in Ha. rewrite decide_False by done. by rewrite IH.
Qed.

Lemma parse_pair k v : parse_piece (QueryEscape k +:+ String eq_char (QueryEscape v)) = Some (Ok (k, v)).
Proof.
  unfold parse_piece. destruct (QueryEscape_plain k) as (_ & Hk & Hke), (QueryEscape_plain v) as (_ & Hv & _).
  rewrite contains_app, Hk. simpl. rewrite Hv.
  rewrite decide_False by (by destruct (QueryEscape k)).
  rewrite Cut_at by done. by rewrite !QueryUnescape_Escape.
Qed.

(** A form reads back as it was set. *)
Lemma ParseQuery_Encode kvs : kvs ≠ [] → ParseQuery (Encode kvs) = (kvs, false).
Proof.
  intros Hne. unfold ParseQuery, Encode. rewrite split_join.
  - clear Hne. induction kvs as [|[k v] kvs IH]; [done|]. cbn [map parse_pieces fst snd]. by rewrite IH, parse_pair.
  - by destruct kvs.
  - apply Forall_fmap, Forall_true. intros [k v]. simpl. rewrite contains_app. simpl.
    destruct (QueryEscape_plain k) as (-> & _), (QueryEscape_plain v) as (-> & _). done.
Qed.

(** ** Trimming leaves a token alone *)

(** The bytes tokens are made of. *)
Definition token_char (a : ascii) : bool := between 45 (byte_of a) 122.
Fixpoint token_text (s : string) : bool := match s with "" => true | String a s' => token_char a && token_text s' end.

Lemma token_text_app s t : token_text (s +:+ t) = token_text s && token_text t.
Proof. induction s as [|a s IH]; [done|]. simpl. by rewrite IH, andb_assoc. Qed.

Lemma rev_string_app s t : rev_string (s +:+ t) = rev_string t +:+ rev_string s.
Proof. induction s as [|a s IH]; simpl; [by rewrite string_app_nil_r|]. by rewrite IH, string_app_assoc. Qed.

Lemma rev_string_involutive s : rev_string (rev_string s) = s.
Proof. induction s as [|a s IH]; [done|]. simpl. by rewrite rev_string_app, IH. Qed.

Lemma rev_string_token s : token_text (rev_string s) = token_text s.
Proof. induction s as [|a s IH]; [done|]. simpl. by rewrite token_text_app, IH, andb_comm; simpl; rewrite andb_true_r. Qed.

(** No text of [ws] starts like a token. *)
Definition no_token_start (w : string) : bool := match w with String a _ => negb (token_char a) | "" => false end.

Lemma trim_left_token ws fuel s : forallb no_token_start ws = true → token_text s = true → trim_left_of ws fuel s = s.
Proof.
  intros Hws Hs. destruct fuel as [|fuel]; [done|]. simpl.
  destruct (List.find (λ w, HasPrefix s w) ws) as [w|] eqn:Hf; [|done]. exfalso.
  apply List.find_some in Hf as [Hin Hp]. rewrite forallb_forall in Hws. specialize (Hws w Hin).
  apply bool_decide_eq_true in Hp as [r Hr]. apply strip_prefix_Some in Hr. subst s.
  destruct w as [|a w]; [done|]. simpl in Hs, Hws. apply andb_true_iff in Hs as [Ha _]. by rewrite Ha in Hws.
Qed.

Lemma TrimSpace_token s : token_text s = true → TrimSpace s = s.
Proof.
  intros Hs. unfold TrimSpace.
  rewrite (trim_left_token spaces), trim_left_token, rev_string_involutive by (done || by rewrite rev_string_token). done.
Qed.

Lemma b64_token s : all_b64 s = true → token_text s = true.
Proof.
  induction s as [|a s IH]; [done|]. simpl. intros [Ha Hs]%andb_true_iff. rewrite IH by done.
  apply b64_char_range in Ha as [? _]. unfold token_char, between. rewrite andb_true_r, andb_true_iff, !Z.leb_le. lia.
Qed.
