(* ===== verification/Jwt.v ===== *)
(** * The session tokens (test/harness/internal/jwtmint)

    ES256 compact JWTs: [Sign], [Verify] and its failure classes, the JSON Web
    Key Set it selects keys from, and [ExpiryUnverified].  The JOSE framing, the
    JSON, base64url and SHA-256 are modelled; the curve is the class [Ecdsa]. *)
From Stdlib Require Import Ascii String.
From stdpp Require Import base list strings numbers.
From S2P Require Import Prelude GoPath Sha256 GoErrors BrokerErrors GoJson JsonText Base64 GoTime Filestore WireCodec.
Local Open Scope Z_scope.

(** ** crypto/ecdsa and crypto/ecdh *)

(** A public key is its pair of affine coordinates.  [ecdsa_Sign] consumes
    entropy; [on_curve] is ecdh.P256().NewPublicKey on an uncompressed point. *)
Class Ecdsa := {
  PrivateKey : Type;
  sk_P256 : PrivateKey → bool;
  sk_public : PrivateKey → Z * Z;
  ecdsa_Sign : PrivateKey → list Z → Z → result error (Z * Z);
  ecdsa_Verify : Z * Z → list Z → Z → Z → bool;
  on_curve : list Z → bool }.

(** ** Claims *)
Record Claims := mkClaims {
  cl_Issuer : string; cl_Audience : string; cl_Subject : string; cl_IssuedAt : Z; cl_Expiry : Z;
  cl_FilesystemID : string; cl_Intent : string; cl_AuthzIntent : string; cl_Downloadable : bool }.

Definition zero_Claims : Claims := mkClaims "" "" "" 0 0 "" "" "" false.

Definition enc_Claims (c : Claims) : json :=
  JObj ([("iss", JStr (cl_Issuer c)); ("aud", JStr (cl_Audience c))] ++ omit_str "sub" (cl_Subject c) ++
        [("iat", JNum (cl_IssuedAt c)); ("exp", JNum (cl_Expiry c)); ("filesystem_id", JStr (cl_FilesystemID c));
         ("intent", JStr (cl_Intent c)); ("authz", JObj [("intent", JStr (cl_AuthzIntent c))]);
         ("downloadable", JBool (cl_Downloadable c))]).

Definition claim_fields : list string :=
  ["iss"; "aud"; "sub"; "iat"; "exp"; "filesystem_id"; "intent"; "authz"; "downloadable"].

Definition set_Claims (f : string) (v : json) (c : Claims) : option Claims :=
  let '(mkClaims iss aud sub iat exp fsid intent authz dl) := c in
  if decide (f = "iss") then (λ x, mkClaims x aud sub iat exp fsid intent authz dl) <$> dec_string v iss
  else if decide (f = "aud") then (λ x, mkClaims iss x sub iat exp fsid intent authz dl) <$> dec_string v aud
  else if decide (f = "sub") then (λ x, mkClaims iss aud x iat exp fsid intent authz dl) <$> dec_string v sub
  else if decide (f = "iat") then (λ x, mkClaims iss aud sub x exp fsid intent authz dl) <$> dec_int64 v iat
  else if decide (f = "exp") then (λ x, mkClaims iss aud sub iat x fsid intent authz dl) <$> dec_int64 v exp
  else if decide (f = "filesystem_id") then (λ x, mkClaims iss aud sub iat exp x intent authz dl) <$> dec_string v fsid
  else if decide (f = "intent") then (λ x, mkClaims iss aud sub iat exp fsid x authz dl) <$> dec_string v intent
  else if decide (f = "authz") then
    (λ x, mkClaims iss aud sub iat exp fsid intent x dl) <$> decode_struct ["intent"] (λ _ w t, dec_string w t) false v authz
  else (λ x, mkClaims iss aud sub iat exp fsid intent authz x) <$> dec_bool v dl.

Definition dec_Claims : json → Claims → option Claims := decode_struct claim_fields set_Claims false.

(** The JWS protected header. *)
Record joseHeader := mkHeader { jh_Alg : string; jh_Typ : string; jh_Kid : string }.

Definition enc_joseHeader (h : joseHeader) : json :=
  JObj [("alg", JStr (jh_Alg h)); ("typ", JStr (jh_Typ h)); ("kid", JStr (jh_Kid h))].
Definition dec_joseHeader : json → joseHeader → option joseHeader :=
  decode_struct ["alg"; "typ"; "kid"]
    (λ f v t, if decide (f = "alg") then (λ x, mkHeader x (jh_Typ t) (jh_Kid t)) <$> dec_string v (jh_Alg t)
              else if decide (f = "typ") then (λ x, mkHeader (jh_Alg t) x (jh_Kid t)) <$> dec_string v (jh_Typ t)
              else (λ x, mkHeader (jh_Alg t) (jh_Typ t) x) <$> dec_string v (jh_Kid t)) false.

(** ** Bytes *)
Definition string_of (bs : list Z) : string := string_of_bytes (map chr bs).

(** big.Int.SetBytes; FillBytes is [be_bytes] of a value that fits. *)
Definition SetBytes (bs : list Z) : Z := foldl (λ acc b, acc * 256 + b) 0 bs.

(** The JOSE signature: R and S, 32 bytes each. *)
Definition encodeRS (r s : Z) : string := string_of (be_bytes 32 r ++ be_bytes 32 s).

Definition decodeRS (sig : string) : option (Z * Z) :=
  if negb (String.length sig =? 64)%nat then None
  else Some (SetBytes (take 32 (bytes_of sig)), SetBytes (drop 32 (bytes_of sig))).

(** ** Splitting a token *)
Definition dot : ascii := "."%char.

(** The loop of splitToken from index [i]: the first and second dot, [None] on
    a third. *)
Fixpoint scan_dots (i : nat) (first second : option nat) (s : string) : option (option nat * option nat) :=
  match s with
  | "" => Some (first, second)
  | String a s' =>
      if decide (a = dot) then
        match first, second with
        | None, _ => scan_dots (S i) (Some i) second s'
        | Some _, None => scan_dots (S i) first (Some i) s'
        | Some _, Some _ => None
        end
      else scan_dots (S i) first second s'
  end.

Definition splitToken (token : string) : option (string * string * string) :=
  match scan_dots 0 None None token with
  | Some (Some f, Some g) =>
      Some (substring 0 f token, substring (f + 1) (g - (f + 1)) token, substring (g + 1) (String.length token - (g + 1)) token)
  | _ => None
  end.

(** ** The key set (jwks.go) *)
Record JWK := mkJWK { jk_Kty : string; jk_Crv : string; jk_Kid : string; jk_Use : string; jk_Alg : string; jk_X : string; jk_Y : string }.
Abbreviation JWKS := (list JWK).

Definition p256CoordSize : nat := 32.

(** The first key with the id. *)
Definition Find (s : JWKS) (kid : string) : option JWK := List.find (λ k, bool_decide (jk_Kid k = kid)) s.

Definition leftPad (b : list Z) (size : nat) : option (list Z) :=
  if (size <? length b)%nat then None else Some (replicate (size - length b) 0 ++ b).

(** time.Unix(sec, 0): the seconds since year 1 wrap at 64 bits. *)
Definition time_Unix (sec : Z) : Time := (int64_wrap (sec + 62135596800) - 62135596800) * 1000000000.
(** Time.Unix. *)
Definition Unix (t : Time) : Z := t / 1000000000.

Section jwt.
Context {EC : Ecdsa}.

(** pub.ECDH().Bytes() without its tag byte; zeros for a key it refuses. *)
Definition coordsFromECDSA (pub : Z * Z) : list Z * list Z :=
  let raw := be_bytes p256CoordSize pub.1 ++ be_bytes p256CoordSize pub.2 in
  if on_curve (4 :: raw) then (take p256CoordSize raw, drop p256CoordSize raw)
  else (replicate p256CoordSize 0, replicate p256CoordSize 0).

Definition JWKFromPublic (kid : string) (pub : Z * Z) : JWK :=
  let '(xb, yb) := coordsFromECDSA pub in
  mkJWK "EC" "P-256" kid "sig" "ES256" (EncodeToString (string_of xb)) (EncodeToString (string_of yb)).

Definition err_b64 : error := errors_New "illegal base64 data".

Definition jwk_PublicKey (k : JWK) : result error (Z * Z) :=
  if negb (bool_decide (jk_Kty k = "EC")) then Err (EErrorf "jwtmint: unsupported kty %q" [AStr (jk_Kty k)] [])
  else if negb (bool_decide (jk_Crv k = "P-256")) then Err (EErrorf "jwtmint: unsupported crv %q" [AStr (jk_Crv k)] [])
  else match DecodeString (jk_X k) with
  | None => Err (EErrorf "jwtmint: x is not base64url: %w" [] [err_b64])
  | Some xb =>
  match DecodeString (jk_Y k) with
  | None => Err (EErrorf "jwtmint: y is not base64url: %w" [] [err_b64])
  | Some yb =>
  match leftPad (bytes_of xb) p256CoordSize, leftPad (bytes_of yb) p256CoordSize with
  | Some xf, Some yf =>
      if on_curve (4 :: xf ++ yf) then Ok (SetBytes xf, SetBytes yf)
      else Err (EErrorf "jwtmint: jwk coordinates are not on P-256: %w" [] [errors_New "crypto/ecdh: invalid public key"])
  | _, _ => Err (errors_New "jwtmint: coordinate exceeds P-256 width")
  end end end.

(** ** Sign *)
Definition signing_input (kid : string) (c : Claims) : string :=
  EncodeToString (print_json (enc_joseHeader (mkHeader "ES256" "JWT" kid))) +:+ "." +:+
  EncodeToString (print_json (enc_Claims c)).

Definition Sign (priv : option PrivateKey) (kid : string) (c : Claims) (entropy : Z) : result error string :=
  match priv with
  | None => Err (errors_New "jwtmint.Sign: nil private key")
  | Some k =>
      if negb (sk_P256 k) then Err (errors_New "jwtmint.Sign: ES256 requires a P-256 key")
      else match ecdsa_Sign k (Sum256 (signing_input kid c)) entropy with
           | Err e => Err (EErrorf "jwtmint.Sign: ecdsa sign: %w" [] [e])
           | Ok (r, s) => Ok (signing_input kid c +:+ "." +:+ EncodeToString (encodeRS r s))
           end
  end.

(** ** Verify *)
Definition untrusted (why : string) (args : list arg) : error := EErrorf ("%w: " +:+ why) args [ESent jwt_ErrUntrusted].

(** The top-level intent, else the nested one. *)
Definition effective (c : Claims) : Claims :=
  if decide (cl_Intent c = "")
  then mkClaims (cl_Issuer c) (cl_Audience c) (cl_Subject c) (cl_IssuedAt c) (cl_Expiry c) (cl_FilesystemID c)
         (cl_AuthzIntent c) (cl_AuthzIntent c) (cl_Downloadable c)
  else c.

(** The checks on the claims of a token whose signature holds. *)
Definition claims_verdict (expectedIss expectedAud : string) (now : Time) (c : Claims) : result error Claims :=
  if negb (bool_decide (expectedIss = "")) && negb (bool_decide (cl_Issuer c = expectedIss))
  then Err (untrusted "issuer %q != expected %q" [AStr (cl_Issuer c); AStr expectedIss])
  else if negb (bool_decide (expectedAud = "")) && negb (bool_decide (cl_Audience c = expectedAud))
  then Err (untrusted "audience %q != expected %q" [AStr (cl_Audience c); AStr expectedAud])
  else if cl_Expiry c =? 0 then Err (ESent jwt_ErrNoExpiry)
  else if negb (now <? time_Unix (cl_Expiry c)) then Err (ESent jwt_ErrExpired)
  else Ok c.

Definition Verify (token : string) (jwks : JWKS) (expectedIss expectedAud : string) (now : Time) : result error Claims :=
  match splitToken token with
  | None => Err (untrusted "malformed token" [])
  | Some (headerB64, payloadB64, sigB64) =>
  match DecodeString headerB64 with
  | None => Err (untrusted "header is not base64url" [])
  | Some headerJSON =>
  match Unmarshal dec_joseHeader (mkHeader "" "" "") headerJSON with
  | None => Err (untrusted "header is not JSON" [])
  | Some header =>
  if negb (bool_decide (jh_Alg header = "ES256")) then Err (untrusted "unexpected alg %q" [AStr (jh_Alg header)])
  else match Find jwks (jh_Kid header) with
  | None => Err (untrusted "unknown kid %q" [AStr (jh_Kid header)])
  | Some jwk =>
  match jwk_PublicKey jwk with
  | Err e => Err (EErrorf "%w: jwk: %w" [] [ESent jwt_ErrUntrusted; e])
  | Ok pub =>
  match DecodeString sigB64 with
  | None => Err (EErrorf "%w: signature is not base64url" [] [ESent jwt_ErrBadSignature])
  | Some sig =>
  match decodeRS sig with
  | None => Err (EErrorf "%w: %w" [] [ESent jwt_ErrBadSignature;
                   EErrorf "signature must be %d bytes, got %d" [AInt 64; AInt (Z.of_nat (String.length sig))] []])
  | Some (r, s) =>
  if negb (ecdsa_Verify pub (Sum256 (headerB64 +:+ "." +:+ payloadB64)) r s) then Err (ESent jwt_ErrBadSignature)
  else match DecodeString payloadB64 with
  | None => Err (untrusted "payload is not base64url" [])
  | Some payloadJSON =>
  match Unmarshal dec_Claims zero_Claims payloadJSON with
  | None => Err (untrusted "payload is not JSON" [])
  | Some c => claims_verdict expectedIss expectedAud now (effective c)
  end end end end end end end end end.
End jwt.

(** ** ExpiryUnverified *)
Definition dec_exp : json → Z → option Z := decode_struct ["exp"] (λ _ v t, dec_int64 v t) false.

Definition ExpiryUnverified (token : string) : result error Z :=
  match splitToken token with
  | None => Err (errors_New "jwtmint: not a compact JWS")
  | Some (_, payloadB64, _) =>
      match DecodeString payloadB64 with
      | None => Err (EErrorf "jwtmint: payload is not base64url: %w" [] [err_b64])
      | Some payloadJSON =>
          match Unmarshal dec_exp 0 payloadJSON with
          | None => Err (EErrorf "jwtmint: payload is not JSON: %w" [] [errors_New "json"])
          | Some exp => Ok exp
          end
      end
  end.

(** ** Splitting *)
Lemma scan_plain w : contains_char dot w = false → ∀ i f g rest,
  scan_dots i f g (w +:+ rest) = scan_dots (i + String.length w) f g rest.
Proof.
  induction w as [|a w IH]; intros Hw i f g rest; simpl in *.
  - by rewrite Nat.add_0_r.
  - apply orb_false_iff in Hw as [Ha Hw]. apply bool_decide_eq_false in Ha.
    rewrite decide_False by done. rewrite IH by done. f_equal. lia.
Qed.

Lemma substring_all b : substring 0 (String.length b) b = b.
Proof. induction b as [|c b IH]; simpl; [done|]. by rewrite IH. Qed.

Lemma substring_prefix a b : substring 0 (String.length a) (a +:+ b) = a.
Proof. induction a as [|c a IH]; simpl; [by destruct b|]. by rewrite IH. Qed.

Lemma substring_skip p n m s : substring (String.length p + n) m (p +:+ s) = substring n m s.
Proof. induction p as [|c p IH]; [done|]. simpl. exact IH. Qed.

(** splitToken finds the three dot-separated segments, or fails. *)
Lemma splitToken_segments token :
  splitToken token = match split_on dot token with [h; p; s] => Some (h, p, s) | _ => None end.
Proof.
  pose proof (split_on_nochar dot token) as Hw. rewrite <- (join_split dot token) at 1.
  destruct (split_on dot token) as [|h [|p [|s [|t ts]]]]; unfold splitToken.
  - done.
  - apply Forall_cons_1 in Hw as [Hh _]. simpl. rewrite <- (string_app_nil_r h) at 1. by rewrite scan_plain.
  - apply Forall_cons_1 in Hw as [Hh [Hp _]%Forall_cons_1]. cbn [join_with].
    rewrite scan_plain by done. simpl. rewrite <- (string_app_nil_r p) at 1. by rewrite scan_plain.
  - apply Forall_cons_1 in Hw as [Hh [Hp [Hs _]%Forall_cons_1]%Forall_cons_1]. cbn [join_with].
    rewrite scan_plain by done. simpl. rewrite scan_plain by done. simpl.
    rewrite <- (string_app_nil_r s) at 1. rewrite scan_plain by done. simpl.
    do 2 f_equal; [f_equal|].
    + apply substring_prefix.
    + replace (S (slen h + slen p) - (slen h + 1))%nat with (slen p) by lia.
      rewrite substring_skip. simpl. apply substring_prefix.
    + replace (S (slen h + slen p + 1)) with (slen h + (S (slen p) + 1))%nat by lia.
      rewrite substring_skip. cbn [Nat.add substring]. rewrite substring_skip. simpl.
      replace (slen (h +:+ String dot (p +:+ String dot s)) - (slen h + S (slen p + 1)))%nat with (slen s); [apply substring_all|].
      rewrite !string_length_app. simpl. rewrite string_length_app. simpl. lia.
  - apply Forall_cons_1 in Hw as [Hh [Hp [Hs _]%Forall_cons_1]%Forall_cons_1]. cbn [join_with].
    rewrite scan_plain by done. simpl. rewrite scan_plain by done. simpl. by rewrite scan_plain.
Qed.

Lemma no_dot s : all_b64 s = true → contains_char dot s = false.
Proof.
  induction s as [|a s IH]; simpl; [done|]. intros [Ha Hs]%andb_true_iff. rewrite IH by done. rewrite orb_false_r.
  apply bool_decide_eq_false. intros ->. by apply b64_char_range in Ha as [_ []].
Qed.

(** A token of three encodings splits into them. *)
Lemma splitToken_join h p s : all_b64 h = true → all_b64 p = true → all_b64 s = true →
  splitToken (h +:+ "." +:+ p +:+ "." +:+ s) = Some (h, p, s).
Proof.
  intros Hh%no_dot Hp%no_dot Hs%no_dot. rewrite splitToken_segments.
  change (h +:+ "." +:+ p +:+ "." +:+ s) with (join_with dot [h; p; s]).
  rewrite split_join; [done|done|by repeat constructor].
Qed.

(** ** Bytes *)
Lemma SetBytes_snoc bs b : SetBytes (bs ++ [b]) = SetBytes bs * 256 + b.
Proof. unfold SetBytes. by rewrite foldl_app. Qed.

Lemma SetBytes_acc bs acc : foldl (λ acc b, acc * 256 + b) acc bs = acc * 256 ^ Z.of_nat (length bs) + SetBytes bs.
Proof.
  unfold SetBytes. revert acc. induction bs as [|b bs IH]; intros acc; [simpl; lia|].
  cbn [foldl length]. rewrite IH, (IH (0 * 256 + b)), Nat2Z.inj_succ, Z.pow_succ_r by lia. lia.
Qed.

Lemma SetBytes_be n z : 0 <= z < 256 ^ Z.of_nat n → SetBytes (be_bytes n z) = z.
Proof.
  assert (∀ n z, 0 <= z → SetBytes (be_bytes n z) = z mod 256 ^ Z.of_nat n) as H.
  { clear. induction n as [|n IH]; intros z Hz; [by rewrite Z.mod_1_r|].
    cbn [be_bytes]. unfold SetBytes. cbn [foldl]. rewrite SetBytes_acc, IH, be_bytes_length by done.
    change 255 with (Z.ones 8). rewrite Z.land_ones, Z.shiftr_div_pow2 by lia.
    replace (2 ^ (8 * Z.of_nat n)) with (256 ^ Z.of_nat n) by (by rewrite Z.pow_mul_r by lia).
    rewrite Nat2Z.inj_succ, Z.pow_succ_r by lia. rewrite (Z.mul_comm 256), Z.rem_mul_r by (try apply Z.pow_nonzero; lia).
    change (2 ^ 8) with 256. lia. }
  intros Hz. rewrite H by lia. by apply Z.mod_small.
Qed.

Lemma bytes_of_string_of bs : Forall (λ b, 0 <= b < 256) bs → bytes_of (string_of bs) = bs.
Proof.
  intros Hbs. unfold bytes_of, string_of, string_of_bytes. rewrite list_ascii_of_string_of_list_ascii, List.map_map.
  induction Hbs as [|b bs Hb _ IH]; [done|]. simpl. f_equal; [|done].
  unfold chr. rewrite N_ascii_embedding by lia. lia.
Qed.

Lemma string_of_length bs : String.length (string_of bs) = length bs.
Proof.
  unfold string_of, string_of_bytes. induction bs as [|b bs IH]; [done|]. simpl. by rewrite IH.
Qed.

Lemma decodeRS_encodeRS r s : 0 <= r < 2 ^ 256 → 0 <= s < 2 ^ 256 → decodeRS (encodeRS r s) = Some (r, s).
Proof.
  intros Hr Hs. unfold decodeRS, encodeRS. rewrite string_of_length, length_app, !be_bytes_length. simpl negb. cbv iota.
  rewrite bytes_of_string_of by (apply Forall_app; split; apply be_bytes_range).
  rewrite take_app_length', drop_app_length' by (by rewrite be_bytes_length). by rewrite !SetBytes_be.
Qed.

(** ** Claims on the wire *)

(** Claims json.Marshal keeps as they are. *)
Definition wire_claims (c : Claims) : Prop :=
  valid_utf8 (cl_Issuer c) ∧ valid_utf8 (cl_Audience c) ∧ valid_utf8 (cl_Subject c) ∧ in_int64 (cl_IssuedAt c) ∧
  in_int64 (cl_Expiry c) ∧ valid_utf8 (cl_FilesystemID c) ∧ valid_utf8 (cl_Intent c) ∧ valid_utf8 (cl_AuthzIntent c).

Lemma enc_Claims_clean c : wire_claims c → clean_json (enc_Claims c).
Proof.
  intros (? & ? & ? & _ & _ & ? & ? & ?). apply clean_obj. apply Forall_app; split; [by repeat constructor|].
  apply Forall_app; split; [by apply omit_clean|]. repeat constructor; try done.
Qed.

Lemma read_Claims c : wire_claims c → dec_Claims (enc_Claims c) zero_Claims = Some c.
Proof.
  intros (_ & _ & _ & Hi & He & _). destruct c as [iss aud sub iat exp fsid intent authz dl]; simpl in Hi, He.
  unfold dec_Claims, enc_Claims, decode_struct. cbn [cl_Issuer cl_Audience cl_Subject cl_IssuedAt cl_Expiry cl_FilesystemID cl_Intent cl_AuthzIntent cl_Downloadable].
  erewrite decode_app; [|reflexivity]. erewrite decode_app; [|read_omit].
  lazy -[dec_int64]. rewrite !read_int64 by done. reflexivity.
Qed.

Lemma read_joseHeader h : dec_joseHeader (enc_joseHeader h) (mkHeader "" "" "") = Some h.
Proof. by destruct h. Qed.

Lemma enc_joseHeader_clean h : valid_utf8 (jh_Alg h) → valid_utf8 (jh_Typ h) → valid_utf8 (jh_Kid h) → clean_json (enc_joseHeader h).
Proof. intros. apply clean_obj. by repeat constructor. Qed.

Lemma Ok_inj {E A} (a b : A) : Ok (E := E) a = Ok b → a = b.
Proof. congruence. Qed.

(** ** The key *)

(** What crypto/ecdsa documents: a P-256 key's public point is on the curve,
    and a signature it makes verifies. *)
Class EcdsaLaws (EC : Ecdsa) : Prop := {
  public_on_curve : ∀ k, sk_P256 k = true →
    0 <= (sk_public k).1 < 2 ^ 256 ∧ 0 <= (sk_public k).2 < 2 ^ 256 ∧
    on_curve (4 :: be_bytes 32 (sk_public k).1 ++ be_bytes 32 (sk_public k).2) = true;
  verify_signed : ∀ k digest entropy r s, sk_P256 k = true → ecdsa_Sign k digest entropy = Ok (r, s) →
    0 <= r < 2 ^ 256 ∧ 0 <= s < 2 ^ 256 ∧ ecdsa_Verify (sk_public k) digest r s = true }.

Section tokens.
Context {EC : Ecdsa} {EL : EcdsaLaws EC}.

Lemma leftPad_be n z : leftPad (be_bytes n z) n = Some (be_bytes n z).
Proof. unfold leftPad. by rewrite be_bytes_length, Nat.ltb_irrefl, Nat.sub_diag. Qed.

(** A published key reads back as the key. *)
Lemma jwk_roundtrip kid k : sk_P256 k = true → jwk_PublicKey (JWKFromPublic kid (sk_public k)) = Ok (sk_public k).
Proof using EL.
  intros Hk. destruct (public_on_curve k Hk) as (Hx & Hy & Hc). unfold JWKFromPublic, coordsFromECDSA, p256CoordSize. cbv zeta.
  rewrite Hc, take_app_length', drop_app_length' by (by rewrite be_bytes_length).
  unfold jwk_PublicKey, p256CoordSize. cbn [jk_Kty jk_Crv jk_X jk_Y]. rewrite !bool_decide_eq_true_2 by done. cbn [negb].
  rewrite !Decode_Encode, !bytes_of_string_of by apply be_bytes_range. rewrite !leftPad_be, Hc, !SetBytes_be by done.
  by destruct (sk_public k).
Qed.

Lemma Sign_Ok k kid c entropy token : Sign (Some k) kid c entropy = Ok token →
  sk_P256 k = true ∧ ∃ r s, ecdsa_Sign k (Sum256 (signing_input kid c)) entropy = Ok (r, s) ∧
    token = EncodeToString (print_json (enc_joseHeader (mkHeader "ES256" "JWT" kid))) +:+ "." +:+
            EncodeToString (print_json (enc_Claims c)) +:+ "." +:+ EncodeToString (encodeRS r s).
Proof.
  unfold Sign. destruct (sk_P256 k); [|done]. cbn [negb]. destruct (ecdsa_Sign _ _ _) as [[r s]|] eqn:E; [|done].
  intros <-%Ok_inj. split; [done|]. exists r, s. split; [done|]. unfold signing_input. by rewrite !string_app_assoc.
Qed.

(** A token the key signed gets the verdict on its claims. *)
Lemma Verify_signed k kid c entropy token jwks iss aud now :
  wire_claims c → valid_utf8 kid → Sign (Some k) kid c entropy = Ok token →
  Find jwks kid = Some (JWKFromPublic kid (sk_public k)) →
  Verify token jwks iss aud now = claims_verdict iss aud now (effective c).
Proof using EL.
  intros Hc Hkid (Hk & r & s & Hs & ->)%Sign_Ok Hfind. destruct (verify_signed k _ _ r s Hk Hs) as (Hr & Hs' & Hv).
  unfold Verify. rewrite splitToken_join by apply EncodeToString_chars. rewrite Decode_Encode.
  rewrite Unmarshal_print by (by apply enc_joseHeader_clean). rewrite read_joseHeader. cbn [jh_Alg jh_Kid].
  rewrite bool_decide_eq_true_2 by done. cbn [negb]. rewrite Hfind, jwk_roundtrip, Decode_Encode, decodeRS_encodeRS by done.
  unfold signing_input in Hv. rewrite Hv. cbn [negb].
  by rewrite Decode_Encode, Unmarshal_print, read_Claims by auto using enc_Claims_clean.
Qed.

(** The verdict accepts exactly the claims that name the expected parties and
    have not expired. *)
Definition acceptable (iss aud : string) (now : Time) (c : Claims) : Prop :=
  (iss = "" ∨ cl_Issuer c = iss) ∧ (aud = "" ∨ cl_Audience c = aud) ∧ cl_Expiry c ≠ 0 ∧ now < time_Unix (cl_Expiry c).

Lemma claims_verdict_Ok iss aud now c c' : claims_verdict iss aud now c = Ok c' ↔ c' = c ∧ acceptable iss aud now c.
Proof.
  unfold claims_verdict, acceptable.
  destruct (decide (iss = "")), (decide (cl_Issuer c = iss)); rewrite ?(bool_decide_eq_true_2 (iss = "")), ?(bool_decide_eq_false_2 (iss = "")),
    ?(bool_decide_eq_true_2 (cl_Issuer c = iss)), ?(bool_decide_eq_false_2 (cl_Issuer c = iss)) by done; simpl; try naive_solver;
  destruct (decide (aud = "")), (decide (cl_Audience c = aud)); rewrite ?(bool_decide_eq_true_2 (aud = "")), ?(bool_decide_eq_false_2 (aud = "")),
    ?(bool_decide_eq_true_2 (cl_Audience c = aud)), ?(bool_decide_eq_false_2 (cl_Audience c = aud)) by done; simpl; try naive_solver;
  destruct (Z.eqb_spec (cl_Expiry c) 0), (Z.ltb_spec now (time_Unix (cl_Expiry c))); simpl; naive_solver lia.
Qed.

Lemma effective_accept iss aud now c : acceptable iss aud now (effective c) ↔ acceptable iss aud now c.
Proof. unfold effective. by destruct (decide _). Qed.

(** What an accepted token is made of. *)
Lemma Verify_Ok token jwks iss aud now c : Verify token jwks iss aud now = Ok c →
  ∃ h p sig jwk pub header rs payload c0,
    splitToken token = Some (h, p, sig) ∧ Find jwks (jh_Kid header) = Some jwk ∧ jwk_PublicKey jwk = Ok pub ∧
    ecdsa_Verify pub (Sum256 (h +:+ "." +:+ p)) rs.1 rs.2 = true ∧
    DecodeString p = Some payload ∧ Unmarshal dec_Claims zero_Claims payload = Some c0 ∧
    c = effective c0 ∧ acceptable iss aud now c0.
Proof.
  unfold Verify. destruct (splitToken token) as [[[h p] sig]|]; [|done].
  destruct (DecodeString h); [|done]. destruct (Unmarshal dec_joseHeader _ _) as [header|]; [|done].
  destruct (negb (bool_decide (jh_Alg header = "ES256"))); [done|].
  destruct (Find jwks (jh_Kid header)) as [jwk|] eqn:Hf; [|done]. destruct (jwk_PublicKey jwk) as [pub|] eqn:Hp; [|done].
  destruct (DecodeString sig); [|done]. destruct (decodeRS _) as [[r s']|]; [|done].
  destruct (ecdsa_Verify pub _ r s') eqn:Hv; [|done]. cbn [negb]. destruct (DecodeString p) as [payload|] eqn:Hd; [|done].
  destruct (Unmarshal dec_Claims _ _) as [c0|] eqn:Hu; [|done].
  intros [-> Ha]%claims_verdict_Ok. rewrite effective_accept in Ha.
  exists h, p, sig, jwk, pub, header, (r, s'), payload, c0. done.
Qed.

(** C37: a minted token verifies exactly until it expires.  A token signed with
    a P-256 key, for claims of valid text, is accepted against any key set in
    which its key id names that key, exactly when the expected issuer and audience
    (if any are expected) are its own and its expiry is set and in the future; what
    is returned is its claims, with the nested intent standing in for a missing
    top-level one.  The JOSE framing, base64url, JSON and the 32-byte signature
    halves lose nothing. *)
Theorem Verify_Sign (k : PrivateKey) (kid : string) (c c' : Claims) (entropy : Z) (token : string) (jwks : JWKS)
    (iss aud : string) (now : Time)
    (Hc : wire_claims c) (Hkid : valid_utf8 kid) (Hsign : Sign (Some k) kid c entropy = Ok token)
    (Hfind : Find jwks kid = Some (JWKFromPublic kid (sk_public k))) :
  Verify token jwks iss aud now = Ok c' ↔ c' = effective c ∧ acceptable iss aud now c.
Proof using EL.
  rewrite (Verify_signed k kid c entropy token jwks iss aud now Hc Hkid Hsign Hfind), claims_verdict_Ok.
  by rewrite effective_accept.
Qed.

(** The first dot of a text settles where its first segment ends. *)
Lemma dot_split_inj h p h' p' : contains_char dot h = false → contains_char dot h' = false →
  h +:+ String dot p = h' +:+ String dot p' → h = h' ∧ p = p'.
Proof.
  revert h'. induction h as [|a h IH]; intros [|a' h'] Hh Hh' He; simpl in *.
  - by injection He.
  - injection He as Ha _. by rewrite bool_decide_eq_true_2 in Hh'.
  - injection He as Ha _. by rewrite bool_decide_eq_true_2 in Hh.
  - apply orb_false_iff in Hh as [_ Hh], Hh' as [_ Hh']. injection He as <- He. destruct (IH h' Hh Hh' He) as [-> ->]. done.
Qed.

Lemma splitToken_Some token h p s : splitToken token = Some (h, p, s) →
  token = h +:+ "." +:+ p +:+ "." +:+ s ∧ contains_char dot h = false ∧ contains_char dot p = false.
Proof.
  rewrite splitToken_segments. pose proof (split_on_nochar dot token) as Hw. pose proof (join_split dot token) as Hj.
  destruct (split_on dot token) as [|a [|b [|c [|]]]]; try done. intros [= -> -> ->].
  apply Forall_cons_1 in Hw as [Ha [Hb _]%Forall_cons_1]. by rewrite <- Hj.
Qed.

(** The signature covers the claims.  [signed] lists what the key signed, and
    the key cannot be forged: a digest that verifies was signed. *)
Section authentic.
Context (k : PrivateKey) (kid : string) (signed : list (string * Claims)).
Context (Hk : sk_P256 k = true) (Hsigned : Forall (λ kc, wire_claims kc.2) signed).
Context (Hunforgeable : ∀ digest r s, ecdsa_Verify (sk_public k) digest r s = true →
           ∃ kc, kc ∈ signed ∧ digest = Sum256 (signing_input kc.1 kc.2)).

(** No collision between a text and what was signed. *)
Definition collision_free (x : string) : Prop :=
  ∀ kc, kc ∈ signed → Sum256 x = Sum256 (signing_input kc.1 kc.2) → x = signing_input kc.1 kc.2.

Lemma Verify_signed_only token iss aud now c :
  (∀ h p s, splitToken token = Some (h, p, s) → collision_free (h +:+ "." +:+ p)) →
  Verify token [JWKFromPublic kid (sk_public k)] iss aud now = Ok c →
  ∃ kc, kc ∈ signed ∧ c = effective kc.2 ∧ acceptable iss aud now kc.2.
Proof using EL Hk Hsigned Hunforgeable.
  intros Hcoll (h & p & sig & jwk & pub & header & [r s] & payload & c0 & Hs & Hf & Hp & Hv & Hd & Hu & -> & Ha)%Verify_Ok.
  unfold Find in Hf. simpl in Hf. destruct (bool_decide _); [|done]. injection Hf as <-.
  rewrite jwk_roundtrip in Hp by done. apply Ok_inj in Hp as <-.
  destruct (Hunforgeable _ _ _ Hv) as (kc & Hin & Hdig).
  pose proof (Hcoll h p sig Hs kc Hin Hdig) as Heq. apply splitToken_Some in Hs as (_ & Hh & Hpd).
  apply dot_split_inj in Heq as [_ ->]; [|done|apply no_dot, EncodeToString_chars].
  rewrite Decode_Encode in Hd. apply (inj Some) in Hd as <-.
  pose proof Hin as [i Hi]%list_elem_of_lookup. pose proof (Forall_lookup_1 _ _ _ _ Hsigned Hi) as Hc.
  rewrite Unmarshal_print, read_Claims in Hu by auto using enc_Claims_clean. apply (inj Some) in Hu as <-. by exists kc.
Qed.
End authentic.
End tokens.

(** ** A toy curve *)

(** Two keys of fixed points: one signs every digest, the other the digests of
    [may]; a signature says nothing of the digest. *)
Definition toy (may : list Z → bool) : Ecdsa := {|
  PrivateKey := bool;
  sk_P256 _ := true;
  sk_public k := if k then (1, 1) else (2, 2);
  ecdsa_Sign k digest _ := if k || may digest then Ok (1, 1) else Err (errors_New "refused");
  ecdsa_Verify pub digest r s := (r =? 1) && (s =? 1) && ((pub.1 =? 1) || may digest);
  on_curve _ := true |}.

#[export] Instance toy_laws may : EcdsaLaws (toy may).
Proof.
  split.
  - intros [|] _; simpl; split_and!; lia || done.
  - intros k digest e r s _. simpl. destruct (k || may digest) eqn:E; [|done]. intros [= <- <-].
    split_and!; try lia. destruct k; simpl in *; [done|]. by rewrite E.
Qed.

Definition toy_claims : Claims := mkClaims "cp" "edge" "fs1" 1700000000 1700000300 "fs1" "" "read" false.

Lemma Verify_Sign_witness : ∃ token, Sign (EC := toy (λ _, false)) (Some true) "k1" toy_claims 0 = Ok token ∧
  Verify (EC := toy (λ _, false)) token [JWKFromPublic (EC := toy (λ _, false)) "k1" (1, 1)] "cp" "" 1700000299000000000 =
    Ok (effective toy_claims).
Proof.
  eexists. split; [reflexivity|].
  apply (Verify_Sign (EC := toy (λ _, false)) true "k1" toy_claims _ 0 _ _ "cp" "" 1700000299000000000).
  - unfold wire_claims, in_int64, int64_min, int64_max. simpl. split_and!; reflexivity || lia.
  - reflexivity.
  - reflexivity.
  - reflexivity.
  - split; [reflexivity|]. unfold acceptable. split_and!; [by right|by left|done|vm_compute; reflexivity].
Defined.
