(* ===== verification/Exchange.v ===== *)
(** * The token peers (test/harness: controlplane, exchange,
      filestore/jwtcredential.go)

    The control plane mints weak session tokens and publishes its key set; the
    exchange trades a token that verifies for a credential bound to the token's
    filesystem; the filestore's validator reads the binding back.  Clocks and
    entropy are arguments. *)
From Stdlib Require Import Ascii String.
From stdpp Require Import base list strings numbers gmap.
From S2P Require Import Prelude GoPath GoErrors GoIO BrokerErrors GoJson JsonText GoTime Messages Client Filestore WireCodec Base64 GoForm Jwt.
Local Open Scope Z_scope.

Definition time_Minute : Z := 60 * 1000000000.
Definition time_Hour : Z := 3600 * 1000000000.

(** ** The key set on the wire *)
Definition enc_JWK (k : JWK) : json :=
  JObj [("kty", JStr (jk_Kty k)); ("crv", JStr (jk_Crv k)); ("kid", JStr (jk_Kid k)); ("use", JStr (jk_Use k));
        ("alg", JStr (jk_Alg k)); ("x", JStr (jk_X k)); ("y", JStr (jk_Y k))].
(** A nil slice marshals as null. *)
Definition enc_JWKS (s : JWKS) : json := JObj [("keys", match s with [] => JNull | _ => JArr (map enc_JWK s) end)].

Definition zero_JWK : JWK := mkJWK "" "" "" "" "" "" "".
Definition set_JWK (f : string) (v : json) (k : JWK) : option JWK :=
  let '(mkJWK kty crv kid use alg x y) := k in
  if decide (f = "kty") then (λ z, mkJWK z crv kid use alg x y) <$> dec_string v kty
  else if decide (f = "crv") then (λ z, mkJWK kty z kid use alg x y) <$> dec_string v crv
  else if decide (f = "kid") then (λ z, mkJWK kty crv z use alg x y) <$> dec_string v kid
  else if decide (f = "use") then (λ z, mkJWK kty crv kid z alg x y) <$> dec_string v use
  else if decide (f = "alg") then (λ z, mkJWK kty crv kid use z x y) <$> dec_string v alg
  else if decide (f = "x") then (λ z, mkJWK kty crv kid use alg z y) <$> dec_string v x
  else (λ z, mkJWK kty crv kid use alg x z) <$> dec_string v y.
Definition dec_JWK : json → JWK → option JWK := decode_struct ["kty"; "crv"; "kid"; "use"; "alg"; "x"; "y"] set_JWK false.
Definition dec_JWKS : json → option (list JWK) → option (option (list JWK)) :=
  decode_struct ["keys"] (λ _ v t, dec_slice zero_JWK dec_JWK v t) false.

(** A request as a handler sees it: the method, whether the content type is
    the form type, the URL's query and the body, within the 10 MB form limit. *)
Record peer_request := mkPeerReq { pq_Method : string; pq_form : bool; pq_RawQuery : string; pq_Body : string }.

(** [json.NewDecoder(r.Body).Decode]: the first value of the text. *)
Definition DecodeFirst {T} (dec : json → T → option T) (zero : T) (raw : string) : option T :=
  match parse_first raw with PDone j _ => dec j zero | _ => None end.

Section controlplane.
Context {EC : Ecdsa}.

(** ** The control plane *)
Definition defaultTokenTTL : Z := 5 * time_Minute.

Record cp_Server := mkCP { cp_priv : PrivateKey; cp_kid : string; cp_issuer : string; cp_audience : string; cp_ttl : Z }.

(** [generated] is the outcome of ecdsa.GenerateKey, used without a key. *)
Definition cp_NewServer (generated : result error PrivateKey) (SigningKey : option PrivateKey)
    (Issuer Audience Kid : string) (TTL : Z) : result error cp_Server :=
  match (match SigningKey with Some k => Ok k | None => generated end) with
  | Err e => Err e
  | Ok priv => Ok (mkCP priv Kid Issuer Audience (if TTL <=? 0 then defaultTokenTTL else TTL))
  end.

Definition cp_JWKS (s : cp_Server) : JWKS := [JWKFromPublic (cp_kid s) (sk_public (cp_priv s))].

Definition cp_claims (s : cp_Server) (filesystemID intent : string) (downloadable : bool) (now : Time) : Claims :=
  mkClaims (cp_issuer s) (cp_audience s) filesystemID (Unix now) (Unix (now + cp_ttl s)) filesystemID intent "" downloadable.

Definition Mint (s : cp_Server) (filesystemID intent : string) (downloadable : bool) (now : Time) (entropy : Z) : result error string :=
  Sign (Some (cp_priv s)) (cp_kid s) (cp_claims s filesystemID intent downloadable now) entropy.

Definition handleJWKS (s : cp_Server) (rq : peer_request) : http_response :=
  if negb (bool_decide (pq_Method rq = "GET")) then httpjson_Error 405 "only GET is supported"
  else json_response 200 "" (enc_JWKS (cp_JWKS s)).

Record mintRequest := mkMint { mn_FilesystemID : string; mn_Intent : string; mn_Downloadable : bool }.
Definition dec_mintRequest : json → mintRequest → option mintRequest :=
  decode_struct ["filesystem_id"; "intent"; "downloadable"]
    (λ f v t, if decide (f = "filesystem_id") then (λ x, mkMint x (mn_Intent t) (mn_Downloadable t)) <$> dec_string v (mn_FilesystemID t)
              else if decide (f = "intent") then (λ x, mkMint (mn_FilesystemID t) x (mn_Downloadable t)) <$> dec_string v (mn_Intent t)
              else (λ x, mkMint (mn_FilesystemID t) (mn_Intent t) x) <$> dec_bool v (mn_Downloadable t)) false.

Definition handleMint (s : cp_Server) (rq : peer_request) (now : Time) (entropy : Z) : http_response :=
  if negb (bool_decide (pq_Method rq = "POST")) then httpjson_Error 405 "only POST is supported"
  else match DecodeFirst dec_mintRequest (mkMint "" "" false) (pq_Body rq) with
  | None => httpjson_Error 400 "malformed request body"
  | Some req =>
      if decide (mn_FilesystemID req = "") then httpjson_Error 400 "filesystem_id is required"
      else
        let intent := if decide (mn_Intent req = "") then "read" else mn_Intent req in
        match Mint s (mn_FilesystemID req) intent (mn_Downloadable req) now entropy with
        | Err _ => httpjson_Error 500 "mint failed"
        | Ok tok => json_response 200 "" (JObj [("token", JStr tok)])
        end
  end.
End controlplane.

(** ** Credential issuers *)

(** [Issue(filesystemID, intent)] at a time. *)
Class CredentialIssuer (S : Type) := Issue : string → string → Time → S → string * S.

(** The JWT issuer: a key of its own, and entropy by the count of tokens. *)
Definition defaultCredentialTTL : Z := time_Hour.

Section issuer.
Context {EC : Ecdsa}.
Record JWTCredentialIssuer := mkIssuer { ji_priv : PrivateKey; ji_kid : string; ji_issuer : string; ji_audience : string; ji_ttl : Z }.

Definition NewJWTCredentialIssuerFromKey (priv : option PrivateKey) (Issuer Audience Kid : string) (TTL : Z) : result error JWTCredentialIssuer :=
  match priv with
  | None => Err (errors_New "exchange: credential signing key must not be nil")
  | Some k => Ok (mkIssuer k Kid Issuer Audience (if TTL <=? 0 then defaultCredentialTTL else TTL))
  end.
Definition NewJWTCredentialIssuer (generated : result error PrivateKey) (Issuer Audience Kid : string) (TTL : Z) : result error JWTCredentialIssuer :=
  match generated with
  | Err e => Err (EErrorf "exchange: generate credential key: %w" [] [e])
  | Ok k => NewJWTCredentialIssuerFromKey (Some k) Issuer Audience Kid TTL
  end.

Definition ji_JWKS (i : JWTCredentialIssuer) : JWKS := [JWKFromPublic (ji_kid i) (sk_public (ji_priv i))].

Definition ji_claims (i : JWTCredentialIssuer) (filesystemID intent : string) (now : Time) : Claims :=
  mkClaims (ji_issuer i) (ji_audience i) filesystemID (Unix now) (Unix (now + ji_ttl i)) filesystemID intent "" false.

(** A signing failure is an empty credential. *)
Definition ji_Issue (i : JWTCredentialIssuer) (entropy : nat → Z) (filesystemID intent : string) (now : Time) (n : nat) : string * nat :=
  (match Sign (Some (ji_priv i)) (ji_kid i) (ji_claims i filesystemID intent now) (entropy n) with
   | Ok tok => tok
   | Err _ => ""
   end, S n).
End issuer.

(** The map issuer: 24 random bytes, recorded in the sink. *)
Definition map_Issue (random : nat → list Z) (filesystemID _intent : string) (_now : Time) (s : gmap string string * nat)
    : string * (gmap string string * nat) :=
  let cred := EncodeToString (string_of (random s.2)) in (cred, (<[cred := filesystemID]> s.1, S s.2)).

(** ** The exchange *)
Definition grantTypeTokenExchange : string := "urn:ietf:params:oauth:grant-type:token-exchange".

Definition writeOAuthError (status : Z) (code desc : string) : http_response :=
  json_response status "" (JObj [("error", JStr code); ("error_description", JStr desc)]).

(** [r.ParseForm()] of a POST and the values of its body. *)
Definition ParseForm (rq : peer_request) : option (list (string * string)) :=
  let '(post, bad) := if pq_form rq then ParseQuery (pq_Body rq) else ([], false) in
  let '(_, bad') := ParseQuery (pq_RawQuery rq) in
  if bad || bad' then None else Some post.

Section exchange.
Context {EC : Ecdsa} {S : Type} {CI : CredentialIssuer S}.
Record ex_Server := mkEx { ex_jwks : JWKS; ex_issuer : string; ex_audience : string }.

(** NewServer: the provider and the issuer must be there. *)
Definition ex_NewServer (jwks : option JWKS) (has_issuer : bool) (Issuer Audience : string) : result error ex_Server :=
  match jwks with
  | None => Err (errors_New "exchange.NewServer: a JWKS provider is required")
  | Some keys => if has_issuer then Ok (mkEx keys Issuer Audience)
                 else Err (errors_New "exchange.NewServer: a CredentialIssuer is required")
  end.

Definition enc_tokenResponse (cred : string) : json :=
  JObj [("access_token", JStr cred); ("issued_token_type", JStr "urn:ietf:params:oauth:token-type:access_token");
        ("token_type", JStr "Bearer")].

Definition handleExchange (x : ex_Server) (rq : peer_request) (now : Time) (s : S) : http_response * S :=
  if negb (bool_decide (pq_Method rq = "POST")) then (writeOAuthError 405 "invalid_request" "only POST is supported", s)
  else match ParseForm rq with
  | None => (writeOAuthError 400 "invalid_request" "malformed form body", s)
  | Some form =>
      if negb (bool_decide (Get form "grant_type" = grantTypeTokenExchange))
      then (writeOAuthError 400 "unsupported_grant_type" "expected the token-exchange grant", s)
      else
        let subjectToken := Get form "subject_token" in
        if decide (subjectToken = "") then (writeOAuthError 400 "invalid_request" "subject_token is required", s)
        else match Verify subjectToken (ex_jwks x) (ex_issuer x) (ex_audience x) now with
        | Err _ => (writeOAuthError 400 "invalid_grant" "subject token is not valid", s)
        | Ok claims =>
            if decide (cl_FilesystemID claims = "")
            then (writeOAuthError 400 "invalid_grant" "subject token carries no filesystem_id", s)
            else let '(cred, s') := Issue (cl_FilesystemID claims) (cl_Intent claims) now s in
                 (json_response 200 "" (enc_tokenResponse cred), s')
        end
  end.

(** ** The filestore's validator *)
Record JWTCredentialValidator := mkValidator { jv_JWKS : JWKS; jv_Issuer : string; jv_Audience : string }.

Definition jv_Validate (v : JWTCredentialValidator) (now : Time) (authzHeader : string) : result error string :=
  if negb (HasPrefix authzHeader "Bearer ") then Err (ESent errNoCredential)
  else
    let cred := TrimSpace (TrimPrefix authzHeader "Bearer ") in
    if decide (cred = "") then Err (ESent errNoCredential)
    else match Verify cred (jv_JWKS v) (jv_Issuer v) (jv_Audience v) now with
    | Err e => Err (EErrorf "%w: %w" [] [ESent errNoCredential; e])
    | Ok claims =>
        if decide (cl_FilesystemID claims = "") then Err (EErrorf "%w: credential carries no filesystem_id" [] [ESent errNoCredential])
        else Ok (cl_FilesystemID claims)
    end.

(** As the interface the filestore calls. *)
Definition jwt_validator (v : JWTCredentialValidator) (now : Time) : CredentialValidator :=
  λ authzHeader, match jv_Validate v now authzHeader with Ok id => Some id | Err _ => None end.
End exchange.
