(* ===== verification/Edgeglue.v ===== *)
(** * The exchange cache of the edge (test/harness/edgeglue/edgeglue.go)

    [Resolve] with its two critical sections, the exchange round trip and the
    scope cross-check.  The sections are separate definitions: [Resolve] runs
    them one after another, [EdgeRace] interleaves them. *)
From Stdlib Require Import Ascii String.
From stdpp Require Import base list strings numbers gmap.
From S2P Require Import Prelude GoPath GoErrors GoIO BrokerErrors GoJson JsonText GoTime Messages Client Filestore WireCodec Base64 GoForm Jwt Exchange.
Local Open Scope Z_scope.

Definition subjectTokenTypeJWT : string := "urn:ietf:params:oauth:token-type:jwt".
Definition maxResponseBytes : Z := Z.shiftl 1 20.
Definition defaultRenewSkew : Z := 30 * 1000000000.

(** ** The claims of an unverified token *)
Record scopeClaims := mkScopeClaims { sk_FilesystemID : string; sk_Intent : string }.
Definition dec_scopeClaims : json → scopeClaims → option scopeClaims :=
  decode_struct ["filesystem_id"; "intent"]
    (λ f v t, if decide (f = "filesystem_id") then (λ x, mkScopeClaims x (sk_Intent t)) <$> dec_string v (sk_FilesystemID t)
              else (λ x, mkScopeClaims (sk_FilesystemID t) x) <$> dec_string v (sk_Intent t)) false.

Definition filesystemIDClaim (token : string) : result error string :=
  match split_on dot token with
  | [_; payload; _] =>
      match DecodeString payload with
      | None => Err (EErrorf "payload is not base64url: %w" [] [err_b64])
      | Some payloadJSON =>
          match Unmarshal dec_scopeClaims (mkScopeClaims "" "") payloadJSON with
          | None => Err (EErrorf "payload is not JSON: %w" [] [errors_New "json"])
          | Some sc => if decide (sk_FilesystemID sc = "") then Err (errors_New "subject token carries no filesystem_id")
                       else Ok (sk_FilesystemID sc)
          end
      end
  | _ => Err (errors_New "not a compact JWS")
  end.

(** ** Cache entries *)
Record cacheEntry := mkEntryC { ce_cred : string; ce_notAfter : Time }.

Definition isLive (renewSkew : Z) (now : Time) (entry : cacheEntry) : bool :=
  (ce_notAfter entry =? time_zero) || (now + renewSkew <? ce_notAfter entry).

Definition credentialNotAfter (cred : string) : Time :=
  match ExpiryUnverified cred with
  | Err _ => time_zero
  | Ok exp => if exp =? 0 then time_zero else time_Unix exp
  end.

(** ** State *)

(** A flight: its result once settled, and whether [done] is closed. *)
Record flight := mkFlight { fl_result : option (result error string); fl_done : bool }.

(** The maps under [mu]; [inflight] points into the flights made so far. *)
Record Exchanger := mkExchanger {
  xc_cache : gmap string cacheEntry; xc_inflight : gmap string nat; xc_flights : list flight }.

Definition NewExchanger : Exchanger := mkExchanger ∅ ∅ [].

(** New: the URL must be there, the skew defaults. *)
Definition edge_New (ExchangeURL : string) (RenewSkew : Z) : result error (Exchanger * Z) :=
  if decide (TrimSpace ExchangeURL = "") then Err (errors_New "edgeglue.New: an exchange URL is required")
  else Ok (NewExchanger, if RenewSkew <=? 0 then defaultRenewSkew else RenewSkew).

Definition cache_key (filesystemID intent : string) : string := filesystemID +:+ String zero intent.

(** The first critical section: a live entry answers; a stale one is evicted;
    an exchange in flight is joined, or a new one registered. *)
Inductive entered : Type :=
| Hit (cred : string)
| Joined (fl : nat)
| Leading (fl : nat).

Definition resolve_enter (renewSkew : Z) (now : Time) (key : string) (e : Exchanger) : entered * Exchanger :=
  let miss cache :=
    match xc_inflight e !! key with
    | Some fl => (Joined fl, mkExchanger cache (xc_inflight e) (xc_flights e))
    | None => (Leading (length (xc_flights e)),
               mkExchanger cache (<[key := length (xc_flights e)]> (xc_inflight e)) (xc_flights e ++ [mkFlight None false]))
    end in
  match xc_cache e !! key with
  | Some entry => if isLive renewSkew now entry then (Hit (ce_cred entry), e) else miss (delete key (xc_cache e))
  | None => miss (xc_cache e)
  end.

(** The second: record the result, cache a credential, retire the flight. *)
Definition resolve_settle (key : string) (fl : nat) (r : result error string) (e : Exchanger) : Exchanger :=
  mkExchanger (match r with
               | Ok cred => <[key := mkEntryC cred (credentialNotAfter cred)]> (xc_cache e)
               | Err _ => xc_cache e
               end)
              (delete key (xc_inflight e))
              (<[fl := mkFlight (Some r) false]> (xc_flights e)).

(** close(fl.done) *)
Definition resolve_close (fl : nat) (e : Exchanger) : Exchanger :=
  mkExchanger (xc_cache e) (xc_inflight e) (alter (λ f, mkFlight (fl_result f) true) fl (xc_flights e)).

(** The checks before the lock. *)
Definition resolve_check (filesystemID weakJWT : string) : option error :=
  if decide (filesystemID = "") then Some (errors_New "edgeglue: a filesystem_id is required")
  else match filesystemIDClaim weakJWT with
  | Err e => Some (EErrorf "edgeglue: cannot read subject token scope: %w" [] [e])
  | Ok claimed =>
      if decide (claimed = filesystemID) then None
      else Some (EErrorf "edgeglue: subject token is scoped to %q, not the requested %q" [AStr claimed; AStr filesystemID] [])
  end.

Definition Cached (renewSkew : Z) (now : Time) (filesystemID intent : string) (e : Exchanger) : option string :=
  match xc_cache e !! cache_key filesystemID intent with
  | Some entry => if isLive renewSkew now entry then Some (ce_cred entry) else None
  | None => None
  end.

(** ** The round trip *)

(** The exchange peer, as client.Do reaches it. *)
Class Peer (W : Type) := peer_Do : peer_request → W → result error http_response * W.

Definition exchange_form (weakJWT : string) : list (string * string) :=
  [("grant_type", grantTypeTokenExchange); ("subject_token", weakJWT); ("subject_token_type", subjectTokenTypeJWT)].

Definition exchange_request (weakJWT : string) : peer_request :=
  mkPeerReq "POST" true "" (Encode (exchange_form weakJWT)).

Definition dec_tokenResponse : json → string → option string := decode_struct ["access_token"] (λ _ v t, dec_string v t) false.

Definition read_token (resp : http_response) : result error string :=
  if negb (rs_status resp =? 200) then Err (EErrorf "edgeglue: exchange returned status %d" [AInt (rs_status resp)] [])
  else
    let '(raw, err, _) := read_all_limit maxResponseBytes (rs_body resp) in
    match err with
    | Some e => Err (EErrorf "edgeglue: read exchange body: %w" [] [e])
    | None =>
        match Unmarshal dec_tokenResponse "" (string_of_bytes raw) with
        | None => Err (EErrorf "edgeglue: decode exchange body: %w" [] [errors_New "json"])
        | Some tok => if decide (tok = "") then Err (errors_New "edgeglue: exchange returned no access_token") else Ok tok
        end
    end.

Section resolve.
Context `{P : Peer W}.
(** [url_err] is the verdict of http.NewRequestWithContext on the exchange
    URL. *)
Variables (renewSkew : Z) (url_err : option error).

Definition exchange (weakJWT : string) (w : W) : result error string * W :=
  match url_err with
  | Some e => (Err (EErrorf "edgeglue: build exchange request: %w" [] [e]), w)
  | None =>
  let '(r, w') := peer_Do (exchange_request weakJWT) w in
  match r with
  | Err e => (Err (EErrorf "edgeglue: exchange round trip: %w" [] [e]), w')
  | Ok resp => (read_token resp, w')
  end end.

(** One call with no other under way; [None] when it would wait for a flight
    another goroutine leads. *)
Definition Resolve (filesystemID intent weakJWT : string) (now : Time) (e : Exchanger) (w : W)
    : option (result error string * (Exchanger * W)) :=
  match resolve_check filesystemID weakJWT with
  | Some err => Some (Err err, (e, w))
  | None =>
      let key := cache_key filesystemID intent in
      match resolve_enter renewSkew now key e with
      | (Hit cred, e1) => Some (Ok cred, (e1, w))
      | (Joined _, _) => None
      | (Leading fl, e1) =>
          let '(r, w') := exchange weakJWT w in
          Some (r, (resolve_close fl (resolve_settle key fl r e1), w'))
      end
  end.
End resolve.
