(* ===== verification/EdgeRace.v ===== *)
(** * Concurrent resolves on one exchanger (test/harness/edgeglue/edgeglue.go)

    Any number of goroutines call [Resolve].  Each critical section of [mu] is
    one step; the exchange is on the wire between them, and waiters block on the
    leader's [done] channel. *)
From Stdlib Require Import Ascii String.
From stdpp Require Import base list strings numbers gmap relations.
From S2P Require Import Prelude GoPath GoErrors GoJson GoTime Base64 Jwt Exchange Edgeglue.
Local Open Scope Z_scope.

(** ** Goroutines *)
Record call := mkCall { ca_fsID : string; ca_intent : string; ca_weak : string }.

Definition call_key (c : call) : string := cache_key (ca_fsID c) (ca_intent c).

(** Where a call of Resolve is. *)
Inductive rpc : Type :=
| RCheck
| REnter
| RWire (fl : nat)
| RSettle (fl : nat) (r : result error string)
| RClose (fl : nat) (r : result error string)
| RWait (fl : nat)
| RDone (r : result error string).

Record rconfig := mkR { rc_now : Time; rc_ex : Exchanger; rc_threads : list (call * rpc) }.

Section race.
Variable renewSkew : Z.
(** What an exchange of a token may come back with, and whose context may
    end. *)
Variable peer : string → result error string → Prop.
Variable cancelled : call → Prop.

(** One operation of a goroutine. *)
Inductive rstep (now : Time) (c : call) : rpc → Exchanger → rpc → Exchanger → Prop :=
| rs_refused e err : resolve_check (ca_fsID c) (ca_weak c) = Some err → rstep now c RCheck e (RDone (Err err)) e
| rs_checked e : resolve_check (ca_fsID c) (ca_weak c) = None → rstep now c RCheck e REnter e
| rs_hit e cred e' : resolve_enter renewSkew now (call_key c) e = (Hit cred, e') → rstep now c REnter e (RDone (Ok cred)) e'
| rs_join e fl e' : resolve_enter renewSkew now (call_key c) e = (Joined fl, e') → rstep now c REnter e (RWait fl) e'
| rs_lead e fl e' : resolve_enter renewSkew now (call_key c) e = (Leading fl, e') → rstep now c REnter e (RWire fl) e'
| rs_answer e fl r : peer (ca_weak c) r → rstep now c (RWire fl) e (RSettle fl r) e
| rs_settle e fl r : rstep now c (RSettle fl r) e (RClose fl r) (resolve_settle (call_key c) fl r e)
| rs_close e fl r : rstep now c (RClose fl r) e (RDone r) (resolve_close fl e)
| rs_released e fl r : xc_flights e !! fl = Some (mkFlight (Some r) true) → rstep now c (RWait fl) e (RDone r) e
| rs_cancelled e fl : cancelled c → rstep now c (RWait fl) e (RDone (Err (ESent context_Canceled))) e.

Inductive go : rconfig → rconfig → Prop :=
| go_at now e ts i c p p' e' :
    ts !! i = Some (c, p) → rstep now c p e p' e' → go (mkR now e ts) (mkR now e' (<[i := (c, p')]> ts)).

(** A run: steps of goroutines, counted, with time passing in between. *)
Inductive runs : nat → rconfig → rconfig → Prop :=
| run_refl c : runs 0 c c
| run_go n c c1 c2 : runs n c c1 → go c1 c2 → runs (S n) c c2
| run_tick n c now now' e ts : runs n c (mkR now e ts) → now <= now' → runs n c (mkR now' e ts).

Definition init (now : Time) (calls : list call) : rconfig := mkR now NewExchanger (map (λ c, (c, RCheck)) calls).

(** ** The invariant *)

(** [cred] was issued for a token that passed the check under this key. *)
Definition issued (calls : list call) (key cred : string) : Prop :=
  ∃ c, c ∈ calls ∧ call_key c = key ∧ resolve_check (ca_fsID c) (ca_weak c) = None ∧ peer (ca_weak c) (Ok cred).

Definition issued_result (calls : list call) (key : string) (r : result error string) : Prop :=
  match r with Ok cred => issued calls key cred | Err _ => True end.

(** The flight a goroutine leads until it closes it, and whether it has not
    settled it yet. *)
Definition holds (p : rpc) : option nat :=
  match p with RWire fl | RSettle fl _ | RClose fl _ => Some fl | _ => None end.
Definition unsettled (p : rpc) : bool := match p with RWire _ | RSettle _ _ => true | _ => false end.

Definition checked (c : call) : Prop := resolve_check (ca_fsID c) (ca_weak c) = None.

(** What a goroutine's state says of the exchanger. *)
Definition pc_ok (calls : list call) (e : Exchanger) (c : call) (p : rpc) : Prop :=
  match p with
  | RCheck => True
  | REnter => checked c
  | RWire fl => checked c ∧ xc_flights e !! fl = Some (mkFlight None false) ∧ xc_inflight e !! call_key c = Some fl
  | RSettle fl r => checked c ∧ xc_flights e !! fl = Some (mkFlight None false) ∧ xc_inflight e !! call_key c = Some fl ∧
      issued_result calls (call_key c) r
  | RClose fl r => checked c ∧ xc_flights e !! fl = Some (mkFlight (Some r) false) ∧ issued_result calls (call_key c) r
  | RWait fl => ∃ f, xc_flights e !! fl = Some f ∧ ∀ r, fl_result f = Some r → issued_result calls (call_key c) r
  | RDone r => issued_result calls (call_key c) r
  end.

Record rinv (calls : list call) (c : rconfig) : Prop := {
  ri_calls : ∀ i ca p, rc_threads c !! i = Some (ca, p) → ca ∈ calls;
  ri_pc : ∀ i ca p, rc_threads c !! i = Some (ca, p) → pc_ok calls (rc_ex c) ca p;
  ri_cache : ∀ key entry, xc_cache (rc_ex c) !! key = Some entry →
    issued calls key (ce_cred entry) ∧ ce_notAfter entry = credentialNotAfter (ce_cred entry);
  (** an inflight entry, and an open flight, have their goroutine *)
  ri_inflight : ∀ key fl, xc_inflight (rc_ex c) !! key = Some fl →
    ∃ i ca p, rc_threads c !! i = Some (ca, p) ∧ holds p = Some fl ∧ unsettled p = true ∧ call_key ca = key;
  ri_open : ∀ fl f, xc_flights (rc_ex c) !! fl = Some f → fl_done f = false →
    ∃ i ca p, rc_threads c !! i = Some (ca, p) ∧ holds p = Some fl;
  ri_closed : ∀ fl f, xc_flights (rc_ex c) !! fl = Some f → fl_done f = true → is_Some (fl_result f);
  (** a flight has one goroutine, and its waiters wait under its key *)
  ri_unique : ∀ i j ca cb p q fl, rc_threads c !! i = Some (ca, p) → rc_threads c !! j = Some (cb, q) →
    holds p = Some fl → holds q = Some fl → i = j;
  ri_waits : ∀ i j ca cb q fl, rc_threads c !! i = Some (ca, RWait fl) → rc_threads c !! j = Some (cb, q) →
    holds q = Some fl → call_key cb = call_key ca }.

Lemma rinit_inv now calls : rinv calls (init now calls).
Proof.
  assert (∀ i ca p, rc_threads (init now calls) !! i = Some (ca, p) → ca ∈ calls ∧ p = RCheck) as H.
  { intros i ca p Hi. simpl in Hi. apply list_lookup_fmap_Some in Hi as (c & [= -> ->] & Hc).
    split; [by eapply list_elem_of_lookup_2|done]. }
  split; try done; simpl.
  - intros i ca p Hi. by apply H in Hi as [? _].
  - intros i ca p Hi. by apply H in Hi as [_ ->].
  - intros i j ca cb p q fl Hi _ Hp. apply H in Hi as [_ ->]. done.
  - intros i j ca cb q fl Hi. by apply H in Hi as [_ ?].
Qed.

(** A flight made has an index below the next one. *)
Lemma holds_lt calls c i ca p fl : rinv calls c → rc_threads c !! i = Some (ca, p) → holds p = Some fl →
  (fl < length (xc_flights (rc_ex c)))%nat.
Proof.
  intros Hi Ht Hp. pose proof (ri_pc calls c Hi i ca p Ht) as H.
  destruct p; simplify_eq/=; destruct H as (_ & H & _); by eapply lookup_lt_Some.
Qed.

Lemma waits_lt calls c i ca fl : rinv calls c → rc_threads c !! i = Some (ca, RWait fl) →
  (fl < length (xc_flights (rc_ex c)))%nat.
Proof. intros Hi Ht. pose proof (ri_pc calls c Hi i ca _ Ht) as (f & H & _). by eapply lookup_lt_Some. Qed.

(** A step that only moves its goroutine, between states holding the same
    flight, keeps the invariant. *)
Lemma move_inv calls now e ts i ca p p' :
  rinv calls (mkR now e ts) → ts !! i = Some (ca, p) → holds p' = holds p → unsettled p' = unsettled p →
  (∀ fl, p' ≠ RWait fl) → pc_ok calls e ca p' → rinv calls (mkR now e (<[i := (ca, p')]> ts)).
Proof.
  intros Hi Ht Hh Hu Hw Hok. pose proof (lookup_lt_Some _ _ _ Ht) as Hlt.
  assert (∀ j cb q, ts !! j = Some (cb, q) → holds q ≠ None →
            ∃ q', <[i := (ca, p')]> ts !! j = Some (cb, q') ∧ holds q' = holds q ∧ unsettled q' = unsettled q) as Hkeep.
  { intros j cb q Hj Hq. destruct (decide (i = j)) as [<-|Hne].
    - rewrite Ht in Hj. injection Hj as <- <-. exists p'. by rewrite list_lookup_insert_eq.
    - exists q. by rewrite list_lookup_insert_ne. }
  assert (∀ j cb q, <[i := (ca, p')]> ts !! j = Some (cb, q) →
            ∃ q', ts !! j = Some (cb, q') ∧ holds q = holds q' ∧ (∀ fl, q = RWait fl → q' = RWait fl)) as Hback.
  { intros j cb q [(<- & [= -> ->] & _)|(Hne & Hj)]%list_lookup_insert_Some.
    - exists p. split; [done|]. split; [done|]. intros fl Hq. by destruct (Hw fl).
    - by exists q. }
  split; simpl.
  - intros j cb q (q' & Hj & _)%Hback. by apply (ri_calls _ _ Hi j cb q').
  - intros j cb q [(<- & [= -> ->] & _)|(Hne & Hj)]%list_lookup_insert_Some; [done|]. by apply (ri_pc _ _ Hi j).
  - apply (ri_cache _ _ Hi).
  - intros key fl Hk. destruct (ri_inflight _ _ Hi key fl Hk) as (j & cb & q & Hj & Hq & Hun & Hkey).
    destruct (Hkeep j cb q Hj ltac:(by rewrite Hq)) as (q' & Hj' & Hq' & Hu'). exists j, cb, q'. rewrite Hq', Hu'. done.
  - intros fl f Hf Hd. destruct (ri_open _ _ Hi fl f Hf Hd) as (j & cb & q & Hj & Hq).
    destruct (Hkeep j cb q Hj ltac:(by rewrite Hq)) as (q' & Hj' & Hq' & _). exists j, cb, q'. by rewrite Hq'.
  - apply (ri_closed _ _ Hi).
  - intros j1 j2 c1 c2 q1 q2 fl (q1' & H1 & E1 & _)%Hback (q2' & H2 & E2 & _)%Hback Hq1 Hq2.
    eapply (ri_unique _ _ Hi j1 j2); [exact H1|exact H2|by rewrite <- E1|by rewrite <- E2].
  - intros j1 j2 c1 c2 q2 fl (q1' & H1 & _ & W1)%Hback (q2' & H2 & E2 & _)%Hback Hq2. rewrite (W1 fl eq_refl) in H1.
    eapply (ri_waits _ _ Hi j1 j2); [exact H1|exact H2|by rewrite <- E2].
Qed.
Lemma evict_inv calls now cache cache' inflight flights ts : cache' ⊆ cache →
  rinv calls (mkR now (mkExchanger cache inflight flights) ts) → rinv calls (mkR now (mkExchanger cache' inflight flights) ts).
Proof.
  intros Hsub Hi. split; simpl; try apply Hi.
  intros key entry Hk. apply (ri_cache _ _ Hi). simpl. by eapply lookup_weaken.
Qed.

(** The goroutine that leads the flight of an inflight entry. *)
Lemma leader calls c key fl : rinv calls c → xc_inflight (rc_ex c) !! key = Some fl →
  xc_flights (rc_ex c) !! fl = Some (mkFlight None false) ∧
  ∀ j cb q, rc_threads c !! j = Some (cb, q) → holds q = Some fl → call_key cb = key.
Proof.
  intros Hi Hk. destruct (ri_inflight _ _ Hi key fl Hk) as (j & cb & q & Hj & Hq & Hun & Hkey).
  pose proof (ri_pc _ _ Hi j cb q Hj) as Hok. split.
  - destruct q; simplify_eq/=; tauto.
  - intros j' cb' q' Hj' Hq'. assert (j' = j) as -> by (by eapply (ri_unique _ _ Hi)). by simplify_eq.
Qed.

Lemma join_inv calls now e ts i ca fl : rinv calls (mkR now e ts) → ts !! i = Some (ca, REnter) →
  xc_inflight e !! call_key ca = Some fl → rinv calls (mkR now e (<[i := (ca, RWait fl)]> ts)).
Proof.
  intros Hi Ht Hk. pose proof (leader _ _ _ fl Hi Hk) as [Hf Hlead]. simpl in Hf, Hlead.
  pose proof (lookup_lt_Some _ _ _ Ht) as Hlt.
  assert (∀ j cb q fl', <[i := (ca, RWait fl)]> ts !! j = Some (cb, q) → holds q = Some fl' → ts !! j = Some (cb, q)) as Hback.
  { intros j cb q fl' [(<- & [= -> <-] & _)|(_ & Hj)]%list_lookup_insert_Some Hq; done. }
  assert (∀ j cb q fl', ts !! j = Some (cb, q) → holds q = Some fl' → <[i := (ca, RWait fl)]> ts !! j = Some (cb, q)) as Hfwd.
  { intros j cb q fl' Hj Hq. rewrite list_lookup_insert_ne; [done|]. intros <-. by simplify_eq. }
  split; simpl; try apply Hi.
  - intros j cb q [(<- & [= -> <-] & _)|(_ & Hj)]%list_lookup_insert_Some; [by apply (ri_calls _ _ Hi i cb REnter)|by apply (ri_calls _ _ Hi j cb q)].
  - intros j cb q [(<- & [= -> <-] & _)|(_ & Hj)]%list_lookup_insert_Some; [|by apply (ri_pc _ _ Hi j)].
    exists (mkFlight None false). by split.
  - intros key fl' Hk'. destruct (ri_inflight _ _ Hi key fl' Hk') as (j & cb & q & Hj & Hq & H). exists j, cb, q. split; [by eapply Hfwd|done].
  - intros fl' f Hf' Hd. destruct (ri_open _ _ Hi fl' f Hf' Hd) as (j & cb & q & Hj & Hq). exists j, cb, q. split; [by eapply Hfwd|done].
  - intros j1 j2 c1 c2 q1 q2 fl' H1 H2 Hq1 Hq2. eapply (ri_unique _ _ Hi j1 j2); [by eapply Hback|by eapply Hback|done|done].
  - intros j1 j2 c1 c2 q2 fl' [(<- & [= -> <-] & _)|(_ & H1)]%list_lookup_insert_Some H2 Hq2.
    + apply (Hlead j2 c2 q2); [by eapply Hback|done].
    + eapply (ri_waits _ _ Hi j1 j2); [exact H1|by eapply Hback|done].
Qed.

Lemma lead_inv calls now cache inflight flights ts i ca :
  rinv calls (mkR now (mkExchanger cache inflight flights) ts) → ts !! i = Some (ca, REnter) → inflight !! call_key ca = None →
  rinv calls (mkR now (mkExchanger cache (<[call_key ca := length flights]> inflight) (flights ++ [mkFlight None false]))
                (<[i := (ca, RWire (length flights))]> ts)).
Proof.
  intros Hi Ht Hk. set (n := length flights). pose proof (lookup_lt_Some _ _ _ Ht) as Hlt.
  assert (<[i := (ca, RWire n)]> ts !! i = Some (ca, RWire n)) as Hnew by (by apply list_lookup_insert_eq).
  assert (∀ j cb q, <[i := (ca, RWire n)]> ts !! j = Some (cb, q) → (j = i ∧ cb = ca ∧ q = RWire n) ∨ (j ≠ i ∧ ts !! j = Some (cb, q))) as Hback.
  { intros j cb q [(<- & [= -> <-] & _)|(? & Hj)]%list_lookup_insert_Some; [by left|right]. auto. }
  assert (∀ j cb q fl, ts !! j = Some (cb, q) → holds q = Some fl → <[i := (ca, RWire n)]> ts !! j = Some (cb, q)) as Hfwd.
  { intros j cb q fl Hj Hq. rewrite list_lookup_insert_ne; [done|]. intros <-. by simplify_eq. }
  assert (∀ j cb q fl, ts !! j = Some (cb, q) → holds q = Some fl → fl ≠ n) as Hold.
  { intros j cb q fl Hj Hq ->. pose proof (holds_lt _ _ j cb q n Hi Hj Hq) as H. simpl in H. unfold n in H. lia. }
  split; simpl.
  - intros j cb q [(-> & -> & ->)|[_ Hj]]%Hback; [by apply (ri_calls _ _ Hi i ca REnter)|by apply (ri_calls _ _ Hi j cb q)].
  - intros j cb q [(-> & -> & ->)|[_ Hj]]%Hback.
    + split; [apply (ri_pc _ _ Hi i ca REnter Ht)|]. unfold n. split; [by apply list_lookup_middle|simpl; by rewrite lookup_insert_eq].
    + pose proof (ri_pc _ _ Hi j cb q Hj) as Hok. simpl in Hok.
      assert (∀ fl x, flights !! fl = Some x → (flights ++ [mkFlight None false]) !! fl = Some x) as Hfl by (intros; by apply lookup_app_l_Some).
      assert (∀ fl, inflight !! call_key cb = Some fl → <[call_key ca := n]> inflight !! call_key cb = Some fl) as Hin.
      { intros fl Hfl'. rewrite lookup_insert_ne; [done|]. congruence. }
      destruct q; simpl in *; naive_solver.
  - apply (ri_cache _ _ Hi).
  - intros key fl [(<- & <-)|(Hne & Hkey)]%lookup_insert_Some; [by exists i, ca, (RWire n)|].
    destruct (ri_inflight _ _ Hi key fl Hkey) as (j & cb & q & Hj & Hq & H). exists j, cb, q. split; [by eapply Hfwd|done].
  - intros fl f Hf Hd. apply lookup_app_Some in Hf as [Hf|[Hge Hf]].
    + destruct (ri_open _ _ Hi fl f Hf Hd) as (j & cb & q & Hj & Hq). exists j, cb, q. split; [by eapply Hfwd|done].
    + apply list_lookup_singleton_Some in Hf as [Hz _]. exists i, ca, (RWire n). split; [done|]. simpl. f_equal. unfold n. lia.
  - intros fl f Hf Hd. apply lookup_app_Some in Hf as [Hf|[Hge Hf]]; [by apply (ri_closed _ _ Hi fl f)|].
    by apply list_lookup_singleton_Some in Hf as [_ <-].
  - intros j1 j2 c1 c2 q1 q2 fl [(-> & -> & ->)|[_ H1]]%Hback [(-> & -> & ->)|[_ H2]]%Hback Hq1 Hq2; [done| | |].
    + injection Hq1 as <-. by destruct (Hold j2 c2 q2 n H2 Hq2).
    + injection Hq2 as <-. by destruct (Hold j1 c1 q1 n H1 Hq1).
    + by eapply (ri_unique _ _ Hi j1 j2).
  - intros j1 j2 c1 c2 q2 fl [(_ & _ & ?)|[_ H1]]%Hback H2 Hq2; [done|].
    apply Hback in H2 as [(-> & -> & ->)|[_ H2]]; [|by eapply (ri_waits _ _ Hi j1 j2)].
    injection Hq2 as <-. pose proof (waits_lt _ _ j1 c1 n Hi H1) as H. simpl in H. unfold n in H. lia.
Qed.

(** The other goroutines at a step of goroutine [i] that holds [fl]. *)
Lemma others calls c i ca p fl j cb q : rinv calls c → rc_threads c !! i = Some (ca, p) → holds p = Some fl →
  rc_threads c !! j = Some (cb, q) → j ≠ i → holds q ≠ Some fl.
Proof. intros Hi Ht Hp Hj Hne Hq. apply Hne. by eapply (ri_unique _ _ Hi). Qed.

(** Waiters read a result once it is there. *)
Lemma pc_ok_flights calls e e' c q fl :
  pc_ok calls e c q → holds q ≠ Some fl → xc_inflight e' !! call_key c = xc_inflight e !! call_key c ∨ unsettled q = false →
  (∀ n, n ≠ fl → xc_flights e' !! n = xc_flights e !! n) →
  (q = RWait fl → pc_ok calls e' c q) → pc_ok calls e' c q.
Proof.
  intros Hok Hq Hin Hfl Hw. destruct q as [| |n|n r|n r|n|r]; simpl in *; try done.
  - rewrite Hfl by congruence. destruct Hin as [->|]; done.
  - rewrite Hfl by congruence. destruct Hin as [->|]; done.
  - by rewrite Hfl by congruence.
  - destruct (decide (n = fl)) as [->|]; [by apply Hw|]. by rewrite Hfl.
Qed.

Lemma settle_inv calls now e ts i ca fl r : rinv calls (mkR now e ts) → ts !! i = Some (ca, RSettle fl r) →
  rinv calls (mkR now (resolve_settle (call_key ca) fl r e) (<[i := (ca, RClose fl r)]> ts)).
Proof.
  intros Hi Ht. pose proof (ri_pc _ _ Hi i ca _ Ht) as (Hck & Hf & Hk & Hr). simpl in Hf, Hk.
  pose proof (lookup_lt_Some _ _ _ Ht) as Hlt. pose proof (lookup_lt_Some _ _ _ Hf) as Hfl.
  assert (∀ j cb q, <[i := (ca, RClose fl r)]> ts !! j = Some (cb, q) →
            (j = i ∧ cb = ca ∧ q = RClose fl r) ∨ (j ≠ i ∧ ts !! j = Some (cb, q))) as Hback.
  { intros j cb q [(<- & [= -> <-] & _)|(? & Hj)]%list_lookup_insert_Some; [by left|right]. auto. }
  assert (∀ j cb q, j ≠ i → ts !! j = Some (cb, q) → <[i := (ca, RClose fl r)]> ts !! j = Some (cb, q)) as Hfwd.
  { intros j cb q Hne Hj. by rewrite list_lookup_insert_ne. }
  assert (∀ j cb q n, ts !! j = Some (cb, q) → holds q = Some n → n ≠ fl → j ≠ i) as Hne.
  { intros j cb q n Hj Hq Hn ->. by simplify_eq/=. }
  split; simpl.
  - intros j cb q [(-> & -> & ->)|[_ Hj]]%Hback; [by apply (ri_calls _ _ Hi i ca (RSettle fl r))|by apply (ri_calls _ _ Hi j cb q)].
  - intros j cb q [(-> & -> & ->)|[Hj Hj']]%Hback; [split; [done|split; [by apply list_lookup_insert_eq|done]]|].
    pose proof (others _ _ i ca (RSettle fl r) fl j cb q Hi Ht eq_refl Hj' Hj) as Hq.
    apply (pc_ok_flights calls e _ cb q fl); [by apply (ri_pc _ _ Hi j)|done| |intros; simpl; by rewrite list_lookup_insert_ne|].
    + simpl. destruct (decide (call_key cb = call_key ca)) as [He|Hne']; [right|left; by rewrite lookup_delete_ne].
      pose proof (ri_pc _ _ Hi j cb q Hj') as Hok. destruct q; try done; simpl in *; destruct Hok as (_ & _ & Hin); rewrite He in Hin; naive_solver.
    + intros ->. exists (mkFlight (Some r) false). split; [by apply list_lookup_insert_eq|]. intros r' [= <-].
      by rewrite <- (ri_waits _ _ Hi j i cb ca (RSettle fl r) fl Hj' Ht eq_refl).
  - intros key entry. destruct r as [cred|]; [|apply (ri_cache _ _ Hi)].
    intros [(<- & <-)|(Hne' & Hc)]%lookup_insert_Some; [done|]. by apply (ri_cache _ _ Hi).
  - intros key n [Hne' Hn]%lookup_delete_Some. destruct (ri_inflight _ _ Hi key n Hn) as (j & cb & q & Hj & Hq & Hu & Hkey).
    exists j, cb, q. split; [|done]. apply Hfwd; [|done]. intros ->. simplify_eq/=.
  - intros n f [(<- & <- & _)|(Hn & Hf')]%list_lookup_insert_Some Hd.
    + exists i, ca, (RClose fl r). split; [by apply list_lookup_insert_eq|done].
    + destruct (ri_open _ _ Hi n f Hf' Hd) as (j & cb & q & Hj & Hq). exists j, cb, q. split; [|done].
      apply Hfwd; [|done]. by eapply Hne.
  - intros n f [(<- & <- & _)|(Hn & Hf')]%list_lookup_insert_Some Hd; [done|]. by apply (ri_closed _ _ Hi n f).
  - intros j1 j2 c1 c2 q1 q2 n [(-> & -> & ->)|[N1 H1]]%Hback [(-> & -> & ->)|[N2 H2]]%Hback Hq1 Hq2; [done| | |].
    + injection Hq1 as <-. by destruct (others _ _ i ca _ fl j2 c2 q2 Hi Ht eq_refl H2 N2).
    + injection Hq2 as <-. by destruct (others _ _ i ca _ fl j1 c1 q1 Hi Ht eq_refl H1 N1).
    + by eapply (ri_unique _ _ Hi j1 j2).
  - intros j1 j2 c1 c2 q2 n [(_ & _ & ?)|[N1 H1]]%Hback H2 Hq2; [done|].
    apply Hback in H2 as [(-> & -> & ->)|[_ H2]]; [|by eapply (ri_waits _ _ Hi j1 j2)].
    injection Hq2 as <-. by eapply (ri_waits _ _ Hi j1 i).
Qed.

Lemma close_inv calls now e ts i ca fl r : rinv calls (mkR now e ts) → ts !! i = Some (ca, RClose fl r) →
  rinv calls (mkR now (resolve_close fl e) (<[i := (ca, RDone r)]> ts)).
Proof.
  intros Hi Ht. pose proof (ri_pc _ _ Hi i ca _ Ht) as (Hck & Hf & Hr). simpl in Hf.
  pose proof (lookup_lt_Some _ _ _ Ht) as Hlt.
  assert (∀ j cb q, <[i := (ca, RDone r)]> ts !! j = Some (cb, q) →
            (j = i ∧ cb = ca ∧ q = RDone r) ∨ (j ≠ i ∧ ts !! j = Some (cb, q))) as Hback.
  { intros j cb q [(<- & [= -> <-] & _)|(? & Hj)]%list_lookup_insert_Some; [by left|right]. auto. }
  assert (∀ j cb q, j ≠ i → ts !! j = Some (cb, q) → <[i := (ca, RDone r)]> ts !! j = Some (cb, q)) as Hfwd.
  { intros j cb q Hne Hj. by rewrite list_lookup_insert_ne. }
  assert (xc_flights (resolve_close fl e) !! fl = Some (mkFlight (Some r) true)) as Hfl.
  { simpl. by rewrite list_lookup_alter_eq, Hf. }
  assert (∀ n, n ≠ fl → xc_flights (resolve_close fl e) !! n = xc_flights e !! n) as Hother.
  { intros n Hn. simpl. by rewrite list_lookup_alter_ne. }
  split.
  - intros j cb q [(-> & -> & ->)|[_ Hj]]%Hback; [by apply (ri_calls _ _ Hi i ca (RClose fl r))|by apply (ri_calls _ _ Hi j cb q)].
  - intros j cb q [(-> & -> & ->)|[Hj Hj']]%Hback; [done|].
    pose proof (others _ _ i ca (RClose fl r) fl j cb q Hi Ht eq_refl Hj' Hj) as Hq.
    apply (pc_ok_flights calls e _ cb q fl); [by apply (ri_pc _ _ Hi j)|done|by left|done|].
    intros ->. pose proof (ri_pc _ _ Hi j cb _ Hj') as (f & Hf' & Hres). simpl in Hf'. simplify_eq.
    exists (mkFlight (Some r) true). split; [done|]. exact Hres.
  - apply (ri_cache _ _ Hi).
  - intros key n Hn. destruct (ri_inflight _ _ Hi key n Hn) as (j & cb & q & Hj & Hq & Hu & Hkey).
    exists j, cb, q. split; [|done]. apply Hfwd; [|done]. intros ->. simplify_eq/=.
  - intros n f Hn Hd. change (xc_flights (resolve_close fl e) !! n = Some f) in Hn.
    destruct (decide (n = fl)) as [->|Hne]; [rewrite Hfl in Hn; by simplify_eq|]. rewrite Hother in Hn by done.
    destruct (ri_open _ _ Hi n f Hn Hd) as (j & cb & q & Hj & Hq). exists j, cb, q. split; [|done].
    apply Hfwd; [|done]. intros ->. simplify_eq/=.
  - intros n f Hn Hd. change (xc_flights (resolve_close fl e) !! n = Some f) in Hn.
    destruct (decide (n = fl)) as [->|Hne]; [rewrite Hfl in Hn; by simplify_eq|]. rewrite Hother in Hn by done.
    by apply (ri_closed _ _ Hi n f).
  - intros j1 j2 c1 c2 q1 q2 n [(-> & -> & ->)|[N1 H1]]%Hback [(-> & -> & ->)|[N2 H2]]%Hback Hq1 Hq2; [done|done|done|].
    by eapply (ri_unique _ _ Hi j1 j2).
  - intros j1 j2 c1 c2 q2 n [(_ & _ & ?)|[N1 H1]]%Hback H2 Hq2; [done|].
    apply Hback in H2 as [(-> & -> & ->)|[_ H2]]; [done|by eapply (ri_waits _ _ Hi j1 j2)].
Qed.

(** What the first critical section finds and does. *)
Lemma resolve_enter_cases now key e x e' : resolve_enter renewSkew now key e = (x, e') →
  match x with
  | Hit cred => e' = e ∧ ∃ entry, xc_cache e !! key = Some entry ∧ isLive renewSkew now entry = true ∧ cred = ce_cred entry
  | Joined fl => xc_inflight e !! key = Some fl ∧
      ∃ cache, cache ⊆ xc_cache e ∧ e' = mkExchanger cache (xc_inflight e) (xc_flights e)
  | Leading fl => xc_inflight e !! key = None ∧ fl = length (xc_flights e) ∧
      ∃ cache, cache ⊆ xc_cache e ∧
        e' = mkExchanger cache (<[key := length (xc_flights e)]> (xc_inflight e)) (xc_flights e ++ [mkFlight None false])
  end.
Proof.
  unfold resolve_enter.
  destruct (xc_cache e !! key) as [entry|] eqn:Hc; [destruct (isLive renewSkew now entry) eqn:Hl|].
  - intros [= <- <-]. split; [done|]. by exists entry.
  - destruct (xc_inflight e !! key) eqn:Hk; intros [= <- <-]; split_and!; try done;
      (exists (delete key (xc_cache e)); split; [apply delete_subseteq|done]).
  - destruct (xc_inflight e !! key) eqn:Hk; intros [= <- <-]; split_and!; try done;
      (exists (xc_cache e); split; [done|done]).
Qed.

Lemma go_inv calls c c' : rinv calls c → go c c' → rinv calls c'.
Proof.
  intros Hi Hg. revert Hi. destruct Hg as [now e ts i ca p p' e' Ht Hs]. intros Hi.
  pose proof (ri_pc _ _ Hi i ca p Ht) as Hok. pose proof (ri_calls _ _ Hi i ca p Ht) as Hca. simpl in Hok.
  destruct Hs as [e err He|e Hck|e cred e' He|e fl e' He|e fl e' He|e fl r Hp|e fl r|e fl r|e fl r Hf|e fl Hx].
  - by eapply move_inv.
  - by eapply move_inv.
  - apply resolve_enter_cases in He as (-> & entry & Hc & _ & ->). eapply move_inv; try done.
    by destruct (ri_cache _ _ Hi (call_key ca) entry Hc).
  - apply resolve_enter_cases in He as (Hk & cache & Hsub & ->). apply join_inv; [|done|done].
    eapply evict_inv; [exact Hsub|]. by destruct e.
  - apply resolve_enter_cases in He as (Hk & -> & cache & Hsub & ->).
    apply (lead_inv calls now cache (xc_inflight e) (xc_flights e)); [|done|done]. eapply evict_inv; [exact Hsub|]. by destruct e.
  - eapply move_inv; try done. destruct Hok as (Hck & Hf & Hk). split_and!; try done.
    destruct r as [cred|]; [|done]. by exists ca.
  - by apply settle_inv.
  - by apply close_inv.
  - eapply move_inv; try done. destruct Hok as (f & Hf' & Hr). simplify_eq. by apply Hr.
  - by eapply move_inv.
Qed.

Lemma runs_inv calls n c c' : rinv calls c → runs n c c' → rinv calls c'.
Proof.
  intros Hi Hr. induction Hr as [|n c c1 c2 Hr IH Hg|n c now now' e ts Hr IH Hle]; [done|exact (go_inv _ _ _ (IH Hi) Hg)|].
  specialize (IH Hi). destruct IH. by split.
Qed.

(** ** Progress *)
Definition rank (p : rpc) : nat :=
  match p with RCheck => 6 | REnter => 5 | RWire _ => 4 | RSettle _ _ => 3 | RClose _ _ => 2 | RWait _ => 1 | RDone _ => 0 end.
Definition work (c : rconfig) : nat := sum_list_with (λ cp, rank cp.2) (rc_threads c).

Lemma go_work c c' : go c c' → (work c' < work c)%nat.
Proof.
  intros [now e ts i ca p p' e' Ht Hs]. unfold work. simpl.
  pose proof (sum_list_insert (λ cp : call * rpc, rank cp.2) ts i (ca, p) (ca, p') Ht) as H. simpl in H.
  assert (rank p' < rank p)%nat by (destruct Hs; simpl; lia). lia.
Qed.

Lemma runs_work n c c' : runs n c c' → (n + work c' <= work c)%nat.
Proof. induction 1 as [|n c c1 c2 Hr IH Hg|]; [lia|apply go_work in Hg; lia|done]. Qed.

Definition all_done (c : rconfig) : Prop := Forall (λ cp, rank cp.2 = 0%nat) (rc_threads c).

(** A goroutine that is not waiting can move. *)
Lemma mover calls now e ts i ca p : rinv calls (mkR now e ts) → (∀ weak, ∃ r, peer weak r) →
  ts !! i = Some (ca, p) → (1 < rank p)%nat → ∃ c', go (mkR now e ts) c'.
Proof.
  intros Hi Hpeer Ht Hr.
  assert (∀ p' e', rstep now ca p e p' e' → ∃ c', go (mkR now e ts) c') as Hgo by (intros; eexists; by eapply go_at).
  destruct p as [| |fl|fl r|fl r|fl|r]; simpl in Hr; try lia.
  - destruct (resolve_check (ca_fsID ca) (ca_weak ca)) eqn:Hc; eapply Hgo; [by apply rs_refused|by apply rs_checked].
  - destruct (resolve_enter renewSkew now (call_key ca) e) as [[cred|fl|fl] e'] eqn:He; eapply Hgo;
      [by eapply rs_hit|by eapply rs_join|by eapply rs_lead].
  - destruct (Hpeer (ca_weak ca)) as [r Hpr]. eapply Hgo. by apply rs_answer.
  - eapply Hgo. apply rs_settle.
  - eapply Hgo. apply rs_close.
Qed.

Lemma rprogress calls c : rinv calls c → (∀ weak, ∃ r, peer weak r) → all_done c ∨ ∃ c', go c c'.
Proof.
  intros Hi Hpeer. destruct c as [now e ts].
  destruct (decide (all_done (mkR now e ts))) as [?|Hn]; [by left|right].
  apply not_Forall_Exists in Hn; [|apply _]. apply Exists_exists in Hn as ([ca p] & [i Ht]%list_elem_of_lookup & Hp). simpl in Hp.
  destruct (decide (1 < rank p)%nat) as [Hlt|Hle]; [by eapply mover|].
  destruct p as [| |fl|fl r|fl r|fl|r]; simpl in *; try lia; try done.
  pose proof (ri_pc _ _ Hi i ca _ Ht) as (f & Hf & _). simpl in Hf. destruct (fl_done f) eqn:Hd.
  - destruct (ri_closed _ _ Hi fl f Hf Hd) as [r Hr]. eexists. eapply go_at; [exact Ht|]. apply (rs_released _ _ _ _ r).
    destruct f. simpl in *. by subst.
  - destruct (ri_open _ _ Hi fl f Hf Hd) as (j & cb & q & Hj & Hq). simpl in Hj.
    eapply (mover calls now e ts j cb q); try done. destruct q; try done; simpl; lia.
Qed.

(** ** Keys *)
Definition no_nul (s : string) : Prop := contains_char zero s = false.

Lemma cache_key_inj f g i j : no_nul f → no_nul g → cache_key f i = cache_key g j → f = g ∧ i = j.
Proof.
  unfold no_nul, cache_key. revert g. induction f as [|a f IH]; intros [|b g] Hf Hg H; simpl in *.
  - by injection H.
  - injection H as Hb _. by rewrite bool_decide_eq_true_2 in Hg.
  - injection H as Ha _. by rewrite bool_decide_eq_true_2 in Hf.
  - apply orb_false_iff in Hf as [_ Hf], Hg as [_ Hg]. injection H as <- H. destruct (IH g Hf Hg H) as [-> ->]. done.
Qed.

Lemma checked_claim c : checked c → filesystemIDClaim (ca_weak c) = Ok (ca_fsID c).
Proof.
  unfold checked, resolve_check. case_decide; [done|]. destruct (filesystemIDClaim (ca_weak c)) as [claimed|]; [|done].
  case_decide; [by subst|done].
Qed.

(** C35: resolving a scope exchanges once and never crosses scopes.  However
    many goroutines resolve at once, at most one exchange per filesystem and
    intent is on the wire; and when no requested filesystem id contains a NUL, a
    credential any of them gets, from its own exchange, from the cache or from the
    flight it waited for, was issued by the exchange for a token presented for the
    same filesystem and intent, whose payload claims that very filesystem. *)
Theorem resolve_single_flight (now : Time) (calls : list call) (n : nat) (c : rconfig)
    (Hnul : Forall (λ ca, no_nul (ca_fsID ca)) calls) (Hruns : runs n (init now calls) c) :
  (∀ i j ca cb p q, rc_threads c !! i = Some (ca, p) → rc_threads c !! j = Some (cb, q) →
     unsettled p = true → unsettled q = true → call_key ca = call_key cb → i = j) ∧
  (∀ i ca cred, rc_threads c !! i = Some (ca, RDone (Ok cred)) →
     ∃ cb, cb ∈ calls ∧ ca_fsID cb = ca_fsID ca ∧ ca_intent cb = ca_intent ca ∧
       filesystemIDClaim (ca_weak cb) = Ok (ca_fsID ca) ∧ peer (ca_weak cb) (Ok cred)).
Proof.
  pose proof (runs_inv calls n _ _ (rinit_inv now calls) Hruns) as Hi. split.
  - intros i j ca cb p q Hp Hq Hup Huq Hk.
    pose proof (ri_pc _ _ Hi i ca p Hp) as Hok. pose proof (ri_pc _ _ Hi j cb q Hq) as Hok'.
    assert (∀ c0 r, unsettled r = true → pc_ok calls (rc_ex c) c0 r → ∃ fl, holds r = Some fl ∧ xc_inflight (rc_ex c) !! call_key c0 = Some fl) as Hin.
    { intros c0 r Hr Hr'. destruct r; simplify_eq/=; naive_solver. }
    destruct (Hin ca p Hup Hok) as (fl & Hfl & Hinf). destruct (Hin cb q Huq Hok') as (fl' & Hfl' & Hinf').
    rewrite Hk in Hinf. simplify_eq. by eapply (ri_unique _ _ Hi i j).
  - intros i ca cred Ht. pose proof (ri_pc _ _ Hi i ca _ Ht) as (cb & Hcb & Hk & Hck & Hp). simpl in Hp.
    pose proof (ri_calls _ _ Hi i ca _ Ht) as Hca.
    apply list_elem_of_lookup in Hcb as Hl1; destruct Hl1 as [a Ha]. apply list_elem_of_lookup in Hca as Hl2; destruct Hl2 as [b Hb].
    destruct (cache_key_inj _ _ _ _ (Forall_lookup_1 _ _ _ _ Hnul Ha) (Forall_lookup_1 _ _ _ _ Hnul Hb) Hk) as [Hf Hin].
    exists cb. split_and!; try done. rewrite <- Hf. by apply checked_claim.
Qed.

End race.

(** C36: no resolve is left waiting.  From any reachable state, if every
    exchange on the wire is answered, either all goroutines have returned or one
    can take a step that is neither giving up nor the passing of time; and no run
    takes more than six steps per call. *)
Theorem resolve_terminates (renewSkew : Z) (peer : string → result error string → Prop) (cancelled : call → Prop) (now : Time) (calls : list call) (n : nat) (c : rconfig)
    (Hpeer : ∀ weak, ∃ r, peer weak r) 
    (Hruns : runs renewSkew peer cancelled n (init now calls) c) :
  (n <= 6 * length calls)%nat ∧ (all_done c ∨ ∃ c', go renewSkew peer (λ _, False) c c').
Proof.
  pose proof (runs_inv renewSkew peer cancelled calls n _ _ (rinit_inv peer now calls) Hruns) as Hi. split.
  - apply runs_work in Hruns. assert (work (init now calls) = 6 * length calls)%nat as Hw; [|lia].
    unfold work, init. simpl. clear. induction calls as [|c cs IH]; [done|]. cbn [map sum_list_with snd rank length]. lia.
  - apply (rprogress renewSkew peer (λ _, False) calls c); [|done]. exact Hi.
Qed.

(** ** Runs *)

(** A token whose payload claims a filesystem, and a peer that issues a
    credential naming it. *)
Definition demo_token (fsID : string) : string :=
  "h." +:+ EncodeToString (print_json (JObj [("filesystem_id", JStr fsID)])) +:+ ".s".
Definition demo_peer (weak : string) (r : result error string) : Prop :=
  r = match filesystemIDClaim weak with Ok fsID => Ok ("credential for " +:+ fsID) | Err e => Err e end.

Definition demo_run := runs defaultRenewSkew demo_peer (λ _, False).

Lemma demo_go {n c0 now e ts} i {ca p p' e'} :
  demo_run n c0 (mkR now e ts) → ts !! i = Some (ca, p) → rstep defaultRenewSkew demo_peer (λ _, False) now ca p e p' e' →
  demo_run (S n) c0 (mkR now e' (<[i := (ca, p')]> ts)).
Proof. intros Hr Ht Hs. eapply run_go; [exact Hr|]. by eapply go_at. Qed.

(** Let goroutine [i] take the step [tac] proves. *)
Ltac goes H i tac := eapply (demo_go i) in H; [|reflexivity|tac]; cbn [list_insert insert list_insert] in H.

(** A leader and a waiter of one scope. *)
Definition demo_pair : list call := [mkCall "fs1" "read" (demo_token "fs1"); mkCall "fs1" "read" (demo_token "fs1")].

Lemma demo_flight : ∃ n e, demo_run n (init 0 demo_pair)
  (mkR 0 e [(mkCall "fs1" "read" (demo_token "fs1"), RDone (Ok "credential for fs1"));
            (mkCall "fs1" "read" (demo_token "fs1"), RDone (Ok "credential for fs1"))]).
Proof.
  assert (demo_run 0 (init 0 demo_pair) (init 0 demo_pair)) as H by constructor.
  unfold init at 2 in H. unfold demo_pair at 2 in H. cbn [map] in H.
  goes H 0%nat ltac:(apply rs_checked; vm_compute; reflexivity).
  goes H 1%nat ltac:(apply rs_checked; vm_compute; reflexivity).
  goes H 0%nat ltac:(eapply rs_lead; vm_compute; reflexivity).
  goes H 1%nat ltac:(eapply rs_join; vm_compute; reflexivity).
  goes H 0%nat ltac:(apply (rs_answer _ _ _ _ _ _ 0 (Ok "credential for fs1")); vm_compute; reflexivity).
  goes H 0%nat ltac:(apply rs_settle). goes H 0%nat ltac:(apply rs_close).
  goes H 1%nat ltac:(apply (rs_released _ _ _ _ _ _ 0 (Ok "credential for fs1")); vm_compute; reflexivity).
  eexists _, _. exact H.
Qed.

(** Two scopes, one key: a NUL in a filesystem id moves the separator. *)
Definition nul : string := String zero "".
Definition crossed_pair : list call :=
  [mkCall ("fs" +:+ nul +:+ "b") "read" (demo_token ("fs" +:+ nul +:+ "b"));
   mkCall "fs" ("b" +:+ nul +:+ "read") (demo_token "fs")].

(** The NUL separator does not separate.  A filesystem id may hold a NUL (a
    JSON claim can), and then two scopes share a cache key: a resolve of [fs] is
    answered from the cache with the credential issued for the other scope. *)
Theorem nul_key_crosses_scopes : ∃ n e, demo_run n (init 0 crossed_pair)
  (mkR 0 e [(mkCall ("fs" +:+ nul +:+ "b") "read" (demo_token ("fs" +:+ nul +:+ "b")), RDone (Ok ("credential for fs" +:+ nul +:+ "b")));
            (mkCall "fs" ("b" +:+ nul +:+ "read") (demo_token "fs"), RDone (Ok ("credential for fs" +:+ nul +:+ "b")))]).
Proof.
  assert (demo_run 0 (init 0 crossed_pair) (init 0 crossed_pair)) as H by constructor.
  unfold init at 2 in H. unfold crossed_pair at 2 in H. cbn [map] in H.
  goes H 0%nat ltac:(apply rs_checked; vm_compute; reflexivity).
  goes H 0%nat ltac:(eapply rs_lead; vm_compute; reflexivity).
  goes H 0%nat ltac:(apply (rs_answer _ _ _ _ _ _ 0 (Ok ("credential for fs" +:+ nul +:+ "b"))); vm_compute; reflexivity).
  goes H 0%nat ltac:(apply rs_settle). goes H 0%nat ltac:(apply rs_close).
  goes H 1%nat ltac:(apply rs_checked; vm_compute; reflexivity).
  goes H 1%nat ltac:(eapply (rs_hit _ _ _ _ _ _ ("credential for fs" +:+ nul +:+ "b")); vm_compute; reflexivity).
  eexists _, _. exact H.
Qed.

Lemma resolve_single_flight_witness :
  ∃ cb, cb ∈ demo_pair ∧ ca_fsID cb = "fs1" ∧ ca_intent cb = "read" ∧
    filesystemIDClaim (ca_weak cb) = Ok "fs1" ∧ demo_peer (ca_weak cb) (Ok "credential for fs1").
Proof.
  destruct demo_flight as (n & e & Hr).
  exact (proj2 (resolve_single_flight defaultRenewSkew demo_peer (λ _, False) 0 demo_pair n _ ltac:(by repeat constructor) Hr) 1%nat
           (mkCall "fs1" "read" (demo_token "fs1")) "credential for fs1" eq_refl).
Defined.

Lemma resolve_terminates_witness : ∃ n c, (n <= 6 * 2)%nat ∧ (all_done c ∨ ∃ c', go defaultRenewSkew demo_peer (λ _, False) c c').
Proof.
  destruct demo_flight as (n & e & Hr). exists n. eexists.
  exact (resolve_terminates defaultRenewSkew demo_peer (λ _, False) 0 demo_pair n _ ltac:(intros weak; by eexists) Hr).
Defined.
