(* ===== verification/Identity.v ===== *)
(** * The identity chain (test/harness/cmd/edge, over controlplane, exchange,
      edgeglue and filestore)

    The edge validates the guest's session token, strips it, trades it for a
    credential and forwards the request with that.  The theorems put the peers
    together: a minted token resolves to a credential the filestore reads back as
    the token's filesystem, and to the filestore a request through the edge is the
    request itself under that binding. *)
From Stdlib Require Import Ascii String.
From stdpp Require Import base list strings numbers pretty gmap.
From S2P Require Import Prelude GoPath Sha256 GoErrors GoIO BrokerErrors GoJson JsonText GoTime Messages Client HostFS Filestore FilestoreSpec WireCodec Base64 GoForm Jwt Exchange Edgeglue EdgeRace.
Local Open Scope Z_scope.

(** ** The edge (cmd/edge/main.go) *)
Definition cpIssuer : string := "https://control-plane.test".
Definition cpAudience : string := "filestore-edge".

(** http.Error: a text body. *)
Definition http_Error (msg : string) (status : Z) : http_response :=
  let body := bytes_of_string (msg +:+ String (chr 10) "") in mkResp status "" (zlen body) [Seg body None].

Section edge.
Context {EC : Ecdsa} `{P : Peer W} {UP : UrlPath} {RU : RequestURL}.
(** The filestore as the edge's client reaches it, and how an error prints. *)
Context {V : Type} {TW : Transport V}.
Variable error_text : error → string.
(** Whether the exchange URL makes a request. *)
Variable exchange_url_err : option error.

Record edge := mkEdge { ed_jwks : JWKS; ed_renewSkew : Z; ed_upstreamURL : string }.

(** The forwarded request: the inbound one with the credential in place of its
    token, at the upstream. *)
Definition forwarded (ed : edge) (cred : string) (rq : http_request) : http_request :=
  mkReq (rq_method rq) (ed_upstreamURL ed +:+ url_path (rq_url rq)) (rq_content_type rq) ("Bearer " +:+ cred) (rq_body rq).

(** What the edge answers: its own refusal, or the upstream's outcome. *)
Inductive edge_outcome : Type :=
| Refused (resp : http_response)
| Forwarded (out : do_outcome).

(** [None] when the resolve would wait for another goroutine's flight. *)
Definition edge_ServeHTTP (ed : edge) (now : Time) (rq : http_request) (st : Exchanger * W * V)
    : option (edge_outcome * (Exchanger * W * V)) :=
  let '(ex, w, s) := st in
  let authz := rq_authorization rq in
  let weak := TrimSpace (TrimPrefix authz "Bearer ") in
  if bool_decide (weak = "") || bool_decide (weak = authz) then Some (Refused (http_Error "missing bearer token" 401), st)
  else match Verify weak (ed_jwks ed) cpIssuer cpAudience now with
  | Err _ => Some (Refused (http_Error "invalid token" 401), st)
  | Ok claims =>
      if decide (cl_FilesystemID claims = "") then Some (Refused (http_Error "token carries no scope" 401), st)
      else match Resolve (ed_renewSkew ed) exchange_url_err (cl_FilesystemID claims) (cl_Intent claims) weak now ex w with
      | None => None
      | Some (Err e, (ex', w')) => Some (Refused (http_Error ("exchange failed: " +:+ error_text e) 401), (ex', w', s))
      | Some (Ok cred, (ex', w')) =>
          let up := forwarded ed cred rq in
          match newRequest_err (rq_url up) with
          | Some _ => Some (Refused (http_Error "build upstream request" 502), (ex', w', s))
          | None =>
              let '(out, s') := Do up s in
              match do_result out with
              | Err _ => Some (Refused (http_Error "upstream unreachable" 502), (ex', w', s'))
              | Ok _ => Some (Forwarded out, (ex', w', s'))
              end
          end
      end
  end.
End edge.

(** ** Signed tokens *)
Section tokens.
Context {EC : Ecdsa} {EL : EcdsaLaws EC}.

Lemma read_exp c : in_int64 (cl_Expiry c) → dec_exp (enc_Claims c) 0 = Some (cl_Expiry c).
Proof.
  intros He. unfold dec_exp, enc_Claims, decode_struct.
  erewrite decode_app; [|reflexivity]. unfold omit_str. erewrite decode_app; [|by destruct (bool_decide _)].
  lazy -[dec_int64 cl_Expiry]. by rewrite read_int64.
Qed.

Lemma read_scope c : dec_scopeClaims (enc_Claims c) (mkScopeClaims "" "") = Some (mkScopeClaims (cl_FilesystemID c) (cl_Intent c)).
Proof.
  unfold dec_scopeClaims, enc_Claims, decode_struct.
  erewrite decode_app; [|reflexivity]. unfold omit_str. erewrite decode_app; [|by destruct (bool_decide _)]. reflexivity.
Qed.

(** The parts of a signed token. *)
Definition header64 (kid : string) : string := EncodeToString (print_json (enc_joseHeader (mkHeader "ES256" "JWT" kid))).
Definition claims64 (c : Claims) : string := EncodeToString (print_json (enc_Claims c)).

Lemma signed_parts k kid c entropy token : Sign (Some k) kid c entropy = Ok token →
  ∃ sig, token = header64 kid +:+ "." +:+ claims64 c +:+ "." +:+ EncodeToString sig ∧ String.length sig = 64%nat.
Proof.
  intros (_ & r & s & _ & ->)%Sign_Ok. exists (encodeRS r s). split; [done|].
  unfold encodeRS. by rewrite string_of_length, length_app, !be_bytes_length.
Qed.

Lemma signed_expiry k kid c entropy token : wire_claims c → Sign (Some k) kid c entropy = Ok token →
  ExpiryUnverified token = Ok (cl_Expiry c).
Proof.
  intros Hc (sig & -> & _)%signed_parts. unfold ExpiryUnverified. rewrite splitToken_join by apply EncodeToString_chars.
  unfold claims64. rewrite Decode_Encode, Unmarshal_print, read_exp; [done| |by apply enc_Claims_clean].
  by destruct Hc as (_ & _ & _ & _ & ? & _).
Qed.

Lemma signed_claim k kid c entropy token : wire_claims c → cl_FilesystemID c ≠ "" → Sign (Some k) kid c entropy = Ok token →
  filesystemIDClaim token = Ok (cl_FilesystemID c).
Proof.
  intros Hc Hid (sig & -> & _)%signed_parts. unfold filesystemIDClaim.
  change (header64 kid +:+ "." +:+ claims64 c +:+ "." +:+ EncodeToString sig) with (join_with dot [header64 kid; claims64 c; EncodeToString sig]).
  rewrite split_join; [|done|by repeat constructor; apply no_dot, EncodeToString_chars].
  unfold claims64. rewrite Decode_Encode, Unmarshal_print, read_scope by by apply enc_Claims_clean.
  cbn [sk_FilesystemID]. by rewrite decide_False.
Qed.
End tokens.

(** ** The round trip of an exchange *)

(** Texts of a size every body limit of the chain leaves room for. *)
Definition brief (s : string) : Prop := valid_utf8 s ∧ zslen s <= 512.

Lemma encode_length n : ∀ s, (String.length s <= n)%nat → (String.length (EncodeToString s) <= 2 * String.length s)%nat.
Proof.
  induction n as [|n IH]; intros [|a [|b [|c rest]]] Hn; cbn [EncodeToString String.length] in *; try lia.
  specialize (IH rest ltac:(lia)). lia.
Qed.

Lemma zslen_encode s : zslen (EncodeToString s) <= 2 * zslen s.
Proof. pose proof (encode_length (String.length s) s ltac:(lia)). unfold zslen. lia. Qed.

Lemma b64_valid s : all_b64 s = true → valid_utf8 s.
Proof.
  induction s as [|a s IH]; [done|]. simpl. intros [Ha Hs]%andb_true_iff. apply valid_utf8_ascii_cons; [|by apply IH].
  apply b64_char_range in Ha as [? _]. lia.
Qed.

Lemma Get_form weak : Get (exchange_form weak) "grant_type" = grantTypeTokenExchange ∧ Get (exchange_form weak) "subject_token" = weak.
Proof. done. Qed.

Lemma ParseForm_exchange weak : ParseForm (exchange_request weak) = Some (exchange_form weak).
Proof. unfold ParseForm, exchange_request. cbn [pq_form pq_Body pq_RawQuery]. by rewrite ParseQuery_Encode. Qed.

Definition fits_exchange (cred : string) : Prop := zslen (print_json (enc_tokenResponse cred)) + 1 <= maxResponseBytes.

Lemma read_token_response cred : cred ≠ "" → valid_utf8 cred → fits_exchange cred →
  read_token (json_response 200 "" (enc_tokenResponse cred)) = Ok cred.
Proof.
  intros Hne Hu Hf. unfold read_token, json_response. cbn [rs_status rs_body negb Z.eqb].
  set (text := print_json (enc_tokenResponse cred) +:+ String "010"%char "").
  assert (zlen (bytes_of_string text) <= maxResponseBytes) as Hlen.
  { rewrite zlen_bytes. unfold text. rewrite zslen_app. exact Hf. }
  assert (read_all_limit maxResponseBytes [Seg (bytes_of_string text) None] = (bytes_of_string text, None, [])) as Hr.
  { cbn [read_all_limit]. change (maxResponseBytes <=? 0) with false. cbv iota.
    rewrite (proj2 (Z.leb_le _ _) Hlen). by rewrite app_nil_r. }
  cbv iota. rewrite Hr. cbv iota. rewrite string_bytes. unfold Unmarshal, text.
  assert (clean_json (enc_tokenResponse cred)) as Hc by (apply clean_obj; by repeat constructor).
  rewrite parse_print; [|done|apply num_end_ends; split; [done|vm_compute; set_solver]].
  rewrite decide_True by done. unfold dec_tokenResponse, enc_tokenResponse, decode_struct.
  cbn [decode_members]. rewrite match_field_exact by set_solver. cbn [dec_string].
  change (match_field ["access_token"] "issued_token_type") with (@None string).
  change (match_field ["access_token"] "token_type") with (@None string). cbv iota. by rewrite decide_False.
Qed.

(** ** Time *)

(** Instants whose seconds are far from the 64-bit limits (1970 to 2116). *)
Definition modern (t : Time) : Prop := 1000000000 <= t < 2 ^ 62.

Lemma Unix_bounds t : modern t → 1 <= Unix t < 2 ^ 33.
Proof.
  unfold modern, Unix. intros Ht. split; [apply Z.div_le_lower_bound; lia|apply Z.div_lt_upper_bound; lia].
Qed.

Lemma time_Unix_Unix t : modern t → t - 1000000000 < time_Unix (Unix t) <= t ∧ time_Unix (Unix t) ≠ time_zero.
Proof.
  intros Ht. pose proof (Unix_bounds t Ht) as Hu. unfold time_Unix.
  rewrite int64_wrap_id by (unfold in_int64, int64_min, int64_max; lia).
  pose proof (Z.div_mod t 1000000000 ltac:(lia)). pose proof (Z.mod_pos_bound t 1000000000 ltac:(lia)).
  unfold Unix in *. split; [lia|]. change time_zero with (-62135596800000000000). lia.
Qed.

Lemma Unix_in_int64 t : modern t → in_int64 (Unix t) ∧ Unix t ≠ 0.
Proof. intros Ht. pose proof (Unix_bounds t Ht). unfold in_int64, int64_min, int64_max. lia. Qed.

Lemma Find_own `{EC : Ecdsa} kid pub : Find [JWKFromPublic kid pub] kid = Some (JWKFromPublic kid pub).
Proof.
  assert (jk_Kid (JWKFromPublic kid pub) = kid) as Hk by (unfold JWKFromPublic; by destruct (coordsFromECDSA pub)).
  unfold Find. cbn [List.find]. by rewrite Hk, bool_decide_eq_true_2.
Qed.

(** ** The chain *)
Section chain.
Context {EC : Ecdsa} {EL : EcdsaLaws EC}.
(** The control plane, the exchange's issuer with its entropy, and the edge's
    renewal skew. *)
Context (cp : cp_Server) (iss : JWTCredentialIssuer) (entropy : nat → Z) (renewSkew : Z).

Definition chain_exchange : ex_Server := mkEx (cp_JWKS cp) (cp_issuer cp) (cp_audience cp).
Definition chain_validator : JWTCredentialValidator := mkValidator (ji_JWKS iss) (ji_issuer iss) (ji_audience iss).

(** The exchange peer at a time; its state counts the credentials issued. *)
Definition chain_peer (now : Time) : Peer nat := λ rq n,
  let '(resp, n') := handleExchange (CI := ji_Issue iss entropy) chain_exchange rq now n in (Ok resp, n').

Record chain_ok : Prop := {
  ck_cp_key : sk_P256 (cp_priv cp) = true;
  ck_ji_key : sk_P256 (ji_priv iss) = true;
  ck_cp_names : cp_issuer cp = cpIssuer ∧ cp_audience cp = cpAudience ∧ valid_utf8 (cp_kid cp);
  ck_ji_names : brief (ji_issuer iss) ∧ brief (ji_audience iss) ∧ brief (ji_kid iss);
  ck_ttl : 0 <= renewSkew ∧ renewSkew + 1000000000 <= ji_ttl iss;
  (** the entropy source works *)
  ck_signs : ∀ digest e, ∃ rs, ecdsa_Sign (ji_priv iss) digest e = Ok rs }.

Context (Hok : chain_ok).

(** A credential for a filesystem: the filestore accepts it until it expires. *)
Definition good (fsID cred : string) : Prop :=
  credentialNotAfter cred ≠ time_zero ∧
  ∀ t, t < credentialNotAfter cred → jv_Validate chain_validator t ("Bearer " +:+ cred) = Ok fsID.

Lemma ji_claims_wire fsID intent now : valid_utf8 fsID → valid_utf8 intent → modern now → modern (now + ji_ttl iss) →
  wire_claims (ji_claims iss fsID intent now).
Proof.
  intros Hf Hi Hn Ht. pose proof (Unix_in_int64 _ Hn) as [? _]. pose proof (Unix_in_int64 _ Ht) as [? _].
  destruct (ck_ji_names Hok) as ([? _] & [? _] & _). unfold wire_claims, ji_claims. simpl. by split_and!.
Qed.

Lemma Validate_bearer cred t : token_text cred = true → cred ≠ "" →
  jv_Validate chain_validator t ("Bearer " +:+ cred) =
    match Verify cred (ji_JWKS iss) (ji_issuer iss) (ji_audience iss) t with
    | Err e => Err (EErrorf "%w: %w" [] [ESent errNoCredential; e])
    | Ok claims => if decide (cl_FilesystemID claims = "") then Err (EErrorf "%w: credential carries no filesystem_id" [] [ESent errNoCredential])
                   else Ok (cl_FilesystemID claims)
    end.
Proof.
  intros Ht Hne. unfold jv_Validate, chain_validator. cbn [jv_JWKS jv_Issuer jv_Audience].
  rewrite TrimPrefix_app, TrimSpace_token, decide_False by done.
  assert (HasPrefix ("Bearer " +:+ cred) "Bearer " = true) as ->; [|done].
  unfold HasPrefix. rewrite strip_prefix_app. done.
Qed.

Lemma token_text_signed k kid c e token : Sign (Some k) kid c e = Ok token → token_text token = true ∧ token ≠ "".
Proof.
  intros (sig & -> & _)%signed_parts. split.
  - rewrite !token_text_app. unfold header64, claims64. by rewrite !(b64_token (EncodeToString _)) by apply EncodeToString_chars.
  - unfold header64. by destruct (EncodeToString _).
Qed.

(** What the exchange's issuer issues is good for its filesystem. *)
Lemma issued_good fsID intent now e cred : brief fsID → brief intent → fsID ≠ "" → modern now → modern (now + ji_ttl iss) →
  Sign (Some (ji_priv iss)) (ji_kid iss) (ji_claims iss fsID intent now) e = Ok cred →
  good fsID cred ∧ credentialNotAfter cred = time_Unix (Unix (now + ji_ttl iss)).
Proof using Hok EL.
  intros [Hf _] [Hi _] Hne Hn Ht Hs. pose proof (ji_claims_wire fsID intent now Hf Hi Hn Ht) as Hw.
  destruct (ck_ji_names Hok) as (_ & _ & [Hkid _]). pose proof (Unix_in_int64 _ Ht) as [_ Hnz].
  assert (credentialNotAfter cred = time_Unix (Unix (now + ji_ttl iss))) as Hna.
  { unfold credentialNotAfter. rewrite (signed_expiry _ _ _ _ _ Hw Hs). cbn [cl_Expiry ji_claims].
    by rewrite (proj2 (Z.eqb_neq _ 0)). }
  split; [|done]. split; [rewrite Hna; by apply time_Unix_Unix|]. intros t Hlt.
  destruct (token_text_signed _ _ _ _ _ Hs) as [Htok Hcne]. rewrite Validate_bearer by done.
  rewrite (Verify_signed _ _ _ _ _ _ _ _ _ Hw Hkid Hs) by apply Find_own.
  assert (claims_verdict (ji_issuer iss) (ji_audience iss) t (effective (ji_claims iss fsID intent now)) =
            Ok (effective (ji_claims iss fsID intent now))) as ->.
  { apply claims_verdict_Ok. split; [done|]. apply effective_accept. unfold acceptable, ji_claims. simpl.
    rewrite Hna in Hlt. split_and!; auto. }
  assert (cl_FilesystemID (effective (ji_claims iss fsID intent now)) = fsID) as ->; [|by rewrite decide_False].
  unfold effective. by destruct (decide _).
Qed.

Lemma brief_coerce s : brief s → zslen (coerce_utf8 s) <= 512.
Proof. intros [Hv Hl]. unfold valid_utf8 in Hv. by rewrite Hv. Qed.

Lemma cred_fits kid c e token : brief kid → brief (cl_Issuer c) → brief (cl_Audience c) → brief (cl_Subject c) →
  brief (cl_FilesystemID c) → brief (cl_Intent c) → brief (cl_AuthzIntent c) → in_int64 (cl_IssuedAt c) → in_int64 (cl_Expiry c) →
  Sign (Some (ji_priv iss)) kid c e = Ok token → valid_utf8 token ∧ fits_exchange token.
Proof.
  intros Hk%brief_coerce H1%brief_coerce H2%brief_coerce H3%brief_coerce H4%brief_coerce H5%brief_coerce H6%brief_coerce
    Hi%pretty_length He%pretty_length Hs. pose proof (token_text_signed _ _ _ _ _ Hs) as [Htok _].
  destruct (signed_parts _ _ _ _ _ Hs) as (sig & Htoken & Hsig).
  assert (valid_utf8 token) as Hv.
  { clear - Htok. induction token as [|a t IH]; [done|]. simpl in Htok. apply andb_true_iff in Htok as [Ha Ht].
    apply valid_utf8_ascii_cons; [|by apply IH]. unfold token_char, between in Ha. apply andb_true_iff in Ha as [_ Ha%Z.leb_le]. lia. }
  split; [done|]. unfold fits_exchange.
  pose proof (print_length (enc_tokenResponse token)) as Hp.
  assert (zslen token <= 50000) as Hlen.
  { rewrite Htoken, !zslen_app. unfold header64, claims64.
    pose proof (zslen_encode (print_json (enc_joseHeader (mkHeader "ES256" "JWT" kid)))) as Z1.
    pose proof (print_length (enc_joseHeader (mkHeader "ES256" "JWT" kid))) as L1.
    pose proof (zslen_encode (print_json (enc_Claims c))) as Z2. pose proof (print_length (enc_Claims c)) as L2.
    pose proof (zslen_encode sig) as Z3. assert (zslen sig = 64) as Hz by (unfold zslen; by rewrite Hsig).
    change (zslen ".") with 1.
    assert (json_size (enc_joseHeader (mkHeader "ES256" "JWT" kid)) <= 4000) as B1.
    { cbn [json_size enc_joseHeader jh_Alg jh_Typ jh_Kid]. change (zslen (coerce_utf8 "alg")) with 3. change (zslen (coerce_utf8 "typ")) with 3.
      change (zslen (coerce_utf8 "kid")) with 3. change (zslen (coerce_utf8 "ES256")) with 5. change (zslen (coerce_utf8 "JWT")) with 3. lia. }
    assert (json_size (enc_Claims c) <= 20000) as B2.
    { unfold enc_Claims, omit_str, omit. destruct (bool_decide (cl_Subject c = "")); cbn [app json_size];
        change (zslen (coerce_utf8 "iss")) with 3; change (zslen (coerce_utf8 "aud")) with 3; change (zslen (coerce_utf8 "sub")) with 3;
        change (zslen (coerce_utf8 "iat")) with 3; change (zslen (coerce_utf8 "exp")) with 3; change (zslen (coerce_utf8 "filesystem_id")) with 13;
        change (zslen (coerce_utf8 "intent")) with 6; change (zslen (coerce_utf8 "authz")) with 5; change (zslen (coerce_utf8 "downloadable")) with 12; lia. }
    lia. }
  assert (json_size (enc_tokenResponse token) <= 6 * zslen token + 2000) as Hsz; [|change maxResponseBytes with 1048576; lia].
  unfold valid_utf8 in Hv. cbn [json_size enc_tokenResponse]. rewrite Hv.
  change (zslen (coerce_utf8 "access_token")) with 12. change (zslen (coerce_utf8 "issued_token_type")) with 17.
  change (zslen (coerce_utf8 "token_type")) with 10. change (zslen (coerce_utf8 "Bearer")) with 6.
  change (zslen (coerce_utf8 "urn:ietf:params:oauth:token-type:access_token")) with 45. lia.
Qed.

(** The round trip of a token that verifies: one credential, good for its
    filesystem. *)
Lemma exchange_issues weak claims now n :
  Verify weak (cp_JWKS cp) (cp_issuer cp) (cp_audience cp) now = Ok claims → cl_FilesystemID claims ≠ "" →
  brief (cl_FilesystemID claims) → brief (cl_Intent claims) → modern now → modern (now + ji_ttl iss) →
  ∃ cred, Edgeglue.exchange (P := chain_peer now) None weak n = (Ok cred, S n) ∧ good (cl_FilesystemID claims) cred ∧
    credentialNotAfter cred = time_Unix (Unix (now + ji_ttl iss)).
Proof using Hok EL.
  intros Hv Hne Hf Hi Hn Ht. set (fsID := cl_FilesystemID claims) in *. set (intent := cl_Intent claims) in *.
  destruct (ck_ji_names Hok) as (Hiss & Haud & Hkid).
  assert (∃ cred, Sign (Some (ji_priv iss)) (ji_kid iss) (ji_claims iss fsID intent now) (entropy n) = Ok cred) as [cred Hs].
  { unfold Sign. rewrite (ck_ji_key Hok). cbn [negb]. destruct (ck_signs Hok (Sum256 (signing_input (ji_kid iss) (ji_claims iss fsID intent now))) (entropy n)) as [[r s] ->].
    by eexists. }
  exists cred. destruct (issued_good fsID intent now _ cred Hf Hi Hne Hn Ht Hs) as [Hg Hna].
  split; [|done]. unfold Edgeglue.exchange, peer_Do, chain_peer.
  assert (weak ≠ "") as Hweak by (by intros ->).
  assert (handleExchange (CI := ji_Issue iss entropy) chain_exchange (exchange_request weak) now n =
            (json_response 200 "" (enc_tokenResponse cred), S n)) as ->.
  { unfold handleExchange. cbn [pq_Method exchange_request]. rewrite bool_decide_eq_true_2 by done. cbn [negb].
    change (mkPeerReq "POST" true "" (Encode (exchange_form weak))) with (exchange_request weak).
    rewrite ParseForm_exchange. destruct (Get_form weak) as [-> ->]. rewrite bool_decide_eq_true_2 by done. cbn [negb].
    rewrite decide_False by done. unfold chain_exchange. cbn [ex_jwks ex_issuer ex_audience]. rewrite Hv.
    rewrite decide_False by done. unfold Issue, ji_Issue. fold fsID intent. by rewrite Hs. }
  destruct (token_text_signed _ _ _ _ _ Hs) as [_ Hcne].
  destruct (cred_fits (ji_kid iss) (ji_claims iss fsID intent now) (entropy n) cred) as [Hu Hfit]; simpl; try done;
    [by apply Unix_in_int64..|]. by rewrite read_token_response.
Qed.

(** ** Resolving *)

(** What the edge holds of the chain's credentials is good and lives as long
    as it is recorded to; no flight is open between requests. *)
Definition sound (ex : Exchanger) : Prop :=
  xc_inflight ex = ∅ ∧
  ∀ fsID intent entry, no_nul fsID → xc_cache ex !! cache_key fsID intent = Some entry →
    good fsID (ce_cred entry) ∧ ce_notAfter entry = credentialNotAfter (ce_cred entry).

Lemma sound_empty : sound NewExchanger.
Proof. by split. Qed.

Lemma isLive_good now fsID entry later : good fsID (ce_cred entry) → ce_notAfter entry = credentialNotAfter (ce_cred entry) →
  isLive renewSkew now entry = true → later <= now + renewSkew →
  jv_Validate chain_validator later ("Bearer " +:+ ce_cred entry) = Ok fsID.
Proof.
  intros [Hz Hv] He Hl Hle. apply Hv. unfold isLive in Hl. rewrite He in Hl.
  rewrite (proj2 (Z.eqb_neq _ _) Hz) in Hl. simpl in Hl. apply Z.ltb_lt in Hl. lia.
Qed.

Lemma Resolve_good weak claims now n ex :
  Verify weak (cp_JWKS cp) (cp_issuer cp) (cp_audience cp) now = Ok claims → cl_FilesystemID claims ≠ "" →
  filesystemIDClaim weak = Ok (cl_FilesystemID claims) → no_nul (cl_FilesystemID claims) →
  brief (cl_FilesystemID claims) → brief (cl_Intent claims) → modern now → modern (now + ji_ttl iss) → sound ex →
  ∃ cred ex' n', Resolve (P := chain_peer now) renewSkew None (cl_FilesystemID claims) (cl_Intent claims) weak now ex n = Some (Ok cred, (ex', n')) ∧
    sound ex' ∧ ∀ later, later <= now + renewSkew → jv_Validate chain_validator later ("Bearer " +:+ cred) = Ok (cl_FilesystemID claims).
Proof using Hok EL.
  intros Hv Hne Hclaim Hnul Hf Hi Hn Ht [Hidle Hcache].
  set (fsID := cl_FilesystemID claims) in *. set (intent := cl_Intent claims) in *. set (key := cache_key fsID intent).
  assert (resolve_check fsID weak = None) as Hck.
  { unfold resolve_check. rewrite decide_False by done. rewrite Hclaim. by rewrite decide_True. }
  unfold Resolve. rewrite Hck. fold key. destruct (resolve_enter renewSkew now key ex) as [x ex1] eqn:He.
  pose proof (resolve_enter_cases renewSkew now key ex x ex1 He) as Hx. destruct x as [cred|fl|fl].
  - destruct Hx as (-> & entry & Hc & Hlive & ->). destruct (Hcache fsID intent entry Hnul Hc) as [Hg Hna].
    exists (ce_cred entry), ex, n. split; [done|]. split; [done|]. intros later Hle. by apply (isLive_good now).
  - destruct Hx as (Hin & _). by rewrite Hidle in Hin.
  - destruct Hx as (_ & -> & cache & Hsub & ->).
    destruct (exchange_issues weak claims now n Hv Hne Hf Hi Hn Ht) as (cred & Hex & Hg & Hna). fold fsID in Hg. rewrite Hex.
    eexists cred, _, (S n). split; [reflexivity|]. split; [split|].
    + simpl. rewrite Hidle, delete_insert_id; done.
    + intros fsID' intent' entry Hnul' Hc. simpl in Hc. apply lookup_insert_Some in Hc as [[Hk <-]|[_ Hc]].
      * destruct (cache_key_inj _ _ _ _ Hnul Hnul' Hk) as [<- _]. done.
      * apply (Hcache fsID' intent'); [done|]. by eapply lookup_weaken.
    + intros later Hle. apply Hg. rewrite Hna. destruct (time_Unix_Unix _ Ht) as [[Hlo _] _]. destruct (ck_ttl Hok). lia.
Qed.

(** ** Through the edge *)
Context {HO : Host} {UP : UrlPath} {RU : RequestURL}.
Variables (net : Network) (error_text : error → string) (upstreamURL : string).

(** The validator that reads one Authorization value as bound to a filesystem. *)
Definition bound_to (authz fsID : string) : CredentialValidator := λ a, if decide (a = authz) then Some fsID else None.

Definition chain_edge : edge := mkEdge (cp_JWKS cp) renewSkew upstreamURL.

(** One request at the edge at [now], reaching the filestore at [later]. *)
Definition at_edge (now later : Time) (rq : http_request) (st : Exchanger * nat * Server) :
    option (edge_outcome * (Exchanger * nat * Server)) :=
  edge_ServeHTTP (P := chain_peer now) (TW := Filestore.exchange (CV := jwt_validator chain_validator later) net)
    error_text None chain_edge now rq st.

(** The filestore sees of a request its method, path, content type and body,
    and the binding of its credential. *)
Lemma exchange_same (CV1 CV2 : CredentialValidator) rq1 rq2 s fsID :
  rq_method rq1 = rq_method rq2 → url_path (rq_url rq1) = url_path (rq_url rq2) → rq_content_type rq1 = rq_content_type rq2 →
  rq_body rq1 = rq_body rq2 → (∀ ws e, rq_body rq2 ≠ BodyPipe ws (Some e)) → CV1 (rq_authorization rq1) = Some fsID → CV2 (rq_authorization rq2) = Some fsID →
  Filestore.exchange (CV := CV1) net rq1 s = Filestore.exchange (CV := CV2) net rq2 s.
Proof.
  destruct rq1 as [m1 u1 c1 a1 b1], rq2 as [m2 u2 c2 a2 b2]. cbn [rq_method rq_url rq_content_type rq_authorization rq_body].
  intros -> Hu -> -> Hb H1 H2. unfold Filestore.exchange, arriving. cbn [rq_body].
  destruct b2 as [j|ws [e|]]; [|by edestruct Hb|]; unfold ServeHTTP, route, handleFileUpload, ParseMultipartForm, decodeCommon, Validate.
  all: cbn [rq_method rq_url rq_content_type rq_authorization rq_body]; by rewrite Hu, H1, H2.
Qed.

(** A request the edge can take: the guest's bearer, a body that does not
    break off, and a path the upstream URL keeps. *)
Record takes (weak : string) (rq : http_request) : Prop := {
  tk_auth : rq_authorization rq = "Bearer " +:+ weak;
  tk_body : ∀ ws e, rq_body rq ≠ BodyPipe ws (Some e);
  tk_url : newRequest_err (upstreamURL +:+ url_path (rq_url rq)) = None;
  tk_path : url_path (upstreamURL +:+ url_path (rq_url rq)) = url_path (rq_url rq) }.

(** A session token of the control plane, and when it may be used. *)
Record session (fsID intent weak : string) (now later : Time) : Prop := {
  se_minted : ∃ dl t0 e, Mint cp fsID intent dl t0 e = Ok weak ∧ modern t0 ∧ modern (t0 + cp_ttl cp) ∧ now < time_Unix (Unix (t0 + cp_ttl cp));
  se_times : modern now ∧ modern (now + ji_ttl iss) ∧ later <= now + renewSkew;
  se_names : brief fsID ∧ brief intent ∧ fsID ≠ "" ∧ intent ≠ "" ∧ no_nul fsID }.

Lemma session_verifies fsID intent weak now later : session fsID intent weak now later →
  token_text weak = true ∧ weak ≠ "" ∧ filesystemIDClaim weak = Ok fsID ∧
  ∃ claims, Verify weak (cp_JWKS cp) (cp_issuer cp) (cp_audience cp) now = Ok claims ∧ cl_FilesystemID claims = fsID ∧ cl_Intent claims = intent.
Proof using Hok EL.
  intros [(dl & t0 & e & Hm & Ht0 & Ht1 & Hlt) _ ([Hf _] & [Hi _] & Hne & Hine & _)]. unfold Mint in Hm.
  set (c := cp_claims cp fsID intent dl t0) in *. destruct (ck_cp_names Hok) as (Hiss & Haud & Hkid).
  assert (wire_claims c) as Hw.
  { pose proof (Unix_in_int64 _ Ht0) as [? _]. pose proof (Unix_in_int64 _ Ht1) as [? _].
    unfold wire_claims, c, cp_claims. simpl. rewrite Hiss, Haud. by split_and!. }
  destruct (token_text_signed _ _ _ _ _ Hm) as [? ?]. split; [done|]. split; [done|].
  split; [by apply (signed_claim _ _ _ _ _ Hw Hne Hm)|]. exists c. split; [|done].
  rewrite (Verify_signed _ _ _ _ _ _ _ _ _ Hw Hkid Hm) by apply Find_own.
  assert (effective c = c) as -> by (unfold effective; by rewrite decide_False).
  apply claims_verdict_Ok. split; [done|]. unfold acceptable, c, cp_claims. simpl.
  pose proof (Unix_in_int64 _ Ht1) as [_ ?]. split_and!; auto.
Qed.

Lemma at_edge_forwards fsID intent weak now later rq ex n s :
  session fsID intent weak now later → takes weak rq → sound ex →
  ∃ out ex' n' s', at_edge now later rq (ex, n, s) = Some (Forwarded out, (ex', n', s')) ∧ sound ex' ∧
    Filestore.exchange (CV := bound_to ("Bearer " +:+ weak) fsID) net rq s = (out, s').
Proof using Hok EL.
  intros Hse [Ha Hb Hu Hp] Hsound. destruct (session_verifies _ _ _ _ _ Hse) as (Htok & Hwne & Hclaim & claims & Hv & Hfs & Hin).
  destruct Hse as [_ (Hn & Ht & Hlater) (Hbf & Hbi & Hne & _ & Hnul)].
  unfold at_edge, edge_ServeHTTP. rewrite Ha, TrimPrefix_app, TrimSpace_token by done.
  rewrite (bool_decide_eq_false_2 (weak = "")) by done.
  rewrite (bool_decide_eq_false_2 (weak = "Bearer " +:+ weak)) by (intros He%(f_equal String.length); rewrite string_length_app in He; simpl in He; lia).
  cbn [orb chain_edge ed_jwks ed_renewSkew]. destruct (ck_cp_names Hok) as (Hiss & Haud & _). rewrite <- Hiss, <- Haud, Hv.
  rewrite decide_False by (by rewrite Hfs).
  destruct (Resolve_good weak claims now n ex) as (cred & ex' & n' & -> & Hsound' & Hcred); rewrite ?Hfs, ?Hin; try done.
  unfold chain_edge. cbn [forwarded rq_url ed_upstreamURL]. rewrite Hu.
  pose proof (exchange_same (jwt_validator chain_validator later) (bound_to ("Bearer " +:+ weak) fsID)
    (forwarded (mkEdge (cp_JWKS cp) renewSkew upstreamURL) cred rq) rq s fsID eq_refl Hp eq_refl eq_refl Hb) as Hsame.
  unfold Do. rewrite Hsame; [| |unfold bound_to; by rewrite decide_True].
  2: { unfold jwt_validator. cbn [forwarded rq_authorization]. by rewrite (Hcred later Hlater), Hfs. }
  destruct (Filestore.exchange _ rq s) as [out s'] eqn:Hout.
  assert (∃ resp, do_result out = Ok resp) as [resp ->].
  { unfold Filestore.exchange in Hout. destruct (ServeHTTP (CV := bound_to ("Bearer " +:+ weak) fsID) _ s) as [resp s1]. exists resp.
    destruct (rq_body rq) as [j|ws [e|]]; [|by destruct (Hb ws e)|]; by injection Hout as <- _. }
  exists out, ex', n', s'. done.
Qed.

(** ** A session of requests *)
Record visit := mkVisit { vi_now : Time; vi_later : Time; vi_fsID : string; vi_intent : string; vi_weak : string; vi_rq : http_request }.

Definition fitting (v : visit) : Prop :=
  session (vi_fsID v) (vi_intent v) (vi_weak v) (vi_now v) (vi_later v) ∧ takes (vi_weak v) (vi_rq v).

(** The requests through the edge, one after another. *)
Fixpoint through_edge (vs : list visit) (st : Exchanger * nat * Server) : option (list edge_outcome * (Exchanger * nat * Server)) :=
  match vs with
  | [] => Some ([], st)
  | v :: vs' =>
      match at_edge (vi_now v) (vi_later v) (vi_rq v) st with
      | None => None
      | Some (o, st1) => prod_map (cons o) id <$> through_edge vs' st1
      end
  end.

(** The same requests at a filestore that takes each token for its scope. *)
Fixpoint straight (vs : list visit) (s : Server) : list do_outcome * Server :=
  match vs with
  | [] => ([], s)
  | v :: vs' =>
      let '(o, s1) := Filestore.exchange (CV := bound_to ("Bearer " +:+ vi_weak v) (vi_fsID v)) net (vi_rq v) s in
      prod_map (cons o) id (straight vs' s1)
  end.

(** C18: the edge is transparent to a session.  Any sequence of requests whose
    bearers are unexpired tokens the control plane minted, through the edge from a
    cache that holds only its own exchange's credentials (an empty one, at first):
    no request is refused or waits; every answer, and the filestore that results,
    is the one of sending the requests to a filestore that reads each token as
    bound to the filesystem it was minted for.  The credentials come from the cache
    or from the exchange, as their expiry dictates, and the cache stays sound. *)
Theorem edge_session_transparent (vs : list visit) (ex : Exchanger) (n : nat) (s : Server)
    (Hvs : Forall fitting vs) (Hex : sound ex) :
  ∃ ex' n', through_edge vs (ex, n, s) = Some (map Forwarded (straight vs s).1, (ex', n', (straight vs s).2)) ∧ sound ex'.
Proof using Hok EL.
  revert ex n s Hex. induction Hvs as [|v vs [Hse Htk] _ IH]; intros ex n s Hex; [by exists ex, n|].
  destruct (at_edge_forwards _ _ _ _ _ _ ex n s Hse Htk Hex) as (out & ex1 & n1 & s1 & He & Hex1 & Hs).
  destruct (IH ex1 n1 s1 Hex1) as (ex' & n' & Hrest & Hex'). exists ex', n'. split; [|done].
  cbn [through_edge straight]. rewrite He, Hrest, Hs. by destruct (straight vs s1).
Qed.

(** ** What the edge lets through *)
Section confined.
(** The control plane's key signed exactly [signed]. *)
Context (signed : list (string * Claims)).
Context (Hsigned : Forall (λ kc, wire_claims kc.2 ∧ brief (cl_FilesystemID kc.2) ∧ brief (cl_Intent kc.2) ∧
                                 brief (cl_AuthzIntent kc.2) ∧ no_nul (cl_FilesystemID kc.2)) signed).
Context (Hunforgeable : ∀ digest r s, ecdsa_Verify (sk_public (cp_priv cp)) digest r s = true →
           ∃ kc, kc ∈ signed ∧ digest = Sum256 (signing_input kc.1 kc.2)).

(** The guest's text hashes like something signed only if it was signed. *)
Definition token_honest (rq : http_request) : Prop :=
  ∀ h p x, splitToken (TrimSpace (TrimPrefix (rq_authorization rq) "Bearer ")) = Some (h, p, x) →
    collision_free signed (h +:+ "." +:+ p).

(** What reaches the filestore in place of a request. *)
Definition relayed (now later : Time) (rq : http_request) (s s' : Server) (o : edge_outcome) : Prop :=
  ∃ kc cred, kc ∈ signed ∧ acceptable cpIssuer cpAudience now kc.2 ∧
    jv_Validate chain_validator later ("Bearer " +:+ cred) = Ok (cl_FilesystemID kc.2) ∧
    ((∃ e, newRequest_err (upstreamURL +:+ url_path (rq_url rq)) = Some e ∧ o = Refused (http_Error "build upstream request" 502) ∧ s' = s) ∨
     ∃ out, Filestore.exchange (CV := jwt_validator chain_validator later) net (forwarded chain_edge cred rq) s = (out, s') ∧
       (o = Forwarded out ∨ o = Refused (http_Error "upstream unreachable" 502))).

(** C17: only a minted, unexpired token gets a request past the edge, and then
    only within its own filesystem.  Whatever the request: either the edge answers
    401 with its cache, the exchange and the filestore untouched; or its bearer
    carries claims the control plane signed for this edge that have not expired, and
    the filestore received the request with the guest's token replaced by a
    credential it validates as the filesystem of those very claims.  Assumed of
    the cryptography: the key verifies only what was signed with it, and the bearer
    is no SHA-256 collision with a signed text. *)
Theorem edge_confines (now later : Time) (rq : http_request) (ex : Exchanger) (n : nat) (s : Server)
    (o : edge_outcome) (ex' : Exchanger) (n' : nat) (s' : Server)
    (Hh : token_honest rq) (Hex : sound ex) (Hnow : modern now) (Httl : modern (now + ji_ttl iss)) (Hlater : later <= now + renewSkew)
    (Hrun : at_edge now later rq (ex, n, s) = Some (o, (ex', n', s'))) :
  ((∃ msg, o = Refused (http_Error msg 401)) ∧ (ex', n', s') = (ex, n, s)) ∨
  (sound ex' ∧ relayed now later rq s s' o).
Proof using Hok EL Hsigned Hunforgeable.
  revert Hrun. unfold at_edge, edge_ServeHTTP. set (weak := TrimSpace _) in *.
  destruct (_ || _); [intros [= <- <- <- <-]; left; eauto|].
  cbn [chain_edge ed_jwks ed_renewSkew]. destruct (ck_cp_names Hok) as (Hiss & Haud & _).
  destruct (Verify weak _ _ _ now) as [claims|e] eqn:Hv; [|intros [= <- <- <- <-]; left; eauto].
  destruct (decide (cl_FilesystemID claims = "")) as [|Hne]; [intros [= <- <- <- <-]; left; eauto|].
  assert (Forall (λ kc, wire_claims kc.2) signed) as Hw by (eapply Forall_impl; [exact Hsigned|]; naive_solver).
  destruct (Verify_signed_only (cp_priv cp) (cp_kid cp) signed (ck_cp_key Hok) Hw Hunforgeable weak cpIssuer cpAudience now claims)
    as (kc & Hin & Heff & Hacc); [exact Hh|done|].
  pose proof Hin as [i Hi]%list_elem_of_lookup. destruct (Forall_lookup_1 _ _ _ _ Hsigned Hi) as (_ & Hbf & Hbi & Hba & Hnul).
  assert (cl_FilesystemID claims = cl_FilesystemID kc.2) as Hfs by (rewrite Heff; unfold effective; by destruct (decide _)).
  assert (brief (cl_Intent claims)) as Hbi' by (rewrite Heff; unfold effective; by destruct (decide _)).
  rewrite <- Hiss, <- Haud in Hv.
  destruct (resolve_check (cl_FilesystemID claims) weak) as [err|] eqn:Hck.
  { unfold Resolve. rewrite Hck. intros [= <- <- <- <-]. left. eauto. }
  assert (filesystemIDClaim weak = Ok (cl_FilesystemID claims)) as Hclaim.
  { unfold resolve_check in Hck. rewrite decide_False in Hck by done. destruct (filesystemIDClaim weak) as [c|]; [|done].
    by destruct (decide (c = _)) as [->|]. }
  destruct (Resolve_good weak claims now n ex Hv Hne Hclaim) as (cred & ex1 & n1 & -> & Hex1 & Hcred); rewrite ?Hfs; try done.
  specialize (Hcred later Hlater). rewrite Hfs in Hcred. unfold chain_edge. cbn [forwarded rq_url ed_upstreamURL].
  destruct (newRequest_err _) as [e|] eqn:Hu.
  { intros [= <- <- <- <-]. right. split; [done|]. exists kc, cred. split_and!; [done..|]. left. by exists e. }
  unfold Do. destruct (Filestore.exchange _ _ s) as [out s1] eqn:Hout.
  intros Hrun. right. split; [|exists kc, cred; split_and!; [done..|]; right; exists out; split].
  - by destruct (do_result out); injection Hrun as <- <- <- <-.
  - assert (s' = s1) as -> by (by destruct (do_result out); injection Hrun as <- <- <- <-). exact Hout.
  - destruct (do_result out); injection Hrun as <- <- <- <-; auto.
Qed.
End confined.
End chain.

(** ** A chain *)

(** One token, minted for ["fs1"]; the control plane's key signs nothing else. *)
Definition demo_start : Time := 1700000000000000000.
Definition demo_may : list Z → bool :=
  λ digest, bool_decide (digest = Sum256 (signing_input "cp1"
    (mkClaims cpIssuer cpAudience "fs1" 1700000000 1700000300 "fs1" "write" "" false))).
#[local] Instance demo_curve : Ecdsa := toy demo_may.

Definition demo_cp : cp_Server := mkCP (false : PrivateKey) "cp1" cpIssuer cpAudience defaultTokenTTL.
Definition demo_ji : JWTCredentialIssuer := mkIssuer (true : PrivateKey) "ex1" "https://exchange.test" "filestore" time_Hour.
Definition demo_signed : list (string * Claims) := [("cp1", cp_claims demo_cp "fs1" "write" false demo_start)].
Definition demo_weak : string :=
  match Mint demo_cp "fs1" "write" false demo_start 0 with Ok token => token | Err _ => "" end.

Lemma demo_minted : Mint demo_cp "fs1" "write" false demo_start 0 = Ok demo_weak.
Proof. vm_compute. reflexivity. Qed.

Lemma demo_chain : chain_ok demo_cp demo_ji defaultRenewSkew.
Proof.
  split; try reflexivity.
  - by split_and!.
  - split_and!; (split; [reflexivity|vm_compute; discriminate]).
  - vm_compute. split; discriminate.
  - intros digest e. by exists (1, 1).
Qed.

#[local] Existing Instance demo_host.
#[local] Existing Instance demo_urls.
#[local] Instance demo_accept : RequestURL := λ _, None.

Definition demo_mkdir (authz : string) : http_request :=
  mkReq "POST" "https://edge/v1/filestore/fs/makeDirectory" "application/json" authz (rq_body demo_request).
Definition demo_visit (dt : Z) : visit :=
  mkVisit (demo_start + dt) (demo_start + dt + 1000) "fs1" "write" demo_weak (demo_mkdir ("Bearer " +:+ demo_weak)).

Lemma demo_modern t : (1000000000 <=? t) && (t <? 2 ^ 62) = true → modern t.
Proof. intros [?%Z.leb_le ?%Z.ltb_lt]%andb_true_iff. done. Qed.

Lemma demo_fitting dt : 0 <= dt <= 299000000000 → fitting demo_cp demo_ji defaultRenewSkew "https://edge" (demo_visit dt).
Proof.
  intros Hdt. unfold fitting. cbn [demo_visit vi_now vi_later vi_fsID vi_intent vi_weak vi_rq]. split; split.
  - exists false, demo_start, 0. split; [exact demo_minted|]. split; [by apply demo_modern|]. split; [by apply demo_modern|].
    assert (time_Unix (Unix (demo_start + cp_ttl demo_cp)) = demo_start + 300000000000) as -> by (vm_compute; reflexivity). lia.
  - change (ji_ttl demo_ji) with 3600000000000. unfold modern, defaultRenewSkew, demo_start. lia.
  - split_and!; try done; split; (reflexivity || (vm_compute; discriminate)).
  - reflexivity.
  - done.
  - reflexivity.
  - reflexivity.
Qed.

(** Two requests: the second finds the credential in the cache. *)
Lemma edge_session_transparent_witness : ∃ ex' n',
  through_edge demo_cp demo_ji (λ _, 0) defaultRenewSkew calm (λ _, "") "https://edge" [demo_visit 0; demo_visit 1000000000]
    (NewExchanger, 0%nat, FilestoreSpec.demo_pair) =
  Some (map Forwarded (straight calm [demo_visit 0; demo_visit 1000000000] FilestoreSpec.demo_pair).1,
        (ex', n', (straight calm [demo_visit 0; demo_visit 1000000000] FilestoreSpec.demo_pair).2)) ∧
  sound demo_ji ex'.
Proof.
  apply (edge_session_transparent demo_cp demo_ji (λ _, 0) defaultRenewSkew demo_chain).
  - repeat (apply Forall_cons; split; [apply demo_fitting; lia|]). constructor.
  - apply sound_empty.
Defined.

Lemma demo_unforgeable (digest : list Z) (r s : Z) : ecdsa_Verify (sk_public (cp_priv demo_cp)) digest r s = true →
  ∃ kc, kc ∈ demo_signed ∧ digest = Sum256 (signing_input kc.1 kc.2).
Proof.
  simpl. intros [_ Hd%bool_decide_eq_true]%andb_true_iff.
  eexists. split; [by apply list_elem_of_singleton|]. exact Hd.
Qed.

Lemma edge_confines_witness : ∃ o st',
  at_edge demo_cp demo_ji (λ _, 0) defaultRenewSkew calm (λ _, "") "https://edge" (vi_now (demo_visit 0)) (vi_later (demo_visit 0))
    (vi_rq (demo_visit 0)) (NewExchanger, 0%nat, FilestoreSpec.demo_pair) = Some (o, st') ∧
  (((∃ msg, o = Refused (http_Error msg 401)) ∧ st' = (NewExchanger, 0%nat, FilestoreSpec.demo_pair)) ∨
   (sound demo_ji st'.1.1 ∧ relayed demo_cp demo_ji defaultRenewSkew calm "https://edge" demo_signed
      (vi_now (demo_visit 0)) (vi_later (demo_visit 0)) (vi_rq (demo_visit 0)) FilestoreSpec.demo_pair st'.2 o)).
Proof.
  destruct (demo_fitting 0 ltac:(lia)) as [Hse Htk].
  destruct (at_edge_forwards demo_cp demo_ji (λ _, 0) defaultRenewSkew demo_chain calm (λ _, "") "https://edge"
    _ _ _ _ _ _ NewExchanger 0%nat FilestoreSpec.demo_pair Hse Htk (sound_empty demo_ji)) as (out & ex' & n' & s' & Hrun & _).
  exists (Forwarded out), (ex', n', s'). split; [exact Hrun|].
  refine (edge_confines demo_cp demo_ji (λ _, 0) defaultRenewSkew demo_chain calm (λ _, "") "https://edge" demo_signed
    _ demo_unforgeable _ _ _ NewExchanger 0%nat _ _ ex' n' s' _ (sound_empty demo_ji) _ _ _ Hrun).
  - apply Forall_singleton. split; [|split_and!; [split; [reflexivity|vm_compute; discriminate]..|reflexivity]].
    unfold wire_claims, in_int64, int64_min, int64_max. split_and!; (reflexivity || (vm_compute; discriminate)).
  - intros h p x Hsplit kc ->%list_elem_of_singleton _. revert Hsplit. vm_compute. by intros [= <- <- <-].
  - by apply demo_modern.
  - by apply demo_modern.
  - vm_compute. discriminate.
Defined.
