(* ===== verification/EdgeMount.v ===== *)
(** * A mount behind the edge

    The guest's client talks to the edge, not to the filestore.  The whole
    request path is put together here: backend and client, the edge with its
    credential cache, the exchange, the filestore and its validator.  It answers
    as the bare filestore does, so [MountRefinement] holds of it. *)
From Stdlib Require Import Ascii String.
From stdpp Require Import base list strings numbers gmap.
From S2P Require Import Prelude GoPath GoErrors GoIO BrokerErrors GoJson GoTime Messages Client Ocufs HostFS Filestore FilestoreSpec OcufsSpec OcufsSession EndToEnd MountRefinement BrokerSim Jwt Exchange Edgeglue EdgeRace Identity.
Local Open Scope Z_scope.

Section mount.
Context {EC : Ecdsa} {EL : EcdsaLaws EC} {HO : Host} {HL : HostLaws HO} {UP : UrlPath} {RU : RequestURL} {ENC : Encoder} {RD : RangeDecode}.
Context (cp : cp_Server) (iss : JWTCredentialIssuer) (entropy : nat → Z) (renewSkew : Z).
Context (net : Network) (error_text : error → string) (upstreamURL : string).
(** When the [k]-th request reaches the edge, and the filestore. *)
Context (times : nat → Time * Time).

(** The requests so far, and the peers. *)
Definition edge_world : Type := nat * (Exchanger * nat * Server).

(** The client's exchange with the edge.  A refusal is a response like any
    other.  A client resolves one request at a time, so no flight is open when
    the next one comes; [None] stands for the wait that would end with the
    caller's context. *)
#[local] Instance edge_wire : Transport edge_world := λ rq '(k, st),
  match at_edge cp iss entropy renewSkew net error_text upstreamURL (times k).1 (times k).2 rq st with
  | Some (Forwarded out, st') => (out, (S k, st'))
  | Some (Refused resp, st') => (mkDo (Ok resp) (nw_early net rq), (S k, st'))
  | None => (mkDo (Err (ESent context_Canceled)) 0, (S k, st))
  end.

Section client.
Context (c : Client).

(** The client's token was minted for its filesystem, for this edge, and is
    good at all the times of the session. *)
Definition enrolled (intent : string) : Prop :=
  ∀ k, session cp iss renewSkew (c_fsID c) intent (c_authToken c) (times k).1 (times k).2.

(** The edge hands on the paths of the client's URLs. *)
Definition routed : Prop :=
  ∀ op, newRequest_err (upstreamURL +:+ url_path (opURL c op)) = None ∧
        url_path (upstreamURL +:+ url_path (opURL c op)) = url_path (opURL c op).

(** The filestore that takes the client's token for its filesystem. *)
#[local] Instance own_token : CredentialValidator := bound_to (bearer c) (c_fsID c).

(** The edge's world and the bare filestore's. *)
Definition behind (w : edge_world) (s : Server) : Prop := w.2.2 = s ∧ sound iss w.2.1.1.

Context (Hok : chain_ok cp iss renewSkew) (intent : string) (Hse : enrolled intent) (Hroute : routed).

Lemma edge_wire_sim rq : own_request true c rq → sim behind (Do (Transport := edge_wire) rq) (Do (Transport := wire net) rq).
Proof using Hok Hse Hroute EL.
  intros (Ha & [op Hu] & Hb) [k [[ex n] s1]] s [Heq Hex]. simpl in Heq, Hex. subst s1. destruct (Hroute op) as [Hu1 Hu2].
  assert (takes upstreamURL (c_authToken c) rq) as Htk by (split; rewrite ?Hu; auto).
  destruct (at_edge_forwards cp iss entropy renewSkew Hok net error_text upstreamURL _ _ _ _ _ _ ex n s (Hse k) Htk Hex)
    as (out & ex' & n' & s' & He & Hex' & Hs).
  exists out, (S k, (ex', n', s')), s'. split; [|split; [exact Hs|done]].
  unfold Do, edge_wire. by rewrite He.
Qed.

#[local] Instance edge_broker : brokerClient edge_world := client_broker (TW := edge_wire) c.
#[local] Instance bare_broker : brokerClient Server := client_broker (TW := wire net) c.

(** Every broker operation through the edge is the one on the bare filestore. *)
Lemma edge_broker_sim : BrokerSim behind true edge_broker bare_broker.
Proof using Hok Hse Hroute EL. apply (client_sim behind true). exact edge_wire_sim. Qed.

Lemma admissible_ends_well f ops : ∀ v, admissible f ops v → Forall (ends_well true) ops.
Proof.
  induction ops as [|op ops IH]; intros v; [done|]. simpl. intros [Hp Ha]. constructor; [|by eapply IH].
  destruct op; try done. intros _. simpl in Hp. by destruct Hp as (_ & _ & _ & _ & ? & _).
Qed.

(** C3: the mount refines the abstract volume through the whole deployment.  A
    guest whose token the control plane minted for its filesystem, and that has
    not expired, runs any admissible sequence of operations against the edge, which
    starts with an empty cache: every request is verified, exchanged (or served
    from the cache), forwarded, validated again and carried out; the run succeeds
    and the filestore's scope holds exactly what the abstract operations give.
    Nothing of the session depends on when credentials expire and are renewed. *)
Theorem edge_mount_refines (scope : Scope) (f : Fs) (ops : list mount_op) (s : Server)
    (Hre : reaches c scope) (Hf : fs_readOnly f = false) (Hsc : sc_ReadOnly scope = false)
    (Hs : serving c scope s) (Hops : admissible f ops (volume scope s)) :
  ∃ k ex n s', mount_run f ops (0%nat, (NewExchanger, 0%nat, s)) = (true, (k, (ex, n, s'))) ∧
    serving c scope s' ∧ ∀ p, volume scope s' p = foldl (mount_spec f) (volume scope s) ops p.
Proof using Hok Hse Hroute EL HL.
  destruct (mount_run_ok net c scope f Hre Hf Hsc ops s Hs Hops) as (s' & Hr & Hs' & Hv).
  destruct (sim_run_ops behind true (BS := edge_broker_sim) f ops (admissible_ends_well f ops _ Hops) (0%nat, (NewExchanger, 0%nat, s)) s)
    as (ok & [k [[ex n] s1]] & s2 & He & Hb & [Heq _]); [by split; [|apply sound_empty]|].
  simpl in Heq. subst s2. exists k, ex, n, s1. assert ((ok, s1) = (true, s')) as [= -> ->] by (by rewrite <- Hb).
  by split_and!.
Qed.
End client.
End mount.

(** ** A deployment behind the edge *)
#[local] Existing Instance demo_host.
#[local] Existing Instance demo_host_laws.
#[local] Existing Instance demo_urls.
#[local] Existing Instance demo_curve.
#[local] Existing Instance id_encoder.
#[local] Instance edge_accept : RequestURL := λ _, None.

Definition demo_client : Client := mkClient "https://edge" "fs1" demo_weak 262144 1073741824 65536.
Definition demo_times (k : nat) : Time * Time := (demo_start + Z.min (Z.of_nat k) 200 * 1000000000, demo_start + Z.min (Z.of_nat k) 200 * 1000000000 + 1000).

(** The token is never computed by conversion. *)
#[local] Opaque demo_weak.

Lemma demo_enrolled : enrolled demo_cp demo_ji defaultRenewSkew demo_times demo_client "write".
Proof.
  intros k. destruct (demo_fitting (Z.min (Z.of_nat k) 200 * 1000000000) ltac:(lia)) as [H _].
  cbn [demo_visit vi_fsID vi_intent vi_weak vi_now vi_later] in H. cbn [demo_client c_fsID c_authToken demo_times fst snd]. exact H.
Qed.

Lemma edge_reaches : reaches (CV := own_token demo_client) demo_client demo_scope.
Proof.
  split; try done.
  - by exists "srv/out".
Qed.

Lemma edge_serving : serving demo_client demo_scope demo_server.
Proof. destruct demo_serving. by split. Qed.

Lemma edge_mount_refines_witness : ∃ k ex n s',
  mount_run (B := edge_broker demo_cp demo_ji (λ _, 0) defaultRenewSkew calm (λ _, "") "https://edge" demo_times demo_client)
    demo_fs demo_ops (0%nat, (NewExchanger, 0%nat, demo_server)) = (true, (k, (ex, n, s'))) ∧
  serving demo_client demo_scope s' ∧ ∀ p, volume demo_scope s' p = foldl (mount_spec demo_fs) (volume demo_scope demo_server) demo_ops p.
Proof.
  exact (edge_mount_refines demo_cp demo_ji (λ _, 0) defaultRenewSkew calm (λ _, "") "https://edge" demo_times demo_client
    demo_chain "write" demo_enrolled ltac:(intros op; split; [reflexivity|reflexivity]) demo_scope demo_fs demo_ops demo_server
    edge_reaches eq_refl eq_refl edge_serving demo_admissible).
Defined.
