(* ===== verification/Regex.v ===== *)
(** * Regular expressions

    Just enough of Go's regexp (RE2) for the config loader: an expression, its
    meaning as a set of strings, and an executable matcher by derivatives,
    proved to decide the meaning. *)
From Stdlib Require Import Ascii String.
From stdpp Require Import base list strings.
From S2P Require Import Prelude.

Inductive re : Type :=
| REmpty
| REps
| RClass (p : ascii → bool)
| RSeq (a b : re)
| RAlt (a b : re)
| RStar (a : re).

Inductive matches : re → string → Prop :=
| M_eps : matches REps ""
| M_class p c : p c = true → matches (RClass p) (String c "")
| M_seq a b s t : matches a s → matches b t → matches (RSeq a b) (s +:+ t)
| M_alt_l a b s : matches a s → matches (RAlt a b) s
| M_alt_r a b s : matches b s → matches (RAlt a b) s
| M_star_nil a : matches (RStar a) ""
| M_star_cons a s t : matches a s → matches (RStar a) t → matches (RStar a) (s +:+ t).

(** Derived forms, written as in the source patterns. *)
Definition RChar (c : ascii) : re := RClass (λ x, bool_decide (x = c)).
Definition RRange (lo hi : ascii) : re :=
  RClass (λ x, (N_of_ascii lo <=? N_of_ascii x)%N && (N_of_ascii x <=? N_of_ascii hi)%N).
Fixpoint RLit (s : string) : re :=
  match s with "" => REps | String c s' => RSeq (RChar c) (RLit s') end.
Definition RPlus (a : re) : re := RSeq a (RStar a).
Definition ROpt (a : re) : re := RAlt a REps.
Fixpoint RRep (n : nat) (a : re) : re :=
  match n with O => REps | S n => RSeq a (RRep n a) end.
(** [.]: any character but newline; and any character at all, for the rest of
    the text after an unanchored end. *)
Definition RDot : re := RClass (λ x, negb (bool_decide (x = "010"%char))).
Definition RAny : re := RClass (λ _, true).

(** ** The matcher *)
Fixpoint nullable (r : re) : bool :=
  match r with
  | REmpty | RClass _ => false
  | REps | RStar _ => true
  | RSeq a b => nullable a && nullable b
  | RAlt a b => nullable a || nullable b
  end.

Fixpoint deriv (c : ascii) (r : re) : re :=
  match r with
  | REmpty | REps => REmpty
  | RClass p => if p c then REps else REmpty
  | RSeq a b => if nullable a then RAlt (RSeq (deriv c a) b) (deriv c b) else RSeq (deriv c a) b
  | RAlt a b => RAlt (deriv c a) (deriv c b)
  | RStar a => RSeq (deriv c a) (RStar a)
  end.

Fixpoint re_match (r : re) (s : string) : bool :=
  match s with
  | "" => nullable r
  | String c s' => re_match (deriv c r) s'
  end.

(** ** Correctness *)
Lemma nullable_spec r : nullable r = true ↔ matches r "".
Proof.
  split.
  - induction r; simpl; intros H; try done; try by constructor.
    + apply andb_true_iff in H as [??]. change "" with ("" +:+ ""). constructor; auto.
    + apply orb_true_iff in H as [?|?]; [apply M_alt_l|apply M_alt_r]; auto.
  - intros H. remember "" as s eqn:Hs. induction H; simpl; try done.
    + destruct s; [|done]. simpl in Hs. subst. by rewrite IHmatches1, IHmatches2.
    + by rewrite IHmatches.
    + rewrite IHmatches by done. by rewrite orb_true_r.
Qed.

Lemma star_cons_inv a c s :
  matches (RStar a) (String c s) → ∃ s1 s2, s = s1 +:+ s2 ∧ matches a (String c s1) ∧ matches (RStar a) s2.
Proof.
  intros H. remember (RStar a) as r eqn:Hr. remember (String c s) as t eqn:Ht.
  induction H; simplify_eq.
  destruct s0 as [|c' s0]; simpl in Ht.
  - by apply IHmatches2.
  - rewrite string_app_cons in Ht. simplify_eq. eauto.
Qed.

Lemma seq_cons_inv a b c s :
  matches (RSeq a b) (String c s) →
  (∃ s1 s2, s = s1 +:+ s2 ∧ matches a (String c s1) ∧ matches b s2) ∨ (matches a "" ∧ matches b (String c s)).
Proof.
  intros H. inversion H as [| |? ? u t Ha Hb Hr Heq| | | |]; subst.
  destruct u as [|c' u].
  - right. simpl in Heq. by subst.
  - left. rewrite string_app_cons in Heq. simplify_eq. eauto.
Qed.

Lemma deriv_spec c r s : matches (deriv c r) s ↔ matches r (String c s).
Proof.
  revert s. induction r as [| |p|a IHa b IHb|a IHa b IHb|a IHa]; intros s; simpl.
  - split; intros H; inversion H.
  - split; intros H; inversion H.
  - destruct (p c) eqn:Hp; split; intros H; inversion H; subst; [by constructor|constructor|congruence].
  - assert (matches (RSeq (deriv c a) b) s ↔
            ∃ s1 s2, s = s1 +:+ s2 ∧ matches a (String c s1) ∧ matches b s2) as Hseq.
    { split.
      - intros H. inversion H; subst. eexists _, _. split; [done|]. split; [by apply IHa|done].
      - intros (s1 & s2 & -> & H1 & H2). constructor; [by apply IHa|done]. }
    destruct (nullable a) eqn:Hn.
    + split.
      * intros H. inversion H; subst; clear H.
        -- apply Hseq in H3 as (s1 & s2 & -> & H1 & H2).
           change (String c (s1 +:+ s2)) with (String c s1 +:+ s2). by constructor.
        -- apply IHb in H3. change (String c s) with ("" +:+ String c s). constructor; [|done]. by apply nullable_spec.
      * intros [H|[_ H]]%seq_cons_inv; [apply M_alt_l; by apply Hseq|apply M_alt_r; by apply IHb].
    + rewrite Hseq. split.
      * intros (s1 & s2 & -> & H1 & H2). change (String c (s1 +:+ s2)) with (String c s1 +:+ s2). by constructor.
      * intros [H|[H _]]%seq_cons_inv; [done|]. apply nullable_spec in H. congruence.
  - split; intros H; inversion H; subst; [apply M_alt_l|apply M_alt_r|apply M_alt_l|apply M_alt_r]; naive_solver.
  - split.
    + intros H. inversion H; subst. change (String c (s0 +:+ t)) with (String c s0 +:+ t).
      constructor; [by apply IHa|done].
    + intros (s1 & s2 & -> & H1 & H2)%star_cons_inv. constructor; [by apply IHa|done].
Qed.

Lemma re_match_spec r s : re_match r s = true ↔ matches r s.
Proof.
  revert r. induction s as [|c s IH]; intros r; simpl; [apply nullable_spec|]. rewrite IH. apply deriv_spec.
Qed.

(** ** Reading the derived forms *)
Lemma matches_class p s : matches (RClass p) s ↔ ∃ c, s = String c "" ∧ p c = true.
Proof. split; [intros H; inversion H; eauto|intros (c & -> & ?); by constructor]. Qed.

Lemma matches_seq a b s : matches (RSeq a b) s ↔ ∃ s1 s2, s = s1 +:+ s2 ∧ matches a s1 ∧ matches b s2.
Proof. split; [intros H; inversion H; eauto|intros (s1 & s2 & -> & ? & ?); by constructor]. Qed.

Lemma matches_alt a b s : matches (RAlt a b) s ↔ matches a s ∨ matches b s.
Proof. split; [intros H; inversion H; auto|intros [?|?]; [by apply M_alt_l|by apply M_alt_r]]. Qed.

Lemma matches_eps s : matches REps s ↔ s = "".
Proof. split; [intros H; by inversion H|intros ->; constructor]. Qed.

Fixpoint all_chars (p : ascii → bool) (s : string) : bool :=
  match s with "" => true | String c s' => p c && all_chars p s' end.

Lemma matches_star_class p s : matches (RStar (RClass p)) s ↔ all_chars p s = true.
Proof.
  induction s as [|c s IH]; simpl.
  - split; [done|]. constructor.
  - rewrite andb_true_iff. split.
    + intros (s1 & s2 & -> & H1 & H2)%star_cons_inv.
      apply matches_class in H1 as (c' & [= <- ->] & Hp). split; [done|]. by apply IH.
    + intros [Hp Hs]. change (String c s) with (String c "" +:+ s).
      constructor; [by constructor|by apply IH].
Qed.

Lemma matches_lit w s : matches (RLit w) s ↔ s = w.
Proof.
  revert s. induction w as [|c w IH]; intros s; simpl; [apply matches_eps|].
  rewrite matches_seq. split.
  - intros (s1 & s2 & -> & (c' & -> & Hc%bool_decide_eq_true)%matches_class & H2%IH). by subst.
  - intros ->. exists (String c ""), w. split; [done|]. split; [|by apply IH].
    apply matches_class. exists c. split; [done|]. by apply bool_decide_eq_true.
Qed.
