(* ===== verification/MountCfg.v ===== *)
(** * The guest mount config (internal/mountcfg)

    Strict decoding of the config document, the validation rules in their
    source order with one error constructor per typed error, and Load.
    [os.ReadFile]'s result and [url.ParseRequestURI]'s verdict are arguments. *)
From Stdlib Require Import Ascii String.
From stdpp Require Import base list strings numbers gmap.
From S2P Require Import Prelude GoErrors GoJson JsonText GoPath Regex.
Local Open Scope Z_scope.

(** ** Data *)
Record Mount := mkMount {
  m_Destination : string; m_AuthToken : string;
  m_FilesystemID : option string; m_MemoryStoreID : option string;
  m_Readonly : option bool; m_VfsCacheMode : string; m_CacheDurationS : option Z;
  m_VfsCacheMaxSize : string; m_DirPerms : string; m_FilePerms : string; m_VfsWriteBack : string }.

(** [c_Mounts] is [None] for a nil slice. *)
Record Config := mkConfig {
  c_SchemaVersion : string; c_ServiceURL : string; c_CACertPEM : string;
  c_Mounts : option (list Mount); c_BackendCacheTTL : option Z }.

Inductive CfgError : Type :=
| ErrRead (path : string) (e : error)
| ErrDecode
| ErrSchemaVersion (value : string)
| ErrServiceURL (value reason : string)
| ErrMissingField (field : string)
| ErrDestination (index : nat) (value : string)
| ErrAuthToken (index : nat)
| ErrMountScope (index : nat) (hasFilesystem hasMemory : bool)
| ErrScopeID (index : nat) (field : string)
| ErrReadonlyMissing (index : nat)
| ErrCacheDuration (index : nat) (missing : bool) (value : Z)
| ErrPerms (index : nat) (field value : string)
| ErrByteSize (index : nat) (value : string)
| ErrCacheMode (index : nat) (value : string).

(** ** Patterns *)
Definition digit : re := RRange "0" "9".

(** ^v[0-9]+(alpha|beta)?[0-9]*$ *)
Definition schemaVersionRe : re :=
  RSeq (RChar "v") (RSeq (RPlus digit) (RSeq (ROpt (RAlt (RLit "alpha") (RLit "beta"))) (RStar digit))).
(** ^/.+ : unanchored at the end *)
Definition destinationRe : re := RSeq (RChar "/") (RSeq (RPlus RDot) (RStar RAny)).
(** ^0[0-7]{3}$ *)
Definition octalRe : re := RSeq (RChar "0") (RRep 3 (RRange "0" "7")).
(** ^[0-9]+(B|K|M|G|T)?$ *)
Definition byteSizeRe : re :=
  RSeq (RPlus digit) (ROpt (RAlt (RChar "B") (RAlt (RChar "K") (RAlt (RChar "M") (RAlt (RChar "G") (RChar "T")))))).

Definition cacheModes : list string := ["off"; "minimal"; "writes"; "full"].

(** ** Strict decoding *)
Definition mount_fields : list string :=
  ["destination"; "auth_token"; "filesystem_id"; "memory_store_id"; "readonly"; "vfs_cache_mode";
   "cache_duration_s"; "vfs_cache_max_size"; "dir_perms"; "file_perms"; "vfs_write_back"].

Definition zero_Mount : Mount := mkMount "" "" None None None "" None "" "" "" "".

Definition set_Mount (f : string) (v : json) (t : Mount) : option Mount :=
  let '(mkMount d a fi me ro cm cd ms dp fp wb) := t in
  if decide (f = "destination") then (λ x, mkMount x a fi me ro cm cd ms dp fp wb) <$> dec_string v d
  else if decide (f = "auth_token") then (λ x, mkMount d x fi me ro cm cd ms dp fp wb) <$> dec_string v a
  else if decide (f = "filesystem_id") then (λ x, mkMount d a x me ro cm cd ms dp fp wb) <$> dec_ptr "" dec_string v fi
  else if decide (f = "memory_store_id") then (λ x, mkMount d a fi x ro cm cd ms dp fp wb) <$> dec_ptr "" dec_string v me
  else if decide (f = "readonly") then (λ x, mkMount d a fi me x cm cd ms dp fp wb) <$> dec_ptr false dec_bool v ro
  else if decide (f = "vfs_cache_mode") then (λ x, mkMount d a fi me ro x cd ms dp fp wb) <$> dec_string v cm
  else if decide (f = "cache_duration_s") then (λ x, mkMount d a fi me ro cm x ms dp fp wb) <$> dec_ptr 0 dec_int64 v cd
  else if decide (f = "vfs_cache_max_size") then (λ x, mkMount d a fi me ro cm cd x dp fp wb) <$> dec_string v ms
  else if decide (f = "dir_perms") then (λ x, mkMount d a fi me ro cm cd ms x fp wb) <$> dec_string v dp
  else if decide (f = "file_perms") then (λ x, mkMount d a fi me ro cm cd ms dp x wb) <$> dec_string v fp
  else (λ x, mkMount d a fi me ro cm cd ms dp fp x) <$> dec_string v wb.

Definition dec_Mount : json → Mount → option Mount := decode_struct mount_fields set_Mount true.

Definition config_fields : list string :=
  ["schema_version"; "service_url"; "ca_cert_pem"; "mounts"; "backend_cache_ttl"].

Definition zero_Config : Config := mkConfig "" "" "" None None.

Definition set_Config (f : string) (v : json) (t : Config) : option Config :=
  let '(mkConfig sv su ca ms ttl) := t in
  if decide (f = "schema_version") then (λ x, mkConfig x su ca ms ttl) <$> dec_string v sv
  else if decide (f = "service_url") then (λ x, mkConfig sv x ca ms ttl) <$> dec_string v su
  else if decide (f = "ca_cert_pem") then (λ x, mkConfig sv su x ms ttl) <$> dec_string v ca
  else if decide (f = "mounts") then (λ x, mkConfig sv su ca x ttl) <$> dec_slice zero_Mount dec_Mount v ms
  else (λ x, mkConfig sv su ca ms x) <$> dec_ptr 0 dec_int64 v ttl.

Definition dec_Config : json → Config → option Config := decode_struct config_fields set_Config true.

(** [dec.Decode(&cfg)]: the first JSON value of the file. *)
Definition decode_config (raw : string) : option Config :=
  match parse_first raw with
  | PDone j _ => dec_Config j zero_Config
  | _ => None
  end.

(** ** Validation *)
Section validate.
(** Whether [url.ParseRequestURI] accepts. *)
Variable ParseRequestURI_ok : string → bool.

Definition validateServiceURL (raw : string) : option CfgError :=
  if negb (HasPrefix raw "https://") then Some (ErrServiceURL raw "must begin https://")
  else if negb (ParseRequestURI_ok raw) then Some (ErrServiceURL raw "is not a parseable URI")
  else None.

Definition validateMount (i : nat) (m : Mount) : option CfgError :=
  if negb (re_match destinationRe (m_Destination m)) then Some (ErrDestination i (m_Destination m))
  else if decide (m_AuthToken m = "") then Some (ErrAuthToken i)
  else
    let hasFS := bool_decide (is_Some (m_FilesystemID m)) in
    let hasMem := bool_decide (is_Some (m_MemoryStoreID m)) in
    if Bool.eqb hasFS hasMem then Some (ErrMountScope i hasFS hasMem)
    else if decide (m_FilesystemID m = Some "") then Some (ErrScopeID i "filesystem_id")
    else if decide (m_MemoryStoreID m = Some "") then Some (ErrScopeID i "memory_store_id")
    else match m_Readonly m with
    | None => Some (ErrReadonlyMissing i)
    | Some _ =>
        match m_CacheDurationS m with
        | None => Some (ErrCacheDuration i true 0)
        | Some d =>
            if d <? 0 then Some (ErrCacheDuration i false d)
            else if negb (re_match octalRe (m_DirPerms m)) then Some (ErrPerms i "dir_perms" (m_DirPerms m))
            else if negb (re_match octalRe (m_FilePerms m)) then Some (ErrPerms i "file_perms" (m_FilePerms m))
            else if negb (re_match byteSizeRe (m_VfsCacheMaxSize m)) then Some (ErrByteSize i (m_VfsCacheMaxSize m))
            else if decide (m_VfsCacheMode m ∈ cacheModes) then None
            else Some (ErrCacheMode i (m_VfsCacheMode m))
        end
    end.

(** The range loop from index [i] on. *)
Fixpoint validate_from (i : nat) (mounts : list Mount) : option CfgError :=
  match mounts with
  | [] => None
  | m :: ms => match validateMount i m with
               | Some e => Some e
               | None => validate_from (S i) ms
               end
  end.

Definition validateMounts (mounts : list Mount) : option CfgError := validate_from 0 mounts.

Definition validate (cfg : Config) : option CfgError :=
  if negb (re_match schemaVersionRe (c_SchemaVersion cfg)) then Some (ErrSchemaVersion (c_SchemaVersion cfg))
  else match validateServiceURL (c_ServiceURL cfg) with
  | Some e => Some e
  | None =>
      if decide (c_CACertPEM cfg = "") then Some (ErrMissingField "ca_cert_pem")
      else match c_Mounts cfg with
      | None => Some (ErrMissingField "mounts")
      | Some ms => validateMounts ms
      end
  end.

(** [file] is what [os.ReadFile(path)] returns. *)
Definition Load (path : string) (file : result error string) : result CfgError Config :=
  match file with
  | Err e => Err (ErrRead path e)
  | Ok raw =>
      match decode_config raw with
      | None => Err ErrDecode
      | Some cfg => match validate cfg with
                    | Some e => Err e
                    | None => Ok cfg
                    end
      end
  end.
End validate.

(** ** What the patterns accept *)
Definition is_digit_char (c : ascii) : bool := (48 <=? N_of_ascii c)%N && (N_of_ascii c <=? 57)%N.
Definition is_octal_char (c : ascii) : bool := (48 <=? N_of_ascii c)%N && (N_of_ascii c <=? 55)%N.

Definition digits (s : string) : Prop := all_chars is_digit_char s = true.

Definition octal_perm (s : string) : Prop :=
  ∃ a b c, s = String "0" (String a (String b (String c ""))) ∧
    is_octal_char a = true ∧ is_octal_char b = true ∧ is_octal_char c = true.

Definition byte_size (s : string) : Prop :=
  ∃ n suffix, s = n +:+ suffix ∧ n ≠ "" ∧ digits n ∧ suffix ∈ [""; "B"; "K"; "M"; "G"; "T"].

Definition schema_version (s : string) : Prop :=
  ∃ major stage minor, s = String "v" (major +:+ stage +:+ minor) ∧ major ≠ "" ∧
    digits major ∧ stage ∈ [""; "alpha"; "beta"] ∧ digits minor.

(** Absolute, with a first character after the slash that is not a newline. *)
Definition destination (s : string) : Prop :=
  ∃ c rest, s = String "/" (String c rest) ∧ c ≠ "010"%char.

Lemma matches_char c s : matches (RChar c) s ↔ s = String c "".
Proof.
  unfold RChar. rewrite matches_class. split.
  - by intros (c' & -> & ->%bool_decide_eq_true).
  - intros ->. exists c. split; [done|]. by apply bool_decide_eq_true.
Qed.

Lemma matches_char_seq c r s : matches (RSeq (RChar c) r) s ↔ ∃ t, s = String c t ∧ matches r t.
Proof.
  rewrite matches_seq. split.
  - intros (s1 & s2 & -> & ->%matches_char & ?). eauto.
  - intros (t & -> & ?). exists (String c ""), t. rewrite matches_char. done.
Qed.

Lemma matches_class_seq p r s : matches (RSeq (RClass p) r) s ↔ ∃ c t, s = String c t ∧ p c = true ∧ matches r t.
Proof.
  rewrite matches_seq. split.
  - intros (s1 & s2 & -> & (c & -> & Hc)%matches_class & ?). eexists c, s2. done.
  - intros (c & t & -> & ? & ?). exists (String c ""), t. rewrite matches_class. eauto.
Qed.

Lemma matches_plus_digit s : matches (RPlus digit) s ↔ s ≠ "" ∧ digits s.
Proof.
  unfold RPlus, digit, RRange. rewrite matches_class_seq. split.
  - intros (c & t & -> & Hc & Ht%matches_star_class). split; [done|]. unfold digits. simpl.
    apply andb_true_iff. done.
  - intros [Hne Hd]. destruct s as [|c t]; [done|]. unfold digits in Hd. simpl in Hd.
    apply andb_true_iff in Hd as [??]. exists c, t. split; [done|]. split; [done|]. by apply matches_star_class.
Qed.

Lemma octalRe_spec s : re_match octalRe s = true ↔ octal_perm s.
Proof.
  rewrite re_match_spec. unfold octalRe, octal_perm. simpl RRep. unfold RRange. rewrite matches_char_seq. split.
  - intros (? & -> & (a & ? & -> & Ha & (b & ? & -> & Hb & (c & ? & -> & Hc & ->%matches_eps)%matches_class_seq)%matches_class_seq)%matches_class_seq).
    exists a, b, c. done.
  - intros (a & b & c & -> & Ha & Hb & Hc). eexists. split; [done|].
    apply matches_class_seq. eexists _, _. split; [done|]. split; [done|].
    apply matches_class_seq. eexists _, _. split; [done|]. split; [done|].
    apply matches_class_seq. eexists _, _. split; [done|]. split; [done|]. by apply matches_eps.
Qed.

Lemma byteSizeRe_spec s : re_match byteSizeRe s = true ↔ byte_size s.
Proof.
  rewrite re_match_spec. unfold byteSizeRe, byte_size, ROpt. rewrite matches_seq.
  setoid_rewrite matches_plus_digit. setoid_rewrite matches_alt. setoid_rewrite matches_alt. 
  setoid_rewrite matches_alt. setoid_rewrite matches_alt. setoid_rewrite matches_alt.
  setoid_rewrite matches_char. setoid_rewrite matches_eps. set_solver.
Qed.

Lemma schemaVersionRe_spec s : re_match schemaVersionRe s = true ↔ schema_version s.
Proof.
  rewrite re_match_spec. unfold schemaVersionRe, schema_version, ROpt, digit, RRange. rewrite matches_char_seq. split.
  - intros (? & -> & (ma & ? & -> & [Hne Hma]%matches_plus_digit & (st & mi & -> & Hst & Hmi%matches_star_class)%matches_seq)%matches_seq).
    exists ma, st, mi. split; [done|]. split; [done|]. split; [done|]. split; [|done].
    rewrite !matches_alt, !matches_lit, matches_eps in Hst. set_solver.
  - intros (ma & st & mi & -> & Hne & Hma & Hst & Hmi). eexists. split; [done|].
    apply matches_seq. eexists _, _. split; [done|]. split; [by apply matches_plus_digit|].
    apply matches_seq. eexists _, _. split; [done|]. split; [|by apply matches_star_class].
    rewrite !matches_alt, !matches_lit, matches_eps. set_solver.
Qed.

Lemma destinationRe_spec s : re_match destinationRe s = true ↔ destination s.
Proof.
  rewrite re_match_spec. unfold destinationRe, destination, RPlus, RDot, RAny. rewrite matches_char_seq. split.
  - intros (? & -> & (s1 & s2 & -> & (c & t & -> & Hc & _)%matches_class_seq & _)%matches_seq).
    exists c, (t +:+ s2). split; [done|]. by apply negb_true_iff, bool_decide_eq_false in Hc.
  - intros (c & rest & -> & Hc). eexists. split; [done|].
    apply matches_seq. exists (String c ""), rest. split; [done|]. split.
    + apply matches_class_seq. exists c, "". split; [done|]. split; [by apply negb_true_iff, bool_decide_eq_false_2|].
      constructor.
    + apply matches_star_class. clear. induction rest; simpl; done.
Qed.

(** ** The accepted configs *)
Definition scope_ok (m : Mount) : Prop :=
  (∃ id, id ≠ "" ∧ m_FilesystemID m = Some id ∧ m_MemoryStoreID m = None) ∨
  (∃ id, id ≠ "" ∧ m_FilesystemID m = None ∧ m_MemoryStoreID m = Some id).

Definition valid_mount (m : Mount) : Prop :=
  destination (m_Destination m) ∧ m_AuthToken m ≠ "" ∧ scope_ok m ∧ is_Some (m_Readonly m) ∧
  (∃ d, m_CacheDurationS m = Some d ∧ 0 <= d) ∧ octal_perm (m_DirPerms m) ∧ octal_perm (m_FilePerms m) ∧
  byte_size (m_VfsCacheMaxSize m) ∧ m_VfsCacheMode m ∈ cacheModes.

Definition valid_config (uri_ok : string → bool) (cfg : Config) : Prop :=
  schema_version (c_SchemaVersion cfg) ∧
  (∃ rest, c_ServiceURL cfg = "https://" +:+ rest) ∧ uri_ok (c_ServiceURL cfg) = true ∧
  c_CACertPEM cfg ≠ "" ∧ ∃ ms, c_Mounts cfg = Some ms ∧ Forall valid_mount ms.

Lemma scope_check m :
  scope_ok m ↔
  Bool.eqb (bool_decide (is_Some (m_FilesystemID m))) (bool_decide (is_Some (m_MemoryStoreID m))) = false ∧
  m_FilesystemID m ≠ Some "" ∧ m_MemoryStoreID m ≠ Some "".
Proof.
  unfold scope_ok. destruct (m_FilesystemID m) as [x|], (m_MemoryStoreID m) as [y|];
    repeat case_bool_decide; simpl; naive_solver.
Qed.

Lemma validateMount_None i m : validateMount i m = None ↔ valid_mount m.
Proof.
  unfold validateMount, valid_mount. rewrite scope_check.
  rewrite <-destinationRe_spec, <-!octalRe_spec, <-byteSizeRe_spec.
  destruct (re_match destinationRe _); simpl; [|naive_solver].
  case_decide; [naive_solver|].
  destruct (Bool.eqb _ _); [naive_solver|].
  case_decide; [naive_solver|]. case_decide; [naive_solver|].
  destruct (m_Readonly m); [|split; [done|]; by intros (_&_&_&[? ?]&_)].
  destruct (m_CacheDurationS m) as [d|]; [|split; [done|]; by intros (_&_&_&_&(? & ? & _)&_)].
  destruct (Z.ltb_spec d 0); [split; [done|]; intros (_&_&_&_&(? & [= <-] & ?)&_); lia|].
  destruct (re_match octalRe (m_DirPerms m)); simpl; [|naive_solver].
  destruct (re_match octalRe (m_FilePerms m)); simpl; [|naive_solver].
  destruct (re_match byteSizeRe _); simpl; [|naive_solver].
  case_decide; naive_solver.
Qed.

Lemma validate_from_None i ms : validate_from i ms = None ↔ Forall valid_mount ms.
Proof.
  revert i. induction ms as [|m ms IH]; intros i; simpl; [done|].
  rewrite Forall_cons, <-(validateMount_None i), <-(IH (S i)).
  destruct (validateMount i m); naive_solver.
Qed.

Lemma validateServiceURL_None uri_ok raw :
  validateServiceURL uri_ok raw = None ↔ (∃ rest, raw = "https://" +:+ rest) ∧ uri_ok raw = true.
Proof.
  unfold validateServiceURL. rewrite <-HasPrefix_spec.
  destruct (HasPrefix raw "https://"); simpl; [|naive_solver]. destruct (uri_ok raw); simpl; naive_solver.
Qed.

Lemma validate_None uri_ok cfg : validate uri_ok cfg = None ↔ valid_config uri_ok cfg.
Proof.
  unfold validate, valid_config. rewrite <-schemaVersionRe_spec.
  destruct (re_match schemaVersionRe _); simpl; [|naive_solver].
  pose proof (validateServiceURL_None uri_ok (c_ServiceURL cfg)) as Hurl.
  destruct (validateServiceURL uri_ok (c_ServiceURL cfg)); [naive_solver|].
  destruct (proj1 Hurl eq_refl) as [? ?].
  case_decide; [naive_solver|].
  destruct (c_Mounts cfg) as [ms|]; [|naive_solver].
  unfold validateMounts. rewrite validate_from_None. naive_solver.
Qed.

(** C19: the loader accepts exactly the documented config shape: Load
    succeeds with a config precisely when the file decodes strictly to it and
    it has a versioned schema, an https service URL, a CA certificate, a
    present mounts array, and in every mount an absolute destination, a
    non-empty token, exactly one non-empty scope id, an explicit readonly flag,
    a non-negative cache duration, octal permissions, a byte size and a known
    cache mode. *)
Theorem Load_accepts_valid (uri_ok : string → bool) (path raw : string) (cfg : Config) :
  Load uri_ok path (Ok raw) = Ok cfg ↔ decode_config raw = Some cfg ∧ valid_config uri_ok cfg.
Proof.
  unfold Load. pose proof (validate_None uri_ok cfg) as Hv.
  destruct (decode_config raw) as [cfg'|]; [|naive_solver].
  split.
  - destruct (validate uri_ok cfg') eqn:E; [done|]. intros [= ->]. naive_solver.
  - intros [[= ->] H%Hv]. by rewrite H.
Qed.

(** ** Errors *)
Lemma validate_from_first i ms e :
  validate_from i ms = Some e →
  ∃ k m, ms !! k = Some m ∧ validateMount (i + k) m = Some e ∧ Forall valid_mount (take k ms).
Proof.
  revert i. induction ms as [|m ms IH]; intros i; simpl; [done|].
  destruct (validateMount i m) as [e'|] eqn:E.
  - intros [= ->]. exists O, m. rewrite Nat.add_0_r. split; [done|]. split; [done|constructor].
  - intros (k & m' & Hk & He & Hall)%IH. exists (S k), m'. split; [done|].
    rewrite Nat.add_succ_r. split; [done|]. simpl. constructor; [by apply (validateMount_None i)|done].
Qed.

(** The rule an error constructor reports, on the mount it names. *)
Definition breaks_rule (i : nat) (m : Mount) (e : CfgError) : Prop :=
  match e with
  | ErrDestination j v => j = i ∧ v = m_Destination m ∧ ¬ destination v
  | ErrAuthToken j => j = i ∧ m_AuthToken m = ""
  | ErrMountScope j a b => j = i ∧ a = b ∧ (a = true ↔ is_Some (m_FilesystemID m)) ∧ (b = true ↔ is_Some (m_MemoryStoreID m))
  | ErrScopeID j f => j = i ∧ ((f = "filesystem_id" ∧ m_FilesystemID m = Some "") ∨
                               (f = "memory_store_id" ∧ m_MemoryStoreID m = Some ""))
  | ErrReadonlyMissing j => j = i ∧ m_Readonly m = None
  | ErrCacheDuration j missing v => j = i ∧ if missing then m_CacheDurationS m = None
                                            else m_CacheDurationS m = Some v ∧ v < 0
  | ErrPerms j f v => j = i ∧ ¬ octal_perm v ∧
                      ((f = "dir_perms" ∧ v = m_DirPerms m) ∨ (f = "file_perms" ∧ v = m_FilePerms m))
  | ErrByteSize j v => j = i ∧ v = m_VfsCacheMaxSize m ∧ ¬ byte_size v
  | ErrCacheMode j v => j = i ∧ v = m_VfsCacheMode m ∧ v ∉ cacheModes
  | _ => False
  end.

Lemma validateMount_breaks i m e : validateMount i m = Some e → breaks_rule i m e.
Proof.
  unfold validateMount. 
  destruct (re_match destinationRe _) eqn:E1; simpl.
  2: { intros [= <-]. simpl. rewrite <-destinationRe_spec. by rewrite E1. }
  case_decide; [intros [= <-]; done|].
  destruct (Bool.eqb _ _) eqn:E2.
  { intros [= <-]. apply Bool.eqb_prop in E2. simpl. rewrite !bool_decide_eq_true. done. }
  case_decide; [intros [= <-]; simpl; auto|]. case_decide; [intros [= <-]; simpl; auto|].
  destruct (m_Readonly m) eqn:Er; [|intros [= <-]; done].
  destruct (m_CacheDurationS m) as [d|] eqn:Ed; [|intros [= <-]; done].
  destruct (Z.ltb_spec d 0); [intros [= <-]; done|].
  destruct (re_match octalRe (m_DirPerms m)) eqn:E3; simpl.
  2: { intros [= <-]. simpl. rewrite <-octalRe_spec. rewrite E3. auto. }
  destruct (re_match octalRe (m_FilePerms m)) eqn:E4; simpl.
  2: { intros [= <-]. simpl. rewrite <-octalRe_spec. rewrite E4. auto. }
  destruct (re_match byteSizeRe _) eqn:E5; simpl.
  2: { intros [= <-]. simpl. rewrite <-byteSizeRe_spec. by rewrite E5. }
  case_decide; [done|]. by intros [= <-].
Qed.

(** A rejected mounts array is reported precisely: the error names the
    first offending mount by its index, every mount before it is valid, and
    the mount really breaks the rule the error's type stands for, with the
    offending value in it. *)
Theorem validateMounts_first_error (ms : list Mount) (e : CfgError) (He : validateMounts ms = Some e) :
  ∃ i m, ms !! i = Some m ∧ Forall valid_mount (take i ms) ∧ breaks_rule i m e.
Proof.
  apply validate_from_first in He as (k & m & Hk & He & Hall).
  exists k, m. split; [done|]. split; [done|]. by apply validateMount_breaks.
Qed.

Definition demo_mount : Mount :=
  mkMount "/mnt/outputs" "tok" (Some "fs-1") None (Some false) "full" (Some 3) "512M" "0755" "0644" "1s".

Lemma validateMounts_first_error_witness :
  validateMounts [demo_mount; mkMount "/b" "tok" (Some "fs-1") None (Some true) "full" (Some 0) "1G" "0955" "0644" ""]
    = Some (ErrPerms 1 "dir_perms" "0955") ∧
  ∃ i m, [demo_mount; mkMount "/b" "tok" (Some "fs-1") None (Some true) "full" (Some 0) "1G" "0955" "0644" ""] !! i = Some m ∧
    Forall valid_mount (take i [demo_mount; mkMount "/b" "tok" (Some "fs-1") None (Some true) "full" (Some 0) "1G" "0955" "0644" ""]) ∧
    breaks_rule i m (ErrPerms 1 "dir_perms" "0955").
Proof.
  split; [reflexivity|]. apply validateMounts_first_error. reflexivity.
Defined.

(** ** Strictness *)
Lemma decode_members_unknown {T} fields (set : string → json → T → option T) kvs t k v :
  (k, v) ∈ kvs → match_field fields k = None → decode_members fields set true kvs t = None.
Proof.
  intros Hin Hk. revert t. induction kvs as [|[k' v'] kvs IH]; [by apply elem_of_nil in Hin|].
  intros t. simpl. apply elem_of_cons in Hin as [[= <- <-]|Hin].
  - by rewrite Hk.
  - destruct (match_field fields k'); [|done]. destruct (set _ _ _); [|done]. by apply IH.
Qed.

Lemma dec_all_bad {A} zero (dec : json → A → option A) vs old v :
  v ∈ vs → (∀ a, dec v a = None) → dec_all zero dec vs old = None.
Proof.
  intros Hin Hv. revert old. induction vs as [|v' vs IH]; [by apply elem_of_nil in Hin|].
  intros old. simpl. apply elem_of_cons in Hin as [<-|Hin]; [by rewrite Hv|].
  destruct (dec v' _); [|done]. by rewrite IH.
Qed.

Lemma decode_members_bad {T} fields (set : string → json → T → option T) kvs t k f v :
  (k, v) ∈ kvs → match_field fields k = Some f → (∀ t, set f v t = None) → decode_members fields set true kvs t = None.
Proof.
  intros Hin Hk Hbad. revert t. induction kvs as [|[k' v'] kvs IH]; [by apply elem_of_nil in Hin|].
  intros t. simpl. apply elem_of_cons in Hin as [[= <- <-]|Hin].
  - by rewrite Hk, Hbad.
  - destruct (match_field fields k'); [|done]. destruct (set _ _ _); [|done]. by apply IH.
Qed.

(** Unknown keys are fatal wherever they are: a document with a member
    that names no config field (case folding as Go's), or whose mounts array
    holds an object with a member that names no mount field, is a decode
    error, whatever the other members hold. *)
Theorem Load_refuses_unknown (uri_ok : string → bool) (path raw rest : string) (kvs : list (string * json))
    (Hraw : parse_first raw = PDone (JObj kvs) rest)
    (Hunknown : (∃ k v, (k, v) ∈ kvs ∧ match_field config_fields k = None) ∨
                (∃ k vs mkvs mk mv, (k, JArr vs) ∈ kvs ∧ match_field config_fields k = Some "mounts" ∧
                   JObj mkvs ∈ vs ∧ (mk, mv) ∈ mkvs ∧ match_field mount_fields mk = None)) :
  Load uri_ok path (Ok raw) = Err ErrDecode.
Proof.
  unfold Load, decode_config, dec_Config. rewrite Hraw. simpl.
  replace (decode_members config_fields set_Config true kvs zero_Config) with (@None Config); [done|]. symmetry.
  destruct Hunknown as [(k & v & Hin & Hk)|(k & vs & mkvs & mk & mv & Hin & Hk & Hm & Hmk & Hf)].
  - by eapply decode_members_unknown.
  - eapply decode_members_bad; [exact Hin|exact Hk|]. intros [sv su ca ms ttl]. simpl.
    rewrite (dec_all_bad _ _ _ _ _ Hm); [done|]. intros a. simpl. by eapply decode_members_unknown.
Qed.

Lemma Load_refuses_unknown_witness :
  Load (λ _, true) "c.json" (Ok (sq "{'schema_version':'v1','mounts':[{'destination':'/a','uid':0}]}")) = Err ErrDecode.
Proof.
  apply (Load_refuses_unknown (λ _, true) "c.json" _ ""
    [("schema_version", JStr "v1"); ("mounts", JArr [JObj [("destination", JStr "/a"); ("uid", JNum 0)]])]).
  - vm_compute. reflexivity.
  - right. exists "mounts", [JObj [("destination", JStr "/a"); ("uid", JNum 0)]], [("destination", JStr "/a"); ("uid", JNum 0)], "uid", (JNum 0).
    split; [right; left|]. split; [reflexivity|]. split; [left|]. split; [right; left|]. reflexivity.
Defined.

(** ** Round trip *)
Definition enc_opt {A} (k : string) (enc : A → json) (v : option A) : list (string * json) :=
  match v with Some a => [(k, enc a)] | None => [] end.

(** [json.Marshal] of the two structs, by their tags. *)
Definition enc_Mount (m : Mount) : json :=
  JObj ([("destination", JStr (m_Destination m)); ("auth_token", JStr (m_AuthToken m))]
        ++ enc_opt "filesystem_id" JStr (m_FilesystemID m) ++ enc_opt "memory_store_id" JStr (m_MemoryStoreID m)
        ++ enc_opt "readonly" JBool (m_Readonly m) ++ [("vfs_cache_mode", JStr (m_VfsCacheMode m))]
        ++ enc_opt "cache_duration_s" JNum (m_CacheDurationS m)
        ++ [("vfs_cache_max_size", JStr (m_VfsCacheMaxSize m)); ("dir_perms", JStr (m_DirPerms m));
            ("file_perms", JStr (m_FilePerms m))]
        ++ omit (bool_decide (m_VfsWriteBack m = "")) "vfs_write_back" (JStr (m_VfsWriteBack m))).

Definition enc_Config (c : Config) : json :=
  JObj ([("schema_version", JStr (c_SchemaVersion c)); ("service_url", JStr (c_ServiceURL c));
         ("ca_cert_pem", JStr (c_CACertPEM c));
         ("mounts", match c_Mounts c with Some ms => JArr (map enc_Mount ms) | None => JNull end)]
        ++ enc_opt "backend_cache_ttl" JNum (c_BackendCacheTTL c)).

Definition opt_in_int64 (o : option Z) : Prop := match o with Some z => in_int64 z | None => True end.

Lemma dec_int64_ok z old : in_int64 z → dec_int64 (JNum z) old = Some z.
Proof. intros H. simpl. by rewrite bool_decide_eq_true_2. Qed.

Lemma dec_enc_Mount m : opt_in_int64 (m_CacheDurationS m) → dec_Mount (enc_Mount m) zero_Mount = Some m.
Proof.
  destruct m as [d a fi me ro cm cd ms dp fp wb]. unfold opt_in_int64, dec_Mount, enc_Mount, omit. simpl. intros Hcd.
  destruct fi, me, ro, cd as [z|]; simpl; rewrite ?(bool_decide_eq_true_2 (int64_min <= z <= int64_max)) by done; simpl;
    destruct (bool_decide_reflect (wb = "")); simpl; by subst.
Qed.

Lemma dec_all_map {A} zero (dec : json → A → option A) (enc : A → json) l :
  Forall (λ a, dec (enc a) zero = Some a) l → dec_all zero dec (map enc l) [] = Some l.
Proof. induction 1 as [|a l Ha _ IH]; simpl; [done|]. by rewrite Ha, IH. Qed.

Lemma dec_enc_Config (c : Config) :
  opt_in_int64 (c_BackendCacheTTL c) →
  Forall (λ m, opt_in_int64 (m_CacheDurationS m)) (default [] (c_Mounts c)) →
  dec_Config (enc_Config c) zero_Config = Some c.
Proof.
  intros Httl Hms.
  assert (∀ ms, c_Mounts c = Some ms → dec_all zero_Mount dec_Mount (map enc_Mount ms) [] = Some ms) as Hall.
  { intros ms Hm. apply dec_all_map. rewrite Hm in Hms. eapply Forall_impl; [exact Hms|]. apply dec_enc_Mount. }
  destruct c as [sv su ca ms ttl]. unfold dec_Config, enc_Config. simpl in *.
  destruct ms as [ms|]; simpl; [rewrite (Hall ms) by done; simpl|];
    (destruct ttl; simpl; [by rewrite bool_decide_eq_true_2|done]).
Qed.

(** What json.Marshal represents faithfully: strings in UTF-8 and ints. *)
Definition mount_text (m : Mount) : Prop :=
  Forall valid_utf8 ([m_Destination m; m_AuthToken m; m_VfsCacheMode m; m_VfsCacheMaxSize m; m_DirPerms m;
                      m_FilePerms m; m_VfsWriteBack m] ++ option_list (m_FilesystemID m) ++ option_list (m_MemoryStoreID m)) ∧
  opt_in_int64 (m_CacheDurationS m).

Definition config_text (c : Config) : Prop :=
  Forall valid_utf8 [c_SchemaVersion c; c_ServiceURL c; c_CACertPEM c] ∧
  Forall mount_text (default [] (c_Mounts c)) ∧ opt_in_int64 (c_BackendCacheTTL c).

Lemma mount_clean m : mount_text m → clean_json (enc_Mount m).
Proof.
  intros [Hs _]. unfold enc_Mount. rewrite clean_obj.
  destruct m as [d a fi me ro cm cd ms dp fp wb]. unfold omit. simpl in *.
  rewrite !Forall_cons in Hs. destruct Hs as (? & ? & ? & ? & ? & ? & ? & Hs%Forall_app). destruct Hs as [Hfi Hme].
  destruct fi, me, ro, cd; simpl; case_bool_decide; simpl in *;
    rewrite ?Forall_singleton in Hfi; rewrite ?Forall_singleton in Hme;
    repeat apply Forall_cons_2; try apply Forall_nil_2; by split.
Qed.

Lemma config_clean c : config_text c → clean_json (enc_Config c).
Proof.
  intros (Hs & Hms & _). unfold enc_Config. rewrite clean_obj.
  destruct c as [sv su ca ms ttl]. simpl in *. rewrite !Forall_cons in Hs. destruct Hs as (? & ? & ? & _).
  assert (clean_json (match ms with Some ms => JArr (map enc_Mount ms) | None => JNull end)).
  { destruct ms as [ms|]; [|done]. rewrite clean_arr. simpl in Hms. apply Forall_map.
    eapply Forall_impl; [exact Hms|]. apply mount_clean. }
  destruct ttl; simpl; repeat apply Forall_cons_2; try apply Forall_nil_2; by split.
Qed.

(** C39: the loader reads back what json.Marshal writes, and only that.  On
    the text of any config whose strings are UTF-8, followed by anything at
    all, Load's verdict is the validation of that very config: a valid config
    comes back unchanged, field for field (an absent optional field stays
    absent, a nil mounts slice stays nil), an invalid one is refused with its
    first error, and no text behind the document can change either. *)
Theorem Load_roundtrip (uri_ok : string → bool) (path tail : string) (c : Config) (Hc : config_text c) :
  Load uri_ok path (Ok (print_json (enc_Config c) +:+ tail)) =
    match validate uri_ok c with None => Ok c | Some e => Err e end.
Proof.
  unfold Load, decode_config. rewrite parse_print by (done || by apply config_clean).
  destruct Hc as (_ & Hms & Httl). rewrite dec_enc_Config; [done|done|].
  eapply Forall_impl; [exact Hms|]. by intros m [_ ?].
Qed.

Definition demo_config : Config := mkConfig "v1" "https://edge:8443" "PEM" (Some [demo_mount]) (Some 60).

Lemma Load_roundtrip_witness :
  Load (λ _, true) "c.json" (Ok (print_json (enc_Config demo_config) +:+ sq " {'uid':0} not json")) = Ok demo_config.
Proof.
  rewrite Load_roundtrip; [vm_compute; reflexivity|].
  split; [|split].
  - repeat constructor.
  - repeat constructor; unfold opt_in_int64, in_int64, int64_min, int64_max; simpl; lia.
  - unfold opt_in_int64, in_int64, int64_min, int64_max; simpl; lia.
Defined.
