(* ===== verification/Orchestrator.v ===== *)
(** * The mount orchestrator (internal/mounter/orchestrator.go)

    [buildSpecs], the fan-out, readiness and teardown of [run], over the class
    [OrchEnv]: the pointMounter seam, the signal channel, the ready-file and the
    select of blockUntilTeardown.  Goroutine interleaving in [unmountAll] is the
    order [oe_schedule] picks. *)
From Stdlib Require Import Ascii String.
From stdpp Require Import base list strings numbers gmap.
From S2P Require Import Prelude GoErrors GoPath Regex MountCfg.

(** ** Specs *)
Record mountSpec := mkSpec {
  sp_mount : Mount; sp_readOnly : bool; sp_serviceURL : string; sp_caCertPEM : string }.

(** What [run] reads of the orchestrator struct. *)
Record orchestrator := mkOrch {
  o_ReadyFilePath : string; o_serviceURL : string; o_caCertPEM : string }.

Definition err_memory (m : Mount) : error :=
  EErrorf "mount %q: memory-store mounts are not yet supported (no memory scope axis)" [AStr (m_Destination m)] [].
Definition err_duplicate (m : Mount) : error :=
  EErrorf "mount %q: duplicate destination across mounts (a second mount would silently shadow the first)" [AStr (m_Destination m)] [].
Definition err_nested (m : Mount) (prior : string) : error :=
  EErrorf "mount %q: destination is nested with %q (the later mount's pre-mount inspection would traverse the earlier live mount)" [AStr (m_Destination m); AStr prior] [].

(** The nesting test against one prior destination. *)
Definition nested (cleaned prior : string) : bool :=
  HasPrefix cleaned (prior +:+ "/") || HasPrefix prior (cleaned +:+ "/").

(** [seen] holds the cleaned destinations so far; the source iterates it as a
    map, here in insertion order. *)
Fixpoint build_specs (o : orchestrator) (seen : list string) (ms : list Mount) : result error (list mountSpec) :=
  match ms with
  | [] => Ok []
  | m :: ms' =>
      let readOnly := match m_Readonly m with Some b => b | None => false end in
      match m_MemoryStoreID m with
      | Some _ => Err (err_memory m)
      | None =>
          let cleaned := Clean (m_Destination m) in
          if decide (cleaned ∈ seen) then Err (err_duplicate m)
          else match List.find (nested cleaned) seen with
          | Some prior => Err (err_nested m prior)
          | None =>
              match build_specs o (seen ++ [cleaned]) ms' with
              | Ok specs => Ok (mkSpec m readOnly (o_serviceURL o) (o_caCertPEM o) :: specs)
              | Err e => Err e
              end
          end
      end
  end.

Definition buildSpecs (o : orchestrator) (cfg : Config) : result error (list mountSpec) :=
  build_specs o [] (default [] (c_Mounts cfg)).

(** ** The environment *)

(** A started point: its identity (the pointer) and destination. *)
Record point := mkPoint { p_id : nat; p_destination : string }.

#[export] Instance point_eq_dec : EqDecision point.
Proof. solve_decision. Defined.

Inductive remove_result : Type := Removed | NotExist | RemoveErr (e : error).

(** Creating the ready-file: done, refused at open, or failing at close. *)
Inductive create_result : Type := Created | OpenErr (e : error) | CloseErr (e : error).

(** What the select of blockUntilTeardown received: a signal, or the terminal
    error of the [i]-th started point. *)
Inductive select_outcome : Type :=
| Signalled
| PointExited (i : nat) (err : option error).

Class OrchEnv (W : Type) := {
  oe_mountAndWaitReady : mountSpec → W → result error point * W;
  oe_unmount : point → W → option error * W;
  oe_signalPending : W → bool * W;
  oe_os_Remove : string → W → remove_result * W;
  oe_createReady : string → W → create_result * W;
  oe_select : list point → W → select_outcome * W;
  oe_schedule : nat → W → list nat }.

Section run.
Context `{OE : OrchEnv W}.
(** The production seam constructor: [Some] is its error. *)
Variable newSeam : option error.

(** One goroutine of unmountAll: unmount point [i], store the error at
    index [i]. *)
Definition unmount_one (points : list point) (acc : list (option error) * W) (i : nat) : list (option error) * W :=
  match points !! i with
  | None => acc
  | Some p =>
      let '(err, w') := oe_unmount p acc.2 in
      match err with
      | Some e => (<[i := Some (EErrorf "unmount %q: %w" [AStr (p_destination p)] [e])]> acc.1, w')
      | None => (acc.1, w')
      end
  end.

Definition unmountAll (points : list point) (w : W) : list error * W :=
  let '(collected, w') :=
    foldl (unmount_one points) (replicate (length points) None, w) (oe_schedule (length points) w) in
  (omap id collected, w').

Definition shutdownDuringStartup (started : list point) (w : W) : option error * W :=
  let '(errs, w') := unmountAll started w in (errors_Join errs, w').

Definition signalReady (o : orchestrator) (w : W) : option error * W :=
  if decide (o_ReadyFilePath o = "") then (None, w)
  else
    let '(r, w') := oe_createReady (o_ReadyFilePath o) w in
    match r with
    | OpenErr e => (Some (EErrorf "create ready-file %q: %w" [AStr (o_ReadyFilePath o)] [e]), w')
    | CloseErr e => (Some e, w')
    | Created => (None, w')
    end.

Definition blockUntilTeardown (started : list point) (w : W) : option error * W :=
  match oe_select started w with
  | (Signalled, w1) => let '(errs, w2) := unmountAll started w1 in (errors_Join errs, w2)
  | (PointExited i err, w1) =>
      match started !! i with
      | None => (None, w1)  (* the select only returns its own cases *)
      | Some exited =>
          let remaining := filter (λ p, p ≠ exited) started in
          let '(errs, w2) := unmountAll remaining w1 in
          match err with
          | None => (errors_Join errs, w2)
          | Some e => (errors_Join (EErrorf "mount %q exited: %w" [AStr (p_destination exited)] [e] :: errs), w2)
          end
      end
  end.

(** How the sequential fan-out ends. *)
Inductive fanout : Type :=
| AllUp (started : list point)
| Interrupted (started : list point)
| StartFailed (started : list point) (dest : string) (e : error).

Fixpoint start_all (specs : list mountSpec) (started : list point) (w : W) : fanout * W :=
  match specs with
  | [] => (AllUp started, w)
  | spec :: specs' =>
      let '(sig, w1) := oe_signalPending w in
      if sig : bool then (Interrupted started, w1)
      else
        let '(r, w2) := oe_mountAndWaitReady spec w1 in
        match r with
        | Err e => (StartFailed started (m_Destination (sp_mount spec)) e, w2)
        | Ok p => start_all specs' (started ++ [p]) w2
        end
  end.

(** The part of run covered by the deferred ready-file retraction. *)
Definition run_body (o : orchestrator) (cfg : Config) (w : W) : option error * W :=
  match buildSpecs o cfg with
  | Err e => (Some e, w)
  | Ok [] => (None, w)
  | Ok specs =>
      let '(f, w1) := start_all specs [] w in
      match f with
      | Interrupted started => shutdownDuringStartup started w1
      | StartFailed started dest e =>
          let '(errs, w2) := unmountAll started w1 in
          (errors_Join (EErrorf "mount %q: %w" [AStr dest] [e] :: errs), w2)
      | AllUp started =>
          let '(sig, w2) := oe_signalPending w1 in
          if sig : bool then shutdownDuringStartup started w2
          else
            let '(err, w3) := signalReady o w2 in
            match err with
            | Some e => let '(errs, w4) := unmountAll started w3 in (errors_Join (e :: errs), w4)
            | None => blockUntilTeardown started w3
            end
      end
  end.

Definition run (o : orchestrator) (cfg : Config) (w : W) : option error * W :=
  match newSeam with
  | Some e => (Some e, w)
  | None =>
      if decide (o_ReadyFilePath o = "") then run_body o cfg w
      else
        let '(r, w1) := oe_os_Remove (o_ReadyFilePath o) w in
        match r with
        | RemoveErr e => (Some (EErrorf "remove stale ready-file %q: %w" [AStr (o_ReadyFilePath o)] [e]), w1)
        | Removed | NotExist =>
            let '(err, w2) := run_body o cfg w1 in
            (err, snd (oe_os_Remove (o_ReadyFilePath o) w2))
        end
  end.

End run.

(** ** The mounter (mounter.go) *)
Record ReadinessConfig := mkReadiness { ReadyFilePath : string }.

(** [om_newSeam]: the error of the seam constructor; [om_signals]: the
    identity of the signal channel, [None] for nil. *)
Record orchestratorMounter := mkMounter {
  om_newSeam : option error; om_readiness : ReadinessConfig; om_signals : option nat }.

Definition WithReadiness (rc : ReadinessConfig) (m : orchestratorMounter) : orchestratorMounter :=
  mkMounter (om_newSeam m) rc (om_signals m).
Definition WithSignals (sig : option nat) (m : orchestratorMounter) : orchestratorMounter :=
  mkMounter (om_newSeam m) (om_readiness m) sig.

(** [defaultRealSeam] is the error of the production constructor. *)
Definition New (defaultRealSeam : option error) (opts : list (orchestratorMounter → orchestratorMounter)) : orchestratorMounter :=
  foldl (λ m opt, opt m) (mkMounter defaultRealSeam (mkReadiness "") None) opts.

(** Mount threads the config's transport values onto the orchestrator. *)
Definition Mounter_Mount `{OE : OrchEnv W} (m : orchestratorMounter) (cfg : Config) (w : W) : option error * W :=
  run (om_newSeam m) (mkOrch (ReadyFilePath (om_readiness m)) (c_ServiceURL cfg) (c_CACertPEM cfg)) cfg w.

(** ** Destinations *)

(** The components of an absolute destination. *)
Definition comps (dest : string) : list string := clean_comps true [] (split_on slash dest).

Lemma comps_rooted s : comps (String slash s) = clean_comps true [] (split_on slash s).
Proof. reflexivity. Qed.

Lemma Clean_dest s : destination s → Clean s = path_of (comps s) ∧ Forall comp_ok (comps s).
Proof.
  intros (c & rest & -> & _). generalize (String c rest) as t. intros t.
  change "/"%char with slash. rewrite Clean_rooted, comps_rooted.
  split; [done|]. apply clean_comps_ok; [done|apply split_on_nochar].
Qed.

Lemma nested_comps a b : Forall comp_ok a → Forall comp_ok b → a ≠ [] → b ≠ [] →
  nested (path_of a) (path_of b) = true ∨ path_of a = path_of b ↔ b `prefix_of` a ∨ a `prefix_of` b.
Proof.
  intros Ha Hb Hna Hnb. unfold nested. rewrite orb_true_iff, !path_of_below by done. split.
  - intros [[(r & _ & ->)|(r & _ & ->)]|H%path_of_inj]; [left|right|left|done..]; [by exists r|by exists r|by subst].
  - intros [[r ->]|[r ->]]; (destruct r as [|x r]; [right; by rewrite app_nil_r|]).
    + left; left. by exists (x :: r).
    + left; right. by exists (x :: r).
Qed.

Definition spec_of (o : orchestrator) (m : Mount) : mountSpec :=
  mkSpec m (default false (m_Readonly m)) (o_serviceURL o) (o_caCertPEM o).

Definition no_clash (seen : string) (m : Mount) : Prop :=
  Clean (m_Destination m) ≠ seen ∧ nested (Clean (m_Destination m)) seen = false.

Lemma find_None {A} (f : A → bool) l : List.find f l = None ↔ Forall (λ x, f x = false) l.
Proof.
  induction l as [|x l IH]; simpl; [done|]. rewrite Forall_cons, <-IH.
  destruct (f x); naive_solver.
Qed.

Lemma build_specs_Ok o seen ms :
  (∃ specs, build_specs o seen ms = Ok specs) ↔
  Forall (λ m, m_MemoryStoreID m = None) ms ∧
  Forall (λ m, Forall (λ s, no_clash s m) seen) ms ∧
  List.ForallOrdPairs (λ m1 m2, no_clash (Clean (m_Destination m1)) m2) ms.
Proof.
  revert seen. induction ms as [|m ms IH]; intros seen; simpl.
  { split; [repeat constructor|eauto]. }
  rewrite !Forall_cons.
  destruct (m_MemoryStoreID m) eqn:Hmem; [naive_solver|].
  assert (Forall (λ s, no_clash s m) seen ↔
          Clean (m_Destination m) ∉ seen ∧ Forall (λ s, nested (Clean (m_Destination m)) s = false) seen) as Hseen.
  { unfold no_clash. rewrite Forall_and. rewrite Forall_forall. set_solver. }
  rewrite Hseen. case_decide as Hin; [naive_solver|].
  destruct (List.find (nested (Clean (m_Destination m))) seen) as [prior|] eqn:Hf.
  { split; [naive_solver|]. intros (_ & [[_ Hn] _] & _). apply find_None in Hn. congruence. }
  apply find_None in Hf.
  transitivity (∃ specs, build_specs o (seen ++ [Clean (m_Destination m)]) ms = Ok specs).
  { destruct (build_specs o (seen ++ [Clean (m_Destination m)]) ms); naive_solver. }
  rewrite IH. setoid_rewrite Forall_app. setoid_rewrite Forall_singleton. rewrite Forall_and.
  split.
  - intros (H1 & [H2 H3] & H4). repeat split; try done. by constructor.
  - intros (H1 & H2 & H3). inversion H3; subst. naive_solver.
Qed.

Lemma build_specs_map o seen ms specs : build_specs o seen ms = Ok specs → specs = map (spec_of o) ms.
Proof.
  revert seen specs. induction ms as [|m ms IH]; intros seen specs; simpl; [by intros [= <-]|].
  destruct (m_MemoryStoreID m); [done|]. case_decide; [done|]. destruct (List.find _ _); [done|].
  destruct (build_specs o _ ms) as [specs'|] eqn:E; [|done]. intros [= <-]. rewrite (IH _ _ E).
  unfold spec_of. by destruct (m_Readonly m).
Qed.

(** Neither destination lies at or under the other. *)
Definition disjoint_dests (m1 m2 : Mount) : Prop :=
  ¬ comps (m_Destination m1) `prefix_of` comps (m_Destination m2) ∧
  ¬ comps (m_Destination m2) `prefix_of` comps (m_Destination m1).

(** An accepted destination that does not clean to the root. *)
Definition dest_below_root (m : Mount) : Prop :=
  destination (m_Destination m) ∧ comps (m_Destination m) ≠ [].

Lemma no_clash_disjoint m1 m2 : dest_below_root m1 → dest_below_root m2 →
  no_clash (Clean (m_Destination m1)) m2 ↔ disjoint_dests m1 m2.
Proof.
  intros [[H1 Hc1]%Clean_dest Hn1] [[H2 Hc2]%Clean_dest Hn2].
  unfold no_clash, disjoint_dests. rewrite H1, H2.
  pose proof (nested_comps _ _ Hc2 Hc1 Hn2 Hn1) as H.
  split.
  - intros [Hne Hn]. rewrite Hn in H. split; intros Hp; destruct (proj2 H) as [?|?]; auto; congruence.
  - intros [Ha Hb]. split.
    + intros He. destruct (proj1 H (or_intror He)); auto.
    + destruct (nested _ _); [|done]. destruct (proj1 H (or_introl eq_refl)); auto; done.
Qed.

Lemma ForallOrdPairs_iff {A} (P : A → Prop) (R S : A → A → Prop) l :
  Forall P l → (∀ x y, P x → P y → R x y ↔ S x y) → List.ForallOrdPairs R l ↔ List.ForallOrdPairs S l.
Proof.
  intros HP HRS. induction HP as [|x l Hx Hl IH]; [split; constructor|].
  assert (Forall (R x) l ↔ Forall (S x) l) as Hf.
  { rewrite !Forall_forall. rewrite Forall_forall in Hl. naive_solver. }
  split; intros H; inversion H; subst; constructor; naive_solver.
Qed.

(** C33: buildSpecs accepts a mounts array of non-root absolute destinations
    exactly when no mount is a memory-store mount and no two destinations are
    the same directory or nested, however they are spelled; and the specs are
    then the mounts in order, read-only exactly when the mount says so, each
    stamped with the session's transport values. *)
Theorem buildSpecs_disjoint (o : orchestrator) (cfg : Config)
    (Hdest : Forall dest_below_root (default [] (c_Mounts cfg))) :
  (∀ specs, buildSpecs o cfg = Ok specs → specs = map (spec_of o) (default [] (c_Mounts cfg))) ∧
  ((∃ specs, buildSpecs o cfg = Ok specs) ↔
     Forall (λ m, m_MemoryStoreID m = None) (default [] (c_Mounts cfg)) ∧
     List.ForallOrdPairs disjoint_dests (default [] (c_Mounts cfg))).
Proof.
  split; [intros specs; apply build_specs_map|].
  unfold buildSpecs. rewrite build_specs_Ok.
  rewrite (ForallOrdPairs_iff _ _ _ _ Hdest no_clash_disjoint).
  split; [naive_solver|]. intros [H1 H2]. split; [done|]. split; [|done].
  apply Forall_forall. intros. constructor.
Qed.

Definition at_dest (d : string) : Mount :=
  mkMount d "tok" (Some "fs-1") None (Some true) "full" (Some 0%Z) "1G" "0755" "0644" "".

Lemma buildSpecs_disjoint_witness :
  let cfg := mkConfig "v1" "https://e" "PEM" (Some [at_dest "/mnt/a"; at_dest "/mnt/ab/"]) None in
  buildSpecs (mkOrch "" "https://e" "PEM") cfg
    = Ok [spec_of (mkOrch "" "https://e" "PEM") (at_dest "/mnt/a"); spec_of (mkOrch "" "https://e" "PEM") (at_dest "/mnt/ab/")] ∧
  List.ForallOrdPairs disjoint_dests [at_dest "/mnt/a"; at_dest "/mnt/ab/"].
Proof.
  intros cfg. split; [reflexivity|].
  refine (proj2 (proj1 (proj2 (buildSpecs_disjoint (mkOrch "" "https://e" "PEM") cfg _)) _)).
  - constructor; [|constructor; [|constructor]]; (split; [eexists _, _; split; [reflexivity|discriminate]|discriminate]).
  - eexists. reflexivity.
Defined.

(** The nesting check has a hole at the root: a destination that passes
    the config's absolute-path rule and cleans to "/" is accepted next to
    destinations that all lie beneath it, in either order. *)
Theorem buildSpecs_root_gap (o : orchestrator) :
  destination "/." ∧ destination "//" ∧ comps "/." = [] ∧
  (∃ specs, buildSpecs o (mkConfig "v1" "https://e" "PEM" (Some [at_dest "/."; at_dest "/mnt"; at_dest "/etc"]) None) = Ok specs) ∧
  (∃ specs, buildSpecs o (mkConfig "v1" "https://e" "PEM" (Some [at_dest "/mnt"; at_dest "//"]) None) = Ok specs).
Proof.
  split; [by eexists _, _|]. split; [by eexists _, _|]. split; [reflexivity|].
  split; eexists; vm_compute; reflexivity.
Qed.
