(* ===== verification/OrchestratorSpec.v ===== *)
(** * What a run of the orchestrator does

    [recorded] logs the events of a run over any environment.  [run]'s log is
    shown to follow the lifecycle grammar [lifecycle]; readiness, cleanup and
    the ready-file window are read off it.  The concurrent [unmountAll] is shown
    to report what the sequential loop would. *)
From Stdlib Require Import Ascii String.
From stdpp Require Import base list strings numbers gmap sorting.
From S2P Require Import Prelude GoErrors GoPath Regex MountCfg Orchestrator.

(** ** Laws of the environment *)

(** Every goroutine runs once; the select answers one of its own cases. *)
Class OrchLaws {W} (OE : OrchEnv W) : Prop := {
  schedule_perm : ∀ n w, oe_schedule n w ≡ₚ seq 0 n;
  select_range : ∀ ps w i e w', oe_select ps w = (PointExited i e, w') → i < length ps }.

(** ** Concurrent unmounting *)
Section unmount_order.
Context `{OE : OrchEnv W, OL : !OrchLaws OE}.

Definition unmount_err (p : point) (e : error) : error :=
  EErrorf "unmount %q: %w" [AStr (p_destination p)] [e].

Lemma unmount_one_collect (res : point → option error) (Hres : ∀ p w, fst (oe_unmount p w) = res p)
    ps order acc w :
  length acc = length ps →
  ∃ w', foldl (unmount_one ps) (acc, w) order =
    (imap (λ i old, if decide (i ∈ order) then
                      match (p ← ps !! i; unmount_err p <$> res p) with Some e => Some e | None => old end
                    else old) acc, w').
Proof.
  revert acc w. induction order as [|i order IH]; intros acc w Hlen.
  { exists w. simpl. f_equal. apply list_eq. intros j. rewrite list_lookup_imap. by destruct (acc !! j). }
  simpl. unfold unmount_one at 2. simpl.
  destruct (ps !! i) as [p|] eqn:Hi.
  - pose proof (Hres p w) as Hr. destruct (oe_unmount p w) as [[e|] w1]; simpl in Hr.
    + destruct (IH (<[i:=Some (unmount_err p e)]> acc) w1) as [w' Hw']; [by rewrite length_insert|].
      exists w'. unfold unmount_err in *. rewrite Hw'. f_equal.
      apply list_eq. intros j. rewrite !list_lookup_imap.
      destruct (decide (i = j)) as [<-|Hij].
      * destruct (acc !! i) as [old|] eqn:Ha.
        -- rewrite list_lookup_insert_eq by (by apply lookup_lt_Some in Ha). simpl.
           rewrite Hi. simpl. rewrite <-Hr. simpl.
           rewrite (decide_True (P := i ∈ i :: order)) by set_solver. by case_decide.
        -- rewrite lookup_ge_None in Ha. apply lookup_lt_Some in Hi. lia.
      * rewrite list_lookup_insert_ne by done. destruct (acc !! j); simpl; [|done]. f_equal.
        repeat case_decide; set_solver.
    + destruct (IH acc w1 Hlen) as [w' Hw']. exists w'. rewrite Hw'. f_equal.
      apply list_eq. intros j. rewrite !list_lookup_imap. destruct (acc !! j); simpl; [|done]. f_equal.
      destruct (decide (i = j)) as [<-|Hij].
      * rewrite Hi. simpl. rewrite <-Hr. simpl. by repeat case_decide.
      * repeat case_decide; set_solver.
  - destruct (IH acc w Hlen) as [w' Hw']. exists w'. rewrite Hw'. f_equal.
    apply list_eq. intros j. rewrite !list_lookup_imap. destruct (acc !! j) eqn:Hj; simpl; [|done]. f_equal.
    destruct (decide (i = j)) as [<-|Hij].
    * rewrite Hi. simpl. by repeat case_decide.
    * repeat case_decide; set_solver.
Qed.

(** Concurrent teardown reports what the sequential loop would: when the
    points unmount independently, whatever order the goroutines run in, the
    collected errors are the points' own errors in the points' index order. *)
Theorem unmountAll_deterministic (res : point → option error) (ps : list point) (w : W)
    (Hres : ∀ p w, fst (oe_unmount p w) = res p) :
  fst (unmountAll ps w) = omap (λ p, unmount_err p <$> res p) ps.
Proof using OL.
  unfold unmountAll.
  destruct (unmount_one_collect res Hres ps (oe_schedule (length ps) w) (replicate (length ps) None) w) as [w' Hw'].
  { by rewrite length_replicate. }
  rewrite Hw'. simpl. clear Hw'.
  transitivity (omap id ((λ p, unmount_err p <$> res p) <$> ps)).
  - f_equal. apply list_eq. intros i. rewrite list_lookup_imap, list_lookup_fmap.
    destruct (ps !! i) as [p|] eqn:Hi.
    + rewrite lookup_replicate_2 by (by apply lookup_lt_Some in Hi). simpl.
      rewrite decide_True; [by destruct (res p)|].
      rewrite schedule_perm. apply elem_of_seq. apply lookup_lt_Some in Hi. lia.
    + assert (replicate (length ps) (@None error) !! i = None) as ->; [|done].
      apply lookup_ge_None. rewrite length_replicate. by apply lookup_ge_None.
  - clear. induction ps as [|p ps IH]; [done|]. csimpl. rewrite IH. by destruct (res p).
Qed.
End unmount_order.

(** ** Invariants of the environment *)

(** What every call a run makes keeps, the run keeps; [Q] holds of the specs
    it mounts. *)
Section preserved.
Context `{OE : OrchEnv W} (I : W → Prop) (Q : mountSpec → Prop).
Hypothesis I_mount : ∀ spec w, Q spec → I w → I (oe_mountAndWaitReady spec w).2.
Hypothesis I_unmount : ∀ p w, I w → I (oe_unmount p w).2.
Hypothesis I_signal : ∀ w, I w → I (oe_signalPending w).2.
Hypothesis I_remove : ∀ path w, I w → I (oe_os_Remove path w).2.
Hypothesis I_create : ∀ path w, I w → I (oe_createReady path w).2.
Hypothesis I_select : ∀ ps w, I w → I (oe_select ps w).2.

Lemma unmountAll_keeps ps w : I w → I (unmountAll ps w).2.
Proof using I_unmount.
  intros Hw. unfold unmountAll. generalize (replicate (length ps) (@None error)) as acc. intros acc.
  generalize (oe_schedule (length ps) w) as order. intros order.
  assert (∀ acc w, I w → I (foldl (unmount_one ps) (acc, w) order).2) as H.
  { clear Hw acc w. induction order as [|i order IH]; intros acc w Hw; [done|]. simpl. unfold unmount_one at 2. simpl.
    destruct (ps !! i) as [p|]; [|by apply IH]. pose proof (I_unmount p w Hw). destruct (oe_unmount p w) as [[e|] w1]; by apply IH. }
  specialize (H acc w Hw). by destruct (foldl _ _ _).
Qed.

Lemma start_all_keeps specs ps w : Forall Q specs → I w → I (start_all specs ps w).2.
Proof using I_mount I_signal.
  revert ps w. induction specs as [|spec specs IH]; intros ps w HQ Hw; simpl; [done|].
  apply Forall_cons in HQ as [Hq HQ]. pose proof (I_signal w Hw) as Hs. destruct (oe_signalPending w) as [[] w1]; [done|].
  pose proof (I_mount spec w1 Hq Hs) as Hm. destruct (oe_mountAndWaitReady spec w1) as [[p|e] w2]; [by apply IH|done].
Qed.

Lemma block_keeps ps w : I w → I (blockUntilTeardown ps w).2.
Proof using I_unmount I_select.
  intros Hw. unfold blockUntilTeardown. pose proof (I_select ps w Hw) as Hs. destruct (oe_select ps w) as [[|i err] w1].
  - pose proof (unmountAll_keeps ps w1 Hs). by destruct (unmountAll ps w1).
  - destruct (ps !! i) as [p|]; [|done]. pose proof (unmountAll_keeps (filter (λ q, q ≠ p) ps) w1 Hs).
    destruct (unmountAll _ w1). by destruct err.
Qed.

Lemma run_body_keeps o cfg w : (∀ specs, buildSpecs o cfg = Ok specs → Forall Q specs) → I w → I (run_body o cfg w).2.
Proof using I_mount I_unmount I_signal I_create I_select.
  intros HQ Hw. unfold run_body. destruct (buildSpecs o cfg) as [specs|]; [|done]. specialize (HQ specs eq_refl).
  destruct specs as [|spec specs]; [done|].
  pose proof (start_all_keeps (spec :: specs) [] w HQ Hw) as Hf. destruct (start_all _ _ w) as [f w1]. simpl in Hf.
  assert (∀ ps w, I w → I (shutdownDuringStartup ps w).2) as Hd.
  { intros ps v Hv. unfold shutdownDuringStartup. pose proof (unmountAll_keeps ps v Hv). by destruct (unmountAll ps v). }
  destruct f as [ps|ps|ps dest e]; [|by apply Hd|].
  - pose proof (I_signal w1 Hf) as Hs. destruct (oe_signalPending w1) as [[] w2]; [by apply Hd|].
    unfold signalReady. case_decide; [by apply block_keeps|]. pose proof (I_create (o_ReadyFilePath o) w2 Hs) as Hc.
    destruct (oe_createReady _ w2) as [[|e|e] w3]; [by apply block_keeps| |];
      pose proof (unmountAll_keeps ps w3 Hc); by destruct (unmountAll ps w3).
  - pose proof (unmountAll_keeps ps w1 Hf). by destruct (unmountAll ps w1).
Qed.

Lemma run_keeps seam o cfg w : (∀ specs, buildSpecs o cfg = Ok specs → Forall Q specs) → I w → I (run seam o cfg w).2.
Proof using I_mount I_unmount I_signal I_create I_select I_remove.
  intros HQ Hw. unfold run. destruct seam; [done|]. case_decide; [by apply run_body_keeps|].
  pose proof (I_remove (o_ReadyFilePath o) w Hw) as Hr. destruct (oe_os_Remove _ w) as [[| |e] w1]; [| |done];
    pose proof (run_body_keeps o cfg w1 HQ Hr) as Hb; destruct (run_body o cfg w1) as [err w2]; by apply I_remove.
Qed.
End preserved.

(** ** Events *)
Inductive event : Type :=
| EvMounted (p : point)
| EvMountFailed (dest : string)
| EvUnmount (p : point)
| EvReady
| EvReadyFailed
| EvRemove
| EvSignal
| EvExit (p : point).

Section recorded.
Context {W : Type} (OE : OrchEnv W).

(** The environment with a log.  A mounted point is a fresh object. *)
Definition recorded : OrchEnv (list event * W) := {|
  oe_mountAndWaitReady spec '(log, w) :=
    let '(r, w') := oe_mountAndWaitReady spec w in
    let dest := m_Destination (sp_mount spec) in
    match r with
    | Ok _ => let p := mkPoint (length log) dest in (Ok p, (log ++ [EvMounted p], w'))
    | Err e => (Err e, (log ++ [EvMountFailed dest], w'))
    end;
  oe_unmount p '(log, w) := let '(r, w') := oe_unmount p w in (r, (log ++ [EvUnmount p], w'));
  oe_signalPending '(log, w) :=
    let '(b, w') := oe_signalPending w in (b, (if b : bool then log ++ [EvSignal] else log, w'));
  oe_os_Remove path '(log, w) := let '(r, w') := oe_os_Remove path w in (r, (log ++ [EvRemove], w'));
  oe_createReady path '(log, w) :=
    let '(r, w') := oe_createReady path w in
    (r, (log ++ [match r with Created => EvReady | _ => EvReadyFailed end], w'));
  oe_select ps '(log, w) :=
    let '(r, w') := oe_select ps w in
    (r, (log ++ match r with
                | Signalled => [EvSignal]
                | PointExited i _ => match ps !! i with Some p => [EvExit p] | None => [] end
                end, w'));
  oe_schedule n '(_, w) := oe_schedule n w |}.

#[export] Instance recorded_laws : OrchLaws OE → OrchLaws recorded.
Proof.
  intros OL. split.
  - intros n [log w]. exact (schedule_perm n w).
  - intros ps [log w] i e [log' w']. simpl. destruct (oe_select ps w) as [r w1] eqn:E.
    intros [= -> _ _]. by eapply select_range.
Qed.
End recorded.

(** ** The lifecycle grammar *)

(** [lifecycle dests ready log]: the log of the part of a run between the two
    ready-file removals, for the destinations [dests] in order, [ready] being
    the readiness event (none when no ready-file is configured).  The points
    [ps] that came up are the first [length ps] destinations; the unmounts [us]
    are a rearrangement of the points still to be unmounted. *)
Inductive lifecycle (dests : list string) (ready : list event) : list event → Prop :=
| lc_idle : lifecycle dests ready []
| lc_interrupted ps us :
    map p_destination ps = take (length ps) dests → NoDup ps → us ≡ₚ ps →
    lifecycle dests ready (map EvMounted ps ++ [EvSignal] ++ map EvUnmount us)
| lc_failed ps us d :
    map p_destination ps = take (length ps) dests → NoDup ps → us ≡ₚ ps → dests !! length ps = Some d →
    lifecycle dests ready (map EvMounted ps ++ [EvMountFailed d] ++ map EvUnmount us)
| lc_not_ready ps us :
    map p_destination ps = dests → NoDup ps → us ≡ₚ ps →
    lifecycle dests ready (map EvMounted ps ++ [EvReadyFailed] ++ map EvUnmount us)
| lc_stopped ps us :
    map p_destination ps = dests → NoDup ps → us ≡ₚ ps →
    lifecycle dests ready (map EvMounted ps ++ ready ++ [EvSignal] ++ map EvUnmount us)
| lc_exited ps p us :
    map p_destination ps = dests → NoDup ps → p ∈ ps → us ≡ₚ filter (λ q, q ≠ p) ps →
    lifecycle dests ready (map EvMounted ps ++ ready ++ [EvExit p] ++ map EvUnmount us).

Section lifecycle.
Context {W : Type} (OE : OrchEnv W) {OL : OrchLaws OE}.
Notation LW := (list event * W)%type.
#[local] Existing Instance recorded.

Lemma unmount_fold_log ps order acc (w : LW) :
  ∃ acc' w', foldl (unmount_one (OE := recorded OE) ps) (acc, w) order =
    (acc', (w.1 ++ map EvUnmount (omap (ps !!.) order), w')).
Proof.
  revert acc w. induction order as [|i order IH]; intros acc [log w]; csimpl.
  { eexists _, _. by rewrite app_nil_r. }
  unfold unmount_one at 2. simpl. destruct (ps !! i) as [p|]; simpl; [|apply IH].
  destruct (oe_unmount p w) as [e w1].
  assert (∀ acc1, ∃ acc' w', foldl (unmount_one (OE := recorded OE) ps) (acc1, (log ++ [EvUnmount p], w1)) order =
    (acc', (log ++ EvUnmount p :: map EvUnmount (omap (ps !!.) order), w'))) as H.
  { intros acc1. destruct (IH acc1 (log ++ [EvUnmount p], w1)) as (acc' & w' & Heq).
    exists acc', w'. rewrite Heq. simpl. by rewrite <-app_assoc. }
  destruct e; apply H.
Qed.

Lemma omap_lookup_seq_from {A} (pre ps : list A) :
  omap ((pre ++ ps) !!.) (seq (length pre) (length ps)) = ps.
Proof.
  revert pre. induction ps as [|p ps IH]; intros pre; [done|]. csimpl.
  rewrite lookup_app_r, Nat.sub_diag by done. simpl. f_equal.
  specialize (IH (pre ++ [p])). rewrite length_app, <-app_assoc in IH. simpl in IH.
  by rewrite Nat.add_1_r in IH.
Qed.

Lemma omap_lookup_seq {A} (ps : list A) : omap (ps !!.) (seq 0 (length ps)) = ps.
Proof. exact (omap_lookup_seq_from [] ps). Qed.

Lemma unmountAll_log ps (log : list event) (w : W) :
  ∃ errs us w', unmountAll (OE := recorded OE) ps (log, w) = (errs, (log ++ map EvUnmount us, w')) ∧ us ≡ₚ ps.
Proof using OL.
  unfold unmountAll.
  destruct (unmount_fold_log ps (oe_schedule (OrchEnv := recorded OE) (length ps) (log, w))
    (replicate (length ps) None) (log, w)) as (acc' & w' & Heq).
  rewrite Heq. eexists _, _, _. split; [reflexivity|].
  rewrite schedule_perm. by rewrite omap_lookup_seq.
Qed.

(** Points come up in spec order, each a new object. *)
Definition up (base : nat) (dests : list string) (ps : list point) : Prop :=
  map p_destination ps = take (length ps) dests ∧ map p_id ps = seq base (length ps).

Lemma up_NoDup base dests ps : up base dests ps → NoDup ps.
Proof. intros [_ H]. apply (NoDup_fmap_1 p_id). change (p_id <$> ps) with (map p_id ps). rewrite H. apply NoDup_seq. Qed.

Lemma start_all_log specs ps (log : list event) (w : W) dests :
  dests = map p_destination ps ++ map (λ s, m_Destination (sp_mount s)) specs →
  up (length log) dests ps →
  ∃ ps' w', up (length log) dests ps' ∧
    (start_all (OE := recorded OE) specs ps (log ++ map EvMounted ps, w) =
       (AllUp ps', (log ++ map EvMounted ps', w')) ∧ map p_destination ps' = dests
     ∨ start_all (OE := recorded OE) specs ps (log ++ map EvMounted ps, w) =
       (Interrupted ps', (log ++ map EvMounted ps' ++ [EvSignal], w'))
     ∨ ∃ d e, dests !! length ps' = Some d ∧
       start_all (OE := recorded OE) specs ps (log ++ map EvMounted ps, w) =
       (StartFailed ps' d e, (log ++ map EvMounted ps' ++ [EvMountFailed d], w'))).
Proof.
  revert ps w. induction specs as [|spec specs IH]; intros ps w Hd Hup; simpl.
  { exists ps, w. split; [done|]. left. split; [done|]. by rewrite Hd, app_nil_r. }
  destruct (oe_signalPending w) as [[] w1].
  { exists ps, w1. split; [done|]. right; left. by rewrite <-app_assoc. }
  destruct (oe_mountAndWaitReady spec w1) as [[p|e] w2].
  - set (q := mkPoint (length (log ++ map EvMounted ps)) (m_Destination (sp_mount spec))).
    assert (up (length log) dests (ps ++ [q])) as Hup'.
    { destruct Hup as [H1 H2]. split.
      - rewrite map_app, Hd. simpl. rewrite length_app. simpl.
        rewrite <-(length_map p_destination ps), Nat.add_1_r.
        rewrite take_app_ge by lia. replace (S _ - _) with 1 by lia. done.
      - rewrite map_app, H2, length_app, seq_app. simpl. unfold q. simpl.
        by rewrite length_app, length_map. }
    destruct (IH (ps ++ [q]) w2) as (ps' & w' & Hps' & Hcase); [|done|].
    { rewrite Hd, map_app, <-app_assoc. done. }
    exists ps', w'. split; [done|]. rewrite map_app, app_assoc in Hcase. exact Hcase.
  - exists ps, w2. split; [done|]. right; right. eexists _, e. split; [|by rewrite <-app_assoc].
    rewrite Hd, lookup_app_r by (by rewrite length_map). by rewrite length_map, Nat.sub_diag.
Qed.

Definition ready_event (o : orchestrator) : list event :=
  if decide (o_ReadyFilePath o = "") then [] else [EvReady].

Definition config_dests (cfg : Config) : list string := map m_Destination (default [] (c_Mounts cfg)).

(** Events after which a run cannot end well. *)
Definition failure_event (ev : event) : bool :=
  match ev with EvMountFailed _ | EvReadyFailed => true | _ => false end.

Lemma no_failure_mounted ps us mid :
  existsb failure_event (map EvMounted ps ++ mid ++ map EvUnmount us) = existsb failure_event mid.
Proof.
  rewrite !existsb_app.
  assert (existsb failure_event (map EvMounted ps) = false) as -> by (by induction ps).
  assert (existsb failure_event (map EvUnmount us) = false) as -> by (by induction us).
  by rewrite orb_false_r.
Qed.

Lemma block_log (o : orchestrator) cfg ps (log : list event) (w : W) :
  map p_destination ps = config_dests cfg → NoDup ps →
  ∃ err tail w', blockUntilTeardown (OE := recorded OE) ps (log, w) = (err, (log ++ tail, w')) ∧
    existsb failure_event tail = false ∧
    lifecycle (config_dests cfg) (ready_event o) (map EvMounted ps ++ ready_event o ++ tail).
Proof using OL.
  intros Hd Hnd. unfold blockUntilTeardown. simpl.
  destruct (oe_select ps w) as [[|i e] w1] eqn:Es.
  - destruct (unmountAll_log ps (log ++ [EvSignal]) w1) as (errs & us & w' & -> & Hus).
    eexists _, ([EvSignal] ++ map EvUnmount us), _. split; [by rewrite <-app_assoc|].
    split; [exact (no_failure_mounted [] us [EvSignal])|]. by apply lc_stopped.
  - pose proof (select_range _ _ _ _ _ Es) as Hi. apply lookup_lt_is_Some_2 in Hi as [p Hp]. rewrite Hp.
    destruct (unmountAll_log (filter (λ q, q ≠ p) ps) (log ++ [EvExit p]) w1) as (errs & us & w' & -> & Hus).
    assert (lifecycle (config_dests cfg) (ready_event o)
              (map EvMounted ps ++ ready_event o ++ [EvExit p] ++ map EvUnmount us)) as Hlc.
    { apply lc_exited; [done|done|by eapply list_elem_of_lookup_2|done]. }
    destruct e; (eexists _, ([EvExit p] ++ map EvUnmount us), _; split; [by rewrite <-app_assoc|]);
      (split; [exact (no_failure_mounted [] us [EvExit p])|done]).
Qed.

Lemma run_body_log (o : orchestrator) cfg (log : list event) (w : W) :
  ∃ err body w', run_body (OE := recorded OE) o cfg (log, w) = (err, (log ++ body, w')) ∧
    lifecycle (config_dests cfg) (ready_event o) body ∧ (existsb failure_event body = true → err ≠ None).
Proof using OL.
  unfold run_body. destruct (buildSpecs o cfg) as [specs|e] eqn:Hspecs.
  2: { exists (Some e), [], w. rewrite app_nil_r. split; [done|]. split; [constructor|done]. }
  assert (config_dests cfg = map (λ s, m_Destination (sp_mount s)) specs) as Hd.
  { apply build_specs_map in Hspecs as ->. unfold config_dests. by rewrite map_map. }
  destruct specs as [|spec specs].
  { exists None, [], w. rewrite app_nil_r. split; [done|]. split; [constructor|done]. }
  destruct (start_all_log (spec :: specs) [] log w (config_dests cfg)) as (ps & w1 & Hup & Hcase);
    [done|by split|].
  pose proof (up_NoDup _ _ _ Hup) as Hnd. simpl map in Hcase. rewrite app_nil_r in Hcase.
  destruct Hcase as [[-> Hall]|[->|(d & e & Hd' & ->)]].
  - simpl. destruct (oe_signalPending w1) as [[] w2]; simpl.
    + unfold shutdownDuringStartup.
      destruct (unmountAll_log ps ((log ++ map EvMounted ps) ++ [EvSignal]) w2) as (errs & us & w' & -> & Hus).
      eexists _, _, _. split; [by rewrite <-!app_assoc|].
      split; [apply lc_interrupted; [apply Hup|done|done]|]. by rewrite no_failure_mounted.
    + unfold signalReady. pose proof (block_log o cfg ps) as Hblock. unfold ready_event in *.
      destruct (decide (o_ReadyFilePath o = "")); simpl.
      { destruct (Hblock (log ++ map EvMounted ps) w2 Hall Hnd) as (err & tail & w' & -> & Hf & Hlc).
        eexists _, _, _. split; [by rewrite <-app_assoc|]. split; [done|].
        rewrite existsb_app, Hf, orb_false_r. by replace (existsb _ _) with false by (by clear; induction ps). }
      assert (∀ e w3, ∃ err body w',
        (let '(errs, w4) := unmountAll (OE := recorded OE) ps ((log ++ map EvMounted ps) ++ [EvReadyFailed], w3) in
         (errors_Join (e :: errs), w4)) = (err, (log ++ body, w')) ∧
        lifecycle (config_dests cfg) [EvReady] body ∧ (existsb failure_event body = true → err ≠ None)) as Hnr.
      { intros e w3. destruct (unmountAll_log ps ((log ++ map EvMounted ps) ++ [EvReadyFailed]) w3) as (errs & us & w' & -> & Hus).
        eexists _, _, _. split; [by rewrite <-!app_assoc|]. split; [by apply lc_not_ready|done]. }
      destruct (oe_createReady (o_ReadyFilePath o) w2) as [[|e|e] w3]; simpl; [|apply Hnr..].
      destruct (Hblock ((log ++ map EvMounted ps) ++ [EvReady]) w3 Hall Hnd) as (err & tail & w' & -> & Hf & Hlc).
        eexists _, _, _. split; [by rewrite <-!app_assoc|]. split; [done|].
      rewrite existsb_app. simpl. rewrite Hf, orb_false_r. by replace (existsb _ _) with false by (by clear; induction ps).
  - unfold shutdownDuringStartup. rewrite app_assoc.
    destruct (unmountAll_log ps ((log ++ map EvMounted ps) ++ [EvSignal]) w1) as (errs & us & w' & -> & Hus).
    eexists _, _, _. split; [by rewrite <-!app_assoc|].
    split; [apply lc_interrupted; [apply Hup|done|done]|]. by rewrite no_failure_mounted.
  - rewrite app_assoc.
    destruct (unmountAll_log ps ((log ++ map EvMounted ps) ++ [EvMountFailed d]) w1) as (errs & us & w' & -> & Hus).
    eexists _, _, _. split; [by rewrite <-!app_assoc|].
    split; [apply lc_failed; [apply Hup|done|done|done]|done].
Qed.

Lemma run_log (o : orchestrator) cfg (w : W) :
  ∃ err log w', run (OE := recorded OE) None o cfg ([], w) = (err, (log, w')) ∧
    (existsb failure_event log = true → err ≠ None) ∧
    ((o_ReadyFilePath o = "" ∧ lifecycle (config_dests cfg) [] log) ∨
     (o_ReadyFilePath o ≠ "" ∧
       ((log = [EvRemove] ∧ err ≠ None) ∨
        ∃ body, log = [EvRemove] ++ body ++ [EvRemove] ∧ lifecycle (config_dests cfg) [EvReady] body))).
Proof using OL.
  unfold run. pose proof (run_body_log o cfg) as Hbody. unfold ready_event in Hbody.
  destruct (decide (o_ReadyFilePath o = "")) as [Hp|Hp].
  { destruct (Hbody [] w) as (err & body & w' & -> & Hlc & Hf). eexists _, _, _. split; [reflexivity|]. eauto. }
  simpl. destruct (oe_os_Remove (o_ReadyFilePath o) w) as [[| |e] w1]; simpl.
  3: { eexists _, _, _. split; [reflexivity|]. split; [done|]. right. split; [done|]. by left. }
  all: destruct (Hbody [EvRemove] w1) as (err & body & w' & -> & Hlc & Hf); simpl;
    destruct (oe_os_Remove (o_ReadyFilePath o) w') as [r w2]; simpl;
    eexists _, _, _; (split; [reflexivity|]);
    (split; [simpl; rewrite existsb_app; simpl; rewrite orb_false_r; exact Hf|]);
    right; (split; [done|]); right; eauto.
Qed.
End lifecycle.

(** ** Lifecycle theorems *)

(** Every run produces a log of this shape, whatever the seam, the signals and
    the scheduler do. *)
Definition run_shape (o : orchestrator) (cfg : Config) (err : option error) (log : list event) : Prop :=
  (o_ReadyFilePath o = "" ∧ lifecycle (config_dests cfg) [] log) ∨
  (o_ReadyFilePath o ≠ "" ∧
    ((log = [EvRemove] ∧ err ≠ None) ∨
     ∃ body, log = [EvRemove] ++ body ++ [EvRemove] ∧ lifecycle (config_dests cfg) [EvReady] body)).

(** C11: every run of the orchestrator follows the lifecycle: points come up
    one at a time in config order; a pending signal or the first failed mount
    stops the fan-out; readiness is signalled only after the last destination
    is up; then a signal or one point's exit ends the run; all points still up
    are unmounted, in any order; and a configured ready-file is removed first
    and last.  A mount or readiness failure is never reported as success. *)
Theorem run_lifecycle {W} (OE : OrchEnv W) (OL : OrchLaws OE) (o : orchestrator) (cfg : Config) (w : W) :
  let '(err, (log, _)) := run (OE := recorded OE) None o cfg ([], w) in
  run_shape o cfg err log ∧ (existsb failure_event log = true → err ≠ None).
Proof.
  destruct (run_log OE o cfg w) as (err & log & w' & -> & Hf & Hshape). split; [exact Hshape|exact Hf].
Qed.

(** An environment in which everything works and a signal ends the run. *)
Definition calm : OrchEnv unit := {|
  oe_mountAndWaitReady spec w := (Ok (mkPoint 0 (m_Destination (sp_mount spec))), w);
  oe_unmount _ w := (None, w);
  oe_signalPending w := (false, w);
  oe_os_Remove _ w := (NotExist, w);
  oe_createReady _ w := (Created, w);
  oe_select _ w := (Signalled, w);
  oe_schedule n _ := rev (seq 0 n) |}.

#[export] Instance calm_laws : OrchLaws calm.
Proof. split; [|done]. intros n w. simpl. symmetry. apply Permutation_rev. Qed.

Definition two_mounts : Config := mkConfig "v1" "https://e" "PEM" (Some [at_dest "/a"; at_dest "/b"]) None.
Definition with_ready : orchestrator := mkOrch "/run/ready" "https://e" "PEM".

Lemma run_lifecycle_witness :
  let log := [EvRemove; EvMounted (mkPoint 1 "/a"); EvMounted (mkPoint 2 "/b"); EvReady; EvSignal;
              EvUnmount (mkPoint 2 "/b"); EvUnmount (mkPoint 1 "/a"); EvRemove] in
  run (OE := recorded calm) None with_ready two_mounts ([], tt) = (None, (log, tt)) ∧
  run_shape with_ready two_mounts None log.
Proof.
  intros log.
  assert (run (OE := recorded calm) None with_ready two_mounts ([], tt) = (None, (log, tt))) as H
    by (vm_compute; reflexivity).
  split; [exact H|].
  pose proof (run_lifecycle calm calm_laws with_ready two_mounts tt) as Hl. rewrite H in Hl. exact (proj1 Hl).
Defined.

Lemma mounted_no_ready ps l1 l2 mid :
  EvReady ∉ mid → map EvMounted ps ++ mid ≠ l1 ++ EvReady :: l2.
Proof.
  intros Hmid H. assert (EvReady ∈ map EvMounted ps ++ mid) as Hin by (rewrite H; set_solver).
  apply elem_of_app in Hin as [(p & Hp & _)%list_elem_of_fmap|?]; done.
Qed.

Lemma no_ready_unmounts us : EvReady ∉ map EvUnmount us.
Proof. intros (p & Hp & _)%list_elem_of_fmap. done. Qed.

Lemma split_at_ready ps mid l1 l2 :
  EvReady ∉ mid → map EvMounted ps ++ EvReady :: mid = l1 ++ EvReady :: l2 → l1 = map EvMounted ps ∧ l2 = mid.
Proof.
  intros Hmid. revert l1. induction ps as [|p ps IH]; intros l1 H; simpl in H.
  - destruct l1 as [|e l1]; simplify_eq/=; [done|]. destruct Hmid. set_solver.
  - destruct l1 as [|e l1]; [done|]. injection H as <- H. apply IH in H as [-> ->]; done.
Qed.

Lemma lifecycle_ready dests body l1 l2 :
  lifecycle dests [EvReady] body → body = l1 ++ EvReady :: l2 →
  ∃ ps, l1 = map EvMounted ps ∧ map p_destination ps = dests ∧ EvReady ∉ l2.
Proof.
  intros Hlc. destruct Hlc as [|ps us _ _ _|ps us d _ _ _ _|ps us _ _ _|ps us Hd _ _|ps p us Hd _ _ _]; intros H.
  - by destruct l1.
  - apply mounted_no_ready in H; [done|]. pose proof (no_ready_unmounts us). set_solver.
  - apply mounted_no_ready in H; [done|]. pose proof (no_ready_unmounts us). set_solver.
  - apply mounted_no_ready in H; [done|]. pose proof (no_ready_unmounts us). set_solver.
  - simpl in H. apply split_at_ready in H as [-> ->]; [|pose proof (no_ready_unmounts us); set_solver].
    exists ps. split; [done|]. split; [done|]. pose proof (no_ready_unmounts us). set_solver.
  - simpl in H. apply split_at_ready in H as [-> ->]; [|pose proof (no_ready_unmounts us); set_solver].
    exists ps. split; [done|]. split; [done|]. pose proof (no_ready_unmounts us). set_solver.
Qed.

Lemma lifecycle_no_ready dests l1 l2 : ¬ lifecycle dests [] (l1 ++ EvReady :: l2).
Proof.
  intros Hlc. remember (l1 ++ EvReady :: l2) as log eqn:Hl.
  assert (EvReady ∈ log) as Hin by (rewrite Hl; set_solver). clear Hl.
  destruct Hlc as [|ps us _ _ _|ps us d _ _ _ _|ps us _ _ _|ps us Hd _ _|ps p us Hd _ _ _];
    repeat (apply elem_of_app in Hin as [Hin|Hin]);
    first [by apply elem_of_nil in Hin | by apply no_ready_unmounts in Hin
          | by apply list_elem_of_singleton in Hin | apply list_elem_of_fmap in Hin as (? & ? & _); done].
Qed.

(** Readiness is honest.  When the ready-file is created in a run, every
    configured destination has been mounted before it, nothing else happened
    before it (no failure, no unmount, no termination request seen), it is
    created at most once, and the run's last action is to remove it. *)
Theorem ready_after_all_up {W} (OE : OrchEnv W) (OL : OrchLaws OE) (o : orchestrator) (cfg : Config) (w : W)
    (err : option error) (w' : W) (l1 l2 : list event)
    (Hrun : run (OE := recorded OE) None o cfg ([], w) = (err, (l1 ++ EvReady :: l2, w'))) :
  ∃ ps, l1 = EvRemove :: map EvMounted ps ∧ map p_destination ps = config_dests cfg ∧
    EvReady ∉ l2 ∧ list.last l2 = Some EvRemove.
Proof.
  destruct (run_log OE o cfg w) as (err' & log & w2 & Heq & _ & Hshape).
  rewrite Hrun in Heq. simplify_eq.
  destruct Hshape as [[_ Hlc]|[_ [[Heq _]|(body & Heq & Hlc)]]].
  - exfalso. by eapply lifecycle_no_ready.
  - exfalso. destruct l1 as [|? [|? ?]]; simplify_eq/=.
  - destruct l1 as [|e l1]; [done|]. injection Heq as -> Heq.
    destruct l2 as [|z l2 _] using rev_ind.
    { apply app_inj_tail in Heq as [_ ?]. done. }
    rewrite app_comm_cons, app_assoc in Heq. apply app_inj_tail in Heq as [Heq ->].
    destruct (lifecycle_ready _ _ _ _ Hlc (eq_sym Heq)) as (ps & -> & Hd & Hn).
    exists ps. split; [done|]. split; [done|]. split; [set_solver|]. apply last_snoc.
Qed.

Lemma ready_after_all_up_witness :
  ∃ ps, [EvRemove; EvMounted (mkPoint 1 "/a"); EvMounted (mkPoint 2 "/b")] = EvRemove :: map EvMounted ps ∧
    map p_destination ps = config_dests two_mounts ∧
    EvReady ∉ [EvSignal; EvUnmount (mkPoint 2 "/b"); EvUnmount (mkPoint 1 "/a"); EvRemove] ∧
    list.last [EvSignal; EvUnmount (mkPoint 2 "/b"); EvUnmount (mkPoint 1 "/a"); EvRemove] = Some EvRemove.
Proof.
  apply (ready_after_all_up calm calm_laws with_ready two_mounts tt None tt
    [EvRemove; EvMounted (mkPoint 1 "/a"); EvMounted (mkPoint 2 "/b")]
    [EvSignal; EvUnmount (mkPoint 2 "/b"); EvUnmount (mkPoint 1 "/a"); EvRemove]).
  vm_compute. reflexivity.
Defined.

(** ** Cleanup *)
Definition mounted (log : list event) : list point :=
  omap (λ e, match e with EvMounted p => Some p | _ => None end) log.
Definition unmounted (log : list event) : list point :=
  omap (λ e, match e with EvUnmount p => Some p | _ => None end) log.
Definition exited (log : list event) : list point :=
  omap (λ e, match e with EvExit p => Some p | _ => None end) log.

Lemma omap_const_None {A B} (f : A → event) (g : event → option B) l :
  (∀ x, g (f x) = None) → omap g (map f l) = [].
Proof. intros Hg. induction l as [|x l IH]; csimpl; [done|]. by rewrite Hg. Qed.

Lemma omap_map_Some {A} (f : A → event) (g : event → option A) l :
  (∀ x, g (f x) = Some x) → omap g (map f l) = l.
Proof. intros Hg. induction l as [|x l IH]; csimpl; [done|]. by rewrite Hg, IH. Qed.

Lemma project_events ps us mid :
  mounted (map EvMounted ps ++ mid ++ map EvUnmount us) = ps ++ mounted mid ∧
  unmounted (map EvMounted ps ++ mid ++ map EvUnmount us) = unmounted mid ++ us ∧
  exited (map EvMounted ps ++ mid ++ map EvUnmount us) = exited mid.
Proof.
  unfold mounted, unmounted, exited. rewrite !omap_app.
  split_and!.
  - rewrite (omap_map_Some EvMounted), (omap_const_None EvUnmount) by done. by rewrite app_nil_r.
  - by rewrite (omap_map_Some EvUnmount), (omap_const_None EvMounted) by done.
  - rewrite (omap_const_None EvMounted), (omap_const_None EvUnmount) by done. by rewrite app_nil_r.
Qed.

Lemma filter_ne_Permutation (p : point) ps : NoDup ps → p ∈ ps → filter (λ q, q ≠ p) ps ++ [p] ≡ₚ ps.
Proof.
  intros Hnd Hin. rewrite Permutation_app_comm. simpl.
  apply NoDup_Permutation; [constructor; [|by apply NoDup_filter]|done|].
  - rewrite list_elem_of_filter. naive_solver.
  - intros q. rewrite elem_of_cons, list_elem_of_filter. destruct (decide (q = p)); naive_solver.
Qed.

Lemma lifecycle_balanced dests ready body :
  mounted ready = [] → unmounted ready = [] → exited ready = [] →
  lifecycle dests ready body → unmounted body ++ exited body ≡ₚ mounted body.
Proof.
  intros Hm Hu He [|ps us _ _ H|ps us d _ _ H _|ps us _ _ H|ps us _ _ H|ps p us _ Hnd Hin H]; [done|..];
    rewrite ?(app_assoc ready);
    match goal with |- context [map EvMounted ps ++ ?mid ++ map EvUnmount us] =>
      destruct (project_events ps us mid) as (-> & -> & ->) end;
    unfold mounted, unmounted, exited in *; rewrite ?omap_app, ?Hm, ?Hu, ?He; simpl; rewrite ?app_nil_r; try done.
  rewrite H. by apply filter_ne_Permutation.
Qed.

Lemma run_shape_balanced o cfg err log : run_shape o cfg err log → unmounted log ++ exited log ≡ₚ mounted log.
Proof.
  intros [[_ Hlc]|[_ [[-> _]|(body & -> & Hlc)]]].
  - by eapply (lifecycle_balanced (config_dests cfg) []).
  - done.
  - unfold unmounted, exited, mounted. rewrite !omap_app. simpl. rewrite !app_nil_r.
    by eapply (lifecycle_balanced (config_dests cfg) [EvReady]).
Qed.

(** Nothing is left mounted.  When a run returns, for whatever reason, the
    points it unmounted together with the one that exited on its own are
    exactly the points it mounted, each once. *)
Theorem run_cleans_up {W} (OE : OrchEnv W) (OL : OrchLaws OE) (o : orchestrator) (cfg : Config) (w : W) :
  let '(_, (log, _)) := run (OE := recorded OE) None o cfg ([], w) in
  unmounted log ++ exited log ≡ₚ mounted log.
Proof.
  destruct (run_log OE o cfg w) as (err & log & w' & -> & _ & Hshape). by eapply run_shape_balanced.
Qed.

Lemma run_cleans_up_witness :
  let log := [EvRemove; EvMounted (mkPoint 1 "/a"); EvMounted (mkPoint 2 "/b"); EvReady; EvSignal;
              EvUnmount (mkPoint 2 "/b"); EvUnmount (mkPoint 1 "/a"); EvRemove] in
  run (OE := recorded calm) None with_ready two_mounts ([], tt) = (None, (log, tt)) ∧
  unmounted log ++ exited log ≡ₚ mounted log.
Proof.
  intros log.
  assert (run (OE := recorded calm) None with_ready two_mounts ([], tt) = (None, (log, tt))) as H
    by (vm_compute; reflexivity).
  split; [exact H|].
  pose proof (run_cleans_up calm calm_laws with_ready two_mounts tt) as Hl. rewrite H in Hl. exact Hl.
Defined.

Lemma unmountAll_deterministic_witness :
  fst (unmountAll (OE := calm) [mkPoint 0 "/a"; mkPoint 1 "/b"] tt) = [].
Proof.
  exact (unmountAll_deterministic (OE := calm) (λ _, None) [mkPoint 0 "/a"; mkPoint 1 "/b"] tt ltac:(intros; reflexivity)).
Defined.

(** ** The ready-file outlives the mounts *)
Lemma lifecycle_ready_tail dests body l1 l2 :
  lifecycle dests [EvReady] body → body = l1 ++ EvReady :: l2 →
  ∃ ev us, l2 = ev :: map EvUnmount us ∧ (ev = EvSignal ∨ ∃ p, ev = EvExit p).
Proof.
  intros Hlc. destruct Hlc as [|ps us _ _ _|ps us d _ _ _ _|ps us _ _ _|ps us Hd _ _|ps p us Hd _ _ _]; intros H.
  - by destruct l1.
  - apply mounted_no_ready in H; [done|]. pose proof (no_ready_unmounts us). set_solver.
  - apply mounted_no_ready in H; [done|]. pose proof (no_ready_unmounts us). set_solver.
  - apply mounted_no_ready in H; [done|]. pose proof (no_ready_unmounts us). set_solver.
  - simpl in H. apply split_at_ready in H as [_ ->]; [|pose proof (no_ready_unmounts us); set_solver]. eauto.
  - simpl in H. apply split_at_ready in H as [_ ->]; [|pose proof (no_ready_unmounts us); set_solver]. eauto 10.
Qed.

(** The ready-file is retracted only after teardown: in every run that
    created it, all unmounts (and the exit of a dead point) come before its
    removal, so it is still advertised while mounts are going down. *)
Theorem ready_outlives_mounts {W} (OE : OrchEnv W) (OL : OrchLaws OE) (o : orchestrator) (cfg : Config) (w : W)
    (err : option error) (w' : W) (l1 l2 : list event)
    (Hrun : run (OE := recorded OE) None o cfg ([], w) = (err, (l1 ++ EvReady :: l2, w'))) :
  ∃ ev us, l2 = ev :: map EvUnmount us ++ [EvRemove] ∧ (ev = EvSignal ∨ ∃ p, ev = EvExit p).
Proof.
  destruct (run_log OE o cfg w) as (err' & log & w2 & Heq & _ & Hshape).
  rewrite Hrun in Heq. simplify_eq.
  destruct Hshape as [[_ Hlc]|[_ [[Heq _]|(body & Heq & Hlc)]]].
  - exfalso. by eapply lifecycle_no_ready.
  - exfalso. destruct l1 as [|? [|? ?]]; simplify_eq/=.
  - destruct l1 as [|e l1]; [done|]. injection Heq as -> Heq.
    destruct l2 as [|z l2 _] using rev_ind.
    { apply app_inj_tail in Heq as [_ ?]. done. }
    rewrite app_comm_cons, app_assoc in Heq. apply app_inj_tail in Heq as [Heq ->].
    destruct (lifecycle_ready_tail _ _ _ _ Hlc (eq_sym Heq)) as (ev & us & -> & Hev). eauto.
Qed.

Lemma ready_outlives_mounts_witness :
  ∃ ev us, [EvSignal; EvUnmount (mkPoint 2 "/b"); EvUnmount (mkPoint 1 "/a"); EvRemove]
    = ev :: map EvUnmount us ++ [EvRemove] ∧ (ev = EvSignal ∨ ∃ p, ev = EvExit p).
Proof.
  apply (ready_outlives_mounts calm calm_laws with_ready two_mounts tt None tt
    [EvRemove; EvMounted (mkPoint 1 "/a"); EvMounted (mkPoint 2 "/b")]
    [EvSignal; EvUnmount (mkPoint 2 "/b"); EvUnmount (mkPoint 1 "/a"); EvRemove]).
  vm_compute. reflexivity.
Defined.
