(* ===== verification/Guards.v ===== *)
(** * Pre-mount guards (internal/mounter: scaffoldguard.go, cachedir.go and the
      device-boundary probe of realpoint.go)

    The walk that refuses to shadow content, over a model of the directory
    tree; the cache-directory redirection; the functional readiness probe. *)
From Stdlib Require Import Ascii String.
From stdpp Require Import base list strings numbers sets.
From S2P Require Import Prelude GoErrors GoPath Regex MountCfg Orchestrator.
Local Open Scope Z_scope.

(** ** The scaffold walk *)
Definition scaffoldWalkEntryCeiling : Z := 4096.

(** A directory tree as os.ReadDir shows it: a directory that cannot be read
    (or is not there) carries the error. *)
Inductive node : Type :=
| NNonDir
| NUnreadable (e : error)
| NDir (entries : list (string * node)).

Definition classifyDestReadError (dest dir : string) (err : error) : error :=
  if bool_decide (dir = dest) && errors_Is err os_ErrNotExist then
    EErrorf "mount destination %q does not exist" [AStr dest] []
  else if errors_Is err syscall_ENOTCONN then
    EErrorf "a stale disconnected mount is still attached at %q (a previous mount instance exited without a clean detach); lazy-unmount it (umount -l) and restart the mount: %w" [AStr dir] [err]
  else EErrorf "inspecting mount destination %q: %w" [AStr dest] [err].

Definition err_ceiling_at (dir : string) : error :=
  EErrorf "refusing to shadow existing content at %q: more than %d entries under the mount destination; empty the destination and restart the mount" [AStr dir; AInt scaffoldWalkEntryCeiling] [].
Definition err_content_at (p : string) : error :=
  EErrorf "refusing to shadow existing content at %q: the mount destination must hold only empty directories (the baked scaffold); remove the entry and restart the mount" [AStr p] [].

(** The recursive closure, with the shared entry counter threaded through. *)
Fixpoint walk (dest dir : string) (n : node) (seen : Z) {struct n} : option error * Z :=
  match n with
  | NNonDir => (Some (classifyDestReadError dest dir (errors_New "not a directory")), seen)
  | NUnreadable e => (Some (classifyDestReadError dest dir e), seen)
  | NDir entries =>
      (fix loop (es : list (string * node)) (seen : Z) {struct es} : option error * Z :=
         match es with
         | [] => (None, seen)
         | (name, child) :: es' =>
             let seen := seen + 1 in
             if seen >? scaffoldWalkEntryCeiling then (Some (err_ceiling_at dir), seen)
             else
               let p := Join [dir; name] in
               match child with
               | NNonDir => (Some (err_content_at p), seen)
               | _ => match walk dest p child seen with
                      | (Some e, seen') => (Some e, seen')
                      | (None, seen') => loop es' seen'
                      end
               end
         end) entries seen
  end.

Definition ensureMountpointShadowsNoContent (dest : string) (root : node) : option error :=
  fst (walk dest dest root 0).

(** The scaffold shape: directories all the way down. *)
Inductive only_dirs : node → Prop :=
| only_dirs_intro entries : Forall (λ e, only_dirs e.2) entries → only_dirs (NDir entries).

(** Entries below a node. *)
Fixpoint entry_count (n : node) : Z :=
  match n with
  | NDir entries => (fix sum es := match es with [] => 0 | (_, c) :: es' => 1 + entry_count c + sum es' end) entries
  | _ => 0
  end.

Fixpoint entries_count (es : list (string * node)) : Z :=
  match es with [] => 0 | (_, c) :: es' => 1 + entry_count c + entries_count es' end.

(** The loop of [walk] by itself. *)
Fixpoint walk_entries (dest dir : string) (es : list (string * node)) (seen : Z) : option error * Z :=
  match es with
  | [] => (None, seen)
  | (name, child) :: es' =>
      let seen := seen + 1 in
      if seen >? scaffoldWalkEntryCeiling then (Some (err_ceiling_at dir), seen)
      else
        let p := Join [dir; name] in
        match child with
        | NNonDir => (Some (err_content_at p), seen)
        | _ => match walk dest p child seen with
               | (Some e, seen') => (Some e, seen')
               | (None, seen') => walk_entries dest dir es' seen'
               end
        end
  end.

Lemma walk_dir dest dir es seen : walk dest dir (NDir es) seen = walk_entries dest dir es seen.
Proof.
  simpl. revert seen. induction es as [|[name c] es IH]; intros seen; simpl; [done|].
  destruct (_ >? _); [done|]. destruct c; try done; destruct (walk _ _ _ _) as [[e|] s]; auto.
Qed.

Lemma entry_count_dir es : entry_count (NDir es) = entries_count es.
Proof. simpl. induction es as [|[? c] es IH]; simpl; [done|]. by rewrite IH. Qed.

(** Induction over the tree with its entry lists. *)
Fixpoint node_rect' (P : node → Prop) (Hn : P NNonDir) (Hu : ∀ e, P (NUnreadable e))
    (Hd : ∀ es, Forall (λ e, P e.2) es → P (NDir es)) (n : node) : P n :=
  match n with
  | NNonDir => Hn
  | NUnreadable e => Hu e
  | NDir es => Hd es ((fix all (l : list (string * node)) : Forall (λ e, P e.2) l :=
      match l with
      | [] => Forall_nil_2 _
      | (s, c) :: l' => Forall_cons_2 _ (s, c) l' (node_rect' P Hn Hu Hd c) (all l')
      end) es)
  end.

Lemma entry_count_nonneg n : 0 <= entry_count n.
Proof.
  induction n as [| |es IH] using node_rect'; [done|done|]. rewrite entry_count_dir.
  induction IH as [|[s c] es Hc _ IHes]; simpl in *; lia.
Qed.

Lemma only_dirs_dir es : only_dirs (NDir es) ↔ Forall (λ e, only_dirs e.2) es.
Proof. split; [intros H; by inversion H|by constructor]. Qed.

(** What a walk reports, for any node and counter within the ceiling. *)
Definition walk_spec (n : node) : Prop :=
  ∀ dest dir seen, 0 <= seen <= scaffoldWalkEntryCeiling →
    (walk dest dir n seen = (None, seen + entry_count n) ∧ only_dirs n ∧ seen + entry_count n <= scaffoldWalkEntryCeiling) ∨
    (∃ e s, walk dest dir n seen = (Some e, s) ∧ s <= scaffoldWalkEntryCeiling + 1 ∧
            ¬ (only_dirs n ∧ seen + entry_count n <= scaffoldWalkEntryCeiling)).

Lemma walk_entries_spec es : Forall (λ e, walk_spec e.2) es →
  ∀ dest dir seen, 0 <= seen <= scaffoldWalkEntryCeiling →
    (walk_entries dest dir es seen = (None, seen + entries_count es) ∧ Forall (λ e, only_dirs e.2) es ∧
       seen + entries_count es <= scaffoldWalkEntryCeiling) ∨
    (∃ e s, walk_entries dest dir es seen = (Some e, s) ∧ s <= scaffoldWalkEntryCeiling + 1 ∧
            ¬ (Forall (λ e, only_dirs e.2) es ∧ seen + entries_count es <= scaffoldWalkEntryCeiling)).
Proof.
  assert (∀ l, 0 <= entries_count l) as Hnn.
  { intros l. rewrite <-entry_count_dir. apply entry_count_nonneg. }
  induction 1 as [|[name c] es Hc Hes IH]; intros dest dir seen Hseen; simpl; [|simpl in Hc].
  { left. rewrite Z.add_0_r. split; [done|]. split; [constructor|lia]. }
  pose proof (entry_count_nonneg c). pose proof (Hnn es).
  destruct (Z.gtb_spec (seen + 1) scaffoldWalkEntryCeiling).
  { right. eexists _, _. split; [done|]. split; [lia|]. intros [_ ?]. lia. }
  destruct (Hc dest (Join [dir; name]) (seen + 1) ltac:(lia)) as [(Hw & Hd & Hle)|(e & s & Hw & Hs & Hno)].
  - assert (match c with
      | NNonDir => (Some (err_content_at (Join [dir; name])), seen + 1)
      | _ => match walk dest (Join [dir; name]) c (seen + 1) with
             | (Some e, seen') => (Some e, seen')
             | (None, seen') => walk_entries dest dir es seen' end
      end = walk_entries dest dir es (seen + 1 + entry_count c)) as ->.
    { destruct c; [by inversion Hd|by inversion Hd|]. by rewrite Hw. }
    destruct (IH dest dir (seen + 1 + entry_count c) ltac:(lia)) as [(Hw' & Hd' & Hle')|(e & s & Hw' & Hs & Hno)].
    + left. rewrite Hw'. split; [f_equal; lia|]. split; [by constructor|lia].
    + right. exists e, s. split; [done|]. split; [done|]. intros [Hall Hcnt].
      apply Hno. apply Forall_cons_1 in Hall as [_ ?]. split; [done|lia].
  - right.
    assert (∃ e s, match c with
      | NNonDir => (Some (err_content_at (Join [dir; name])), seen + 1)
      | _ => match walk dest (Join [dir; name]) c (seen + 1) with
             | (Some e, seen') => (Some e, seen')
             | (None, seen') => walk_entries dest dir es seen' end
      end = (Some e, s) ∧ s <= scaffoldWalkEntryCeiling + 1) as (e' & s' & -> & Hs').
    { destruct c; [eexists _, _; split; [done|lia]|rewrite Hw; eauto..]. }
    exists e', s'. split; [done|]. split; [done|]. intros [Hall Hcnt].
    apply Hno. apply Forall_cons_1 in Hall as [? _]. split; [done|lia].
Qed.

Lemma walk_correct n : walk_spec n.
Proof.
  induction n as [|e|es IH] using node_rect'; intros dest dir seen Hseen.
  - right. eexists _, _. split; [done|]. split; [lia|]. intros [H _]. inversion H.
  - right. eexists _, _. split; [done|]. split; [lia|]. intros [H _]. inversion H.
  - rewrite walk_dir, entry_count_dir. setoid_rewrite only_dirs_dir. by apply walk_entries_spec.
Qed.

(** C34: the pre-mount guard accepts exactly the scaffold: the mount proceeds
    precisely when every entry at any depth under the destination is a readable
    directory and there are at most 4096 of them; any file, symlink or
    unreadable directory anywhere, or a wider tree, refuses the mount, after
    looking at no more than 4097 entries. *)
Theorem scaffold_guard_exact (dest : string) (root : node) :
  (ensureMountpointShadowsNoContent dest root = None ↔
     only_dirs root ∧ entry_count root <= scaffoldWalkEntryCeiling) ∧
  snd (walk dest dest root 0) <= scaffoldWalkEntryCeiling + 1.
Proof.
  unfold ensureMountpointShadowsNoContent.
  destruct (walk_correct root dest dest 0 ltac:(done)) as [(-> & Hd & Hle)|(e & s & -> & Hs & Hno)]; simpl.
  - split; [naive_solver|lia].
  - split; [naive_solver|done].
Qed.

(** ** The cache directory (cachedir.go) *)

(** What the filesystem answers for a candidate directory: [os.MkdirAll] and
    [os.CreateTemp] succeed. *)
Class CacheFS := { MkdirAll_ok : string → bool; CreateTemp_ok : string → bool }.

Section cachedir.
Context {CF : CacheFS}.
Variables (posture_CacheTmpfs TempDir : string).
(** [config.SetCacheDir]: [Some] is its error. *)
Variable SetCacheDir_err : string → option error.

Definition dirIsWritable (dir : string) : bool :=
  if decide (dir = "") then false
  else if negb (MkdirAll_ok dir) then false
  else CreateTemp_ok dir.

Definition cache_candidates : list string := [Join [posture_CacheTmpfs; "rclone"]; Join [TempDir; "rclone"]].

Fixpoint try_candidates (current : string) (dirs : list string) : result error string :=
  match dirs with
  | [] => Err (EErrorf "no writable VFS cache directory: default %q and fallbacks are all read-only (SEC-46 cache would silently disable)" [AStr current] [])
  | dir :: dirs' =>
      if decide (dir = current) then try_candidates current dirs'
      else if dirIsWritable dir then
        match SetCacheDir_err dir with
        | Some e => Err (EErrorf "redirect VFS cache dir to %q: %w" [AStr dir] [e])
        | None => Ok dir
        end
      else try_candidates current dirs'
  end.

(** The cache dir in force afterwards, or the error. *)
Definition EnsureWritableCacheDir (current : string) : result error string :=
  if dirIsWritable current then Ok current else try_candidates current cache_candidates.

(** After the check the cache directory in force is writable: a writable
    configured directory is kept, otherwise the first writable fallback other
    than it is taken, and the check fails exactly when none of them can be
    used. *)
Theorem cache_dir_writable (current : string) :
  match EnsureWritableCacheDir current with
  | Ok dir => dirIsWritable dir = true ∧ (dirIsWritable current = true → dir = current) ∧
              (dir = current ∨ dir ∈ cache_candidates)
  | Err _ => dirIsWritable current = false ∧
             ((∀ dir, dir ∈ cache_candidates → dirIsWritable dir = false) ∨
              ∃ dir, dir ∈ cache_candidates ∧ is_Some (SetCacheDir_err dir))
  end.
Proof.
  unfold EnsureWritableCacheDir. destruct (dirIsWritable current) eqn:Hc; [auto|].
  assert (∀ dirs, match try_candidates current dirs with
    | Ok dir => dirIsWritable dir = true ∧ (false = true → dir = current) ∧ (dir = current ∨ dir ∈ dirs)
    | Err _ => false = false ∧ ((∀ dir, dir ∈ dirs → dirIsWritable dir = false) ∨
                                ∃ dir, dir ∈ dirs ∧ is_Some (SetCacheDir_err dir))
    end) as H; [|apply H].
  induction dirs as [|d dirs IH]; simpl.
  { split; [done|]. left. intros ? []%elem_of_nil. }
  case_decide as Hd; [|destruct (dirIsWritable d) eqn:Hw; [destruct (SetCacheDir_err d) eqn:Hs|]].
  - subst. destruct (try_candidates current dirs); set_solver.
  - split; [done|]. right. exists d. split; [left|by rewrite Hs].
  - split; [done|]. split; [done|]. right. left.
  - destruct (try_candidates current dirs); set_solver.
Qed.
End cachedir.

(** ** The device-boundary probe (realpoint.go) *)
Section serves.
(** [os.Stat] with its device number; [None] is an error or a foreign
    [Sys()]. *)
Variable stat_dev : string → option Z.

Definition mountServes (dest : string) : bool :=
  let cleanDest := Clean dest in
  let parentPath := Dir cleanDest in
  if decide (parentPath = cleanDest) then false
  else match stat_dev cleanDest, stat_dev parentPath with
       | Some d, Some p => negb (d =? p)
       | _, _ => false
       end.

Lemma Dir_path_of cs : Forall comp_ok cs → Dir (path_of cs) = path_of (removelast cs).
Proof.
  intros Hok. unfold Dir. rewrite split_path_of by done.
  destruct cs as [|c cs _] using rev_ind; [reflexivity|].
  rewrite removelast_last.
  replace ("" :: match cs ++ [c] with [] => [""] | _ => cs ++ [c] end) with (("" :: cs) ++ [c]) by (by destruct cs).
  rewrite rev_app_distr. change (rev [c] ++ rev ("" :: cs)) with (c :: rev ("" :: cs)).
  apply Forall_app in Hok as [Hcs _].
  destruct (rev ("" :: cs)) as [|d ds] eqn:E.
  { apply (f_equal (@rev string)) in E. by rewrite rev_involutive in E. }
  rewrite <-E, rev_involutive.
  destruct cs as [|x cs]; [reflexivity|].
  replace (join_with slash (("" :: x :: cs) ++ [""])) with (String slash (join_with slash ((x :: cs) ++ [""]))) by reflexivity.
  rewrite Clean_rooted. rewrite split_join; [| by destruct cs | apply Forall_app; split; [by apply comp_ok_noslash|by repeat constructor]].
  unfold path_of. f_equal.
  assert (∀ stk l, Forall comp_ok l → clean_comps true stk (l ++ [""]) = rev stk ++ l) as H.
  { clear. intros stk l Hl. revert stk. induction Hl as [|y l (?&?&?&?) Hl IH]; intros stk; [simpl; by rewrite app_nil_r|].
    simpl. rewrite !decide_False by done. rewrite IH. simpl. by rewrite <-app_assoc. }
  rewrite H by done. done.
Qed.

Lemma removelast_path_ne cs : Forall comp_ok cs → cs ≠ [] → path_of (removelast cs) ≠ path_of cs.
Proof.
  intros Hok Hne. destruct cs as [|c cs _] using rev_ind; [done|]. rewrite removelast_last.
  pose proof (proj1 (proj1 (Forall_app _ _ _) Hok)) as Hl.
  intros H%path_of_inj; [|done..]. apply (f_equal length) in H. rewrite length_app in H. simpl in H. lia.
Qed.

(** The functional readiness probe is a device-boundary test between the
    destination and its real parent, however the destination is spelled
    (trailing or doubled slashes, dot components): it succeeds exactly when
    both can be examined and lie on different devices, and never for the
    filesystem root. *)
Theorem mountServes_boundary (dest : string) (Hdest : destination dest) :
  mountServes dest = true ↔
    comps dest ≠ [] ∧ ∃ d p, stat_dev (path_of (comps dest)) = Some d ∧
      stat_dev (path_of (removelast (comps dest))) = Some p ∧ d ≠ p.
Proof.
  destruct (Clean_dest dest Hdest) as [Hc Hok]. unfold mountServes. rewrite Hc, Dir_path_of by done.
  destruct (decide (comps dest = [])) as [He|He].
  - rewrite He. simpl. split; [done|]. by intros [? _].
  - rewrite decide_False by (by apply removelast_path_ne).
    destruct (stat_dev (path_of (comps dest))) as [d|], (stat_dev (path_of (removelast (comps dest)))) as [p|];
      try naive_solver.
    destruct (Z.eqb_spec d p); simpl; naive_solver.
Qed.
End serves.

Lemma mountServes_boundary_witness :
  let stat p := if decide (p = "/mnt/foo") then Some 7 else if decide (p = "/mnt") then Some 1 else None in
  mountServes stat "/mnt//foo/" = true.
Proof.
  intros stat. apply (proj2 (mountServes_boundary stat "/mnt//foo/" ltac:(by eexists _, _))).
  split; [discriminate|]. exists 7, 1. repeat split; discriminate.
Defined.
