(* ===== verification/MountOptions.v ===== *)
(** * Option mapping (internal/mounter: options.go, directmount.go,
      directmount_readonly_linux.go, directmount_readonly_darwin.go)

    The VFS, mount and FUSE options of one config mount, and the configmap its
    backend is built from.  rclone's parsers ([CacheMode.Set], [SizeSuffix.Set],
    [Duration.Set], [FileMode.Set]), its registered defaults and configstruct
    are arguments. *)
From Stdlib Require Import Ascii String.
From stdpp Require Import base list strings numbers gmap sets.
From S2P Require Import Prelude GoErrors GoIO GoFloat GoPath BrokerErrors Messages Client Cursor Download Upload Ocufs Regex MountCfg.
Local Open Scope Z_scope.

(** ** VFS options *)

Definition isAllDigits (s : string) : bool :=
  if decide (s = "") then false else all_chars is_digit_char s.

Section vfs.
Context {CacheMode Rest : Type}.

(** The fields buildVFSOptions sets, and everything it leaves at the
    registered default. *)
Record VFSOptions := mkVFSOptions {
  vo_CacheMode : CacheMode; vo_CacheMaxSize : Z; vo_DirCacheTime : Z; vo_WriteBack : Z;
  vo_DirPerms : Z; vo_FilePerms : Z; vo_Umask : Z; vo_ReadOnly : bool; vo_rest : Rest }.

Variable vfscommon_Opt : VFSOptions.
Variable CacheMode_Set : string → result error CacheMode.
Variable SizeSuffix_Set : string → result error Z.
Variable Duration_Set : string → result error Z.
Variable FileMode_Set : string → result error Z.

Definition wrap_opt {A} (field value : string) (r : result error A) : result error A :=
  match r with Ok a => Ok a | Err e => Err (EErrorf (field +:+ " %q: %w") [AStr value] [e]) end.

(** [time.Duration(seconds) * time.Second] as int64. *)
Definition dir_cache_time (m : Mount) : Z :=
  int64_wrap (from_option id 0 (m_CacheDurationS m) * time_Second).

Definition write_back (m : Mount) : result error Z :=
  if decide (m_VfsWriteBack m = "") then Ok (vo_WriteBack vfscommon_Opt)
  else match wrap_opt "vfs_write_back" (m_VfsWriteBack m) (Duration_Set (m_VfsWriteBack m)) with
       | Err e => Err e
       | Ok wb => if wb <=? 0 then Err (EErrorf "vfs_write_back %q: must be a positive duration" [AStr (m_VfsWriteBack m)] [])
                  else Ok wb
       end.

Definition buildVFSOptions (m : Mount) (readOnly : bool) : result error VFSOptions :=
  match wrap_opt "vfs_cache_mode" (m_VfsCacheMode m) (CacheMode_Set (m_VfsCacheMode m)) with
  | Err e => Err e
  | Ok mode =>
    let rawSize := if isAllDigits (m_VfsCacheMaxSize m) then m_VfsCacheMaxSize m +:+ "B" else m_VfsCacheMaxSize m in
    match wrap_opt "vfs_cache_max_size" (m_VfsCacheMaxSize m) (SizeSuffix_Set rawSize) with
    | Err e => Err e
    | Ok size =>
      match write_back m with
      | Err e => Err e
      | Ok wb =>
        match wrap_opt "dir_perms" (m_DirPerms m) (FileMode_Set (m_DirPerms m)) with
        | Err e => Err e
        | Ok dirPerms =>
          match wrap_opt "file_perms" (m_FilePerms m) (FileMode_Set (m_FilePerms m)) with
          | Err e => Err e
          | Ok filePerms =>
              Ok (mkVFSOptions mode size (dir_cache_time m) wb dirPerms filePerms 0 readOnly (vo_rest vfscommon_Opt))
          end
        end
      end
    end
  end.

(** rclone's size suffixes, as documented: B counts bytes, K to T their binary
    multiples.  The count goes through a float64, so it is taken as written only
    up to [exact_count]. *)
Definition decimal (s : string) : Z := fold_left (λ acc c, acc * 10 + (Z.of_N (N_of_ascii c) - 48)) (bytes_of_string s) 0.

Definition suffix_mult : list (string * Z) :=
  [("B", 1); ("K", 2 ^ 10); ("M", 2 ^ 20); ("G", 2 ^ 30); ("T", 2 ^ 40)].

Definition exact_count : Z := 2 ^ 53.

Definition SizeSuffixLaw : Prop :=
  ∀ n suffix mult, n ≠ "" → digits n → (suffix, mult) ∈ suffix_mult → decimal n <= exact_count → in_int64 (decimal n * mult) →
    SizeSuffix_Set (n +:+ suffix) = Ok (decimal n * mult).

Lemma all_chars_app p s t : all_chars p (s +:+ t) = all_chars p s && all_chars p t.
Proof. induction s as [|c s IH]; [done|]. rewrite string_app_cons. simpl. rewrite IH. by rewrite andb_assoc. Qed.

Lemma isAllDigits_digits n : n ≠ "" → isAllDigits n = all_chars is_digit_char n.
Proof. intros. unfold isAllDigits. by rewrite decide_False. Qed.

(** C40: the cache cap is what the config declares: a byte size the loader
    accepts whose count is at most 2^53 becomes exactly that many bytes, a bare
    number counting bytes (not rclone's KiB) and the suffixes K to T the binary
    multiples. *)
Theorem cache_cap_bytes (m : Mount) (readOnly : bool) (opt : VFSOptions) (n suffix : string) (mult : Z)
    (Hlaw : SizeSuffixLaw) (Hok : buildVFSOptions m readOnly = Ok opt)
    (Hsize : m_VfsCacheMaxSize m = n +:+ suffix) (Hn : n ≠ "") (Hdigits : digits n)
    (Hsuffix : (suffix, mult) ∈ ("", 1) :: suffix_mult) (Hexact : decimal n <= exact_count) (Hfits : in_int64 (decimal n * mult)) :
  vo_CacheMaxSize opt = decimal n * mult.
Proof.
  unfold buildVFSOptions in Hok.
  destruct (wrap_opt _ _ (CacheMode_Set _)); [|done].
  assert ((if isAllDigits (m_VfsCacheMaxSize m) then m_VfsCacheMaxSize m +:+ "B" else m_VfsCacheMaxSize m)
          = n +:+ (if decide (suffix = "") then "B" else suffix)) as Hraw.
  { rewrite Hsize. rewrite isAllDigits_digits by (destruct n; done). rewrite all_chars_app.
    unfold digits in Hdigits. rewrite Hdigits. simpl.
    unfold suffix_mult in Hsuffix. rewrite !elem_of_cons, elem_of_nil in Hsuffix.
    destruct Hsuffix as [H|[H|[H|[H|[H|[H|[]]]]]]]; injection H as -> ->; simpl; by rewrite ?string_app_nil_r. }
  assert (SizeSuffix_Set (n +:+ (if decide (suffix = "") then "B" else suffix)) = Ok (decimal n * mult)) as Hset.
  { apply Hlaw; [done|done| |done|done]. unfold suffix_mult in *. rewrite !elem_of_cons, elem_of_nil in *.
    destruct Hsuffix as [H|[H|[H|[H|[H|[H|[]]]]]]]; injection H as -> ->; simpl; auto 10. }
  rewrite Hraw, Hset in Hok. simpl in Hok.
  destruct (write_back m); [|done]. destruct (wrap_opt _ _ (FileMode_Set _)); [|done].
  destruct (wrap_opt _ _ (FileMode_Set _)); [|done]. by simplify_eq.
Qed.

(** The mapped VFS options: permissions and cache mode as parsed, umask
    0, the posture's read-only flag, a write-back delay that is the
    registered default when absent and otherwise strictly positive, and every
    unmapped option at its registered default. *)
Theorem buildVFSOptions_spec (m : Mount) (readOnly : bool) (opt : VFSOptions)
    (Hok : buildVFSOptions m readOnly = Ok opt) :
  CacheMode_Set (m_VfsCacheMode m) = Ok (vo_CacheMode opt) ∧
  FileMode_Set (m_DirPerms m) = Ok (vo_DirPerms opt) ∧ FileMode_Set (m_FilePerms m) = Ok (vo_FilePerms opt) ∧
  vo_Umask opt = 0 ∧ vo_ReadOnly opt = readOnly ∧ vo_rest opt = vo_rest vfscommon_Opt ∧
  (if decide (m_VfsWriteBack m = "") then vo_WriteBack opt = vo_WriteBack vfscommon_Opt
   else Duration_Set (m_VfsWriteBack m) = Ok (vo_WriteBack opt) ∧ 0 < vo_WriteBack opt) ∧
  vo_DirCacheTime opt = dir_cache_time m.
Proof.
  unfold buildVFSOptions, write_back, wrap_opt in Hok.
  destruct (CacheMode_Set (m_VfsCacheMode m)); [|done].
  destruct (SizeSuffix_Set _); [|done].
  destruct (decide (m_VfsWriteBack m = "")).
  - destruct (FileMode_Set (m_DirPerms m)); [|done]. destruct (FileMode_Set (m_FilePerms m)); [|done].
    by simplify_eq.
  - destruct (Duration_Set (m_VfsWriteBack m)) as [wb|]; [|done].
    destruct (Z.leb_spec wb 0); [done|].
    destruct (FileMode_Set (m_DirPerms m)); [|done]. destruct (FileMode_Set (m_FilePerms m)); [|done].
    by simplify_eq.
Qed.
End vfs.

(** The directory-cache window is the configured number of seconds up to
    9223372036, and beyond that the product leaves int64: the first value past
    the bound, which the config loader accepts, yields a negative window. *)
Theorem dir_cache_time_overflow (m : Mount) (s : Z) :
  m_CacheDurationS m = Some s →
  (0 <= s <= 9223372036 → dir_cache_time m = s * time_Second) ∧
  (s = 9223372037 → dir_cache_time m < 0).
Proof.
  intros Hs. unfold dir_cache_time. rewrite Hs. simpl. unfold time_Second. split.
  - intros H. apply int64_wrap_id. unfold in_int64, int64_min, int64_max. lia.
  - intros ->. vm_compute. done.
Qed.

Definition long_cache : Mount :=
  mkMount "/mnt/a" "tok" (Some "fs-1") None (Some true) "full" (Some 9223372037) "1G" "0755" "0644" "".

Lemma dir_cache_time_overflow_witness : valid_mount long_cache ∧ dir_cache_time long_cache < 0.
Proof.
  split.
  - apply (validateMount_None 0). vm_compute. reflexivity.
  - apply (proj2 (dir_cache_time_overflow long_cache 9223372037 eq_refl)). reflexivity.
Defined.


(** A parser obeying the documented suffixes, for the witnesses. *)
Fixpoint suffix_Set (acc : Z) (seen : bool) (s : string) : result error Z :=
  match s with
  | "" => if seen then Ok (acc * 1024) else Err (errors_New "empty string")
  | String c s' =>
      if is_digit_char c then suffix_Set (acc * 10 + (Z.of_N (N_of_ascii c) - 48)) true s'
      else match list_find (λ p, p.1 = s) suffix_mult with
           | Some (_, (_, mult)) => Ok (acc * mult)
           | None => Err (errors_New "bad suffix")
           end
  end.

Lemma suffix_Set_law : SizeSuffixLaw (suffix_Set 0 false).
Proof.
  assert (∀ n suffix mult acc seen, digits n → (suffix, mult) ∈ suffix_mult →
    suffix_Set acc seen (n +:+ suffix) =
      Ok (fold_left (λ acc c, acc * 10 + (Z.of_N (N_of_ascii c) - 48)) (bytes_of_string n) acc * mult)) as H.
  { intros n. induction n as [|c n IH]; intros suffix mult acc seen Hn Hs.
    - change ("" +:+ suffix) with suffix. unfold suffix_mult in Hs. rewrite !elem_of_cons, elem_of_nil in Hs.
      destruct Hs as [H|[H|[H|[H|[H|[]]]]]]; injection H as -> ->; reflexivity.
    - rewrite string_app_cons. unfold digits in Hn. simpl in Hn. apply andb_true_iff in Hn as [Hc Hn].
      simpl. rewrite Hc. by apply IH. }
  intros n suffix mult _ Hn Hs _ _. by apply H.
Qed.

Definition demo_vfs_defaults : @VFSOptions string unit := mkVFSOptions "off" (-1) 300 5000000000 511 438 18 false tt.

Definition demo_build (m : Mount) : result error (@VFSOptions string unit) :=
  buildVFSOptions demo_vfs_defaults (λ s, Ok s) (suffix_Set 0 false) (λ _, Ok 1000000000) (λ _, Ok 420) m true.

Definition unitless : Mount :=
  mkMount "/mnt/a" "tok" (Some "fs-1") None (Some true) "full" (Some 3) "1048576" "0755" "0644" "1s".

(** The first count that is not taken as written. *)
Example count_rounds : ParseFloat "9007199254740993" = ParseFloat "9007199254740992".
Proof. reflexivity. Qed.

Lemma cache_cap_bytes_witness :
  ∃ opt, demo_build unitless = Ok opt ∧ vo_CacheMaxSize opt = 1048576.
Proof.
  eexists. split; [reflexivity|].
  apply (cache_cap_bytes demo_vfs_defaults (λ s, Ok s) (suffix_Set 0 false) (λ _, Ok 1000000000) (λ _, Ok 420)
    unitless true _ "1048576" "" 1 suffix_Set_law eq_refl eq_refl ltac:(discriminate) eq_refl).
  - left.
  - discriminate.
  - unfold in_int64, int64_min, int64_max. vm_compute. split; discriminate.
Defined.

Lemma buildVFSOptions_spec_witness :
  ∃ opt, demo_build unitless = Ok opt ∧ vo_Umask opt = 0 ∧ 0 < vo_WriteBack opt.
Proof.
  eexists. split; [reflexivity|].
  pose proof (buildVFSOptions_spec demo_vfs_defaults (λ s, Ok s) (suffix_Set 0 false) (λ _, Ok 1000000000) (λ _, Ok 420)
    unitless true _ eq_refl) as (_ & _ & _ & H1 & _ & _ & [_ H2] & _).
  split; [exact H1|exact H2].
Defined.

(** ** Mount and FUSE options *)

(** mountlib.Options, the fields the code reads or sets. *)
Record MountlibOptions := mkMountlib {
  lo_AllowOther : bool; lo_AllowNonEmpty : bool; lo_AllowRoot : bool;
  lo_ExtraFlags : list string; lo_ExtraOptions : list string; lo_WritebackCache : bool;
  lo_DeviceName : string; lo_DebugFUSE : bool; lo_MaxReadAhead : Z;
  lo_DefaultPermissions : bool; lo_VolumeName : string; lo_AttrTimeout : Z }.

Definition buildMountOptions (mountlib_Opt : MountlibOptions) (_ : Mount) : MountlibOptions :=
  let '(mkMountlib _ _ ar ef eo wc dn df ra dp vn at_) := mountlib_Opt in
  mkMountlib true true ar ef eo wc dn df ra dp vn at_.

(** go-fuse's MountOptions, the fields the code sets. *)
Record FuseMountOptions := mkFuse {
  fo_AllowOther : bool; fo_FsName : string; fo_Name : string; fo_DisableXAttrs : bool; fo_Debug : bool;
  fo_MaxReadAhead : Z; fo_MaxWrite : Z; fo_DisableReadDirPlus : bool; fo_DirectMountStrict : bool;
  fo_DirectMountFlags : Z; fo_Options : list string }.

Definition MS_RDONLY : Z := 1.
Definition MS_NOSUID : Z := 2.
Definition MS_NODEV : Z := 4.

Definition set_flags (flags : Z) (mo : FuseMountOptions) : FuseMountOptions :=
  mkFuse (fo_AllowOther mo) (fo_FsName mo) (fo_Name mo) (fo_DisableXAttrs mo) (fo_Debug mo)
    (fo_MaxReadAhead mo) (fo_MaxWrite mo) (fo_DisableReadDirPlus mo) (fo_DirectMountStrict mo) flags (fo_Options mo).

Definition set_options (opts : list string) (mo : FuseMountOptions) : FuseMountOptions :=
  mkFuse (fo_AllowOther mo) (fo_FsName mo) (fo_Name mo) (fo_DisableXAttrs mo) (fo_Debug mo)
    (fo_MaxReadAhead mo) (fo_MaxWrite mo) (fo_DisableReadDirPlus mo) (fo_DirectMountStrict mo)
    (fo_DirectMountFlags mo) opts.

(** directmount_readonly_linux.go *)
Definition applyReadOnly_linux (mo : FuseMountOptions) (readOnly : bool) : list string * FuseMountOptions :=
  if negb readOnly then ([], mo)
  else ([], set_flags (Z.lor (Z.lor MS_NOSUID MS_NODEV) MS_RDONLY) mo).

(** directmount_readonly_darwin.go *)
Definition applyReadOnly_darwin (mo : FuseMountOptions) (readOnly : bool) : list string * FuseMountOptions :=
  if negb readOnly then ([], mo) else (["ro"], mo).

Definition buildFuseMountOptions (darwin : bool) (vfsReadOnly : bool) (opt : MountlibOptions) : result error FuseMountOptions :=
  if lo_AllowRoot opt then
    Err (EErrorf "allow-root: only a fusermount-style helper can enforce it and the kernel rejects the option string: %w" [] [ESent errUnsupportedDirectMountOption])
  else if (0 <? length (lo_ExtraFlags opt))%nat then
    Err (EErrorf "extra mount flags %v: helper-era flags have no kernel meaning (use kernel-recognized ExtraOptions instead): %w"
           (map AStr (lo_ExtraFlags opt)) [ESent errUnsupportedDirectMountOption])
  else
    let mo := mkFuse (lo_AllowOther opt) (lo_DeviceName opt) "rclone" false (lo_DebugFUSE opt)
                (lo_MaxReadAhead opt) (1024 * 1024) true true 0 [] in
    let opts := if lo_DefaultPermissions opt then ["default_permissions"] else [] in
    let '(ro, mo) := (if darwin then applyReadOnly_darwin else applyReadOnly_linux) mo vfsReadOnly in
    let opts := opts ++ ro ++ (if darwin then ["volname=" +:+ lo_VolumeName opt; "noapplexattr"; "noappledouble"] else [])
                ++ lo_ExtraOptions opt in
    Ok (set_options opts mo).

(** The node-layer options around them. *)
Record NodeFSOptions := mkNode {
  no_MountOptions : FuseMountOptions; no_EntryTimeout : Z; no_AttrTimeout : Z; no_UID : Z; no_GID : Z }.

Definition buildNodeFSOptions (uid gid : Z) (opt : MountlibOptions) (mo : FuseMountOptions) : NodeFSOptions :=
  mkNode mo (lo_AttrTimeout opt) (lo_AttrTimeout opt) uid gid.

(** The kernel mount's posture on linux.  Options only a userspace helper
    could honour are rejected with the typed error; otherwise the mount is
    always a strict direct mount with xattr ops left to the wrapper, a
    read-only mount carries MS_RDONLY next to the nosuid and nodev bits in the
    flags, a writable one leaves the flags at zero, and the option string holds
    default_permissions (when asked for) and the caller's extra options and
    nothing else, so never a read-only token of the code's own. *)
Theorem fuse_options_posture (readOnly : bool) (opt : MountlibOptions) :
  match buildFuseMountOptions false readOnly opt with
  | Err e => (lo_AllowRoot opt = true ∨ lo_ExtraFlags opt ≠ []) ∧ errors_Is e errUnsupportedDirectMountOption = true
  | Ok mo =>
      lo_AllowRoot opt = false ∧ lo_ExtraFlags opt = [] ∧
      fo_DirectMountStrict mo = true ∧ fo_DisableXAttrs mo = false ∧ fo_AllowOther mo = lo_AllowOther opt ∧
      fo_Options mo = (if lo_DefaultPermissions opt then ["default_permissions"] else []) ++ lo_ExtraOptions opt ∧
      (if readOnly then
         Z.land (fo_DirectMountFlags mo) MS_RDONLY = MS_RDONLY ∧ Z.land (fo_DirectMountFlags mo) MS_NOSUID = MS_NOSUID ∧
         Z.land (fo_DirectMountFlags mo) MS_NODEV = MS_NODEV
       else fo_DirectMountFlags mo = 0)
  end.
Proof.
  unfold buildFuseMountOptions. destruct (lo_AllowRoot opt) eqn:Hr; [simpl; auto|].
  destruct (lo_ExtraFlags opt) as [|x l] eqn:Hx; simpl.
  - by destruct readOnly.
  - auto.
Qed.

(** ** The backend's configmap *)
Definition buildOcufsConfigmap (m : Mount) (readOnly : bool) (serviceURL caCertPEM : string)
    : result error (gmap string string) :=
  match m_MemoryStoreID m with
  | Some _ => Err (EErrorf "mount %q: memory-store mounts are not yet supported (no memory scope axis)" [AStr (m_Destination m)] [])
  | None =>
      match m_FilesystemID m with
      | Some fsid =>
          if decide (fsid = "") then Err (EErrorf "mount %q: filesystem_id is required" [AStr (m_Destination m)] [])
          else Ok (<["read_only" := if readOnly then "true" else "false"]>
                    (<["filesystem_id" := fsid]>
                      (<["ca_cert_pem" := caCertPEM]>
                        (<["auth_token" := m_AuthToken m]>
                          (<["service_url" := serviceURL]> ∅)))))
      | None => Err (EErrorf "mount %q: filesystem_id is required" [AStr (m_Destination m)] [])
      end
  end.

(** The configmap sets every Required option of the backend, and nothing the
    backend does not declare. *)
Lemma buildOcufsConfigmap_keys (m : Mount) (readOnly : bool) (serviceURL caCertPEM : string) (cm : gmap string string) :
  buildOcufsConfigmap m readOnly serviceURL caCertPEM = Ok cm →
  (∀ o, o ∈ fsOptions → opt_Required o = true → is_Some (cm !! opt_Name o)) ∧
  (∀ k v, cm !! k = Some v → ∃ o, o ∈ fsOptions ∧ opt_Name o = k).
Proof.
  unfold buildOcufsConfigmap. destruct (m_MemoryStoreID m); [done|].
  destruct (m_FilesystemID m) as [fsid|]; [|done]. case_decide; [done|]. intros [= <-]. split.
  - assert (∀ k, k ∈ ["read_only"; "service_url"; "filesystem_id"; "auth_token"; "ca_cert_pem"] →
      is_Some ((<["read_only" := if readOnly then "true" else "false"]> (<["filesystem_id" := fsid]>
        (<["ca_cert_pem" := caCertPEM]> (<["auth_token" := m_AuthToken m]>
          (<["service_url" := serviceURL]> (∅ : gmap string string)))))) !! k)) as Hk.
    { intros k Hk. rewrite !lookup_insert_is_Some'. set_solver. }
    intros o Ho Hreq. apply Hk. unfold fsOptions in Ho.
    repeat (apply elem_of_cons in Ho as [->|Ho]; [simpl in *; solve [done | set_solver]|]). by apply elem_of_nil in Ho.
  - intros k v Hk.
    assert (k ∈ map opt_Name fsOptions) as (o & -> & Ho)%list_elem_of_fmap; [|eauto].
    repeat (apply lookup_insert_Some in Hk as [[<- _]|[_ Hk]]; [simpl; set_solver|]). by rewrite lookup_empty in Hk.
Qed.

Section scope.
Variable configstruct_Set : gmap string string → result error Options.
Variable url_Parse : string → result error URL.
Variable AppendCertsFromPEM : bytes → bool.

(** configstruct fills each option from the key its tag names. *)
Definition ConfigstructLaw : Prop :=
  ∀ cm opts, configstruct_Set cm = Ok opts →
    (∀ v, cm !! "service_url" = Some v → op_ServiceURL opts = v) ∧
    (∀ v, cm !! "filesystem_id" = Some v → op_FilesystemID opts = v) ∧
    (∀ v, cm !! "auth_token" = Some v → op_AuthToken opts = v) ∧
    (∀ v, cm !! "ca_cert_pem" = Some v → op_CACertPEM opts = v) ∧
    (cm !! "read_only" = Some "true" → op_ReadOnly opts = true) ∧
    (cm !! "read_only" = Some "false" → op_ReadOnly opts = false).

(** What the seam calls for a spec: info.NewFs(ctx, "ocufs-"+dest, "", cm). *)
Definition spec_fs (ptr : nat) (m : Mount) (readOnly : bool) (serviceURL caCertPEM : string) : result error (Fs * Client) :=
  match buildOcufsConfigmap m readOnly serviceURL caCertPEM with
  | Err e => Err e
  | Ok cm => NewFs configstruct_Set url_Parse AppendCertsFromPEM ptr ("ocufs-" +:+ m_Destination m) "" cm
  end.

(** What a backend built from a spec carries. *)
Lemma spec_fs_fields (ptr : nat) (m : Mount) (readOnly : bool) (serviceURL caCertPEM : string) (f : Fs) (c : Client) :
  ConfigstructLaw → spec_fs ptr m readOnly serviceURL caCertPEM = Ok (f, c) →
  (m_FilesystemID m = Some (c_fsID c) ∧ m_MemoryStoreID m = None ∧ c_fsID c ≠ "") ∧
  (c_authToken c = m_AuthToken m ∧ c_authToken c ≠ "") ∧
  (c_serviceURL c = serviceURL ∧ (∃ u, url_Parse serviceURL = Ok u ∧ u_Scheme u = "https" ∧ u_Host u ≠ "") ∧
   AppendCertsFromPEM (bytes_of_string caCertPEM) = true) ∧
  (fs_readOnly f = readOnly ∧ fs_root f = "" ∧ fs_enc f = defaultEncoding ∧ fs_ptr f = ptr).
Proof.
  intros Hlaw Hok.
  unfold spec_fs, buildOcufsConfigmap in Hok.
  destruct (m_MemoryStoreID m); [done|]. destruct (m_FilesystemID m) as [fsid|]; [|done].
  case_decide as Hid; [done|].
  set (cm := <["read_only" := _]> _) in Hok. unfold NewFs in Hok.
  destruct (configstruct_Set cm) as [opts|] eqn:Hset; [|done].
  destruct (Hlaw cm opts Hset) as (H1 & H2 & H3 & H4 & H5 & H6).
  assert (cm !! "encoding" = None) as Henc by (unfold cm; by simplify_map_eq).
  rewrite Henc in Hok.
  rewrite (H1 serviceURL) in Hok by (unfold cm; by simplify_map_eq).
  rewrite (H2 fsid) in Hok by (unfold cm; by simplify_map_eq).
  rewrite (H3 (m_AuthToken m)) in Hok by (unfold cm; by simplify_map_eq).
  rewrite (H4 caCertPEM) in Hok by (unfold cm; by simplify_map_eq).
  assert (op_ReadOnly opts = readOnly) as Hro.
  { destruct readOnly; [apply H5|apply H6]; unfold cm; by simplify_map_eq. }
  repeat (case_decide; [done|]). unfold New, NewWithOptions in Hok.
  case_decide; [done|]. destruct (url_Parse serviceURL) as [u|] eqn:Hu; [|done].
  repeat (case_decide; [done|]). unfold httpsTransport in Hok.
  destruct (decide (bytes_of_string caCertPEM = [])); [done|].
  destruct (AppendCertsFromPEM _) eqn:Hca; [|done]. simplify_eq/=.
  split_and!; try done. exists u. split; [done|]. split; [|done].
  destruct (decide (u_Scheme u = "https")); [done|]. done.
Qed.

Lemma spec_fs_name (ptr : nat) (m : Mount) (readOnly : bool) (serviceURL caCertPEM : string) (f : Fs) (c : Client) :
  spec_fs ptr m readOnly serviceURL caCertPEM = Ok (f, c) → Name f = "ocufs-" +:+ m_Destination m ∧ Root f = "".
Proof.
  unfold spec_fs, NewFs. destruct (buildOcufsConfigmap _ _ _ _) as [cm|]; [|done].
  destruct (configstruct_Set cm) as [opts|]; [|done]. repeat (case_decide; [done|]).
  destruct (New _ _ _ _ _ _) as [c'|]; [|done]. by intros [= <- _].
Qed.

(** Two mounts never share a VFS.  rclone keeps its active VFSs under the
    backend's config string, which tells names apart at the same root; backends of
    specs with different destinations get different keys. *)
Theorem vfs_keys_distinct (ConfigString : string → string → string)
    (Hinj : ∀ n n' root, ConfigString n root = ConfigString n' root → n = n')
    (ptr ptr' : nat) (m m' : Mount) (ro ro' : bool) (url ca : string) (f f' : Fs) (c c' : Client) :
  spec_fs ptr m ro url ca = Ok (f, c) → spec_fs ptr' m' ro' url ca = Ok (f', c') →
  ConfigString (Name f) (Root f) = ConfigString (Name f') (Root f') → m_Destination m = m_Destination m'.
Proof.
  intros [-> ->]%spec_fs_name [-> ->]%spec_fs_name He%Hinj. by apply (inj (String.append "ocufs-")) in He.
Qed.

(** C10: a mount's backend is scoped exactly by its config entry.  When the
    backend of a spec can be built at all, its client is bound to the mount's
    own filesystem id and token and the session's https service URL, it is
    read-only exactly when the spec says so, it is rooted at the filesystem's
    root, and it runs the real path encoding. *)
Theorem spec_fs_scope (Hlaw : ConfigstructLaw) (ptr : nat) (m : Mount) (readOnly : bool)
    (serviceURL caCertPEM : string) (f : Fs) (c : Client)
    (Hok : spec_fs ptr m readOnly serviceURL caCertPEM = Ok (f, c)) :
  m_FilesystemID m = Some (c_fsID c) ∧ m_MemoryStoreID m = None ∧ c_fsID c ≠ "" ∧
  c_authToken c = m_AuthToken m ∧ c_authToken c ≠ "" ∧
  c_serviceURL c = serviceURL ∧ (∃ u, url_Parse serviceURL = Ok u ∧ u_Scheme u = "https" ∧ u_Host u ≠ "") ∧
  AppendCertsFromPEM (bytes_of_string caCertPEM) = true ∧
  fs_readOnly f = readOnly ∧ fs_root f = "" ∧ fs_enc f = defaultEncoding ∧ fs_ptr f = ptr.
Proof. by destruct (spec_fs_fields ptr m readOnly serviceURL caCertPEM f c Hlaw Hok) as ((? & ? & ?) & (? & ?) & (? & ? & ?) & ? & ? & ? & ?). Qed.
End scope.

Definition demo_Set (cm : gmap string string) : result error Options :=
  Ok (mkOptions (bool_decide (cm !! "read_only" = Some "true")) (default "" (cm !! "service_url"))
        (default "" (cm !! "filesystem_id")) (default "" (cm !! "auth_token")) (default "" (cm !! "ca_cert_pem")) []).

Lemma demo_Set_law : ConfigstructLaw demo_Set.
Proof.
  intros cm opts [= <-]. simpl. split_and!; intros; simplify_option_eq; by simplify_map_eq.
Qed.

Definition demo_Parse (s : string) : result error URL := Ok {| u_Scheme := "https"; u_Host := "edge" |}.

Lemma spec_fs_scope_witness :
  ∃ f c, spec_fs demo_Set demo_Parse (λ _, true) 7 demo_mount true "https://edge" "PEM" = Ok (f, c) ∧
    m_FilesystemID demo_mount = Some (c_fsID c) ∧ fs_readOnly f = true.
Proof.
  eexists _, _. split; [vm_compute; reflexivity|].
  refine (let H := spec_fs_scope demo_Set demo_Parse (λ _, true) demo_Set_law 7 demo_mount true "https://edge" "PEM"
    _ _ ltac:(vm_compute; reflexivity) in _).
  split; [exact (proj1 H)|]. exact (proj1 (proj2 (proj2 (proj2 (proj2 (proj2 (proj2 (proj2 (proj2 H))))))))).
Defined.
