(* ===== verification/RealPoint.v ===== *)
(** * The production mount seam (internal/mounter: realpoint.go, directmount.go,
      xattr_enotsup.go, teardown.go, realpoint_unsupported.go)

    One live point: its mount sequence, the readiness poll, and the guarded
    teardown.  rclone's mountlib and go-fuse are the class arguments below; the
    poll is driven by the observations it makes, one record per iteration. *)
From Stdlib Require Import Ascii String.
From stdpp Require Import base list strings numbers gmap.
From S2P Require Import Prelude GoErrors GoPath BrokerErrors Regex MountCfg Orchestrator Guards MountOptions.
Local Open Scope Z_scope.

Definition time_Millisecond : Z := 1000000.
Definition writebackDrainTimeout : Z := 120 * time_Second.
Definition unmountDetachGrace : Z := 3 * time_Second.
Definition waitMountReadyTimeout : Z := 30 * time_Second.

(** ** Construction *)

(** [newRealPointMounter]: [has_fn] says whether the mount function is there;
    the stub of an unsupported platform has none. *)
Definition newRealPointMounter (has_fn : bool) : option error :=
  if has_fn then None else Some (ESent errMountMethodUnavailable).

Definition defaultRealSeam (supported : bool) : option error :=
  if supported then newRealPointMounter true else Some (ESent errMountMethodUnavailable).

(** ** doUnmount *)

(** The calls a point makes on its mount during teardown. *)
Inductive teardown_call : Type :=
| WaitForWriters (timeout : Z)
| FlushDirCache
| Unmount.

(** A live point.  [rp_done] is the sync.Once together with the cached
    result; [rp_has_vfs] is [mp.VFS != nil]. *)
Record realPoint := mkReal {
  rp_dest : string; rp_has_vfs : bool; rp_detachGrace : Z; rp_done : option (option error) }.

(** What mp.Unmount does within a time window: its result and after how long,
    or never. *)
Inductive detach : Type :=
| DetachAfter (t : Z) (err : option error)
| DetachNever.

Definition doUnmount (p : realPoint) (d : detach) : option error * list teardown_call * realPoint :=
  match rp_done p with
  | Some err => (err, [], p)
  | None =>
      let drain := if rp_has_vfs p then [WaitForWriters writebackDrainTimeout; FlushDirCache] else [] in
      let grace := if rp_detachGrace p =? 0 then unmountDetachGrace else rp_detachGrace p in
      let err := match d with
                 | DetachAfter t e => if t <? grace then e else Some (ESent errDetachDidNotReturn)
                 | DetachNever => Some (ESent errDetachDidNotReturn)
                 end in
      (err, drain ++ [Unmount], mkReal (rp_dest p) (rp_has_vfs p) (rp_detachGrace p) (Some err))
  end.

(** realPointMounter.unmount on one of its own points. *)
Definition unmount (p : realPoint) (d : detach) : option error * list teardown_call * realPoint :=
  let '(err, calls, p') := doUnmount p d in
  match err with
  | Some e => if errors_Is e errDetachDidNotReturn then (None, calls, p') else (Some e, calls, p')
  | None => (None, calls, p')
  end.

(** Several teardown requests on one point, in the order the Once admits
    them. *)
Fixpoint unmounts (p : realPoint) (ds : list detach) : list (option error) * list teardown_call :=
  match ds with
  | [] => ([], [])
  | d :: ds' =>
      let '(err, calls, p') := unmount p d in
      let '(errs, calls') := unmounts p' ds' in (err :: errs, calls ++ calls')
  end.

Definition fresh_point (dest : string) (has_vfs : bool) : realPoint := mkReal dest has_vfs 0 None.

Lemma unmounts_done p err ds : rp_done p = Some err →
  ∃ r, unmounts p ds = (replicate (length ds) r, []) ∧ ∀ d, unmount p d = (r, [], p).
Proof.
  intros Hd.
  assert (∃ r, ∀ d, unmount p d = (r, [], p)) as [r Hr].
  { unfold unmount, doUnmount. rewrite Hd.
    destruct err as [e|]; [destruct (errors_Is e errDetachDidNotReturn)|]; eexists; intros; reflexivity. }
  exists r. split; [|done].
  induction ds as [|d ds IH]; [done|]. simpl. rewrite Hr, IH. done.
Qed.

(** Teardown of a point happens once, drains first, and is bounded.
    However many times and with whatever kernel behaviour unmount is requested,
    the point is unmounted exactly once, after the write-back drain (bounded by
    120 s) and the cache flush when there is a VFS; every request reports the
    same result; and a kernel detach that does not return within the 3 s grace
    counts as success. *)
Theorem unmount_once (dest : string) (has_vfs : bool) (d : detach) (ds : list detach) :
  ∃ r, unmounts (fresh_point dest has_vfs) (d :: ds) =
    (replicate (length (d :: ds)) r,
     (if has_vfs then [WaitForWriters (120 * time_Second); FlushDirCache] else []) ++ [Unmount]) ∧
    match d with
    | DetachNever => r = None
    | DetachAfter t e =>
        if t <? 3 * time_Second then
          match e with Some err => errors_Is err errDetachDidNotReturn = false → r = Some err | None => r = None end
        else r = None
    end.
Proof.
  simpl. unfold unmount at 1, doUnmount. simpl rp_done. cbv iota.
  set (err := match d with DetachAfter _ _ => _ | DetachNever => _ end).
  destruct (unmounts_done (mkReal dest has_vfs 0 (Some err)) err ds eq_refl) as (r & Hu & Hr).
  pose proof (Hr d) as Hd. unfold unmount, doUnmount in Hd. simpl in Hd.
  exists r. simpl rp_dest. simpl rp_has_vfs. simpl rp_detachGrace.
  assert (∀ calls p', (match err with
            | Some e => if errors_Is e errDetachDidNotReturn then (@None error, calls, p') else (Some e, calls, p')
            | None => (None, calls, p') end) = (r, calls : list teardown_call, p' : realPoint)) as Hres.
  { intros calls p'. destruct err as [e|]; [destruct (errors_Is e errDetachDidNotReturn)|]; by injection Hd as ->. }
  rewrite Hres, Hu, app_nil_r. split; [done|].
  subst err. simpl in *. unfold unmountDetachGrace in *.
  destruct d as [t e|]; [|by injection Hd as ->].
  destruct (t <? 3 * time_Second); [|by injection Hd as ->].
  destruct e as [e|]; [|by injection Hd as ->].
  intros He. rewrite He in Hd. by injection Hd as ->.
Qed.

(** ** The readiness poll *)

(** One iteration of waitReady: the clock and context at its start, what the
    two probes say, the clock at the deadline check, and whether the context
    ends during the pause. *)
Record poll := mkPoll {
  po_ctx_err : option error; po_CheckMountReady : option error; po_serves : bool;
  po_now : Z; po_ctx_done : option error }.

Definition err_wait (dest : string) (e : error) : error :=
  EErrorf "mount %q: wait for mount ready: %w" [AStr dest] [e].

(** [None] means the observations ran out before the loop decided. *)
Fixpoint wait_loop (dest : string) (deadline : Z) (polls : list poll) : option (option error) :=
  match polls with
  | [] => None
  | po :: rest =>
      match po_ctx_err po with
      | Some e => Some (Some (err_wait dest e))
      | None =>
          match po_CheckMountReady po with
          | None => Some None
          | Some lastErr =>
              if po_serves po then Some None
              else if negb (po_now po <? deadline) then Some (Some (err_wait dest lastErr))
              else match po_ctx_done po with
                   | Some e => Some (Some (err_wait dest e))
                   | None => wait_loop dest deadline rest
                   end
          end
      end
  end.

Definition waitReady (CanCheckMountReady : bool) (dest : string) (start readyTimeout : Z) (polls : list poll)
    : option (option error) :=
  if negb CanCheckMountReady then Some None
  else wait_loop dest (start + readyTimeout) polls.

(** The pause between iterations is at least the poll interval. *)
Fixpoint paced (now : Z) (polls : list poll) : Prop :=
  match polls with
  | [] => True
  | po :: rest => now <= po_now po ∧ paced (po_now po + 100 * time_Millisecond) rest
  end.

Lemma wait_loop_decides dest deadline polls : ∀ now,
  paced now polls → deadline - now < 100 * time_Millisecond * (Z.of_nat (length polls) - 1) + 1 → polls ≠ [] →
  is_Some (wait_loop dest deadline polls).
Proof.
  induction polls as [|po rest IH]; intros now Hp Hd Hne; [done|]. simpl in *. destruct Hp as [Hnow Hp].
  destruct (po_ctx_err po); [eauto|]. destruct (po_CheckMountReady po); [|eauto].
  destruct (po_serves po); [eauto|]. destruct (Z.ltb_spec (po_now po) deadline); simpl; [|eauto].
  destruct (po_ctx_done po); [eauto|].
  assert (0 < time_Millisecond) by done.
  destruct rest as [|po' rest]; [simpl in Hd; lia|].
  apply (IH _ Hp); [|done]. simpl length in *. lia.
Qed.

(** The verdict of one iteration, if it gives one. *)
Definition ready_poll (po : poll) : bool := bool_decide (po_CheckMountReady po = None) || po_serves po.

Lemma wait_loop_ready dest deadline polls :
  wait_loop dest deadline polls = Some None ↔
  ∃ before po after, polls = before ++ po :: after ∧ po_ctx_err po = None ∧ ready_poll po = true ∧
    Forall (λ q, po_ctx_err q = None ∧ ready_poll q = false ∧ po_now q < deadline ∧ po_ctx_done q = None) before.
Proof.
  induction polls as [|po rest IH]; simpl.
  { split; [done|]. intros ([] & ? & ? & ? & _); done. }
  destruct (po_ctx_err po) eqn:H1.
  { split; [done|]. intros ([|b before] & q & after & Heq & ? & ? & Hall); simplify_eq/=; try congruence.
    apply Forall_cons in Hall as [(? & ?) _]. congruence. }
  destruct (po_CheckMountReady po) as [lastErr|] eqn:H2.
  2: { split; [|done]. intros _. exists [], po, rest. split; [done|]. split; [done|]. split; [|constructor].
       unfold ready_poll. by rewrite H2. }
  destruct (po_serves po) eqn:H3.
  { split; [|done]. intros _. exists [], po, rest. split; [done|]. split; [done|]. split; [|constructor].
    unfold ready_poll. rewrite H3. by rewrite orb_true_r. }
  assert (ready_poll po = false) as Hnr by (unfold ready_poll; rewrite H2, H3; done).
  destruct (Z.ltb_spec (po_now po) deadline) as [Hlt|Hge]; simpl.
  2: { split; [done|]. intros ([|b before] & q & after & Heq & ? & ? & Hall); simplify_eq/=; try congruence.
       apply Forall_cons in Hall as [(? & ? & ? & ?) _]. lia. }
  destruct (po_ctx_done po) eqn:H4.
  { split; [done|]. intros ([|b before] & q & after & Heq & ? & ? & Hall); simplify_eq/=; try congruence.
    apply Forall_cons in Hall as [(? & ? & ? & ?) _]. congruence. }
  rewrite IH. split.
  - intros (before & q & after & -> & ? & ? & Hall). exists (po :: before), q, after. repeat split; try done.
    by constructor.
  - intros ([|b before] & q & after & Heq & ? & ? & Hall); simplify_eq/=; try congruence.
    apply Forall_cons in Hall as [_ Hall]. eauto 10.
Qed.

(** As many polls as fit the timeout plus two always decide. *)
Lemma waitReady_total CanCheck dest start readyTimeout polls :
  paced start polls → readyTimeout / (100 * time_Millisecond) + 2 <= Z.of_nat (length polls) → 0 <= readyTimeout →
  is_Some (waitReady CanCheck dest start readyTimeout polls).
Proof.
  intros Hpaced Hpolls Ht. unfold waitReady. destruct CanCheck; simpl; [|by eexists]. apply (wait_loop_decides dest _ polls start Hpaced).
  - pose proof (Z.mul_succ_div_gt readyTimeout (100 * time_Millisecond) ltac:(done)).
    replace (start + readyTimeout - start) with readyTimeout by lia.
    set (q := readyTimeout / (100 * time_Millisecond)) in *. unfold time_Millisecond in *. nia.
  - intros ->. simpl in Hpolls. pose proof (Z.div_pos readyTimeout (100 * time_Millisecond) Ht ltac:(done)). lia.
Qed.

(** C38: the readiness wait always ends, and says ready only on evidence.  With
    a pause of 100 ms between polls, as many polls as fit the timeout plus two
    always decide; the point is ready exactly when some poll, reached with a
    live context and before the deadline passed, found it in the kernel's mount
    table or across a device boundary. *)
Theorem waitReady_decides (dest : string) (start readyTimeout : Z) (polls : list poll)
    (Hpaced : paced start polls) (Hpolls : readyTimeout / (100 * time_Millisecond) + 2 <= Z.of_nat (length polls)) (Ht : 0 <= readyTimeout) :
  is_Some (waitReady true dest start readyTimeout polls) ∧
  (waitReady true dest start readyTimeout polls = Some None ↔
   ∃ before po after, polls = before ++ po :: after ∧ po_ctx_err po = None ∧ ready_poll po = true ∧
     Forall (λ q, po_ctx_err q = None ∧ ready_poll q = false ∧ po_now q < start + readyTimeout ∧ po_ctx_done q = None) before).
Proof. split; [by apply waitReady_total|apply wait_loop_ready]. Qed.

Lemma waitReady_decides_witness :
  let not_yet now := mkPoll None (Some (errors_New "not mounted")) false now None in
  waitReady true "/mnt/a" 0 200000000 [not_yet 0; not_yet 100000000; mkPoll None (Some (errors_New "not mounted")) true 200000000 None; not_yet 300000000] = Some None.
Proof.
  intros not_yet.
  refine (proj2 (proj2 (waitReady_decides "/mnt/a" 0 200000000 _ _ _ _)) _).
  - simpl. unfold time_Millisecond. lia.
  - vm_compute. discriminate.
  - lia.
  - exists [not_yet 0; not_yet 100000000], (mkPoll None (Some (errors_New "not mounted")) true 200000000 None), [not_yet 300000000].
    split; [reflexivity|]. split; [reflexivity|]. split; [reflexivity|]. repeat constructor.
Defined.

(** ** The direct mount (directmount.go) *)

(** The effects of directMountFn on the FUSE server and the VFS. *)
Inductive direct_call : Type :=
| NewServer (opts : NodeFSOptions)
| Serve
| WaitMount
| ShutdownVFS
| ServerUnmount.

Section direct.
(** rclone's and go-fuse's verdicts: the overlap and emptiness gates, the
    root node, the server construction, the mount confirmation. *)
Variables (CheckOverlap CheckAllowNonEmpty fsys_Root NewServer_err WaitMount_err : option error).
Variables (darwin vfsReadOnly : bool) (uid gid : Z).

(** The unmount closure of serveFuse: VFS first, then the kernel. *)
Definition serveFuse_umount : list direct_call := [ShutdownVFS; ServerUnmount].

Definition directMountFn (mountpoint : string) (opt : MountlibOptions) : option error * list direct_call :=
  match CheckOverlap with Some e => (Some e, []) | None =>
  match CheckAllowNonEmpty with Some e => (Some e, []) | None =>
  match fsys_Root with Some e => (Some e, []) | None =>
  match buildFuseMountOptions darwin vfsReadOnly opt with
  | Err e => (Some (EErrorf "direct mount %q: %w" [AStr mountpoint] [e]), [])
  | Ok mo =>
      let server := NewServer (buildNodeFSOptions uid gid opt mo) in
      match NewServer_err with
      | Some e => (Some (EErrorf "direct mount %q: %w" [AStr mountpoint] [e]), [server])
      | None =>
          match WaitMount_err with
          | Some e => (Some (EErrorf "direct mount %q: wait for mount: %w" [AStr mountpoint] [e]),
                       [server; Serve; WaitMount] ++ serveFuse_umount)
          | None => (None, [server; Serve; WaitMount])
          end
      end
  end end end end.
End direct.

(** ** Mounting a spec (realpoint.go) *)
Inductive seam_call : Type :=
| StartMount (dest : string)
| Teardown (c : teardown_call).

Section mount.
(** The backend registration, the backend and VFS options of a spec, the
    destination's tree, mp.Mount, the readiness wait and the kernel's answer
    to a detach. *)
Variable fs_Find : option error.
Variable NewFs_of : mountSpec → gmap string string → option error.
Variable VFSOptions_of : mountSpec → option error.
Variable dest_tree : string → node.
Variable mp_Mount : string → option error.
Variable wait_ready : string → option error.
Variable kernel : detach.

Definition mountAndWaitReady (spec : mountSpec) : result error realPoint * list seam_call :=
  let dest := m_Destination (sp_mount spec) in
  match buildOcufsConfigmap (sp_mount spec) (sp_readOnly spec) (sp_serviceURL spec) (sp_caCertPEM spec) with
  | Err e => (Err e, [])
  | Ok cm =>
    match fs_Find with
    | Some e => (Err (EErrorf "mount %q: ocufs backend not registered: %w" [AStr dest] [e]), [])
    | None =>
      match NewFs_of spec cm with
      | Some e => (Err (EErrorf "mount %q: build ocufs Fs: %w" [AStr dest] [e]), [])
      | None =>
        match VFSOptions_of spec with
        | Some e => (Err (EErrorf "mount %q: build VFS options: %w" [AStr dest] [e]), [])
        | None =>
          match ensureMountpointShadowsNoContent dest (dest_tree dest) with
          | Some e => (Err (EErrorf "mount %q: %w" [AStr dest] [e]), [])
          | None =>
            match mp_Mount dest with
            | Some e => (Err (EErrorf "mount %q: start mount: %w" [AStr dest] [e]), [StartMount dest])
            | None =>
              match wait_ready dest with
              | Some e => let '(_, calls, _) := doUnmount (fresh_point dest true) kernel in
                          (Err e, StartMount dest :: map Teardown calls)
              | None => (Ok (fresh_point dest true), [StartMount dest])
              end
            end
          end
        end
      end
    end
  end.

(** What let a kernel mount start: the scaffold, and a backend built from the
    spec's configmap. *)
Definition may_start (spec : mountSpec) : Prop :=
  let tree := dest_tree (m_Destination (sp_mount spec)) in
  only_dirs tree ∧ entry_count tree <= scaffoldWalkEntryCeiling ∧
  ∃ cm, buildOcufsConfigmap (sp_mount spec) (sp_readOnly spec) (sp_serviceURL spec) (sp_caCertPEM spec) = Ok cm ∧
    NewFs_of spec cm = None.

(** The bounded teardown of one point, and what a failed attempt leaves
    behind. *)
Definition teardown_calls : list seam_call := map Teardown [WaitForWriters writebackDrainTimeout; FlushDirCache; Unmount].

Lemma mountAndWaitReady_cases (spec : mountSpec) :
  let dest := m_Destination (sp_mount spec) in
  let '(r, calls) := mountAndWaitReady spec in
  match r with
  | Ok p => p = fresh_point dest true ∧ calls = [StartMount dest] ∧ may_start spec ∧ mp_Mount dest = None ∧ wait_ready dest = None
  | Err e => calls = [] ∨
      (may_start spec ∧ ((mp_Mount dest ≠ None ∧ calls = [StartMount dest]) ∨
                         (mp_Mount dest = None ∧ wait_ready dest ≠ None ∧ calls = StartMount dest :: teardown_calls)))
  end.
Proof.
  intros dest. unfold mountAndWaitReady. fold dest.
  destruct (buildOcufsConfigmap _ _ _ _) as [cm|] eqn:Hcm; [|by left].
  destruct fs_Find; [by left|]. destruct (NewFs_of spec cm) eqn:Hfs; [by left|].
  destruct (VFSOptions_of spec); [by left|]. unfold ensureMountpointShadowsNoContent.
  destruct (walk_correct (dest_tree dest) dest dest 0 ltac:(done)) as [(Hw & Hd & Hle)|(e & s & Hw & _)]; rewrite Hw; simpl; [|by left].
  assert (may_start spec) as Hms by (split; [done|]; split; [exact Hle|]; by exists cm).
  destruct (mp_Mount dest) eqn:Hm; [right; split; [done|]; by left|].
  destruct (wait_ready dest) eqn:Hwr; [right; split; [done|]; right; done|done].
Qed.

(** A mount is started only over a scaffold and never left half up.  The
    kernel mount of a spec is attempted only when the destination's tree holds
    nothing but directories (at most 4096), the backend could be built and the
    spec is not a memory-store one; a mount that started but did not become
    ready is drained and unmounted before the error is returned; a point is
    handed back exactly when the mount started and became ready, with no
    teardown. *)
Theorem mountAndWaitReady_safe (spec : mountSpec) :
  let dest := m_Destination (sp_mount spec) in
  let '(r, calls) := mountAndWaitReady spec in
  (StartMount dest ∈ calls →
     only_dirs (dest_tree dest) ∧ entry_count (dest_tree dest) <= scaffoldWalkEntryCeiling ∧
     m_MemoryStoreID (sp_mount spec) = None ∧ ∃ id, m_FilesystemID (sp_mount spec) = Some id ∧ id ≠ "") ∧
  match r with
  | Ok p => p = fresh_point dest true ∧ calls = [StartMount dest] ∧ mp_Mount dest = None ∧ wait_ready dest = None
  | Err e => StartMount dest ∈ calls → mp_Mount dest = None →
      calls = StartMount dest :: map Teardown [WaitForWriters writebackDrainTimeout; FlushDirCache; Unmount]
  end.
Proof.
  intros dest. pose proof (mountAndWaitReady_cases spec) as H. simpl in H. fold dest in H.
  assert (may_start spec → only_dirs (dest_tree dest) ∧ entry_count (dest_tree dest) <= scaffoldWalkEntryCeiling ∧
            m_MemoryStoreID (sp_mount spec) = None ∧ ∃ id, m_FilesystemID (sp_mount spec) = Some id ∧ id ≠ "") as Hms.
  { intros (H1 & H2 & cm & Hcm & _). split; [done|]. split; [done|]. unfold buildOcufsConfigmap in Hcm.
    destruct (m_MemoryStoreID _); [done|]. destruct (m_FilesystemID _) as [id|]; [|done]. case_decide; [done|]. eauto. }
  destruct (mountAndWaitReady spec) as [[p|e] calls].
  - destruct H as (-> & -> & H & Hm & Hw). auto.
  - destruct H as [->|(H & [(Hm & ->)|(Hm & Hw & ->)])]; (split; [auto; by intros ?%elem_of_nil|]); try done. by intros ?%elem_of_nil.
Qed.
End mount.

Lemma mountAndWaitReady_safe_witness :
  let spec := spec_of (mkOrch "" "https://edge" "PEM") demo_mount in
  let run := mountAndWaitReady None (λ _ _, None) (λ _, None) (λ _, NDir [("outputs", NDir [])]) (λ _, None)
               (λ _, Some (errors_New "timeout")) DetachNever spec in
  snd run = StartMount "/mnt/outputs" :: map Teardown [WaitForWriters writebackDrainTimeout; FlushDirCache; Unmount].
Proof.
  intros spec run.
  pose proof (mountAndWaitReady_safe None (λ _ _, None) (λ _, None) (λ _, NDir [("outputs", NDir [])]) (λ _, None)
               (λ _, Some (errors_New "timeout")) DetachNever spec) as H.
  exact (proj2 H ltac:(left) eq_refl).
Defined.

(** ** Extended attributes (xattr_enotsup.go) *)
Definition ENOSYS : Z := 38.
Definition ENOTSUP : Z := 95.

Definition enosysToENOTSUP (s : Z) : Z := if s =? ENOSYS then ENOTSUP else s.

(** The wrapped node's four xattr operations, as functions of the request. *)
Record XattrFS (req : Type) := mkXattr {
  xa_GetXAttr : req → Z * Z; xa_ListXAttr : req → Z * Z; xa_SetXAttr : req → Z; xa_RemoveXAttr : req → Z }.
Arguments mkXattr {req}. Arguments xa_GetXAttr {req}. Arguments xa_ListXAttr {req}.
Arguments xa_SetXAttr {req}. Arguments xa_RemoveXAttr {req}.

Definition newXattrENOTSUPFileSystem {req} (inner : XattrFS req) : XattrFS req :=
  mkXattr (λ q, let '(n, s) := xa_GetXAttr inner q in (n, enosysToENOTSUP s))
          (λ q, let '(n, s) := xa_ListXAttr inner q in (n, enosysToENOTSUP s))
          (λ q, enosysToENOTSUP (xa_SetXAttr inner q))
          (λ q, enosysToENOTSUP (xa_RemoveXAttr inner q)).

Lemma enosysToENOTSUP_never s : enosysToENOTSUP s ≠ ENOSYS.
Proof. unfold enosysToENOTSUP, ENOSYS, ENOTSUP. destruct (Z.eqb_spec s 38); lia. Qed.
