(* ===== verification/TeardownRace.v ===== *)
(** * The concurrent teardown (internal/mounter: orchestrator.go unmountAll,
      realpoint.go doUnmount and unmount)

    [Orchestrator.unmountAll] runs its goroutines one after another and
    [RealPoint.doUnmount] is one call.  Here the goroutines are stepped one
    critical operation at a time, over points whose [unmountOnce] they share, a
    detach goroutine per point and a clock.  Every run ends, ends in time, and
    ends as the sequential definitions say. *)
From Stdlib Require Import Ascii String.
From stdpp Require Import base list strings numbers gmap relations.
From S2P Require Import Prelude GoErrors GoPath BrokerErrors MountCfg Orchestrator OrchestratorSpec Guards MountOptions RealPoint.
Local Open Scope Z_scope.
Local Arguments Z.add : simpl never.
Local Arguments writebackDrainTimeout : simpl never.

(** ** State *)

(** A point's sync.Once: not entered, held by a goroutine, or done with the
    cached [unmountErr]. *)
Inductive once : Type :=
| OFree
| OBusy (owner : nat)
| ODone (err : option error).

(** The goroutine [go func() { detached <- p.mp.Unmount() }()] and its
    channel. *)
Inductive detaching : Type :=
| DIdle
| DSpawned
| DRunning
| DReturned (err : option error).

(** The shared part of a point, with the calls made on its mount. *)
Record shared := mkShared { sh_once : once; sh_detach : detaching; sh_calls : list teardown_call }.

(** Where a goroutine of unmountAll is.  The waiting states carry the time
    they were entered. *)
Inductive pc : Type :=
| GStart
| GDrain (since : Z)
| GFlush (since : Z)
| GSpawn
| GSelect (since : Z)
| GGot (err : option error)
| GExit (err : option error).

Record tconfig := mkT { tc_now : Z; tc_shared : list shared; tc_pcs : list pc }.

(** [detachGrace], zero meaning the default. *)
Definition grace_of (p : realPoint) : Z :=
  if rp_detachGrace p =? 0 then unmountDetachGrace else rp_detachGrace p.

(** realPointMounter.unmount's verdict on what doUnmount returned. *)
Definition unmount_verdict (err : option error) : option error :=
  match err with
  | Some e => if errors_Is e errDetachDidNotReturn then None else Some e
  | None => None
  end.

Section race.
(** The points, the point each goroutine unmounts, and a bound on
    FlushDirCache, which walks the in-memory tree. *)
Variables (points : list realPoint) (targets : list nat) (flush : Z).
(** When a point has no writers and no cache item in use, and what its
    mp.Unmount can return, if it returns at all. *)
Variables (quiet : nat → Z → Prop) (kernel : nat → option error → Prop).

(** ** Steps *)

(** One operation of goroutine [i] on its point [p], of index [j], at time
    [now]. *)
Inductive gstep (i j : nat) (p : realPoint) (now : Z) : pc → shared → pc → shared → Prop :=
| gs_enter_vfs d cs : rp_has_vfs p = true →
    gstep i j p now GStart (mkShared OFree d cs)
      (GDrain now) (mkShared (OBusy i) d (cs ++ [WaitForWriters writebackDrainTimeout]))
| gs_enter_bare d cs : rp_has_vfs p = false →
    gstep i j p now GStart (mkShared OFree d cs) GSpawn (mkShared (OBusy i) d cs)
| gs_join e d cs : gstep i j p now GStart (mkShared (ODone e) d cs) (GGot e) (mkShared (ODone e) d cs)
| gs_drained t o d cs : quiet j now ∨ t + writebackDrainTimeout <= now →
    gstep i j p now (GDrain t) (mkShared o d cs) (GFlush now) (mkShared o d (cs ++ [FlushDirCache]))
| gs_flushed t s : gstep i j p now (GFlush t) s GSpawn s
| gs_spawn o d cs : gstep i j p now GSpawn (mkShared o d cs) (GSelect now) (mkShared o DSpawned cs)
| gs_detached t o e cs :
    gstep i j p now (GSelect t) (mkShared o (DReturned e) cs) (GGot e) (mkShared (ODone e) (DReturned e) cs)
| gs_timeout t o d cs : t + grace_of p <= now →
    gstep i j p now (GSelect t) (mkShared o d cs)
      (GGot (Some (ESent errDetachDidNotReturn))) (mkShared (ODone (Some (ESent errDetachDidNotReturn))) d cs)
| gs_store e s : gstep i j p now (GGot e) s (GExit (unmount_verdict e)) s.

(** The detach goroutine: it calls mp.Unmount, which may return, with any
    result and at any time, or never. *)
Inductive dstep (j : nat) : shared → shared → Prop :=
| ds_call o cs : dstep j (mkShared o DSpawned cs) (mkShared o DRunning (cs ++ [Unmount]))
| ds_return e o cs : kernel j e → dstep j (mkShared o DRunning cs) (mkShared o (DReturned e) cs).

Definition exited (g : pc) : bool := match g with GExit _ => true | _ => false end.

(** May goroutine state [g] last until time [t]?  WaitForWriters returns
    within its timeout, FlushDirCache within [flush], the timer of the select
    fires at the grace; a goroutine at the Once waits only while another holds
    it; any other operation is immediate. *)
Definition may_last (t : Z) (p : realPoint) (s : shared) (g : pc) : Prop :=
  match g with
  | GStart => ∃ o, sh_once s = OBusy o
  | GDrain t0 => t <= t0 + writebackDrainTimeout
  | GFlush t0 => t <= t0 + flush
  | GSelect t0 => t <= t0 + grace_of p
  | GSpawn | GGot _ => False
  | GExit _ => True
  end.

Definition at_point (i : nat) (j : nat) (p : realPoint) (s : shared) (c : tconfig) (g : pc) : Prop :=
  tc_pcs c !! i = Some g ∧ targets !! i = Some j ∧ points !! j = Some p ∧ tc_shared c !! j = Some s.

Inductive tstep : tconfig → tconfig → Prop :=
| ts_go c i j p s g g' s' :
    at_point i j p s c g → gstep i j p (tc_now c) g s g' s' →
    tstep c (mkT (tc_now c) (<[j := s']> (tc_shared c)) (<[i := g']> (tc_pcs c)))
| ts_detach c j s s' :
    tc_shared c !! j = Some s → dstep j s s' →
    tstep c (mkT (tc_now c) (<[j := s']> (tc_shared c)) (tc_pcs c))
| ts_tick c t :
    tc_now c < t →
    (∃ i g, tc_pcs c !! i = Some g ∧ exited g = false) →
    (∀ i j p s g, at_point i j p s c g → may_last t p s g) →
    (∀ j s, tc_shared c !! j = Some s → sh_detach s ≠ DSpawned) →
    tstep c (mkT t (tc_shared c) (tc_pcs c)).

Definition tinit : tconfig :=
  mkT 0 (replicate (length points) (mkShared OFree DIdle [])) (replicate (length targets) GStart).

(** wg.Wait returns. *)
Definition all_exited (c : tconfig) : Prop := Forall (λ g, exited g = true) (tc_pcs c).

(** ** The invariant *)

Definition drain_calls (p : realPoint) : list teardown_call :=
  if rp_has_vfs p then [WaitForWriters writebackDrainTimeout; FlushDirCache] else [].

(** The latest a teardown of [p] that started at time 0 returns. *)
Definition bound (p : realPoint) : Z := writebackDrainTimeout + flush + grace_of p.

(** The owner of a busy Once is inside the critical function, at [g]. *)
Definition phase (now : Z) (p : realPoint) (s : shared) (g : pc) : Prop :=
  match g with
  | GDrain t => t = 0 ∧ now <= writebackDrainTimeout ∧ rp_has_vfs p = true ∧
      sh_detach s = DIdle ∧ sh_calls s = [WaitForWriters writebackDrainTimeout]
  | GFlush t => t <= writebackDrainTimeout ∧ now <= t + flush ∧ rp_has_vfs p = true ∧
      sh_detach s = DIdle ∧ sh_calls s = drain_calls p
  | GSpawn => now <= writebackDrainTimeout + flush ∧ sh_detach s = DIdle ∧ sh_calls s = drain_calls p
  | GSelect t => t <= writebackDrainTimeout + flush ∧ now <= t + grace_of p ∧
      match sh_detach s with
      | DIdle => False
      | DSpawned => now = t ∧ sh_calls s = drain_calls p
      | DRunning | DReturned _ => sh_calls s = drain_calls p ++ [Unmount]
      end
  | _ => False
  end.

(** How a finished teardown came out. *)
Definition outcome (s : shared) (err : option error) : Prop :=
  sh_detach s = DReturned err ∨ err = Some (ESent errDetachDidNotReturn).

Definition point_inv (c : tconfig) (j : nat) (p : realPoint) (s : shared) : Prop :=
  match sh_once s with
  | OFree => sh_detach s = DIdle ∧ sh_calls s = []
  | OBusy i => targets !! i = Some j ∧ ∃ g, tc_pcs c !! i = Some g ∧ phase (tc_now c) p s g
  | ODone err => j ∈ targets ∧ sh_calls s = drain_calls p ++ [Unmount] ∧ sh_detach s ≠ DSpawned ∧ outcome s err
  end.

Definition pc_inv (now : Z) (i : nat) (p : realPoint) (s : shared) (g : pc) : Prop :=
  match g with
  | GStart => match sh_once s with OFree => now = 0 | ODone _ => now <= bound p | OBusy _ => True end
  | GDrain _ | GFlush _ | GSpawn | GSelect _ => sh_once s = OBusy i
  | GGot err => sh_once s = ODone err ∧ now <= bound p
  | GExit r => ∃ err, sh_once s = ODone err ∧ r = unmount_verdict err
  end.

Record tinv (c : tconfig) : Prop := {
  ti_now : 0 <= tc_now c;
  ti_shared : length (tc_shared c) = length points;
  ti_pcs : length (tc_pcs c) = length targets;
  ti_point : ∀ j p s, points !! j = Some p → tc_shared c !! j = Some s → point_inv c j p s;
  ti_pc : ∀ i j p s g, at_point i j p s c g → pc_inv (tc_now c) i p s g;
  ti_kernel : ∀ j s err, tc_shared c !! j = Some s → sh_detach s = DReturned err → kernel j err }.

Context (Hflush : 0 <= flush) (Hgrace : Forall (λ p, 0 < grace_of p) points)
        (Htargets : Forall (λ j, (j < length points)%nat) targets).

Lemma tinit_inv : tinv tinit.
Proof.
  split; simpl; [done|by rewrite length_replicate..| | |].
  - intros j p s _ Hs. apply lookup_replicate in Hs as [-> _]. done.
  - intros i j p s g (Hg & _ & _ & Hs); simpl in *.
    apply lookup_replicate in Hg as [-> _]. apply lookup_replicate in Hs as [-> _]. done.
  - intros j s err Hs. by apply lookup_replicate in Hs as [-> _].
Qed.

(** Every goroutine has its point and the point its state. *)
Lemma at_point_total c i g : tinv c → tc_pcs c !! i = Some g → ∃ j p s, at_point i j p s c g.
Proof using Htargets.
  intros [_ Hs Hp _ _ _] Hg. assert (i < length targets)%nat as Hi by (rewrite <-Hp; by eapply lookup_lt_Some).
  apply lookup_lt_is_Some in Hi as [j Hj].
  pose proof (Forall_lookup_1 _ _ _ _ Htargets Hj) as Hjl. simpl in Hjl.
  pose proof Hjl as [p Hpt]%lookup_lt_is_Some. rewrite <-Hs in Hjl. apply lookup_lt_is_Some in Hjl as [s ?].
  by exists j, p, s.
Qed.

(** The phase of a goroutine that holds its Once. *)
Lemma holder_phase c i j p s g :
  tinv c → at_point i j p s c g → sh_once s = OBusy i → phase (tc_now c) p s g.
Proof.
  intros Hi (Hg & _ & Hp & Hsh) Ho. pose proof (ti_point c Hi _ _ _ Hp Hsh) as Hpt.
  unfold point_inv in Hpt. rewrite Ho in Hpt. destruct Hpt as (_ & g' & Hg' & Hph). by simplify_eq.
Qed.

(** What one operation of goroutine [i] leaves at its point. *)
Definition local_inv (now : Z) (i : nat) (p : realPoint) (s : shared) (g : pc) : Prop :=
  match sh_once s with
  | OFree => False
  | OBusy o => o = i ∧ phase now p s g
  | ODone err => sh_calls s = drain_calls p ++ [Unmount] ∧ sh_detach s ≠ DSpawned ∧ outcome s err
  end.

(** How one operation of goroutine [i] moves the Once of its point. *)
Definition once_moves (now : Z) (i : nat) (p : realPoint) (s s' : shared) : Prop :=
  sh_once s' = sh_once s ∨ (sh_once s = OFree ∧ sh_once s' = OBusy i) ∨
  (sh_once s = OBusy i ∧ now <= bound p ∧ ∃ e, sh_once s' = ODone e).

(** One operation keeps the invariant of its goroutine and its point. *)
Lemma gstep_local c i j p s g g' s' :
  tinv c → at_point i j p s c g → gstep i j p (tc_now c) g s g' s' →
  pc_inv (tc_now c) i p s' g' ∧ local_inv (tc_now c) i p s' g' ∧
  (once_moves (tc_now c) i p s s').
Proof using Hflush Hgrace.
  intros Hi Hat Hs. pose proof (ti_pc c Hi _ _ _ _ _ Hat) as Hpc.
  pose proof (holder_phase _ _ _ _ _ _ Hi Hat) as Hph.
  pose proof Hat as (_ & _ & Hp & Hsh). pose proof (ti_point c Hi _ _ _ Hp Hsh) as Hpt.
  pose proof (Forall_lookup_1 _ _ _ _ Hgrace Hp) as Hgp. simpl in Hgp. pose proof (ti_now c Hi) as Hnow.
  assert (0 <= writebackDrainTimeout) as Hw by done. clear Hat Hi Hsh.
  unfold point_inv in Hpt. unfold local_inv, once_moves in *.
  destruct Hs; simpl in *.
  - destruct Hpt as [-> ->]. split_and?; eauto 6; lia.
  - destruct Hpt as [-> ->]. unfold drain_calls. rewrite H. split_and?; eauto 6; lia.
  - destruct Hpt as [_ Hpt]. auto.
  - subst o. specialize (Hph eq_refl) as (-> & ? & Hv & -> & ->). unfold drain_calls. rewrite Hv. split_and?; auto; simpl; lia.
  - rewrite Hpc in *. specialize (Hph eq_refl) as (? & ? & ? & -> & ->). split_and?; eauto 6; lia.
  - subst o. specialize (Hph eq_refl) as (? & -> & ->). split_and?; eauto 6; lia.
  - subst o. specialize (Hph eq_refl) as (? & ? & ->). assert (tc_now c <= bound p) by (unfold bound; lia).
    unfold outcome. split_and?; eauto 9.
  - subst o. specialize (Hph eq_refl) as (? & ? & Hd). assert (tc_now c <= bound p) by (unfold bound; lia). unfold outcome.
    destruct d; [done|destruct Hd; lia|subst cs; split_and?; eauto 9..].
  - destruct Hpc as [Ho ?]. rewrite Ho in *. split_and?; eauto; tauto.
Qed.

(** Another goroutine of the same point does not notice. *)
Lemma pc_inv_other now i' p s s' i g :
  i' ≠ i → once_moves now i p s s' → pc_inv now i' p s g → pc_inv now i' p s' g.
Proof.
  intros Hne Ho Hpc. unfold once_moves in Ho. destruct g; simpl in *;
    try (destruct Ho as [->|[[Ho Ho']|(Ho & ? & e & Ho')]]; [done|congruence|congruence]).
  - destruct Ho as [->|[[_ ->]|(_ & ? & e & ->)]]; done.
  - destruct Hpc as [Hpc ?]. destruct Ho as [->|[[Ho _]|[Ho _]]]; [done|congruence..].
  - destruct Hpc as (e & Hpc & ?). destruct Ho as [->|[[Ho _]|[Ho _]]]; [by exists e|congruence..].
Qed.

(** The state a step of goroutine [i] at point [j] leads to. *)
Lemma tgo_inv c i j p s g g' s' :
  tinv c → at_point i j p s c g → gstep i j p (tc_now c) g s g' s' →
  tinv (mkT (tc_now c) (<[j := s']> (tc_shared c)) (<[i := g']> (tc_pcs c))).
Proof using Hflush Hgrace.
  intros Hi Hat Hs. destruct (gstep_local c i j p s g g' s' Hi Hat Hs) as (Hpc' & Hl & Hm).
  pose proof Hat as (Hg & Hj & Hp & Hsh).
  assert (i < length (tc_pcs c))%nat as Hil by (by eapply lookup_lt_Some).
  assert (j < length (tc_shared c))%nat as Hjl by (by eapply lookup_lt_Some).
  split; simpl; [apply (ti_now c Hi)|rewrite length_insert; apply Hi..| | |].
  - intros j0 p0 s0 Hp0 Hs0. destruct (decide (j0 = j)) as [->|Hne].
    + rewrite list_lookup_insert_eq in Hs0 by done. simplify_eq. unfold local_inv in Hl. unfold point_inv.
      destruct (sh_once s0) as [|o|e]; [done| |split; [by eapply list_elem_of_lookup_2|done]]. destruct Hl as [-> Hph]. split; [done|].
      exists g'. simpl. by rewrite list_lookup_insert_eq.
    + rewrite list_lookup_insert_ne in Hs0 by done. pose proof (ti_point c Hi _ _ _ Hp0 Hs0) as H.
      unfold point_inv in *. destruct (sh_once s0) as [|o|e]; [done| |done].
      destruct H as [Ho (g0 & Hg0 & Hph)]. split; [done|]. exists g0. simpl.
      rewrite list_lookup_insert_ne by congruence. done.
  - intros i0 j0 p0 s0 g0 (Hg0 & Hj0 & Hp0 & Hs0); simpl in *.
    destruct (decide (i0 = i)) as [->|Hne].
    { rewrite list_lookup_insert_eq in Hg0 by done. simplify_eq. by rewrite list_lookup_insert_eq in Hs0 by done; simplify_eq. }
    rewrite list_lookup_insert_ne in Hg0 by done. destruct (decide (j0 = j)) as [->|Hnj].
    + rewrite list_lookup_insert_eq in Hs0 by done. simplify_eq.
      eapply pc_inv_other; [exact Hne|exact Hm|]. by apply (ti_pc c Hi i0 j p s g0).
    + rewrite list_lookup_insert_ne in Hs0 by done. by apply (ti_pc c Hi i0 j0 p0 s0 g0).
  - intros j0 s0 err Hs0 Hd. destruct (decide (j0 = j)) as [->|Hne].
    + rewrite list_lookup_insert_eq in Hs0 by done. simplify_eq. apply (ti_kernel c Hi j s err Hsh).
      revert Hd. by destruct Hs.
    + rewrite list_lookup_insert_ne in Hs0 by done. by apply (ti_kernel c Hi j0 s0).
Qed.

Lemma detach_inv c j s s' :
  tinv c → tc_shared c !! j = Some s → dstep j s s' →
  tinv (mkT (tc_now c) (<[j := s']> (tc_shared c)) (tc_pcs c)).
Proof.
  intros Hi Hsh Hd. assert (j < length (tc_shared c))%nat as Hjl by (by eapply lookup_lt_Some).
  assert (sh_once s' = sh_once s) as Ho by (by destruct Hd).
  split; simpl; [apply Hi|rewrite ?length_insert; apply Hi..| | |].
  - intros j0 p0 s0 Hp0 Hs0. destruct (decide (j0 = j)) as [->|Hne].
    2: { rewrite list_lookup_insert_ne in Hs0 by done. by apply (ti_point c Hi). }
    rewrite list_lookup_insert_eq in Hs0 by done. simplify_eq.
    pose proof (ti_point c Hi _ _ _ Hp0 Hsh) as H. unfold point_inv in *. rewrite Ho.
    destruct Hd as [o cs|e o cs Hk]; simpl in *; (destruct o as [|o|e']; [naive_solver| |]).
    + destruct H as (? & g & ? & Hg). split; [done|]. exists g. split; [done|].
      destruct g; simpl in *; naive_solver.
    + naive_solver.
    + destruct H as (? & g & ? & Hg). split; [done|]. exists g. split; [done|].
      destruct g; simpl in *; naive_solver.
    + destruct H as (? & ? & ? & [?| ->]); [done|]. split_and?; [done..|by right].
  - intros i0 j0 p0 s0 g0 (Hg0 & Hj0 & Hp0 & Hs0); simpl in *. destruct (decide (j0 = j)) as [->|Hne].
    + rewrite list_lookup_insert_eq in Hs0 by done. simplify_eq.
      pose proof (ti_pc c Hi i0 j p0 s g0 ltac:(done)) as H. destruct g0; simpl in *; by rewrite Ho.
    + rewrite list_lookup_insert_ne in Hs0 by done. by apply (ti_pc c Hi i0 j0 p0 s0 g0).
  - intros j0 s0 err Hs0 He. destruct (decide (j0 = j)) as [->|Hne].
    + rewrite list_lookup_insert_eq in Hs0 by done. simplify_eq. destruct Hd; simpl in He; by simplify_eq.
    + rewrite list_lookup_insert_ne in Hs0 by done. by apply (ti_kernel c Hi j0 s0).
Qed.

Lemma tick_inv c t :
  tinv c → tc_now c < t → (∀ i j p s g, at_point i j p s c g → may_last t p s g) →
  (∀ j s, tc_shared c !! j = Some s → sh_detach s ≠ DSpawned) → tinv (mkT t (tc_shared c) (tc_pcs c)).
Proof.
  intros Hi Ht Hlast Hsp. split; simpl; [pose proof (ti_now c Hi); lia|apply Hi..| | |apply Hi].
  - intros j p s Hp Hs. pose proof (ti_point c Hi _ _ _ Hp Hs) as H. unfold point_inv in *.
    destruct (sh_once s) as [|o|]; [done| |done]. destruct H as (Ho & g & Hg & Hph). split; [done|].
    exists g. split; [done|]. pose proof (Hlast o j p s g ltac:(done)) as Hl.
    destruct g; simpl in *; try done.
    + destruct Hph as (-> & ? & ?). split; [done|]. split; [lia|done].
    + naive_solver.
    + destruct Hph as (? & ? & ?). split; [done|]. split; [done|].
      pose proof (Hsp j s Hs). by destruct (sh_detach s).
  - intros i j p s g Hat. pose proof (ti_pc c Hi i j p s g Hat) as H. pose proof (Hlast i j p s g Hat) as Hl.
    destruct g; simpl in *; try done. destruct Hl as [o ->]. done.
Qed.

Lemma tstep_inv c c' : tinv c → tstep c c' → tinv c'.
Proof using Hflush Hgrace.
  intros Hi Hs. destruct Hs; [by eapply tgo_inv|by eapply detach_inv|by apply tick_inv].
Qed.

Lemma treachable_inv c : rtc tstep tinit c → tinv c.
Proof using Hflush Hgrace.
  intros Hr. pose proof tinit_inv as Hi. revert Hi. induction Hr; [done|]. eauto using tstep_inv.
Qed.

(** ** Time *)

(** While a goroutine has not returned, its point's bound has not passed. *)
Lemma unfinished_in_time c i j p s g :
  tinv c → at_point i j p s c g → exited g = false → tc_now c <= bound p.
Proof using Hflush Hgrace quiet.
  intros Hi Hat He. pose proof (ti_pc c Hi i j p s g Hat) as H.
  pose proof Hat as (_ & _ & Hp & Hsh). pose proof (ti_point c Hi _ _ _ Hp Hsh) as Hpt.
  pose proof (Forall_lookup_1 _ _ _ _ Hgrace Hp) as Hgp. simpl in Hgp. pose proof (ti_now c Hi) as Hnow.
  assert (0 <= writebackDrainTimeout) as Hw by done.
  assert (∀ g', phase (tc_now c) p s g' → tc_now c <= bound p) as Hphase.
  { intros g'. unfold bound. destruct g'; simpl; lia. }
  assert (∀ o, sh_once s = OBusy o → tc_now c <= bound p) as Hbusy.
  { intros o Ho. unfold point_inv in Hpt. rewrite Ho in Hpt. naive_solver. }
  destruct g; simpl in *; eauto; try naive_solver. destruct (sh_once s); [unfold bound; lia|eauto|done].
Qed.

(** ** Every run ends *)

Definition pc_rank (g : pc) : nat :=
  match g with
  | GStart => 6 | GDrain _ => 5 | GFlush _ => 4 | GSpawn => 3 | GSelect _ => 2 | GGot _ => 1 | GExit _ => 0
  end.

Definition detach_rank (s : shared) : nat :=
  match sh_detach s with DIdle => 3 | DSpawned => 2 | DRunning => 1 | DReturned _ => 0 end.

(** Steps left before the horizon [h]. *)
Definition measure (h : Z) (c : tconfig) : nat :=
  sum_list_with pc_rank (tc_pcs c) + sum_list_with detach_rank (tc_shared c) + Z.to_nat (h - tc_now c).

Lemma gstep_rank c i j p s g g' s' : tinv c → at_point i j p s c g → gstep i j p (tc_now c) g s g' s' →
  (pc_rank g' + detach_rank s' < pc_rank g + detach_rank s)%nat.
Proof.
  intros Hi Hat Hs. pose proof (ti_pc c Hi _ _ _ _ _ Hat) as Hpc. pose proof (holder_phase c i j p s g Hi Hat) as Hph.
  destruct Hs; unfold detach_rank; simpl in *; try lia.
  destruct (Hph Hpc) as (_ & -> & _). lia.
Qed.

Context (h : Z) (Hhorizon : Forall (λ p, bound p <= h) points).

Lemma tstep_measure c c' : tinv c → tstep c c' → (measure h c' < measure h c)%nat.
Proof using All.
  intros Hi Hs. pose proof (tstep_inv c c' Hi Hs) as Hi'.
  destruct Hs as [c i j p s g g' s' (Hg & Hj & Hp & Hsh) Hg'|c j s s' Hsh Hd|c t Ht (i & g & Hg & He) Hlast Hsp];
    unfold measure; simpl.
  - pose proof (sum_list_insert pc_rank _ _ _ g' Hg). pose proof (sum_list_insert detach_rank _ _ _ s' Hsh).
    pose proof (gstep_rank c i j p s g g' s' Hi ltac:(done) Hg'). lia.
  - pose proof (sum_list_insert detach_rank _ _ _ s' Hsh).
    assert (detach_rank s' < detach_rank s)%nat by (unfold detach_rank; destruct Hd; simpl; lia). lia.
  - destruct (at_point_total _ i g Hi' Hg) as (j & p & s & Hat).
    pose proof (unfinished_in_time _ _ _ _ _ _ Hi' Hat He) as Hb. simpl in Hb.
    destruct Hat as (_ & _ & Hp & _). pose proof (Forall_lookup_1 _ _ _ _ Hhorizon Hp). simpl in *. lia.
Qed.

(** A goroutine that has not returned can move, or can wait a little longer
    for a delay that passes. *)
Lemma goroutine_progress c i g :
  tinv c → tc_pcs c !! i = Some g → exited g = false →
  (∃ c', tstep c c') ∨ ∃ j p s, at_point i j p s c g ∧ may_last (tc_now c + 1) p s g.
Proof using All.
  intros Hi Hg He. destruct (at_point_total c i g Hi Hg) as (j & p & s & Hat).
  assert (∀ g' s', gstep i j p (tc_now c) g s g' s' → ∃ c', tstep c c') as Hgo.
  { intros g' s' Hs. eexists. by eapply ts_go. }
  destruct s as [o d cs]. destruct g; try done.
  - destruct o as [|o|err]; [left|right|left].
    + destruct (rp_has_vfs p) eqn:Hv; eapply Hgo; [by apply gs_enter_vfs|by apply gs_enter_bare].
    + exists j, p, (mkShared (OBusy o) d cs). split; [done|]. by exists o.
    + eapply Hgo. apply gs_join.
  - destruct (Z.le_gt_cases (since + writebackDrainTimeout) (tc_now c)) as [Hle|Hgt].
    + left. eapply Hgo. apply gs_drained. by right.
    + right. exists j, p, (mkShared o d cs). split; [done|]. simpl. lia.
  - left. eapply Hgo. apply gs_flushed.
  - left. eapply Hgo. apply gs_spawn.
  - destruct (Z.le_gt_cases (since + grace_of p) (tc_now c)) as [Hle|Hgt].
    + left. eapply Hgo. by apply gs_timeout.
    + right. exists j, p, (mkShared o d cs). split; [done|]. simpl. lia.
  - left. eapply Hgo. apply gs_store.
Qed.

Definition spawned (s : shared) : bool := match sh_detach s with DSpawned => true | _ => false end.

(** No deadlock: unless every goroutine has returned there is a next step. *)
Lemma tprogress c : tinv c → all_exited c ∨ ∃ c', tstep c c'.
Proof using All.
  intros Hi.
  destruct (decide (Exists (λ s, spawned s = true) (tc_shared c))) as [Hsp|Hsp].
  { right. apply Exists_exists in Hsp as (s & [j Hs]%list_elem_of_lookup & Hd). destruct s as [o [] cs]; try done.
    eexists. eapply ts_detach; [exact Hs|apply ds_call]. }
  assert ((∃ c', tstep c c') ∨
          ∀ i j p s g, at_point i j p s c g → may_last (tc_now c + 1) p s g) as [?|Hwait]; [|by right|].
  { assert (∀ n, (∃ c', tstep c c') ∨
       ∀ i j p s g, (i < n)%nat → at_point i j p s c g → may_last (tc_now c + 1) p s g) as H.
    { induction n as [|n [?|IH]]; [right; lia|by left|].
      destruct (tc_pcs c !! n) as [g|] eqn:Hg.
      - destruct (exited g) eqn:He.
        + right. intros i j p s g' Hlt Hat. destruct (decide (i = n)) as [->|]; [|eapply (IH i); [lia|done]].
          destruct Hat as (Hg' & _). rewrite Hg in Hg'. injection Hg' as <-. by destruct g.
        + destruct (goroutine_progress c n g Hi Hg He) as [?|(j0 & p0 & s0 & Hat0 & Hl)]; [by left|right].
          intros i j p s g' Hlt Hat. destruct (decide (i = n)) as [->|]; [|eapply (IH i); [lia|done]].
          destruct Hat as (? & ? & ? & ?), Hat0 as (? & ? & ? & ?). by simplify_eq.
      - right. intros i j p s g' Hlt Hat. destruct (decide (i = n)) as [->|]; [|eapply (IH i); [lia|done]].
        destruct Hat as (Hg' & _). congruence. }
    destruct (H (length (tc_pcs c))) as [?|Hw]; [by left|right]. intros i j p s g Hat. eapply (Hw i); [|exact Hat].
    destruct Hat as (Hg & _). by eapply lookup_lt_Some. }
  destruct (decide (all_exited c)) as [?|Hne]; [by left|right].
  apply not_Forall_Exists in Hne; [|apply _].
  apply Exists_exists in Hne as (g & [i Hg]%list_elem_of_lookup & He).
  eexists. apply (ts_tick c (tc_now c + 1)); [lia| |done|].
  - exists i, g. split; [done|]. by apply not_true_is_false.
  - intros j s Hs Hd. apply Hsp. apply Exists_exists. exists s. split; [by apply list_elem_of_lookup; eexists|]. unfold spawned. by rewrite Hd.
Qed.

Lemma nsteps_measure n c : nsteps tstep n tinit c → (n + measure h c <= measure h tinit)%nat.
Proof using All.
  intros Hn. assert (∀ c0, tinv c0 → nsteps tstep n c0 c → (n + measure h c <= measure h c0)%nat) as H.
  { clear Hn. induction n as [|n IH]; intros c0 Hi Hn; inversion Hn as [|? ? c1 ? Hs Hr]; subst; [lia|].
    specialize (IH c1 (tstep_inv c0 c1 Hi Hs) Hr). pose proof (tstep_measure c0 c1 Hi Hs). lia. }
  apply H; [apply tinit_inv|done].
Qed.

Lemma measure_init : measure h tinit = (6 * length targets + 3 * length points + Z.to_nat h)%nat.
Proof.
  unfold measure, tinit. simpl tc_now. simpl tc_shared. simpl tc_pcs. rewrite Z.sub_0_r.
  assert (∀ {A} (f : A → nat) k x, sum_list_with f (replicate k x) = (f x * k)%nat) as Hrep.
  { intros A f k x. induction k as [|k IH]; simpl; [lia|]. rewrite IH. lia. }
  rewrite !Hrep. simpl. lia.
Qed.

Lemma unfinished_horizon c : tinv c → ¬ all_exited c → tc_now c <= h.
Proof using All.
  intros Hi Hne. apply not_Forall_Exists in Hne; [|apply _].
  apply Exists_exists in Hne as (g & [i Hg]%list_elem_of_lookup & He). apply not_true_is_false in He.
  destruct (at_point_total c i g Hi Hg) as (j & p & s & Hat).
  pose proof (unfinished_in_time _ _ _ _ _ _ Hi Hat He) as Hb. destruct Hat as (_ & _ & Hp & _).
  pose proof (Forall_lookup_1 _ _ _ _ Hhorizon Hp). simpl in *. lia.
Qed.

(** ** What a finished teardown did *)

(** A detach the sequential model can be given: the kernel's answer, taken
    within the grace, or none. *)
Definition possible (j : nat) (p : realPoint) (d : detach) : Prop :=
  match d with
  | DetachAfter t err => 0 <= t < grace_of p ∧ kernel j err
  | DetachNever => True
  end.

Lemma unmount_unfold p d :
  unmount p d = (unmount_verdict (doUnmount p d).1.1, (doUnmount p d).1.2, (doUnmount p d).2).
Proof.
  unfold unmount. destruct (doUnmount p d) as [[[e|] calls] p']; simpl; [|done].
  by destruct (errors_Is e errDetachDidNotReturn).
Qed.

(** The first unmount of a point, whose detach came out as [err]. *)
Lemma fresh_unmount p d err : rp_done p = None →
  match d with DetachAfter t e => 0 <= t < grace_of p ∧ err = e | DetachNever => err = Some (ESent errDetachDidNotReturn) end →
  unmount p d = (unmount_verdict err, drain_calls p ++ [Unmount], mkReal (rp_dest p) (rp_has_vfs p) (rp_detachGrace p) (Some err)).
Proof.
  intros Hf Hd. rewrite unmount_unfold. unfold doUnmount. rewrite Hf. simpl. fold (grace_of p).
  destruct d as [t e|]; [|by subst]. destruct Hd as [[_ Ht] ->]. by apply Z.ltb_lt in Ht as ->.
Qed.

Lemma unmounts_again p err ds : rp_done p = Some err →
  unmounts p ds = (replicate (length ds) (unmount_verdict err), []).
Proof.
  intros Hd. induction ds as [|d ds IH]; [done|]. simpl. rewrite unmount_unfold. unfold doUnmount. rewrite Hd. simpl.
  by rewrite IH.
Qed.

(** The results the goroutines of point [j] stored, in index order. *)
Definition results (c : tconfig) (j : nat) : list (option error) :=
  omap (λ tg, if decide (tg.1 = j) then match tg.2 with GExit r => Some r | _ => None end else None)
       (zip targets (tc_pcs c)).

Definition goroutines (j : nat) : nat := length (filter (λ t, t = j) targets).

Lemma results_all c j r : all_exited c → length (tc_pcs c) = length targets →
  (∀ i g, targets !! i = Some j → tc_pcs c !! i = Some g → g = GExit r) →
  results c j = replicate (goroutines j) r.
Proof.
  unfold all_exited, results, goroutines. generalize (tc_pcs c) as gs. clear. intros gs Hex Hlen Hr.
  revert gs Hex Hlen Hr. induction targets as [|t ts IH]; intros [|g gs] Hex Hlen Hr; try done.
  apply Forall_cons in Hex as [Hg Hex]. simpl. rewrite filter_cons.
  assert (∀ i g, ts !! i = Some j → gs !! i = Some g → g = GExit r) as Hr' by (intros i; apply (Hr (S i))).
  destruct (decide (t = j)) as [->|Hne]; simpl.
  - rewrite (Hr 0%nat g) by done. simpl. f_equal. apply IH; auto.
  - apply IH; auto.
Qed.

(** Each point's concurrent teardown is one of the sequential model's: the
    goroutines that shared it made the calls, and got the results, of as many
    [unmount]s one after another. *)
Lemma teardown_linearizable c j p s :
  tinv c → all_exited c → points !! j = Some p → rp_done p = None → tc_shared c !! j = Some s →
  ∃ ds, length ds = goroutines j ∧ Forall (possible j p) ds ∧ unmounts p ds = (results c j, sh_calls s).
Proof.
  intros Hi Hex Hp Hf Hs. pose proof (ti_point c Hi _ _ _ Hp Hs) as Hpt.
  assert (∀ i g, targets !! i = Some j → tc_pcs c !! i = Some g →
            ∃ err, sh_once s = ODone err ∧ g = GExit (unmount_verdict err)) as Hres.
  { intros i g Hj Hg. pose proof (ti_pc c Hi i j p s g ltac:(done)) as H.
    pose proof (Forall_lookup_1 _ _ _ _ Hex Hg) as He. destruct g; simpl in *; try done.
    destruct H as (e & ? & ->). eauto. }
  rewrite (results_all c j (match sh_once s with ODone err => unmount_verdict err | _ => None end) Hex (ti_pcs c Hi)).
  2: { intros i g Hj Hg. destruct (Hres i g Hj Hg) as (err & -> & ->). done. }
  unfold point_inv in Hpt. destruct (sh_once s) as [|o|err] eqn:Ho.
  - assert (goroutines j = 0%nat) as ->; [|by exists []; destruct Hpt as [_ ->]].
    unfold goroutines. destruct (filter (λ t, t = j) targets) as [|t l] eqn:Hl; [done|].
    assert (t ∈ filter (λ t, t = j) targets) as [-> Ht]%list_elem_of_filter by (rewrite Hl; by left).
    apply list_elem_of_lookup in Ht as [i Hj]. pose proof (lookup_lt_Some _ _ _ Hj) as Hlt.
    rewrite <-(ti_pcs c Hi) in Hlt. apply lookup_lt_is_Some in Hlt as [g Hg].
    by destruct (Hres i g Hj Hg) as (err & ? & _).
  - destruct Hpt as (_ & g & Hg & Hph). pose proof (Forall_lookup_1 _ _ _ _ Hex Hg) as He. by destruct g.
  - destruct Hpt as (Hj & Hcalls & _ & Hout).
    assert (∃ k, goroutines j = S k) as [k ->].
    { unfold goroutines. destruct (filter (λ t, t = j) targets) as [|t l] eqn:Hl; [|by exists (length l)].
      exfalso. apply (not_elem_of_nil j). rewrite <-Hl. by apply list_elem_of_filter. }
    assert (∃ d, possible j p d ∧ unmount p d = (unmount_verdict err, drain_calls p ++ [Unmount],
              mkReal (rp_dest p) (rp_has_vfs p) (rp_detachGrace p) (Some err))) as (d & Hd & Hu).
    { pose proof (Forall_lookup_1 _ _ _ _ Hgrace Hp) as Hg. simpl in Hg.
      destruct Hout as [Hout|Hout]; [exists (DetachAfter 0 err)|exists DetachNever].
      - split; [split; [lia|by apply (ti_kernel c Hi j s)]|]. apply fresh_unmount; [done|]. split; [lia|done].
      - split; [done|]. by apply fresh_unmount. }
    exists (d :: replicate k DetachNever). simpl. rewrite length_replicate, Hu. split; [done|]. split.
    + constructor; [done|]. by apply Forall_replicate.
    + rewrite (unmounts_again _ err) by done. by rewrite length_replicate, app_nil_r, Hcalls.
Qed.

End race.

(** ** unmountAll *)

(** The compacted [collected] slice: one error per point, in index order. *)
Definition collected (points : list realPoint) (c : tconfig) : list error :=
  omap id (zip_with (λ p g, match g with
                            | GExit (Some e) => Some (EErrorf "unmount %q: %w" [AStr (rp_dest p)] [e])
                            | _ => None
                            end) points (tc_pcs c)).

(** What the points answer to the sequential model, [ds] being what their
    detach calls do. *)
Definition answer (points : list realPoint) (ds : list detach) (q : point) : option error :=
  match points !! p_id q, ds !! p_id q with
  | Some p, Some d => (unmount p d).1.1
  | _, _ => None
  end.

Definition points_of (points : list realPoint) : list point := imap (λ j p, mkPoint j (rp_dest p)) points.

Lemma list_choice {A B} (R : nat → A → B → Prop) (l : list A) :
  (∀ j x, l !! j = Some x → ∃ y, R j x y) →
  ∃ ys, length ys = length l ∧ ∀ j x y, l !! j = Some x → ys !! j = Some y → R j x y.
Proof.
  revert R. induction l as [|a l IH]; intros R H; [by exists []|].
  destruct (H 0%nat a eq_refl) as [b Hb]. destruct (IH (λ j, R (S j)) (λ j x, H (S j) x)) as (ys & Hlen & Hys).
  exists (b :: ys). split; [simpl; by rewrite Hlen|]. intros [|j] x y; simpl; [by intros [= <-] [= <-]|apply Hys].
Qed.

Lemma goroutines_seq n j : (j < n)%nat → goroutines (seq 0 n) j = 1%nat.
Proof.
  intros Hj. unfold goroutines. change 1%nat with (length [j]). apply Permutation_length, NoDup_Permutation.
  - apply NoDup_filter, NoDup_seq.
  - apply NoDup_singleton.
  - intros x. rewrite list_elem_of_filter, elem_of_seq, list_elem_of_singleton. lia.
Qed.

Section all.
Variables (points : list realPoint) (flush : Z) (quiet : nat → Z → Prop) (kernel : nat → option error → Prop).
Context (Hflush : 0 <= flush) (Hgrace : Forall (λ p, 0 < grace_of p) points).
Let targets := seq 0 (length points).

Lemma each_target : Forall (λ j, (j < length points)%nat) targets.
Proof. apply Forall_forall. intros j Hj%elem_of_seq. lia. Qed.

Lemma exit_of_point c j p :
  tinv points targets flush kernel c → all_exited c → points !! j = Some p → rp_done p = None →
  ∃ d, possible kernel j p d ∧ tc_pcs c !! j = Some (GExit (unmount p d).1.1) ∧
       sh_calls <$> (tc_shared c !! j) = Some (unmount p d).1.2.
Proof.
  intros Hi Hex Hp Hf. pose proof (lookup_lt_Some _ _ _ Hp) as Hlt.
  assert (is_Some (tc_shared c !! j)) as [s Hs] by (apply lookup_lt_is_Some; by rewrite (ti_shared _ _ _ _ c Hi)).
  assert (is_Some (tc_pcs c !! j)) as [g Hg].
  { apply lookup_lt_is_Some. rewrite (ti_pcs _ _ _ _ c Hi). unfold targets. by rewrite length_seq. }
  destruct (teardown_linearizable points targets flush kernel Hgrace c j p s Hi Hex Hp Hf Hs) as (ds & Hlen & Hpos & Hu).
  unfold targets in Hlen. rewrite goroutines_seq in Hlen by done. destruct ds as [|d [|]]; try done.
  exists d. apply Forall_cons_1 in Hpos as [Hpos _]. split; [done|]. simpl in Hu.
  destruct (unmount p d) as [[r calls] p']. simpl. injection Hu as Hr Hc. rewrite app_nil_r in Hc. rewrite Hs, Hc. split; [|done].
  pose proof (Forall_lookup_1 _ _ _ _ Hex Hg) as He. destruct g as [| | | | | |r']; try done.
  assert (r' ∈ results targets c j) as Hin.
  { unfold results. apply list_elem_of_omap. exists (j, GExit r'). simpl. rewrite decide_True by done. split; [|done].
    apply list_elem_of_lookup. exists j. apply lookup_zip_Some. split; [|done]. simpl. unfold targets.
    by apply lookup_seq_lt. }
  rewrite <-Hr in Hin. apply list_elem_of_singleton in Hin as ->. done.
Qed.

Lemma collected_answers c ds :
  length (tc_pcs c) = length points → length ds = length points →
  (∀ j p d, points !! j = Some p → ds !! j = Some d → tc_pcs c !! j = Some (GExit (unmount p d).1.1)) →
  collected points c = omap (λ q, unmount_err q <$> answer points ds q) (points_of points).
Proof.
  intros Hlen Hds Hd. unfold collected.
  transitivity (omap id ((λ q, unmount_err q <$> answer points ds q) <$> points_of points)).
  - f_equal. apply list_eq. intros j. rewrite lookup_zip_with, list_lookup_fmap. unfold points_of. rewrite list_lookup_imap.
    destruct (points !! j) as [p|] eqn:Hp; [|done]. simpl. unfold answer. simpl. rewrite Hp.
    assert (is_Some (ds !! j)) as [d Hj]. { apply lookup_lt_is_Some. rewrite Hds. by eapply lookup_lt_Some. }
    rewrite Hj, (Hd j p d Hp Hj). simpl. by destruct ((unmount p d).1.1).
  - clear. induction (points_of points) as [|q qs IH]; [done|]. csimpl. rewrite IH. by destruct (answer points ds q).
Qed.
End all.

Lemma fresh_grace dests : Forall (λ p, 0 < grace_of p) (map (λ d, fresh_point d true) dests).
Proof. apply Forall_fmap, Forall_true. intros d. reflexivity. Qed.

Lemma fresh_bound dests flush :
  Forall (λ p, bound flush p <= 123 * time_Second + flush) (map (λ d, fresh_point d true) dests).
Proof.
  apply Forall_fmap, Forall_true. intros d. unfold bound, writebackDrainTimeout, time_Second. simpl.
  change (grace_of (fresh_point d true)) with (3 * 1000000000). lia.
Qed.

(** C16: unmountAll always returns, in time.  Whatever the kernel does on
    mp.Unmount, never returning included, and whenever the writers finish, no
    interleaving of the unmount goroutines deadlocks, even when several share a
    point's Once; every run is finite, with a bound linear in the goroutines and
    points; and however many points there are, the whole teardown is over within
    the drain timeout plus the grace plus one cache flush (123 s and the flush):
    the budgets do not add up over the points. *)
Theorem unmountAll_returns (dests : list string) (targets : list nat) (flush : Z)
    (quiet : nat → Z → Prop) (kernel : nat → option error → Prop) (n : nat) (c : tconfig)
    (Hflush : 0 <= flush) (Htargets : Forall (λ j, (j < length dests)%nat) targets) :
  let points := map (λ d, fresh_point d true) dests in
  nsteps (tstep points targets flush quiet kernel) n (tinit points targets) c →
  (n <= 6 * length targets + 3 * length dests + Z.to_nat (123 * time_Second + flush))%nat ∧
  (all_exited c ∨ ((∃ c', tstep points targets flush quiet kernel c c') ∧ tc_now c <= 123 * time_Second + flush)).
Proof.
  intros points Hrun. pose proof (fresh_grace dests) as Hg. pose proof (fresh_bound dests flush) as Hb.
  assert (Forall (λ j, (j < length points)%nat) targets) as Ht by (unfold points; by rewrite length_fmap).
  fold points in Hg, Hb.
  assert (tinv points targets flush kernel c) as Hi.
  { eapply (treachable_inv points targets flush quiet kernel Hflush Hg). apply rtc_nsteps_2 in Hrun. exact Hrun. }
  split.
  - pose proof (nsteps_measure points targets flush quiet kernel Hflush Hg Ht _ Hb n c Hrun) as Hm.
    rewrite measure_init in Hm. unfold points in Hm. rewrite length_fmap in Hm. lia.
  - destruct (tprogress points targets flush quiet kernel Hflush Hg Ht _ Hb c Hi) as [?|Hstep]; [by left|].
    destruct (decide (all_exited c)) as [?|Hne]; [by left|right]. split; [done|].
    by apply (unfinished_horizon points targets flush quiet kernel Hflush Hg Ht).
Qed.

(** C15: the concurrent unmountAll is the sequential one.  When every
    goroutine has returned, in whatever interleaving, each point's mount received
    exactly the calls of one teardown (drain, flush, one Unmount), its goroutine
    got the verdict of one [unmount] against an answer the kernel can give, and
    the errors collected are those of [Orchestrator.unmountAll] over points that
    answer so, in the points' index order. *)
Theorem unmountAll_refines (points : list realPoint) (flush : Z)
    (quiet : nat → Z → Prop) (kernel : nat → option error → Prop) (c : tconfig)
    (Hflush : 0 <= flush) (Hgrace : Forall (λ p, 0 < grace_of p) points)
    (Hfresh : Forall (λ p, rp_done p = None) points)
    (Hreach : rtc (tstep points (seq 0 (length points)) flush quiet kernel) (tinit points (seq 0 (length points))) c)
    (Hexited : all_exited c) :
  ∃ ds : list detach, length ds = length points ∧
    (∀ j p d, points !! j = Some p → ds !! j = Some d →
       possible kernel j p d ∧ sh_calls <$> (tc_shared c !! j) = Some (unmount p d).1.2) ∧
    ∀ (W : Type) (OE : OrchEnv W) (w : W), OrchLaws OE →
      (∀ q w, fst (oe_unmount q w) = answer points ds q) →
      collected points c = fst (unmountAll (points_of points) w).
Proof.
  pose proof (treachable_inv points _ flush quiet kernel Hflush Hgrace c Hreach) as Hi.
  destruct (list_choice (λ j p d, possible kernel j p d ∧ tc_pcs c !! j = Some (GExit (unmount p d).1.1) ∧
              sh_calls <$> (tc_shared c !! j) = Some (unmount p d).1.2) points) as (ds & Hlen & Hds).
  { intros j p Hp. apply (exit_of_point points flush kernel Hgrace c j p Hi Hexited Hp).
    exact (Forall_lookup_1 _ _ _ _ Hfresh Hp). }
  exists ds. split; [done|]. split; [intros j p d Hp Hd; destruct (Hds j p d Hp Hd) as (? & _ & ?); done|].
  intros W OE w OL Hans. rewrite (unmountAll_deterministic (answer points ds) _ _ Hans).
  apply collected_answers; [rewrite (ti_pcs _ _ _ _ c Hi); apply length_seq|done|].
  intros j p d Hp Hd. by destruct (Hds j p d Hp Hd) as (_ & ? & _).
Qed.

(** ** A run *)

(** Two points on a kernel that answers for the first and never for the
    second, whose writers use up the whole drain timeout. *)
Definition race_points : list realPoint := map (λ d, fresh_point d true) ["/mnt/a"; "/mnt/b"].
Definition race_kernel (j : nat) (err : option error) : Prop := j = 0%nat ∧ err = Some (errors_New "busy").
Definition race_quiet (j : nat) (t : Z) : Prop := False.

Definition race_end : tconfig :=
  mkT (123 * time_Second)
    [mkShared (ODone (Some (errors_New "busy"))) (DReturned (Some (errors_New "busy")))
       [WaitForWriters writebackDrainTimeout; FlushDirCache; Unmount];
     mkShared (ODone (Some (ESent errDetachDidNotReturn))) DRunning
       [WaitForWriters writebackDrainTimeout; FlushDirCache; Unmount]]
    [GExit (Some (errors_New "busy")); GExit None].

Section demo.
Let step := tstep race_points [0; 1]%nat 0 race_quiet race_kernel.

Lemma demo_tgo {c i j p s g c'} g' s' :
  at_point race_points [0; 1]%nat i j p s c g → gstep race_quiet i j p (tc_now c) g s g' s' →
  rtc step (mkT (tc_now c) (<[j := s']> (tc_shared c)) (<[i := g']> (tc_pcs c))) c' → rtc step c c'.
Proof. intros Hat Hs. apply rtc_l. by eapply ts_go. Qed.

Lemma demo_detach {c j s c'} s' :
  tc_shared c !! j = Some s → dstep race_kernel j s s' →
  rtc step (mkT (tc_now c) (<[j := s']> (tc_shared c)) (tc_pcs c)) c' → rtc step c c'.
Proof. intros Hs Hd. apply rtc_l. by eapply ts_detach. Qed.

(** Step goroutine [i], here always on point [i], or its detach goroutine. *)
Ltac go i tac := eapply (demo_tgo (i := i) (j := i)); [split_and!; reflexivity|tac; try reflexivity|]; simpl.
Ltac detaches i tac := eapply (demo_detach (j := i)); [reflexivity|tac|]; simpl.
Ltac ticks t := eapply rtc_l; [apply (ts_tick _ _ _ _ _ _ t);
    [reflexivity
    |exists 1%nat; eexists; split; reflexivity
    |intros [|[|]] j p s g (Hg & Hj & Hp & Hs); simpl in *; simplify_eq; simpl in *; simplify_eq; simpl; try discriminate; exact I
    |intros [|[|]] s Hs; simpl in *; simplify_eq; done]|].

Lemma demo_run : rtc step (tinit race_points [0; 1]%nat) race_end.
Proof.
  unfold tinit. simpl.
  go 0%nat ltac:(apply gs_enter_vfs). go 1%nat ltac:(apply gs_enter_vfs).
  ticks (120 * time_Second).
  simpl tc_shared. simpl tc_pcs.
  go 0%nat ltac:(apply gs_drained; right; done). go 1%nat ltac:(apply gs_drained; right; done).
  go 0%nat ltac:(apply gs_flushed). go 1%nat ltac:(apply gs_flushed).
  go 0%nat ltac:(apply gs_spawn). go 1%nat ltac:(apply gs_spawn).
  detaches 0%nat ltac:(apply ds_call). detaches 1%nat ltac:(apply ds_call).
  detaches 0%nat ltac:(by apply ds_return).
  go 0%nat ltac:(apply gs_detached). go 0%nat ltac:(apply gs_store).
  ticks (123 * time_Second). simpl tc_shared. simpl tc_pcs.
  go 1%nat ltac:(apply gs_timeout; done). go 1%nat ltac:(apply gs_store).
  apply rtc_refl.
Qed.
End demo.

Lemma unmountAll_returns_witness :
  ∃ n, nsteps (tstep race_points [0; 1]%nat 0 race_quiet race_kernel) n (tinit race_points [0; 1]%nat) race_end ∧
    (n <= 6 * 2 + 3 * 2 + Z.to_nat (123 * time_Second + 0))%nat.
Proof.
  destruct (proj1 (rtc_nsteps _ _) demo_run) as [n Hn]. exists n. split; [exact Hn|].
  refine (proj1 (unmountAll_returns ["/mnt/a"; "/mnt/b"] [0; 1]%nat 0 race_quiet race_kernel n race_end _ _ Hn)).
  - lia.
  - repeat constructor.
Defined.

Lemma unmountAll_refines_witness :
  ∃ ds, length ds = 2%nat ∧ ∀ (W : Type) (OE : OrchEnv W) (w : W), OrchLaws OE →
    (∀ q w, fst (oe_unmount q w) = answer race_points ds q) →
    [EErrorf "unmount %q: %w" [AStr "/mnt/a"] [errors_New "busy"]] = fst (unmountAll (points_of race_points) w).
Proof.
  destruct (unmountAll_refines race_points 0 race_quiet race_kernel race_end) as (ds & Hlen & _ & H).
  - lia.
  - apply fresh_grace.
  - by repeat constructor.
  - exact demo_run.
  - by repeat constructor.
  - exists ds. split; [exact Hlen|]. exact H.
Defined.
