(* ===== verification/SignalRace.v ===== *)
(** * Signals against a running orchestrator (internal/mounter: orchestrator.go
      run, signalPending, blockUntilTeardown; directmount.go serveFuse)

    [Orchestrator.run_body] asks its environment what happened.  Here the
    environment happens by itself: a termination signal is delivered to a
    channel with room for one at any time, a mount attempt is in flight for a
    while, every live point has its serve goroutine, blockUntilTeardown's waiter
    goroutines feed their channels, the calls on the ready-file take time, and
    the teardown is [TeardownRace]'s.  Every finished run is one of
    [run_body]'s, and a signal ends a run in bounded time and never leaves it
    ready. *)
From Stdlib Require Import Ascii String.
From stdpp Require Import base list strings numbers gmap relations.
From S2P Require Import Prelude GoErrors GoPath BrokerErrors MountCfg Orchestrator OrchestratorSpec Guards MountOptions RealPoint TeardownRace.
Local Open Scope Z_scope.
Local Arguments Z.add : simpl never.
Local Arguments writebackDrainTimeout : simpl never.

(** ** State *)

(** serveFuse's goroutine and its one-slot channel [errs]: in Serve, in Wait,
    about to send, the terminal value in the channel, or received. *)
Inductive server : Type :=
| Serving
| Draining
| Quiesced
| Terminal (v : option error)
| Taken.

(** A goroutine [c <- pt.wait()] of blockUntilTeardown and its one-slot
    channel: in wait, about to send, the value in the channel, or received. *)
Inductive waiter : Type :=
| Waiting
| Got (err : option error)
| Sent (err : option error)
| Received.

(** Where the goroutine of run is.  [MPoll todo] is before a signalPending
    with the specs [todo] still to mount, [MMount] in mountAndWaitReady, entered
    at [since]; [MReady since] in signalReady, entered at [since] straight from the
    last signalPending, and [MClosing since err] in it with the ready-file there,
    closing it; [MUnmount base ps causes tc] is in unmountAll of [ps], entered at
    [base], after which run joins [causes] with the errors collected; [MRetract
    since err] in the deferred removal of the ready-file. *)
Inductive main : Type :=
| MPoll (todo : list mountSpec)
| MMount (spec : mountSpec) (todo : list mountSpec) (since : Z)
| MReady (since : Z)
| MClosing (since : Z) (err : option error)
| MSpawn (k : nat)
| MSelect
| MUnmount (base : Z) (ps : list point) (causes : list error) (tc : tconfig)
| MRetract (since : Z) (err : option error)
| MDone (err : option error).

(** What run got to see. *)
Inductive observation : Type :=
| Polled (pending : bool)
| Mounted (r : result error point)
| ReadyFile (r : create_result)
| Selected (out : select_outcome).

(** The clock, run's goroutine, the signal channel, whether mountCtx is
    cancelled, whether the ready-file exists, the started points with their serve
    goroutines, the waiters; and for the theorems: what run observed, when the
    first signal was delivered, when the ready-file was created with the time of
    the poll before it, and how its removal went. *)
Record sconfig := mkS {
  s_now : Z; s_main : main; s_sig : bool; s_cancelled : bool; s_file : bool;
  s_started : list point; s_servers : list server; s_waiters : list waiter;
  s_obs : list observation; s_sent : option Z; s_ready : option (Z * Z); s_removed : option remove_result }.

Definition goes (c : sconfig) (m : main) (obs : list observation) : sconfig :=
  mkS (s_now c) m (s_sig c) (s_cancelled c) (s_file c) (s_started c) (s_servers c) (s_waiters c) (s_obs c ++ obs) (s_sent c) (s_ready c) (s_removed c).
Definition at_time (t : Z) (c : sconfig) : sconfig :=
  mkS t (s_main c) (s_sig c) (s_cancelled c) (s_file c) (s_started c) (s_servers c) (s_waiters c) (s_obs c) (s_sent c) (s_ready c) (s_removed c).
(** A receive from the signal channel. *)
Definition consume (c : sconfig) : sconfig :=
  mkS (s_now c) (s_main c) false (s_cancelled c) (s_file c) (s_started c) (s_servers c) (s_waiters c) (s_obs c) (s_sent c) (s_ready c) (s_removed c).
(** cancelMount. *)
Definition cancelMount (c : sconfig) : sconfig :=
  mkS (s_now c) (s_main c) (s_sig c) true (s_file c) (s_started c) (s_servers c) (s_waiters c) (s_obs c) (s_sent c) (s_ready c) (s_removed c).
(** A delivery by the runtime. *)
Definition deliver (c : sconfig) : sconfig :=
  mkS (s_now c) (s_main c) true (s_cancelled c) (s_file c) (s_started c) (s_servers c) (s_waiters c) (s_obs c)
    (Some (default (s_now c) (s_sent c))) (s_ready c) (s_removed c).
(** A point came up, its serve goroutine running. *)
Definition add_point (p : point) (c : sconfig) : sconfig :=
  mkS (s_now c) (s_main c) (s_sig c) (s_cancelled c) (s_file c) (s_started c ++ [p]) (s_servers c ++ [Serving]) (s_waiters c)
    (s_obs c) (s_sent c) (s_ready c) (s_removed c).
Definition set_servers (ss : list server) (c : sconfig) : sconfig :=
  mkS (s_now c) (s_main c) (s_sig c) (s_cancelled c) (s_file c) (s_started c) ss (s_waiters c) (s_obs c) (s_sent c) (s_ready c) (s_removed c).
Definition set_waiters (ws : list waiter) (c : sconfig) : sconfig :=
  mkS (s_now c) (s_main c) (s_sig c) (s_cancelled c) (s_file c) (s_started c) (s_servers c) ws (s_obs c) (s_sent c) (s_ready c) (s_removed c).
(** OpenFile created the ready-file, in a signalReady entered at [since]. *)
Definition file_created (since : Z) (c : sconfig) : sconfig :=
  mkS (s_now c) (s_main c) (s_sig c) (s_cancelled c) true (s_started c) (s_servers c) (s_waiters c) (s_obs c) (s_sent c)
    (Some (since, s_now c)) (s_removed c).
(** os.Remove of the ready-file returned. *)
Definition retract (r : remove_result) (c : sconfig) : sconfig :=
  mkS (s_now c) (s_main c) (s_sig c) (s_cancelled c) (match r with RemoveErr _ => s_file c | _ => false end)
    (s_started c) (s_servers c) (s_waiters c) (s_obs c) (s_sent c) (s_ready c) (Some r).

(** Run starts with the channel empty, nothing mounted and a stale ready-file
    removed. *)
Definition sinit (specs : list mountSpec) : sconfig :=
  mkS 0 (MPoll specs) false false false [] [] [] [] None None None.

(** The live points behind started ones. *)
Definition reals (ps : list point) : list realPoint := map (λ p, fresh_point (p_destination p) true) ps.
Definition teardown_init (ps : list point) : tconfig := tinit (reals ps) (seq 0 (length (reals ps))).
Definition unmounting (c : sconfig) (ps : list point) (causes : list error) : main :=
  MUnmount (s_now c) ps causes (teardown_init ps).

(** The error a spontaneous exit puts before the cleanup errors. *)
Definition exit_causes (p : point) (err : option error) : list error :=
  match err with
  | Some e => [EErrorf "mount %q exited: %w" [AStr (p_destination p)] [e]]
  | None => []
  end.

(** signalReady's verdict on creating the file. *)
Definition ready_error (path : string) (r : create_result) : option error :=
  match r with
  | OpenErr e => Some (EErrorf "create ready-file %q: %w" [AStr path] [e])
  | CloseErr e => Some e
  | Created => None
  end.

Section machine.
Variable o : orchestrator.
(** What a mountAndWaitReady in flight for a time can return, given whether
    its context is cancelled, and the longest it takes; the longest signalReady
    takes from the poll on, and the removal of the ready-file. *)
Variables (attempt : mountSpec → bool → Z → result error unit → Prop) (mount_max file_max : Z).
(** What mountlib's Wait returns for the terminal value of the channel. *)
Variable Wait_report : option error → option error.
(** As in [TeardownRace], by destination. *)
Variables (flush : Z) (quiet : string → Z → Prop) (kernel : string → option error → Prop).

(** ** Steps *)

(** Run's goroutine in blockUntilTeardown: it starts the waiters one at a time
    and then selects. *)
Inductive block_step (c : sconfig) : sconfig → Prop :=
| bs_spawn k : s_main c = MSpawn k → (k < length (s_started c))%nat →
    block_step c (goes (set_waiters (s_waiters c ++ [Waiting]) c) (MSpawn (S k)) [])
| bs_spawned k : s_main c = MSpawn k → (length (s_started c) <= k)%nat → block_step c (goes c MSelect [])
| bs_select_signal : s_main c = MSelect → s_sig c = true →
    block_step c (goes (consume c) (unmounting c (s_started c) []) [Selected Signalled])
| bs_select_exit i p err : s_main c = MSelect → s_waiters c !! i = Some (Sent err) → s_started c !! i = Some p →
    block_step c (goes (set_waiters (<[i := Received]> (s_waiters c)) c)
               (unmounting c (filter (λ q, q ≠ p) (s_started c)) (exit_causes p err)) [Selected (PointExited i err)]).

(** Run's goroutine, from the fan-out on. *)
Inductive mstep (c : sconfig) : sconfig → Prop :=
| ms_poll_signal todo : s_main c = MPoll todo → s_sig c = true →
    mstep c (goes (cancelMount (consume c)) (unmounting c (s_started c) []) [Polled true])
| ms_poll_next spec todo : s_main c = MPoll (spec :: todo) → s_sig c = false →
    mstep c (goes c (MMount spec todo (s_now c)) [Polled false])
| ms_poll_last : s_main c = MPoll [] → s_sig c = false → mstep c (goes c (MReady (s_now c)) [Polled false])
| ms_up spec todo t p : s_main c = MMount spec todo t → attempt spec (s_cancelled c) (s_now c - t) (Ok tt) →
    p = mkPoint (length (s_started c)) (m_Destination (sp_mount spec)) →
    mstep c (goes (add_point p c) (MPoll todo) [Mounted (Ok p)])
| ms_failed spec todo t e : s_main c = MMount spec todo t → attempt spec (s_cancelled c) (s_now c - t) (Err e) →
    mstep c (goes c (unmounting c (s_started c) [EErrorf "mount %q: %w" [AStr (m_Destination (sp_mount spec))] [e]]) [Mounted (Err e)])
| ms_ready_log since : s_main c = MReady since → o_ReadyFilePath o = "" → mstep c (goes c (MSpawn 0) [])
| ms_ready_failed since e : s_main c = MReady since → o_ReadyFilePath o ≠ "" →
    mstep c (goes c (unmounting c (s_started c) (option_list (ready_error (o_ReadyFilePath o) (OpenErr e)))) [ReadyFile (OpenErr e)])
| ms_ready_file since r : s_main c = MReady since → o_ReadyFilePath o ≠ "" → (∀ e, r ≠ OpenErr e) →
    mstep c (goes (file_created since c) (MClosing since (ready_error (o_ReadyFilePath o) r)) [ReadyFile r])
| ms_closed since err : s_main c = MClosing since err →
    mstep c (goes c (match err with None => MSpawn 0 | Some e => unmounting c (s_started c) [e] end) [])
| ms_block c' : block_step c c' → mstep c c'
| ms_returned base ps causes tc : s_main c = MUnmount base ps causes tc → all_exited tc →
    mstep c (goes (cancelMount c) (MRetract (s_now c) (errors_Join (causes ++ collected (reals ps) tc))) [])
| ms_no_retract since err : s_main c = MRetract since err → o_ReadyFilePath o = "" → mstep c (goes c (MDone err) [])
| ms_retract since err r : s_main c = MRetract since err → o_ReadyFilePath o ≠ "" → mstep c (goes (retract r c) (MDone err) []).

(** The goroutine of serveFuse: Serve returns, Wait returns, [errs <- nil]. *)
Inductive serve_step : server → server → Prop :=
| sv_served : serve_step Serving Draining
| sv_drained : serve_step Draining Quiesced
| sv_send : serve_step Quiesced (Terminal None).

(** One step of unmountAll of [ps], entered at [base]. *)
Definition quiet_at (base : Z) (ps : list point) (j : nat) (t : Z) : Prop :=
  ∃ p, ps !! j = Some p ∧ quiet (p_destination p) (base + t).
Definition kernel_at (ps : list point) (j : nat) (err : option error) : Prop :=
  ∃ p, ps !! j = Some p ∧ kernel (p_destination p) err.
Definition teardown_step (base : Z) (ps : list point) : tconfig → tconfig → Prop :=
  tstep (reals ps) (seq 0 (length (reals ps))) flush (quiet_at base ps) (kernel_at ps).

(** May run's goroutine stay where it is until time [t]?  Only in a mount
    attempt, in a call on the ready-file, or in a select none of whose cases is
    ready. *)
Definition main_may_last (t : Z) (c : sconfig) : Prop :=
  match s_main c with
  | MMount _ _ since => t <= since + mount_max
  | MReady since | MClosing since _ | MRetract since _ => t <= since + file_max
  | MSelect => s_sig c = false ∧ ∀ i err, s_waiters c !! i ≠ Some (Sent err)
  | _ => False
  end.

(** A step of the process, or of time. *)
Inductive own (c : sconfig) : sconfig → Prop :=
| ow_main c' : mstep c c' → own c c'
| ow_teardown base ps causes tc tc' : s_main c = MUnmount base ps causes tc → teardown_step base ps tc tc' →
    own c (at_time (base + tc_now tc') (goes c (MUnmount base ps causes tc') []))
| ow_serve i s s' : s_servers c !! i = Some s → serve_step s s' → own c (set_servers (<[i := s']> (s_servers c)) c)
| ow_wait i v : s_servers c !! i = Some (Terminal v) → s_waiters c !! i = Some Waiting →
    own c (set_servers (<[i := Taken]> (s_servers c)) (set_waiters (<[i := Got (Wait_report v)]> (s_waiters c)) c))
| ow_send i err : s_waiters c !! i = Some (Got err) → own c (set_waiters (<[i := Sent err]> (s_waiters c)) c)
| ow_tick t : s_now c < t → main_may_last t c → own c (at_time t c).

(** A signal may be delivered at any time; one that finds the channel full is
    dropped. *)
Inductive sstep (c : sconfig) : sconfig → Prop :=
| ss_own c' : own c c' → sstep c c'
| ss_signal : s_sig c = false → sstep c (deliver c).

End machine.

(** ** The orchestrator on what was observed *)

(** The environment that plays the observations back; [ans] is what unmounting
    a point returns. *)
Definition scripted (ans : point → option error) : OrchEnv (list observation) := {|
  oe_mountAndWaitReady _ w := match w with Mounted r :: w' => (r, w') | _ => (Err (errors_New "no attempt"), w) end;
  oe_unmount p w := (ans p, w);
  oe_signalPending w := match w with Polled b :: w' => (b, w') | _ => (false, w) end;
  oe_os_Remove _ w := (NotExist, w);
  oe_createReady _ w := match w with ReadyFile r :: w' => (r, w') | _ => (Created, w) end;
  oe_select ps w :=
    match w with
    | Selected (PointExited i err) :: w' => if decide (i < length ps)%nat then (PointExited i err, w') else (Signalled, w')
    | Selected Signalled :: w' => (Signalled, w')
    | _ => (Signalled, w)
    end;
  oe_schedule n _ := seq 0 n |}.

#[export] Instance scripted_laws ans : OrchLaws (scripted ans).
Proof.
  split; [done|]. intros ps w i e w'. simpl. destruct w as [|[| | |[|j err]] w]; try done. case_decide; naive_solver.
Qed.

(** [unmountAll] over points that answer [ans]. *)
Lemma unmountAll_scripted ans ps w :
  unmountAll (OE := scripted ans) ps w = (omap (λ p, unmount_err p <$> ans p) ps, w).
Proof.
  rewrite (surjective_pairing (unmountAll _ _)).
  rewrite (unmountAll_deterministic (OE := scripted ans) ans) by done. f_equal.
  assert (∀ order acc, (foldl (unmount_one (OE := scripted ans) ps) (acc, w) order).2 = w) as H.
  { induction order as [|i order IH]; intros acc; [done|]. simpl. unfold unmount_one at 2. simpl.
    destruct (ps !! i) as [p|]; [|apply IH]. destruct (ans p); apply IH. }
  unfold unmountAll. simpl. specialize (H (seq 0 (length ps)) (replicate (length ps) None)).
  by destruct (foldl _ _ _).
Qed.

Lemma signalReady_file o ans r w : o_ReadyFilePath o ≠ "" →
  signalReady (OE := scripted ans) o (ReadyFile r :: w) = (ready_error (o_ReadyFilePath o) r, w).
Proof. intros Hf. unfold signalReady. destruct (decide (o_ReadyFilePath o = "")); [done|]. by destruct r. Qed.

Section resume.
Variables (o : orchestrator) (ans : point → option error).
Notation OE := (scripted ans).

(** What run does with the result of the fan-out. *)
Definition finish (r : fanout * list observation) : option error * list observation :=
  let '(f, w1) := r in
  match f with
  | Interrupted started => shutdownDuringStartup (OE := OE) started w1
  | StartFailed started dest e =>
      let '(errs, w2) := unmountAll (OE := OE) started w1 in
      (errors_Join (EErrorf "mount %q: %w" [AStr dest] [e] :: errs), w2)
  | AllUp started =>
      let '(sig, w2) := oe_signalPending (OrchEnv := OE) w1 in
      if sig : bool then shutdownDuringStartup (OE := OE) started w2
      else
        let '(err, w3) := signalReady (OE := OE) o w2 in
        match err with
        | Some e => let '(errs, w4) := unmountAll (OE := OE) started w3 in (errors_Join (e :: errs), w4)
        | None => blockUntilTeardown (OE := OE) started w3
        end
  end.

Lemma run_body_finish cfg specs w : buildSpecs o cfg = Ok specs → specs ≠ [] →
  run_body (OE := OE) o cfg w = finish (start_all (OE := OE) specs [] w).
Proof. intros Hs Hne. unfold run_body. rewrite Hs. by destruct specs. Qed.

(** What is left of a run, from where its goroutine is. *)
Definition resume (c : sconfig) (w : list observation) : option error * list observation :=
  let started := s_started c in
  match s_main c with
  | MPoll todo => finish (start_all (OE := OE) todo started w)
  | MMount spec todo _ => 
      let '(r, w2) := oe_mountAndWaitReady (OrchEnv := OE) spec w in
      match r with
      | Err e => finish (StartFailed started (m_Destination (sp_mount spec)) e, w2)
      | Ok p => finish (start_all (OE := OE) todo (started ++ [p]) w2)
      end
  | MReady _ =>
      let '(err, w3) := signalReady (OE := OE) o w in
      match err with
      | Some e => let '(errs, w4) := unmountAll (OE := OE) started w3 in (errors_Join (e :: errs), w4)
      | None => blockUntilTeardown (OE := OE) started w3
      end
  | MClosing _ (Some e) => let '(errs, w4) := unmountAll (OE := OE) started w in (errors_Join (e :: errs), w4)
  | MClosing _ None | MSpawn _ | MSelect => blockUntilTeardown (OE := OE) started w
  | MUnmount _ ps causes _ => (errors_Join (causes ++ omap (λ p, unmount_err p <$> ans p) ps), w)
  | MRetract _ err | MDone err => (err, w)
  end.
End resume.

Section refine.
Variables (o : orchestrator) (attempt : mountSpec → bool → Z → result error unit → Prop) (mount_max file_max : Z).
Variables (Wait_report : option error → option error).
Variables (flush : Z) (quiet : string → Z → Prop) (kernel : string → option error → Prop).
Notation mstep := (mstep o attempt).
Notation own := (own o attempt mount_max file_max Wait_report flush quiet kernel).
Notation sstep := (sstep o attempt mount_max file_max Wait_report flush quiet kernel).

(** A step of run's goroutine does what [run_body] does with the observation
    it made. *)
Lemma block_resume c c' : block_step c c' →
  ∃ obs, s_obs c' = s_obs c ++ obs ∧ ∀ ans w, resume o ans c (obs ++ w) = resume o ans c' w.
Proof.
  intros Hs. destruct Hs as [k Hm Hk|k Hm Hk|Hm Hsig|i p err Hm Hw Hp];
    (eexists; split; [reflexivity|]; intros ans w; unfold resume; rewrite Hm; simpl).
  - reflexivity.
  - reflexivity.
  - unfold blockUntilTeardown. simpl. by rewrite unmountAll_scripted.
  - unfold blockUntilTeardown. simpl. pose proof (lookup_lt_Some _ _ _ Hp). destruct (decide (i < length (s_started c))%nat); [|done].
    rewrite Hp, unmountAll_scripted. by destruct err.
Qed.

(** What run will return, once it has joined its errors. *)
Definition outcome (m : main) : option (option error) := match m with MRetract _ err | MDone err => Some err | _ => None end.

Lemma mstep_resume c c' : mstep c c' → outcome (s_main c') = None →
  ∃ obs, s_obs c' = s_obs c ++ obs ∧ ∀ ans w, resume o ans c (obs ++ w) = resume o ans c' w.
Proof.
  intros Hs Hnd. destruct Hs as [todo Hm Hsig|spec todo Hm Hsig|Hm Hsig|spec todo t p Hm Ha Hp|spec todo t e Hm Ha|since Hm Hf|since e Hm Hf|since r Hm Hf Hr
    |since err Hm|c' Hb|base ps causes tc Hm Hex|since err Hm Hf|since err r Hm Hf]; [..|by apply block_resume|done|done|done]; simpl in *.
  all: eexists; split; [reflexivity|]; intros ans w; unfold resume; rewrite Hm; simpl.
  - destruct todo; simpl; unfold shutdownDuringStartup; by rewrite unmountAll_scripted.
  - by destruct w as [|[|[]| |] w].
  - reflexivity.
  - reflexivity.
  - by rewrite unmountAll_scripted.
  - unfold signalReady. by destruct (decide (o_ReadyFilePath o = "")).
  - rewrite signalReady_file by done. simpl. by rewrite unmountAll_scripted.
  - rewrite signalReady_file by done. by destruct r; simpl.
  - destruct err; simpl; [by rewrite unmountAll_scripted|done].
Qed.

(** The other steps leave run where it is. *)
Lemma own_resume c c' : own c c' → outcome (s_main c') = None →
  ∃ obs, s_obs c' = s_obs c ++ obs ∧ ∀ ans w, resume o ans c (obs ++ w) = resume o ans c' w.
Proof.
  intros Hs Hnd. destruct Hs as [c' Hs|base ps causes tc tc' Hm Ht| | | |t Ht Hl]; [by apply mstep_resume|..].
  all: exists []; split; [simpl; by rewrite ?app_nil_r|]; intros ans w; unfold resume; simpl; by rewrite ?Hm.
Qed.

(** ** The teardown *)

(** A choice of answers, one a point. *)
Lemma choose_answers {B} (b : B) (ps : list point) (rs : list B) : NoDup ps → length rs = length ps →
  ∃ ans : point → B, (∀ j p r, ps !! j = Some p → rs !! j = Some r → ans p = r) ∧ ∀ p, p ∉ ps → ans p = b.
Proof.
  intros Hnd. revert rs. induction Hnd as [|p ps Hp Hnd IH]; intros [|r rs] Hlen; try done; [by exists (λ _, b)|].
  destruct (IH rs ltac:(simpl in Hlen; lia)) as (ans & Hans & Hb).
  exists (λ q, if decide (q = p) then r else ans q). split.
  - intros [|j] q r'; simpl; [intros [= <-] [= <-]; by rewrite decide_True|].
    intros Hq Hr. rewrite decide_False; [by eapply Hans|]. intros ->. apply Hp. by eapply list_elem_of_lookup_2.
  - intros q [Hne Hq]%not_elem_of_cons. rewrite decide_False by done. by apply Hb.
Qed.

(** What unmounting a live point at [dest] can return. *)
Definition can_answer (dest : string) (r : option error) : Prop :=
  ∃ d, r = (unmount (fresh_point dest true) d).1.1 ∧
    match d with DetachAfter t err => kernel dest err | DetachNever => True end.

Lemma reals_lookup ps j : reals ps !! j = (λ p, fresh_point (p_destination p) true) <$> (ps !! j).
Proof. apply list_lookup_fmap. Qed.

Lemma reals_grace ps : Forall (λ p, 0 < grace_of p) (reals ps).
Proof. apply Forall_fmap, Forall_true. intros p. reflexivity. Qed.

Lemma reals_bound ps : Forall (λ p, bound flush p <= 123 * time_Second + flush) (reals ps).
Proof.
  apply Forall_fmap, Forall_true. intros p. unfold bound, writebackDrainTimeout, time_Second. simpl.
  change (grace_of (fresh_point (p_destination p) true)) with (3 * 1000000000). lia.
Qed.

Lemma teardown_collected (Hflush : 0 <= flush) base ps tc :
  NoDup ps → rtc (teardown_step flush quiet kernel base ps) (teardown_init ps) tc → all_exited tc →
  ∃ ans, (∀ p, can_answer (p_destination p) (ans p)) ∧
    collected (reals ps) tc = omap (λ p, unmount_err p <$> ans p) ps.
Proof.
  intros Hnd Hr Hex. unfold teardown_step, teardown_init in Hr.
  pose proof (treachable_inv _ _ _ _ _ Hflush (reals_grace ps) tc Hr) as Hi.
  destruct (list_choice (λ j p r, can_answer (p_destination p) r ∧ tc_pcs tc !! j = Some (GExit r)) ps) as (rs & Hlen & Hrs).
  { intros j p Hp. assert (reals ps !! j = Some (fresh_point (p_destination p) true)) as Hrp by (by rewrite reals_lookup, Hp).
    destruct (exit_of_point _ _ _ (reals_grace ps) tc j _ Hi Hex Hrp eq_refl) as (d & Hd & Hpc & _).
    eexists. split; [|exact Hpc]. exists d. split; [done|]. destruct d as [t err|]; [|done].
    destruct Hd as [_ (q & Hq & Hk)]. by simplify_eq. }
  destruct (choose_answers None ps rs Hnd Hlen) as (ans & Hans & Hnone). exists ans. split.
  { intros p. destruct (decide (p ∈ ps)) as [Hp|Hp]; [|rewrite (Hnone p Hp); by exists DetachNever].
    apply list_elem_of_lookup in Hp as [j Hp]. assert (is_Some (rs !! j)) as [r Hr'] by (apply lookup_lt_is_Some; rewrite Hlen; by eapply lookup_lt_Some).
    rewrite (Hans j p r Hp Hr'). by apply (Hrs j p r). }
  unfold collected. transitivity (omap id ((λ p, unmount_err p <$> ans p) <$> ps)).
  - f_equal. apply list_eq. intros j. rewrite lookup_zip_with, reals_lookup, list_lookup_fmap.
    destruct (ps !! j) as [p|] eqn:Hp; [|done]. simpl.
    assert (is_Some (rs !! j)) as [r Hr'] by (apply lookup_lt_is_Some; rewrite Hlen; by eapply lookup_lt_Some).
    destruct (Hrs j p r Hp Hr') as [_ ->]. rewrite (Hans j p r Hp Hr'). simpl. by destruct r.
  - clear. induction ps as [|p ps IH]; [done|]. csimpl. rewrite IH. by destruct (ans p).
Qed.

(** However it goes, a teardown is never seen later than its bound. *)
Lemma teardown_in_time (Hflush : 0 <= flush) base ps tc :
  rtc (teardown_step flush quiet kernel base ps) (teardown_init ps) tc → 0 <= tc_now tc <= 123 * time_Second + flush.
Proof.
  intros Hr. unfold teardown_step, teardown_init in Hr.
  assert (Forall (λ j, (j < length (reals ps))%nat) (seq 0 (length (reals ps)))) as Ht.
  { apply Forall_forall. intros j Hj%elem_of_seq. lia. }
  assert (0 <= tc_now tc) as H0 by apply (treachable_inv _ _ _ _ _ Hflush (reals_grace ps) tc Hr).
  split; [done|]. clear H0. revert tc Hr. apply (rtc_ind_r (λ tc, tc_now tc <= _)).
  { simpl. unfold time_Second. lia. }
  intros tc tc' Hr Hs IH.
  destruct Hs as [c i j p s g g' s' Hat Hs|c j s s' Hsh Hd|c t Hlt (i & g & Hg & He) Hl Hsp]; [done..|].
  assert (tinv (reals ps) (seq 0 (length (reals ps))) flush (kernel_at kernel ps) (mkT t (tc_shared c) (tc_pcs c))) as Hi.
  { apply (treachable_inv _ _ _ (quiet_at quiet base ps) _ Hflush (reals_grace ps)). eapply rtc_r; [exact Hr|]. eapply ts_tick; eauto. }
  apply (unfinished_horizon _ _ _ (quiet_at quiet base ps) (kernel_at kernel ps) Hflush (reals_grace ps) Ht _ (reals_bound ps) _ Hi).
  intros Hex. pose proof (Forall_lookup_1 _ _ _ _ Hex Hg) as Hx. congruence.
Qed.

(** ** The invariant *)

Context (specs : list mountSpec).
Notation horizon := (123 * time_Second + flush).
(** The longest run's goroutine can be away before it comes to the teardown. *)
Notation lag := (Z.max mount_max file_max).

(** By when a signal sent at [s] is behind, and whether it is still in the
    channel, where run's goroutine is. *)
Definition signal_inv (c : sconfig) (s : Z) : Prop :=
  match s_main c with
  | MPoll _ => s_sig c = true ∧ s_now c <= s + mount_max
  | MMount _ _ since | MReady since | MClosing since _ => s_sig c = true ∧ since <= s
  | MSpawn _ | MSelect => s_sig c = true ∧ s_now c <= s + file_max
  | MUnmount base _ _ _ => base <= s + lag
  | MRetract since _ => since <= s + lag + horizon
  | MDone _ => s_now c <= s + lag + horizon + file_max
  end.

Definition main_inv (c : sconfig) : Prop :=
  match s_main c with
  | MPoll todo => s_cancelled c = false ∧ s_waiters c = [] ∧
      (length (s_started c) + length todo = length specs)%nat ∧ Forall (.∈ specs) todo
  | MMount spec todo since => s_cancelled c = false ∧ s_waiters c = [] ∧
      (length (s_started c) + S (length todo) = length specs)%nat ∧ Forall (.∈ specs) (spec :: todo) ∧
      since <= s_now c <= since + mount_max
  | MReady since | MClosing since _ => s_cancelled c = false ∧ s_waiters c = [] ∧ (length (s_started c) <= length specs)%nat ∧
      since <= s_now c <= since + file_max
  | MSpawn k => s_cancelled c = false ∧ length (s_waiters c) = k ∧ (k <= length (s_started c) <= length specs)%nat
  | MSelect => s_cancelled c = false ∧ length (s_waiters c) = length (s_started c) ∧ (length (s_started c) <= length specs)%nat
  | MUnmount base ps causes tc =>
      NoDup ps ∧ (length ps <= length specs)%nat ∧ (length (s_started c) <= length specs)%nat ∧ s_now c = base + tc_now tc ∧
      rtc (teardown_step flush quiet kernel base ps) (teardown_init ps) tc
  | MRetract since _ => (length (s_started c) <= length specs)%nat ∧ since <= s_now c <= since + file_max
  | MDone _ => (length (s_started c) <= length specs)%nat ∧ (s_file c = true → ∃ e, s_removed c = Some (RemoveErr e))
  end.

(** What run saw had happened. *)
Definition obs_inv (c : sconfig) (ob : observation) : Prop :=
  match ob with
  | Polled true | Selected Signalled => s_sent c ≠ None
  | Polled false | ReadyFile _ => True
  | Mounted (Ok p) => ∃ spec dt, spec ∈ specs ∧ p_destination p = m_Destination (sp_mount spec) ∧ attempt spec false dt (Ok tt)
  | Mounted (Err e) => ∃ spec dt, spec ∈ specs ∧ attempt spec false dt (Err e)
  | Selected (PointExited i err) => s_servers c !! i = Some Taken ∧ err = Wait_report None
  end.

Record sinv (c : sconfig) : Prop := {
  si_now : 0 <= s_now c;
  si_ids : map p_id (s_started c) = seq 0 (length (s_started c));
  si_servers : length (s_servers c) = length (s_started c);
  si_wlen : (length (s_waiters c) <= length (s_started c))%nat;
  si_terminal : ∀ i v, s_servers c !! i = Some (Terminal v) → v = None;
  si_waiters : ∀ i err, s_waiters c !! i = Some (Got err) ∨ s_waiters c !! i = Some (Sent err) →
    s_servers c !! i = Some Taken ∧ err = Wait_report None;
  si_main : main_inv c;
  si_sig : s_sig c = true → s_sent c ≠ None;
  si_sent : ∀ s, s_sent c = Some s → s <= s_now c ∧ signal_inv c s;
  si_ready : ∀ t r, s_ready c = Some (t, r) → t <= r <= t + file_max ∧ r <= s_now c ∧ ∀ s, s_sent c = Some s → t <= s;
  si_file : s_file c = true → o_ReadyFilePath o ≠ "";
  si_obs : Forall (obs_inv c) (s_obs c) }.

Context (Hflush : 0 <= flush) (Hmax : 0 <= mount_max) (Hfile : 0 <= file_max).

Lemma sinit_inv : sinv (sinit specs).
Proof.
  split; simpl; try done; [by intros ? ? [?|?]|]. unfold main_inv. simpl. split_and!; [done..|by apply Forall_forall].
Qed.

Lemma unmounting_main c ps causes obs c' : sinv c → NoDup ps → (length ps <= length specs)%nat →
  (length (s_started c') <= length specs)%nat → s_now c' = s_now c → main_inv (goes c' (unmounting c ps causes) obs).
Proof.
  intros Hi Hnd Hlen Hst Hnow. unfold main_inv. simpl. split_and!; [done..|lia|apply rtc_refl].
Qed.

Lemma started_NoDup c : sinv c → NoDup (s_started c).
Proof.
  intros Hi. apply (NoDup_fmap_1 p_id). change (p_id <$> s_started c) with (map p_id (s_started c)).
  rewrite (si_ids c Hi). apply NoDup_seq.
Qed.

(** Close the fields of the invariant that a step does not touch. *)
Ltac keep_fields Hi :=
  try first
    [ exact (si_now _ Hi) | exact (si_ids _ Hi) | exact (si_servers _ Hi) | exact (si_wlen _ Hi) | exact (si_terminal _ Hi)
    | exact (si_waiters _ Hi) | exact (si_main _ Hi) | exact (si_sig _ Hi) | exact (si_sent _ Hi)
    | exact (si_ready _ Hi) | exact (si_file _ Hi) | exact (si_obs _ Hi) ].

(** What was observed stays so. *)
Lemma obs_inv_mono c c' obs : Forall (obs_inv c) obs → (s_sent c ≠ None → s_sent c' ≠ None) →
  (∀ i : nat, s_servers c !! i = Some Taken → s_servers c' !! i = Some Taken) → Forall (obs_inv c') obs.
Proof.
  intros Ho Hs Ht. eapply Forall_impl; [exact Ho|]. intros [[]|[]| |[|i err]]; simpl; naive_solver.
Qed.

(** A step of run's goroutine that leaves the points and the channels alone,
    but for a receive from the signal channel. *)
Record same_state (c c1 : sconfig) : Prop := {
  ss_now : s_now c1 = s_now c; ss_started : s_started c1 = s_started c; ss_servers : s_servers c1 = s_servers c;
  ss_waiters : s_waiters c1 = s_waiters c; ss_obs : s_obs c1 = s_obs c; ss_sent : s_sent c1 = s_sent c;
  ss_ready : s_ready c1 = s_ready c; ss_file : s_file c1 = s_file c; ss_sig : s_sig c1 = true → s_sig c = true }.

Lemma goes_inv c c1 m obs : sinv c → same_state c c1 → main_inv (goes c1 m obs) →
  (∀ s, s_sent c = Some s → signal_inv (goes c1 m obs) s) → Forall (obs_inv c) obs → sinv (goes c1 m obs).
Proof.
  intros Hi [E1 E2 E3 E4 E5 E6 E7 E8 E9] Hmain Hsig Hobs. split; simpl; rewrite ?E1, ?E2, ?E3, ?E4, ?E5, ?E6, ?E7, ?E8; keep_fields Hi.
  - done.
  - intros H. by apply (si_sig c Hi), E9.
  - intros s H. split; [by apply (si_sent c Hi)|by apply Hsig].
  - apply Forall_app; split; (eapply obs_inv_mono; [exact (si_obs c Hi) || exact Hobs|simpl; by rewrite ?E3, ?E6..]).
Qed.

(** The facts of the invariant at a given place of run's goroutine. *)
Lemma inv_at c : sinv c → NoDup (s_started c) ∧ main_inv c ∧ (∀ s, s_sent c = Some s → signal_inv c s).
Proof. intros Hi. split; [by apply started_NoDup|]. split; [apply Hi|]. intros s Hs. by apply Hi. Qed.

Ltac inv_at Hi Hm :=
  destruct (inv_at _ Hi) as (Hnd & Hmain & Hsent);
  unfold main_inv in Hmain; unfold signal_inv in Hsent; rewrite Hm in Hmain, Hsent.

(** Keep the steps of the place run's goroutine is at. *)
Ltac at_main :=
  try congruence;
  try match goal with H : block_step _ _ |- _ => by destruct H; congruence end;
  match goal with H : s_main ?c = _, H' : s_main ?c = _ |- _ => rewrite H in H'; simplify_eq end.

Lemma poll_inv c todo c' : sinv c → s_main c = MPoll todo → mstep c c' → sinv c'.
Proof using Hflush Hmax Hfile.
  intros Hi Hm Hs. inv_at Hi Hm. destruct Hmain as (? & ? & Hlen & Hall). simpl in Hlen.
  destruct Hs; at_main.
  - apply (goes_inv c); try done.
    + apply unmounting_main; try done; simpl; lia.
    + intros s Hs. unfold signal_inv. simpl. destruct (Hsent s Hs). lia.
    + constructor; [|done]. by apply Hi.
  - apply (goes_inv c); try done.
    + unfold main_inv. simpl in *. split_and!; try done; lia.
    + intros s Hs. destruct (Hsent s Hs). congruence.
    + by constructor.
  - apply (goes_inv c); try done.
    + unfold main_inv. simpl in *. split_and!; try done; lia.
    + intros s Hs. destruct (Hsent s Hs). congruence.
    + by constructor.
Qed.

Lemma mount_inv c spec todo t c' : sinv c → s_main c = MMount spec todo t → mstep c c' → sinv c'.
Proof using Hflush Hmax Hfile.
  intros Hi Hm Hs. inv_at Hi Hm. destruct Hmain as (Hc & Hw & Hlen & Hall & Hnow). apply Forall_cons in Hall as [Hin Hall].
  destruct Hs as [| | |spec' todo' t' p Hm' Ha Hp|spec' todo' t' e Hm' Ha| | | | | | | |]; at_main; rewrite Hc in Ha.
  - split; simpl; keep_fields Hi.
    + by rewrite map_app, (si_ids c Hi), length_app, seq_app.
    + rewrite !length_app, (si_servers c Hi). done.
    + rewrite Hw. simpl. lia.
    + intros i v [[_ H]|[_ H]]%lookup_snoc_Some; [exact (si_terminal c Hi i v H)|done].
    + intros i err. rewrite Hw. by intros [?|?].
    + unfold main_inv. simpl. rewrite length_app. simpl. split_and!; [done..|lia|done].
    + intros s Hs. destruct (Hsent s Hs) as (? & ?). split; [by apply Hi|]. split; [done|]. simpl. lia.
    + apply Forall_app. split.
      * eapply obs_inv_mono; [apply Hi|done|]. simpl. intros i H. by apply lookup_app_l_Some.
      * constructor; [|done]. by eexists _, _.
  - apply (goes_inv c); try done.
    + apply unmounting_main; try done; simpl; lia.
    + intros s Hs. unfold signal_inv. simpl. destruct (Hsent s Hs) as (_ & ?). lia.
    + constructor; [|done]. by eexists _, _.
Qed.

(** Creating the ready-file. *)
Lemma created_inv c since m obs : sinv c → s_main c = MReady since → o_ReadyFilePath o ≠ "" →
  sinv (goes c m obs) → (∀ err, m ≠ MDone err) → sinv (goes (file_created since c) m obs).
Proof.
  intros Hi Hm Hf Hg Hend. inv_at Hi Hm. destruct Hmain as (_ & _ & _ & Hnow). split; simpl; keep_fields Hg.
  - pose proof (si_main _ Hg) as Hmm. unfold main_inv in *. simpl in *. destruct m; try done. by edestruct Hend.
  - intros t r [= <- <-]. split; [lia|]. split; [lia|]. intros s Hs. by apply Hsent.
  - done.
Qed.

Lemma ready_inv c since c' : sinv c → s_main c = MReady since → mstep c c' → sinv c'.
Proof using Hflush Hmax Hfile.
  intros Hi Hm Hs. inv_at Hi Hm. destruct Hmain as (Hc & Hw & Hlen & Hnow).
  destruct Hs as [| | | | |since' Hm' Hf|since' e Hm' Hf|since' r Hm' Hf Hr| | | | |]; at_main.
  - apply (goes_inv c); try done.
    + unfold main_inv. simpl. rewrite Hw. split_and!; try done; simpl; lia.
    + intros s Hs. destruct (Hsent s Hs). unfold signal_inv. simpl. split; [done|lia].
  - apply (goes_inv c); try done.
    + apply unmounting_main; try done; simpl; lia.
    + intros s Hs. destruct (Hsent s Hs). unfold signal_inv. simpl. lia.
    + by constructor.
  - apply created_inv; try done. apply (goes_inv c); try done. by constructor.
Qed.

Lemma closing_inv c since err c' : sinv c → s_main c = MClosing since err → mstep c c' → sinv c'.
Proof using Hflush Hmax Hfile.
  intros Hi Hm Hs. inv_at Hi Hm. destruct Hmain as (Hc & Hw & Hlen & Hnow).
  destruct Hs as [| | | | | | | |since' err' Hm'| | | |]; at_main. apply (goes_inv c); try done.
  - destruct err'; [apply unmounting_main; try done; simpl; lia|].
    unfold main_inv. simpl. rewrite Hw. split_and!; try done; simpl; lia.
  - intros s Hs. destruct (Hsent s Hs). unfold signal_inv. destruct err'; simpl; [lia|]. split; [done|lia].
Qed.

Lemma block_inv c c' : sinv c → block_step c c' → sinv c'.
Proof using Hflush Hmax Hfile.
  intros Hi Hs. destruct Hs as [k Hm Hk|k Hm Hk|Hm Hsig|i p err Hm Hwi Hp]; inv_at Hi Hm; destruct Hmain as (Hc & Hw & Hlen).
  - split; simpl; keep_fields Hi.
    + rewrite length_app. simpl. lia.
    + intros i err [[[_ ?]|[_ ?]]%lookup_snoc_Some|[[_ ?]|[_ ?]]%lookup_snoc_Some]; try done; apply Hi; auto.
    + unfold main_inv. simpl. rewrite length_app. simpl. split_and!; try done; lia.
    + intros s Hs. split; [by apply Hi|by apply Hsent].
    + rewrite app_nil_r. eapply obs_inv_mono; [apply Hi|done..].
  - apply (goes_inv c); try done. unfold main_inv. simpl. split_and!; try done; lia.
  - apply (goes_inv c); try done.
    + apply unmounting_main; try done; simpl; lia.
    + intros s Hs. unfold signal_inv. simpl. destruct (Hsent s Hs). lia.
    + constructor; [|done]. by apply Hi.
  - destruct (si_waiters c Hi i err (or_intror Hwi)) as [Htaken ->]. split; simpl; keep_fields Hi.
    + rewrite length_insert. apply Hi.
    + intros j err [[(_ & ? & _)|[_ ?]]%list_lookup_insert_Some|[(_ & ? & _)|[_ ?]]%list_lookup_insert_Some]; try done; apply Hi; auto.
    + apply unmounting_main; try done; [by apply NoDup_filter|]. etransitivity; [apply length_filter|lia].
    + intros s Hs. destruct (Hsent s Hs). split; [by apply Hi|]. unfold signal_inv. simpl. lia.
    + apply Forall_app. split; [eapply obs_inv_mono; [apply Hi|done..]|]. by repeat constructor.
Qed.

Lemma returned_inv c base ps causes tc c' : sinv c → s_main c = MUnmount base ps causes tc → mstep c c' → sinv c'.
Proof using Hflush Hmax Hfile.
  intros Hi Hm Hs. inv_at Hi Hm. destruct Hmain as (_ & _ & Hst & Hnow & Hr). destruct Hs; at_main.
  apply (goes_inv c); try done.
  - unfold main_inv. simpl. split; [done|lia].
  - intros s Hs. specialize (Hsent s Hs). unfold signal_inv. simpl. pose proof (teardown_in_time Hflush _ _ _ Hr). lia.
Qed.

Lemma retract_inv c since err c' : sinv c → s_main c = MRetract since err → mstep c c' → sinv c'.
Proof using Hflush Hmax Hfile.
  intros Hi Hm Hs. inv_at Hi Hm. destruct Hmain as (Hst & Hnow).
  destruct Hs as [| | | | | | | | | | |since' err' Hm' Hf|since' err' r Hm' Hf]; at_main.
  - apply (goes_inv c); try done.
    + unfold main_inv. simpl. split; [done|]. intros H. by destruct (si_file c Hi H).
    + intros s Hs. specialize (Hsent s Hs). unfold signal_inv. simpl. lia.
  - split; simpl; keep_fields Hi.
    + unfold main_inv. simpl. split; [done|]. destruct r; try done. by eexists.
    + intros s Hs. split; [by apply Hi|]. specialize (Hsent s Hs). unfold signal_inv. simpl. lia.
    + done.
    + rewrite app_nil_r. eapply obs_inv_mono; [apply Hi|done..].
Qed.

Lemma mstep_inv c c' : sinv c → mstep c c' → sinv c'.
Proof using Hflush Hmax Hfile.
  intros Hi Hs. destruct (s_main c) eqn:Hm;
    [by eapply poll_inv|by eapply mount_inv|by eapply ready_inv|by eapply closing_inv| | |by eapply returned_inv|by eapply retract_inv|].
  all: destruct Hs; try congruence; by eapply block_inv.
Qed.

(** A step of the channels: run's goroutine is not concerned. *)
Lemma channel_inv c ss ws : sinv c → length ss = length (s_servers c) →
  (∀ i : nat, s_servers c !! i = Some Taken → ss !! i = Some Taken) →
  (∀ i v, ss !! i = Some (Terminal v) → v = None) →
  (∀ i err, ws !! i = Some (Got err) ∨ ws !! i = Some (Sent err) → ss !! i = Some Taken ∧ err = Wait_report None) →
  length ws = length (s_waiters c) → sinv (set_servers ss (set_waiters ws c)).
Proof.
  intros Hi Hlen Ht Hv Hw Hwl. split; simpl; keep_fields Hi; try done.
  - rewrite Hlen. apply Hi.
  - rewrite Hwl. apply Hi.
  - assert (s_waiters c = [] → ws = []) as Hnil by (intros E; rewrite E in Hwl; by apply length_zero_iff_nil).
    pose proof (si_main c Hi) as Hm. unfold main_inv in *. simpl. rewrite Hwl. destruct (s_main c); naive_solver.
  - eapply obs_inv_mono; [apply Hi|done|exact Ht].
Qed.

Lemma taken_insert (ss : list server) i s s' (j : nat) :
  ss !! i = Some s → s ≠ Taken → ss !! j = Some Taken → <[i := s']> ss !! j = Some Taken.
Proof. intros Hi Hne Hj. rewrite list_lookup_insert_ne; [done|]. intros ->. congruence. Qed.

Lemma teardown_inv c base ps causes tc tc' : sinv c → s_main c = MUnmount base ps causes tc →
  teardown_step flush quiet kernel base ps tc tc' → sinv (at_time (base + tc_now tc') (goes c (MUnmount base ps causes tc') [])).
Proof using Hflush Hmax Hfile.
  intros Hi Hm Ht. inv_at Hi Hm. destruct Hmain as (? & ? & ? & Hnow & Hr).
  assert (rtc (teardown_step flush quiet kernel base ps) (teardown_init ps) tc') as Hr' by (by eapply rtc_r).
  assert (tc_now tc <= tc_now tc') as Hle by (destruct Ht; simpl; lia).
  pose proof (si_now c Hi) as Hnow0. split; simpl; keep_fields Hi.
  - lia.
  - done.
  - intros s Hs. destruct (si_sent c Hi s Hs). split; [lia|by apply Hsent].
  - intros t r Hready. destruct (si_ready c Hi t r Hready) as (? & ? & ?). split_and!; [lia..|done].
  - rewrite app_nil_r. eapply obs_inv_mono; [apply Hi|done..].
Qed.

Lemma tick_sinv c t : sinv c → s_now c < t → main_may_last mount_max file_max t c → sinv (at_time t c).
Proof.
  intros Hi Ht Hl. unfold main_may_last in Hl. pose proof (si_main c Hi) as Hm. pose proof (si_sent c Hi) as Hs.
  pose proof (si_sig c Hi) as Hsig. pose proof (si_now c Hi).
  unfold main_inv, signal_inv in *. split; simpl; keep_fields Hi.
  - lia.
  - unfold main_inv. simpl. destruct (s_main c); try done; destruct_and!; split_and!; done || lia.
  - intros s Hs'. specialize (Hs s Hs'). unfold signal_inv. simpl. destruct (s_main c); try done;
      try (split; [lia|tauto]). destruct Hs as (_ & Hsg & _). destruct Hl. congruence.
  - intros t' r Hr. destruct (si_ready c Hi t' r Hr) as (? & ? & ?). split_and!; [lia..|done].
Qed.

Lemma deliver_inv c : sinv c → s_sig c = false → sinv (deliver c).
Proof using Hflush Hmax Hfile.
  intros Hi Hsig. pose proof (si_main c Hi) as Hm. pose proof (si_now c Hi). split; simpl; keep_fields Hi; try done.
  - intros s [= <-]. destruct (s_sent c) as [s|] eqn:Hs; simpl.
    + destruct (si_sent c Hi s Hs) as [? Hd]. split; [done|]. unfold signal_inv in *. simpl. destruct (s_main c); naive_solver.
    + split; [done|]. unfold signal_inv, main_inv in *. simpl. unfold time_Second.
      destruct (s_main c); try (split; [done|lia]); try lia.
      destruct Hm as (_ & _ & _ & Hnow & Hr). pose proof (teardown_in_time Hflush _ _ _ Hr). lia.
  - intros t r Hr. destruct (si_ready c Hi t r Hr) as (? & ? & Hd). split_and!; [lia..|]. intros s [= <-].
    destruct (s_sent c); [by apply Hd|simpl; lia].
  - eapply obs_inv_mono; [apply Hi|done..].
Qed.

Lemma own_inv c c' : sinv c → own c c' → sinv c'.
Proof using Hflush Hmax Hfile.
  intros Hi Hs. destruct Hs as [c' Hs|base ps causes tc tc' Hm Ht|i s s' Hl Hs|i v Hl Hw|i err Hw|t Ht Hl].
  - by eapply mstep_inv.
  - by eapply teardown_inv.
  - assert (s ≠ Taken) as Hne by (by destruct Hs).
    apply (channel_inv c _ (s_waiters c) Hi); [apply length_insert|intros j; by eapply taken_insert| | |done].
    + intros j v [(_ & ? & _)|[_ Hj]]%list_lookup_insert_Some; [subst; by inversion Hs|by apply (si_terminal c Hi j)].
    + intros j err [Ht He]%(si_waiters c Hi). split; [by eapply taken_insert|done].
  - rewrite (si_terminal c Hi i v Hl). pose proof (lookup_lt_Some _ _ _ Hl).
    apply (channel_inv c _ _ Hi); [apply length_insert|intros j; by eapply taken_insert| | |apply length_insert].
    + intros j v' [(_ & ? & _)|[_ Hj]]%list_lookup_insert_Some; [done|by apply (si_terminal c Hi j)].
    + intros j err Hj. destruct (decide (j = i)) as [->|Hne].
      * rewrite list_lookup_insert_eq by (by eapply lookup_lt_Some). rewrite list_lookup_insert_eq in Hj by (by eapply lookup_lt_Some).
        split; [done|]. naive_solver.
      * rewrite !list_lookup_insert_ne in * by done. by apply Hi.
  - destruct (si_waiters c Hi i err (or_introl Hw)) as [Ht ->].
    apply (channel_inv c (s_servers c) _ Hi); [done|done|apply Hi| |apply length_insert].
    intros j err [[(<- & ? & _)|[_ ?]]%list_lookup_insert_Some|[(<- & ? & _)|[_ ?]]%list_lookup_insert_Some]; try naive_solver; apply Hi; auto.
  - by apply tick_sinv.
Qed.

Lemma sstep_inv c c' : sinv c → sstep c c' → sinv c'.
Proof using Hflush Hmax Hfile. intros Hi [c'' Hs|Hsig]; [by eapply own_inv|by apply deliver_inv]. Qed.

Lemma sreachable_inv c c' : sinv c → rtc sstep c c' → sinv c'.
Proof using Hflush Hmax Hfile. intros Hi Hr. induction Hr; eauto using sstep_inv. Qed.

(** ** Refinement *)

(** The orchestrator, given the observations so far, is where run's goroutine
    is. *)
Definition replayed (cfg : Config) (c : sconfig) : Prop :=
  match outcome (s_main c) with
  | Some err => ∃ ans, (∀ p, can_answer (p_destination p) (ans p)) ∧
      ∀ w, run_body (OE := scripted ans) o cfg (s_obs c ++ w) = (err, w)
  | None => ∀ ans w, run_body (OE := scripted ans) o cfg (s_obs c ++ w) = resume o ans c w
  end.

Definition finished (c : sconfig) : bool := match s_main c with MDone _ => true | _ => false end.

Lemma replayed_ext cfg c c' : s_main c' = s_main c → s_obs c' = s_obs c → s_started c' = s_started c →
  replayed cfg c → replayed cfg c'.
Proof. unfold replayed, resume. intros -> -> ->. done. Qed.

(** What run will return stays decided, with nothing more observed. *)
Lemma own_outcome c c' err : own c c' → outcome (s_main c) = Some err → outcome (s_main c') = Some err ∧ s_obs c' = s_obs c.
Proof.
  intros Hs Ho. destruct Hs as [c' Hs|base ps causes tc tc' Hm Ht| | | |t Ht Hl]; try done; [|by rewrite Hm in Ho].
  destruct Hs as [todo Hm Hsig|spec todo Hm Hsig|Hm Hsig|spec todo t p Hm Ha Hp|spec todo t e Hm Ha|since Hm Hf|since e Hm Hf|since r Hm Hf Hr
    |since e Hm|c' Hb|base ps causes tc Hm Hex|since e Hm Hf|since e r Hm Hf];
    [..|by destruct Hb as [? Hm|? Hm|Hm|? ? ? Hm]; rewrite Hm in Ho| | |]; rewrite Hm in Ho; try done; simpl; by rewrite app_nil_r.
Qed.

Lemma own_replayed cfg c c' : sinv c → own c c' → replayed cfg c → replayed cfg c'.
Proof using Hflush.
  intros Hi Hs Hr. unfold replayed in Hr. destruct (outcome (s_main c)) as [err|] eqn:Ho.
  { destruct (own_outcome c c' err Hs Ho) as [Ho' Hobs]. unfold replayed. by rewrite Ho', Hobs. }
  destruct (outcome (s_main c')) as [err|] eqn:Ho'; unfold replayed; rewrite Ho'.
  2: { destruct (own_resume c c' Hs Ho') as (obs & -> & Hres). intros ans w. by rewrite <- app_assoc, <- Hres. }
  destruct Hs as [c' Hs|base ps causes tc tc' Hm Ht| | | |t Ht Hl]; simpl in Ho'; try congruence.
  destruct Hs as [| | | | | | | |since e Hm|? Hb|base ps causes tc Hm Hex|since e Hm Hf|since e r Hm Hf];
    try done; [by destruct e|by destruct Hb| |by rewrite Hm in Ho..].
  inv_at Hi Hm. destruct Hmain as (Hndp & _ & _ & _ & Hrun).
  destruct (teardown_collected Hflush base ps tc Hndp Hrun Hex) as (ans & Hans & Hcol).
  injection Ho' as <-. exists ans. split; [done|]. intros w. simpl. rewrite app_nil_r, Hcol.
  rewrite Hr. unfold resume. by rewrite Hm.
Qed.

Lemma reachable_replayed cfg c : buildSpecs o cfg = Ok specs → specs ≠ [] → rtc sstep (sinit specs) c → replayed cfg c.
Proof using Hflush Hmax Hfile.
  intros Hspecs Hne. revert c. apply rtc_ind_r.
  - intros ans w. simpl. by rewrite (run_body_finish o ans cfg specs).
  - intros c c' Hr Hs IH. pose proof (sreachable_inv _ _ sinit_inv Hr) as Hi.
    destruct Hs as [c'' Hs|Hsig]; [by eapply own_replayed|by apply (replayed_ext cfg c)].
Qed.

(** ** Progress *)

Context (Hattempt : ∀ spec b dt, 0 <= dt <= mount_max → ∃ dt' r, dt <= dt' <= mount_max ∧ attempt spec b dt' r).

Lemma teardown_targets ps : Forall (λ j, (j < length (reals ps))%nat) (seq 0 (length (reals ps))).
Proof. apply Forall_forall. intros j Hj%elem_of_seq. lia. Qed.

(** An attempt in flight can return, or wait until it can. *)
Lemma mount_progress c spec todo t : s_main c = MMount spec todo t → t <= s_now c <= t + mount_max → ∃ c', own c c'.
Proof using Hattempt.
  intros Hm Hnow. destruct (Hattempt spec (s_cancelled c) (s_now c - t)) as (dt & r & Hdt & Ha); [lia|].
  destruct (decide (dt = s_now c - t)) as [->|Hne].
  - destruct r as [[]|e]; eexists; apply ow_main; [by eapply ms_up|by eapply ms_failed].
  - exists (at_time (t + dt) c). apply ow_tick; [lia|]. unfold main_may_last. rewrite Hm. lia.
Qed.

Definition full (w : waiter) : bool := match w with Sent _ => true | _ => false end.

(** The select has a case ready, or can wait. *)
Lemma select_progress c : s_main c = MSelect → (length (s_waiters c) <= length (s_started c))%nat → ∃ c', own c c'.
Proof.
  intros Hm Hlen. destruct (s_sig c) eqn:Hsig; [eexists; by apply ow_main, ms_block, bs_select_signal|].
  destruct (decide (Exists (λ w, full w = true) (s_waiters c))) as [He|He].
  - apply Exists_exists in He as (w & [i Hw]%list_elem_of_lookup & Hfull). destruct w as [| |err|]; try done.
    assert (is_Some (s_started c !! i)) as [p Hp] by (apply lookup_lt_is_Some; apply lookup_lt_Some in Hw; lia).
    eexists. by eapply ow_main, ms_block, bs_select_exit.
  - exists (at_time (s_now c + 1) c). apply ow_tick; [lia|]. unfold main_may_last. rewrite Hm. split; [done|].
    intros i err Hw. apply He, Exists_exists. eexists. split; [by eapply list_elem_of_lookup_2|done].
Qed.

Lemma own_progress c : sinv c → finished c = false → ∃ c', own c c'.
Proof using Hflush Hattempt.
  intros Hi Hf. pose proof (si_main c Hi) as Hm'. unfold main_inv in Hm'. unfold finished in Hf.
  destruct (s_main c) as [todo|spec todo t|since|since err|k| |base ps causes tc|since err|] eqn:Hm; [..|done].
  - destruct (s_sig c) eqn:Hsig; [|destruct todo]; eexists; apply ow_main; [by eapply ms_poll_signal|by apply ms_poll_last|by eapply ms_poll_next].
  - eapply mount_progress; [done|apply Hm'].
  - destruct (decide (o_ReadyFilePath o = "")); eexists; apply ow_main; [by eapply ms_ready_log|by eapply (ms_ready_file _ _ _ _ Created)].
  - eexists. by eapply ow_main, ms_closed.
  - destruct (le_lt_dec (length (s_started c)) k); eexists; apply ow_main; [by eapply ms_block, bs_spawned|by eapply ms_block, bs_spawn].
  - apply select_progress; [done|apply Hi].
  - destruct Hm' as (_ & _ & _ & _ & Hr).
    pose proof (treachable_inv _ _ _ (quiet_at quiet base ps) _ Hflush (reals_grace ps) tc Hr) as Ht.
    destruct (tprogress _ _ _ (quiet_at quiet base ps) _ Hflush (reals_grace ps) (teardown_targets ps) _ (reals_bound ps) tc Ht) as [Hex|[tc' Hs]].
    + eexists. by eapply ow_main, ms_returned.
    + eexists. by eapply ow_teardown.
  - destruct (decide (o_ReadyFilePath o = "")); eexists; apply ow_main; [by eapply ms_no_retract|by eapply (ms_retract _ _ _ _ _ Removed)].
Qed.

(** ** A signal ends the run *)

Definition server_rank (s : server) : nat :=
  match s with Serving => 3 | Draining => 2 | Quiesced => 1 | Terminal _ | Taken => 0 end.
Definition waiter_rank (w : waiter) : nat :=
  match w with Waiting => 2 | Got _ => 1 | Sent _ | Received => 0 end.

(** The steps of a whole teardown with the removal of the ready-file, and of
    run's goroutine once a signal is on its way. *)
Definition tear_cost : nat := 9 * length specs + Z.to_nat horizon + Z.to_nat file_max + 3.
Definition main_rank (c : sconfig) : nat :=
  match s_main c with
  | MMount _ _ since => tear_cost + 6 + Z.to_nat (since + mount_max - s_now c)
  | MReady since => tear_cost + 5 + 3 * length (s_started c) + Z.to_nat (since + file_max - s_now c)
  | MClosing since _ => tear_cost + 4 + 3 * length (s_started c) + Z.to_nat (since + file_max - s_now c)
  | MSpawn k => tear_cost + 3 + 3 * (length (s_started c) - k)
  | MPoll _ | MSelect => tear_cost + 2
  | MUnmount _ _ _ tc => 3 + Z.to_nat file_max + measure horizon tc
  | MRetract since _ => 1 + Z.to_nat (since + file_max - s_now c)
  | MDone _ => 0
  end.
Definition rank (c : sconfig) : nat :=
  main_rank c + sum_list_with server_rank (s_servers c) + sum_list_with waiter_rank (s_waiters c) + (if s_sig c then 0 else 1).

Lemma teardown_rank base ps tc : (length ps <= length specs)%nat →
  rtc (teardown_step flush quiet kernel base ps) (teardown_init ps) tc → (3 + Z.to_nat file_max + measure horizon tc <= tear_cost)%nat.
Proof using Hflush.
  intros Hlen [n Hn]%rtc_nsteps_1.
  pose proof (nsteps_measure _ _ _ (quiet_at quiet base ps) _ Hflush (reals_grace ps) (teardown_targets ps) _ (reals_bound ps) n tc Hn) as Hm.
  rewrite measure_init, length_seq in Hm. unfold reals in Hm. rewrite length_map in Hm. unfold tear_cost. lia.
Qed.

Lemma unmounting_rank ps : (length ps <= length specs)%nat → (3 + Z.to_nat file_max + measure horizon (teardown_init ps) <= tear_cost)%nat.
Proof using Hflush quiet kernel. intros Hlen. apply (teardown_rank 0 ps); [done|apply rtc_refl]. Qed.

Lemma block_rank c c' : sinv c → block_step c c' → (rank c' < rank c)%nat.
Proof using Hflush Hmax Hfile.
  intros Hi Hs. pose proof (inv_at c Hi) as (_ & Hm' & _). unfold main_inv in Hm'. pose proof (unmounting_rank (s_started c)) as Hst.
  destruct Hs as [k Hm Hk|k Hm Hk|Hm Hsig|i p err Hm Hw Hp]; rewrite Hm in Hm'; unfold rank, main_rank; rewrite Hm; simpl.
  - rewrite sum_list_with_app. simpl. lia.
  - lia.
  - rewrite Hsig. lia.
  - pose proof (length_filter (λ q, q ≠ p) (s_started c)). pose proof (unmounting_rank (filter (λ q, q ≠ p) (s_started c))).
    pose proof (sum_list_insert waiter_rank _ _ _ Received Hw) as Hsum. simpl in Hsum. lia.
Qed.

Lemma mstep_rank c c' s : sinv c → s_sent c = Some s → mstep c c' → (rank c' < rank c)%nat.
Proof using Hflush Hmax Hfile.
  intros Hi Hsent Hs. pose proof (inv_at c Hi) as (_ & Hm' & Hs'). specialize (Hs' s Hsent). unfold main_inv in Hm'. unfold signal_inv in Hs'.
  pose proof (unmounting_rank (s_started c)) as Hst.
  destruct Hs as [todo Hm Hsig|spec todo Hm Hsig|Hm Hsig|spec todo t p Hm Ha Hp|spec todo t e Hm Ha|since Hm Hf|since e Hm Hf|since r Hm Hf Hr
    |since err Hm|c' Hb|base ps causes tc Hm Hex|since err Hm Hf|since err r Hm Hf];
    [..|by apply block_rank| | |]; rewrite Hm in Hm', Hs'; unfold rank, main_rank; rewrite Hm; simpl.
  - rewrite Hsig. lia.
  - destruct Hs'. congruence.
  - destruct Hs'. congruence.
  - rewrite sum_list_with_app. simpl. lia.
  - destruct (s_sig c); lia.
  - lia.
  - destruct (s_sig c); lia.
  - lia.
  - destruct err; simpl; destruct (s_sig c); lia.
  - destruct (s_sig c); lia.
  - lia.
  - lia.
Qed.

Lemma own_rank c c' s : sinv c → s_sent c = Some s → own c c' → (rank c' < rank c)%nat.
Proof using Hflush Hmax Hfile.
  intros Hi Hsent Hs. pose proof (inv_at c Hi) as (_ & Hm' & Hs'). specialize (Hs' s Hsent). unfold main_inv in Hm'. unfold signal_inv in Hs'.
  destruct Hs as [c' Hs|base ps causes tc tc' Hm Ht|i s0 s' Hl Hs|i v Hl Hw|i err Hw|t Ht Hl]; [by eapply mstep_rank|..].
  - rewrite Hm in Hm'. destruct Hm' as (_ & _ & _ & _ & Hr).
    pose proof (treachable_inv _ _ _ (quiet_at quiet base ps) _ Hflush (reals_grace ps) tc Hr) as Hti.
    pose proof (tstep_measure _ _ _ _ _ Hflush (reals_grace ps) (teardown_targets ps) _ (reals_bound ps) tc tc' Hti Ht).
    unfold rank, main_rank. simpl. rewrite Hm. lia.
  - unfold rank, main_rank. simpl. pose proof (sum_list_insert server_rank _ _ _ s' Hl).
    assert (server_rank s' < server_rank s0)%nat by (destruct Hs; simpl; lia). lia.
  - unfold rank, main_rank. simpl. pose proof (sum_list_insert server_rank _ _ _ Taken Hl).
    pose proof (sum_list_insert waiter_rank _ _ _ (Got (Wait_report v)) Hw). simpl in *. lia.
  - unfold rank, main_rank. simpl. pose proof (sum_list_insert waiter_rank _ _ _ (Sent err) Hw). simpl in *. lia.
  - unfold rank, main_rank. simpl. unfold main_may_last in Hl. destruct (s_main c); try done; try lia. destruct Hs', Hl. congruence.
Qed.

Lemma sstep_rank c c' s : sinv c → s_sent c = Some s → sstep c c' → (rank c' < rank c)%nat.
Proof using Hflush Hmax Hfile.
  intros Hi Hsent [c'' Hs|Hsig]; [by eapply own_rank|]. unfold rank, main_rank. simpl. rewrite Hsig. lia.
Qed.

Lemma sum_list_le {A} (f : A → nat) k l : (∀ x, (f x <= k)%nat) → (sum_list_with f l <= k * length l)%nat.
Proof. intros Hf. induction l as [|x l IH]; simpl; [lia|]. specialize (Hf x). lia. Qed.

Lemma rank_bound c : sinv c → (rank c <= 17 * length specs + Z.to_nat horizon + Z.to_nat mount_max + 2 * Z.to_nat file_max + 10)%nat.
Proof using Hflush Hmax Hfile.
  intros Hi. pose proof (si_main c Hi) as Hm. unfold main_inv in Hm. unfold rank, main_rank.
  pose proof (sum_list_le server_rank 3 (s_servers c) ltac:(intros []; simpl; lia)).
  pose proof (sum_list_le waiter_rank 2 (s_waiters c) ltac:(intros []; simpl; lia)).
  pose proof (si_servers c Hi). pose proof (si_wlen c Hi).
  assert (∀ n, (n <= 9 * length specs + Z.to_nat horizon + 3 * length specs + Z.to_nat mount_max + 2 * Z.to_nat file_max + 9 →
    length (s_started c) <= length specs → n + sum_list_with server_rank (s_servers c) + sum_list_with waiter_rank (s_waiters c) +
    (if s_sig c then 0 else 1) <= 17 * length specs + Z.to_nat horizon + Z.to_nat mount_max + 2 * Z.to_nat file_max + 10)%nat) as Hsum.
  { intros n. destruct (s_sig c); lia. }
  destruct (s_main c); apply Hsum; unfold tear_cost; try lia.
  destruct Hm as (_ & Hlen & _ & _ & Hr). pose proof (teardown_rank _ _ _ Hlen Hr) as Ht. unfold tear_cost in Ht. lia.
Qed.

(** The first signal's time does not change. *)
Lemma sstep_sent c c' s : sstep c c' → s_sent c = Some s → s_sent c' = Some s.
Proof.
  intros [c'' Hs|Hsig] H; [|simpl; by rewrite H]. destruct Hs as [c'' Hs|base ps causes tc tc' Hm Ht| | | |t Ht Hl]; try done.
  destruct Hs as [| | | | | | | | |? Hb| | |]; try done. by destruct Hb.
Qed.

Lemma nsteps_rank n c c' s : sinv c → s_sent c = Some s → nsteps sstep n c c' →
  (n + rank c' <= rank c)%nat ∧ s_sent c' = Some s ∧ sinv c'.
Proof using Hflush Hmax Hfile.
  revert c. induction n as [|n IH]; intros c Hi Hs Hn; inversion Hn as [|? ? c1 ? H1 Hr]; subst; [done|].
  destruct (IH c1 (sstep_inv c c1 Hi H1) (sstep_sent c c1 s H1 Hs) Hr) as (? & ? & ?).
  pose proof (sstep_rank c c1 s Hi Hs H1). split_and!; try done; lia.
Qed.

(** Run still has a poll before it. *)
Definition starting (c : sconfig) : bool := match s_main c with MPoll _ | MMount _ _ _ => true | _ => false end.

(** No ready-file yet: run has not come to signalReady, or will not. *)
Definition unready (stopped : Prop) (c : sconfig) : Prop :=
  match s_main c with
  | MPoll _ | MMount _ _ _ => s_ready c = None
  | MReady _ => ¬ stopped ∧ s_ready c = None
  | _ => stopped → s_ready c = None
  end.

Lemma sstep_unready (stopped : Prop) c c' : sinv c → (stopped → s_sent c ≠ None) → sstep c c' → unready stopped c → unready stopped c'.
Proof.
  intros Hi Hst Hs Hu. destruct (inv_at c Hi) as (_ & _ & Hinv). unfold unready, signal_inv in *.
  destruct Hs as [c' Hs|]; [|exact Hu]. destruct Hs as [c' Hs|base ps causes tc tc' Hm Ht| | | |t Ht Hl]; try exact Hu; [|by rewrite Hm in Hu].
  destruct Hs as [todo Hm Hsig|spec todo Hm Hsig|Hm Hsig|spec todo t p Hm Ha Hp|spec todo t e Hm Ha|since Hm Hf|since e Hm Hf|since r Hm Hf Hr
    |since err Hm|c' Hb|base ps causes tc Hm Hex|since err Hm Hf|since err r Hm Hf];
    [..|by destruct Hb as [? Hm ?|? Hm ?|Hm ?|? ? ? Hm ? ?]; rewrite Hm in Hu; simpl| | |]; rewrite Hm in Hu, Hinv; simpl in *; try done; try naive_solver.
  - split; [|done]. intros Hx. destruct (s_sent c) as [s|] eqn:E; [|by apply (Hst Hx)]. destruct (Hinv s eq_refl). congruence.
  - by destruct err.
Qed.

(** A signal that precedes a poll keeps the ready-file from being created. *)
Lemma starting_unready c c' : rtc sstep (sinit specs) c → s_sent c ≠ None → starting c = true → rtc sstep c c' → s_ready c' = None.
Proof using Hflush Hmax Hfile.
  intros Hr Hsent Hst Hr'.
  assert (∀ x, rtc sstep (sinit specs) x → unready False x) as H0.
  { apply (rtc_ind_r (unready False)); [done|]. intros x y Hx Hxy IH. apply (sstep_unready False x); [|by intros []|exact Hxy|exact IH].
    by apply (sreachable_inv _ _ sinit_inv). }
  assert (sinv c') as Hi' by (apply (sreachable_inv _ _ sinit_inv); by etrans).
  assert (unready True c') as Hu; [|unfold unready in Hu; destruct (s_main c'); naive_solver].
  assert (sinv c) as Hi by by apply (sreachable_inv _ _ sinit_inv).
  assert (unready True c) as Hu by (specialize (H0 c Hr); unfold unready, starting in *; by destruct (s_main c)).
  clear Hr H0 Hi' Hst. induction Hr' as [|x y z Hxy _ IH]; [done|]. destruct (s_sent x) as [t|] eqn:E; [|done].
  apply IH; [by rewrite (sstep_sent x y t Hxy E)|by eapply sstep_inv|]. apply (sstep_unready True x); [exact Hi| |exact Hxy|exact Hu]. by rewrite E.
Qed.

(** How late a run with a signal can be. *)
Lemma signal_deadline c s : sinv c → s_sent c = Some s → s_now c <= s + lag + horizon + file_max.
Proof using Hflush Hmax Hfile.
  intros Hi Hs. destruct (inv_at c Hi) as (_ & Hm & Hsig). specialize (Hsig s Hs). unfold main_inv in Hm. unfold signal_inv in Hsig.
  assert (0 <= horizon) by (unfold time_Second; lia). destruct (s_main c); try lia.
  destruct Hm as (_ & _ & _ & Hnow & Hr). pose proof (teardown_in_time Hflush _ _ _ Hr). lia.
Qed.

End refine.

(** ** Theorems *)

(** C14: run with everything that runs beside it is the sequential
    orchestrator.  However signals, mount attempts, exits of served mounts, the
    waiter goroutines, the select and the goroutines of unmountAll interleave, a
    finished run returned what [run_body] returns on the observations run made,
    used up exactly those, and made only true ones: a signal it saw was
    delivered, a mount result came from an attempt whose context was live, and a
    point's exit came from its own serve goroutine. *)
Theorem concurrent_run_refines (o : orchestrator) (cfg : Config) (specs : list mountSpec)
    (attempt : mountSpec → bool → Z → result error unit → Prop) (mount_max file_max : Z) (Wait_report : option error → option error)
    (flush : Z) (quiet : string → Z → Prop) (kernel : string → option error → Prop) (c : sconfig) (err : option error)
    (Hflush : 0 <= flush) (Hmax : 0 <= mount_max) (Hfile : 0 <= file_max) (Hspecs : buildSpecs o cfg = Ok specs) (Hne : specs ≠ [])
    (Hreach : rtc (sstep o attempt mount_max file_max Wait_report flush quiet kernel) (sinit specs) c)
    (Hdone : s_main c = MDone err) :
  ∃ ans, OrchLaws (scripted ans) ∧ (∀ p, can_answer kernel (p_destination p) (ans p)) ∧
    run_body (OE := scripted ans) o cfg (s_obs c) = (err, []) ∧
    Forall (obs_inv attempt Wait_report specs c) (s_obs c).
Proof.
  pose proof (reachable_replayed _ _ _ _ _ _ _ _ _ Hflush Hmax Hfile cfg c Hspecs Hne Hreach) as Hr.
  pose proof (sreachable_inv _ _ _ _ _ _ _ _ _ Hflush Hmax Hfile _ _ (sinit_inv _ _ _ _ _ _ _ _ _) Hreach) as Hi.
  unfold replayed in Hr. rewrite Hdone in Hr. destruct Hr as (ans & Hans & Hrun).
  exists ans. split; [apply _|]. split; [done|]. split; [|apply Hi]. specialize (Hrun []). by rewrite app_nil_r in Hrun.
Qed.

(** C13: a termination signal always ends the run, in time, and never leaves it
    ready.  Once the first signal has been delivered, whatever else happens, the
    run can go on until it has returned, within a number of steps linear in the
    mounts; it returns within what may be in flight (one mount attempt, or
    signalReady), one teardown (123 s and a cache flush, however many mounts are
    up) and the removal of the ready-file.  A signal that comes while a poll is
    still ahead keeps the ready-file from being created; otherwise it is created,
    if at all, in the call of signalReady that followed the last poll, within
    that call's time; and a run that has returned has removed it, unless
    os.Remove failed. *)
Theorem signal_ends_run (o : orchestrator) (specs : list mountSpec)
    (attempt : mountSpec → bool → Z → result error unit → Prop) (mount_max file_max : Z) (Wait_report : option error → option error)
    (flush : Z) (quiet : string → Z → Prop) (kernel : string → option error → Prop) (c c' : sconfig) (s : Z) (n : nat)
    (Hflush : 0 <= flush) (Hmax : 0 <= mount_max) (Hfile : 0 <= file_max)
    (Hattempt : ∀ spec b dt, 0 <= dt <= mount_max → ∃ dt' r, dt <= dt' <= mount_max ∧ attempt spec b dt' r)
    (Hreach : rtc (sstep o attempt mount_max file_max Wait_report flush quiet kernel) (sinit specs) c)
    (Hsent : s_sent c = Some s)
    (Hrun : nsteps (sstep o attempt mount_max file_max Wait_report flush quiet kernel) n c c') :
  (n <= 17 * length specs + Z.to_nat (123 * time_Second + flush) + Z.to_nat mount_max + 2 * Z.to_nat file_max + 10)%nat ∧
  (finished c' = true ∨ ∃ c'', own o attempt mount_max file_max Wait_report flush quiet kernel c' c'') ∧
  s_now c' <= s + Z.max mount_max file_max + (123 * time_Second + flush) + file_max ∧
  (starting c = true → s_ready c' = None) ∧
  (∀ t r, s_ready c' = Some (t, r) → t <= s ∧ t <= r <= t + file_max) ∧
  (finished c' = true → s_file c' = true → ∃ e, s_removed c' = Some (RemoveErr e)).
Proof.
  pose proof (sreachable_inv _ _ _ _ _ _ _ _ _ Hflush Hmax Hfile _ _ (sinit_inv _ _ _ _ _ _ _ _ _) Hreach) as Hi.
  destruct (nsteps_rank _ _ _ _ _ _ _ _ _ Hflush Hmax Hfile n c c' s Hi Hsent Hrun) as (Hn & Hs & Hi').
  pose proof (rank_bound _ _ _ _ _ _ _ _ _ Hflush Hmax Hfile c Hi). split; [lia|]. split.
  { destruct (finished c') eqn:Hf; [by left|right]. by eapply own_progress. }
  split; [by eapply signal_deadline|]. split; [|split].
  - intros Hst. eapply starting_unready; [exact Hflush|exact Hmax|exact Hfile|exact Hreach|by rewrite Hsent|done|].
    apply rtc_nsteps. by exists n.
  - intros t r Hr. destruct (si_ready _ _ _ _ _ _ _ _ _ _ Hi' t r Hr) as (? & _ & Hp). by split; [apply Hp|].
  - pose proof (si_main _ _ _ _ _ _ _ _ _ _ Hi') as Hm. unfold finished, main_inv in *. by destruct (s_main c'); try destruct Hm.
Qed.

(** A mount attempt never sees its context cancelled: run cancels mountCtx
    only after it has polled a signal, and it polls between attempts. *)
Theorem mount_sees_live_ctx (o : orchestrator) (specs : list mountSpec)
    (attempt : mountSpec → bool → Z → result error unit → Prop) (mount_max file_max : Z) (Wait_report : option error → option error)
    (flush : Z) (quiet : string → Z → Prop) (kernel : string → option error → Prop) (c : sconfig) spec todo since
    (Hflush : 0 <= flush) (Hmax : 0 <= mount_max) (Hfile : 0 <= file_max)
    (Hreach : rtc (sstep o attempt mount_max file_max Wait_report flush quiet kernel) (sinit specs) c)
    (Hmount : s_main c = MMount spec todo since) :
  s_cancelled c = false.
Proof.
  pose proof (sreachable_inv _ _ _ _ _ _ _ _ _ Hflush Hmax Hfile _ _ (sinit_inv _ _ _ _ _ _ _ _ _) Hreach) as Hi.
  pose proof (si_main _ _ _ _ _ _ _ _ _ _ Hi) as Hm. unfold main_inv in Hm. rewrite Hmount in Hm. apply Hm.
Qed.

(** serveFuse's goroutine sends nothing but nil, so where mountlib's Wait
    reports nil for it, a mount that dies by itself never makes run fail: its
    result is that of the other mounts' cleanup. *)
Theorem spontaneous_exit_is_clean (o : orchestrator) (specs : list mountSpec)
    (attempt : mountSpec → bool → Z → result error unit → Prop) (mount_max file_max : Z) (Wait_report : option error → option error)
    (flush : Z) (quiet : string → Z → Prop) (kernel : string → option error → Prop) (c : sconfig) i err
    (Hflush : 0 <= flush) (Hmax : 0 <= mount_max) (Hfile : 0 <= file_max) (Hwait : Wait_report None = None)
    (Hreach : rtc (sstep o attempt mount_max file_max Wait_report flush quiet kernel) (sinit specs) c)
    (Hexit : Selected (PointExited i err) ∈ s_obs c) :
  err = None.
Proof.
  pose proof (sreachable_inv _ _ _ _ _ _ _ _ _ Hflush Hmax Hfile _ _ (sinit_inv _ _ _ _ _ _ _ _ _) Hreach) as Hi.
  pose proof (si_obs _ _ _ _ _ _ _ _ _ _ Hi) as Ho. rewrite Forall_forall in Ho. destruct (Ho _ Hexit) as [_ ->]. done.
Qed.

(** ** A run *)

(** One mount whose readiness takes its whole 30 s, writers that use up the
    drain timeout, a kernel that does not answer, and a signal delivered just
    after the attempt began. *)
Definition late_orch : orchestrator := mkOrch "" "https://edge" "PEM".
Definition late_cfg : Config := mkConfig "v1" "https://edge" "PEM" (Some [at_dest "/mnt/a"]) None.
Definition late_spec : mountSpec := spec_of late_orch (at_dest "/mnt/a").
Definition late_attempt (spec : mountSpec) (cancelled : bool) (dt : Z) (r : result error unit) : Prop :=
  dt = waitMountReadyTimeout ∧ r = Ok tt.
Definition late_point : point := mkPoint 0 "/mnt/a".

Definition late_start : sconfig := deliver (goes (sinit [late_spec]) (MMount late_spec [] 0) [Polled false]).
Definition late_end : sconfig :=
  mkS (153 * time_Second) (MDone None) false true false [late_point] [Serving] [] [Polled false; Mounted (Ok late_point); Polled true]
    (Some 0) None None.

Section demo.
Notation step := (sstep late_orch late_attempt waitMountReadyTimeout 0 id 0 (λ _ _, False) (λ _ _, False)).

Lemma late_to_start : rtc step (sinit [late_spec]) late_start.
Proof.
  eapply rtc_l; [by apply ss_own, ow_main, ms_poll_next|]. eapply rtc_l; [by apply ss_signal|]. apply rtc_refl.
Qed.

(** Where run is when the attempt has returned, and when it has seen the
    signal. *)
Definition late_up (m : main) (sig cancelled : bool) (obs : list observation) : sconfig :=
  mkS (30 * time_Second) m sig cancelled false [late_point] [Serving] [] ([Polled false; Mounted (Ok late_point)] ++ obs) (Some 0) None None.

Lemma late_mount : rtc step late_start (late_up (MPoll []) true false []).
Proof.
  eapply rtc_l; [apply ss_own, (ow_tick _ _ _ _ _ _ _ _ _ (30 * time_Second)); done|].
  eapply rtc_l; [apply ss_own, ow_main, (ms_up _ _ _ late_spec [] 0 late_point)|]; [done| |done|apply rtc_refl].
  split; [vm_compute|]; done.
Qed.

Definition late_tear (tc : tconfig) : sconfig :=
  at_time (30 * time_Second + tc_now tc) (late_up (MUnmount (30 * time_Second) [late_point] [] tc) false true [Polled true]).

Lemma late_poll : rtc step (late_up (MPoll []) true false []) (late_tear (teardown_init [late_point])).
Proof. eapply rtc_l; [by apply ss_own, ow_main, (ms_poll_signal _ _ _ [])|]. apply rtc_refl. Qed.

Notation tstep' := (teardown_step 0 (λ _ _, False) (λ _ _, False) (30 * time_Second) [late_point]).

Lemma late_lift tc tc' : rtc tstep' tc tc' → rtc step (late_tear tc) (late_tear tc').
Proof.
  induction 1 as [|tc1 tc2 tc3 H _ IH]; [apply rtc_refl|]. eapply rtc_l; [|exact IH].
  apply ss_own. by apply (ow_teardown _ _ _ _ _ _ _ _ (late_tear tc1) (30 * time_Second) [late_point] [] tc1 tc2).
Qed.

(** The end of the teardown: drained, flushed, the detach still running. *)
Definition late_torn : tconfig :=
  mkT (123 * time_Second)
    [mkShared (ODone (Some (ESent errDetachDidNotReturn))) DRunning [WaitForWriters writebackDrainTimeout; FlushDirCache; Unmount]]
    [GExit None].

Lemma late_go {c s g c'} g' s' :
  at_point (reals [late_point]) [0%nat] 0 0 (fresh_point "/mnt/a" true) s c g →
  gstep (quiet_at (λ _ _, False) (30 * time_Second) [late_point]) 0 0 (fresh_point "/mnt/a" true) (tc_now c) g s g' s' →
  rtc tstep' (mkT (tc_now c) (<[0%nat := s']> (tc_shared c)) (<[0%nat := g']> (tc_pcs c))) c' → rtc tstep' c c'.
Proof. intros Hat Hs. apply rtc_l. by eapply ts_go. Qed.

Ltac go tac := eapply late_go; [split_and!; reflexivity|tac; try reflexivity|]; simpl.
Ltac ticks t :=
  eapply rtc_l; [apply (ts_tick _ _ _ _ _ _ t);
    [reflexivity
    |exists 0%nat; eexists; split; reflexivity
    |intros [|] j p s g (Hg & Hj & Hp & Hs); simpl in *; simplify_eq; simpl in *; simplify_eq; simpl; try discriminate; exact I
    |intros [|] s Hs; simpl in *; simplify_eq; done]|]; simpl tc_shared; simpl tc_pcs.

Lemma late_teardown : rtc tstep' (teardown_init [late_point]) late_torn.
Proof.
  unfold teardown_step, teardown_init, tinit. simpl.
  go ltac:(apply gs_enter_vfs).
  ticks (120 * time_Second).
  go ltac:(apply gs_drained; right; done).
  go ltac:(apply gs_flushed). go ltac:(apply gs_spawn).
  eapply rtc_l; [eapply (ts_detach _ _ _ _ _ _ 0%nat); [reflexivity|apply ds_call]|]; simpl.
  ticks (123 * time_Second).
  go ltac:(apply gs_timeout; done).
  go ltac:(apply gs_store). apply rtc_refl.
Qed.

Lemma late_run : rtc step late_start late_end.
Proof.
  etransitivity; [apply late_mount|]. etransitivity; [apply late_poll|]. etransitivity; [apply late_lift, late_teardown|].
  eapply rtc_l; [by apply ss_own, ow_main, (ms_returned _ _ _ (30 * time_Second) [late_point] [] late_torn); [|repeat constructor]|].
  eapply rtc_l; [by eapply ss_own, ow_main, ms_no_retract|]. apply rtc_refl.
Qed.
End demo.

Lemma late_specs : buildSpecs late_orch late_cfg = Ok [late_spec].
Proof. reflexivity. Qed.

Lemma late_attempt_returns spec b dt : 0 <= dt <= waitMountReadyTimeout →
  ∃ dt' r, dt <= dt' <= waitMountReadyTimeout ∧ late_attempt spec b dt' r.
Proof. intros H. exists waitMountReadyTimeout, (Ok tt). split; [lia|done]. Qed.

(** The shipped deployments give the process 150 s to stop.  A signal during
    start-up can need 153: the attempt in flight is not aborted, and the
    teardown comes after it. *)
Theorem signal_overruns_grace :
  rtc (sstep late_orch late_attempt waitMountReadyTimeout 0 id 0 (λ _ _, False) (λ _ _, False)) (sinit [late_spec]) late_end ∧
  s_sent late_end = Some 0 ∧ finished late_end = true ∧ 150 * time_Second < s_now late_end.
Proof. split; [|done]. etransitivity; [apply late_to_start|apply late_run]. Qed.

(** Readiness can appear after a termination request: the signal falls between
    the last poll and the OpenFile of signalReady. *)
Definition race_orch : orchestrator := mkOrch "/run/ready" "https://edge" "PEM".
Definition race_spec : mountSpec := spec_of race_orch (at_dest "/mnt/a").
Definition race_attempt (spec : mountSpec) (cancelled : bool) (dt : Z) (r : result error unit) : Prop := r = Ok tt.
Definition race_end : sconfig :=
  mkS 1 (MClosing 0 None) true false true [late_point] [Serving] []
    [Polled false; Mounted (Ok late_point); Polled false; ReadyFile Created] (Some 0) (Some (0, 1)) None.

Theorem ready_after_signal :
  rtc (sstep race_orch race_attempt 0 1 id 0 (λ _ _, False) (λ _ _, False)) (sinit [race_spec]) race_end ∧
  s_sent race_end = Some 0 ∧ s_ready race_end = Some (0, 1).
Proof.
  split; [|done].
  eapply rtc_l; [by apply ss_own, ow_main, ms_poll_next|].
  eapply rtc_l; [by apply ss_own, ow_main, (ms_up _ _ _ race_spec [] 0 late_point)|].
  eapply rtc_l; [by apply ss_own, ow_main, ms_poll_last|]. eapply rtc_l; [by apply ss_signal|].
  eapply rtc_l; [by apply ss_own, (ow_tick _ _ _ _ _ _ _ _ _ 1)|].
  eapply rtc_l; [by apply ss_own, ow_main, (ms_ready_file _ _ _ 0 Created)|]. apply rtc_refl.
Qed.

Lemma concurrent_run_refines_witness :
  ∃ ans, run_body (OE := scripted ans) late_orch late_cfg [Polled false; Mounted (Ok late_point); Polled true] = (None, []).
Proof.
  destruct (concurrent_run_refines late_orch late_cfg [late_spec] late_attempt waitMountReadyTimeout 0 id 0
    (λ _ _, False) (λ _ _, False) late_end None) as (ans & _ & _ & Hrun & _).
  - lia.
  - discriminate.
  - lia.
  - exact late_specs.
  - discriminate.
  - etransitivity; [apply late_to_start|apply late_run].
  - reflexivity.
  - exists ans. exact Hrun.
Defined.

Lemma signal_ends_run_witness :
  ∃ n, nsteps (sstep late_orch late_attempt waitMountReadyTimeout 0 id 0 (λ _ _, False) (λ _ _, False)) n late_start late_end ∧
    153 * time_Second <= 0 + Z.max waitMountReadyTimeout 0 + (123 * time_Second + 0) + 0.
Proof.
  destruct (proj1 (rtc_nsteps _ _) late_run) as [n Hn]. exists n. split; [exact Hn|].
  refine (proj1 (proj2 (proj2 (signal_ends_run late_orch [late_spec] late_attempt waitMountReadyTimeout 0 id 0
    (λ _ _, False) (λ _ _, False) late_start late_end 0 n _ _ _ _ _ _ Hn)))).
  - lia.
  - discriminate.
  - lia.
  - intros spec b dt. apply late_attempt_returns.
  - apply late_to_start.
  - reflexivity.
Defined.
