(* ===== verification/MainCmd.v ===== *)
(** * The guest binary (cmd/ocu-rclone-filestore: run.go, main.go)

    The flag package's parser on the three flags of the binary, the typed
    config errors as error values, runWith, and main's exit code. *)
From Stdlib Require Import Ascii String.
From stdpp Require Import base list strings numbers gmap sets.
From S2P Require Import Prelude GoErrors GoPath Regex MountCfg Orchestrator OrchestratorSpec.
Local Open Scope Z_scope.

(** ** The Error methods of mountcfg's typed errors *)
Definition cfg_error (e : CfgError) : error :=
  match e with
  | ErrRead path e => EErrorf "read config %q: %w" [AStr path] [e]
  | ErrDecode => EErrorf "strict decode failed: %v" [] []
  | ErrSchemaVersion v => EErrorf "schema_version %q does not match the required interface version pattern ^v[0-9]+(alpha|beta)?[0-9]*$" [AStr v] []
  | ErrServiceURL v r => EErrorf "service_url %q is invalid: %s" [AStr v; AStr r] []
  | ErrMissingField f => EErrorf "required field %q is missing" [AStr f] []
  | ErrDestination i v => EErrorf "mounts[%d] destination %q must be an absolute path matching ^/.+" [AInt (Z.of_nat i); AStr v] []
  | ErrAuthToken i => EErrorf "mounts[%d] auth_token is present but empty; the per-mount session token must be a non-empty string" [AInt (Z.of_nat i)] []
  | ErrMountScope i hasFS hasMem =>
      if hasFS && hasMem
      then EErrorf "mounts[%d] sets both filesystem_id and memory_store_id; exactly one is required" [AInt (Z.of_nat i)] []
      else EErrorf "mounts[%d] sets neither filesystem_id nor memory_store_id; exactly one is required" [AInt (Z.of_nat i)] []
  | ErrScopeID i f => EErrorf "mounts[%d] %s is present but empty; a scope id must be a non-empty string" [AInt (Z.of_nat i); AStr f] []
  | ErrReadonlyMissing i => EErrorf "mounts[%d] is missing the required readonly flag" [AInt (Z.of_nat i)] []
  | ErrCacheDuration i missing v =>
      if missing : bool then EErrorf "mounts[%d] is missing the required cache_duration_s field" [AInt (Z.of_nat i)] []
      else EErrorf "mounts[%d] cache_duration_s %d must be >= 0" [AInt (Z.of_nat i); AInt v] []
  | ErrPerms i f v => EErrorf "mounts[%d] %s %q must be an octal string matching ^0[0-7]{3}$" [AInt (Z.of_nat i); AStr f; AStr v] []
  | ErrByteSize i v => EErrorf "mounts[%d] vfs_cache_max_size %q must match ^[0-9]+(B|K|M|G|T)?$" [AInt (Z.of_nat i); AStr v] []
  | ErrCacheMode i v => EErrorf "mounts[%d] vfs_cache_mode %q must be one of off/minimal/writes/full" [AInt (Z.of_nat i); AStr v] []
  end.

(** ** Flags *)
Record Flags := mkFlags { fl_config : string; fl_version : bool; fl_ready_file : string }.

(** [strconv.ParseBool]. *)
Definition ParseBool (s : string) : option bool :=
  if decide (s ∈ ["1"; "t"; "T"; "true"; "TRUE"; "True"]) then Some true
  else if decide (s ∈ ["0"; "f"; "F"; "false"; "FALSE"; "False"]) then Some false
  else None.

(** Split a flag body at its first "=", which may not be the first byte. *)
Fixpoint cut_eq (s : string) : string * option string :=
  match s with
  | "" => ("", None)
  | String c s' => if decide (c = "="%char) then ("", Some s')
                   else let '(n, v) := cut_eq s' in (String c n, v)
  end.

(** What one argument is to [FlagSet.parseOne]. *)
Inductive arg_kind : Type :=
| ArgStop
| ArgBad
| ArgFlag (name : string) (value : option string).

Definition flag_body (s : string) : arg_kind :=
  match s with
  | "" => ArgBad
  | String c _ => if decide (c = "-"%char) then ArgBad
                  else if decide (c = "="%char) then ArgBad
                  else let '(n, v) := cut_eq s in ArgFlag n v
  end.

(** "-" and non-flags stop the parse, "--" ends it too. *)
Definition classify_arg (s : string) : arg_kind :=
  match s with
  | String c1 (String c2 rest) =>
      if decide (c1 = "-"%char) then
        if decide (c2 = "-"%char) then (if decide (rest = "") then ArgStop else flag_body rest)
        else flag_body (String c2 rest)
      else ArgStop
  | _ => ArgStop
  end.

Definition err_flag (text : string) : error := errors_New text.

Fixpoint parse_args (args : list string) (fl : Flags) : result error Flags :=
  match args with
  | [] => Ok fl
  | s :: rest =>
      match classify_arg s with
      | ArgStop => Ok fl
      | ArgBad => Err (err_flag "bad flag syntax")
      | ArgFlag name value =>
          if decide (name = "version") then
            match value with
            | None => parse_args rest (mkFlags (fl_config fl) true (fl_ready_file fl))
            | Some v => match ParseBool v with
                        | Some b => parse_args rest (mkFlags (fl_config fl) b (fl_ready_file fl))
                        | None => Err (err_flag "invalid boolean value")
                        end
            end
          else if decide (name ∈ ["config"; "ready-file"]) then
            let set v := if decide (name = "config") then mkFlags v (fl_version fl) (fl_ready_file fl)
                         else mkFlags (fl_config fl) (fl_version fl) v in
            match value, rest with
            | Some v, _ => parse_args rest (set v)
            | None, v :: rest' => parse_args rest' (set v)
            | None, [] => Err (err_flag "flag needs an argument")
            end
          else if decide (name ∈ ["help"; "h"]) then Err (err_flag "flag: help requested")
          else Err (err_flag "flag provided but not defined")
      end
  end.

Definition Parse (args : list string) : result error Flags := parse_args args (mkFlags "" false "").

Example parse_ex1 : Parse ["--config=/etc/c.json"; "-ready-file"; "/run/r"; "--"; "--version"]
  = Ok (mkFlags "/etc/c.json" false "/run/r"). Proof. reflexivity. Qed.
Example parse_ex2 : Parse ["--config"] = Err (err_flag "flag needs an argument"). Proof. reflexivity. Qed.

(** ** runWith *)
Section run.
Context {W : Type}.
(** The environment, the config file, the version write, the cache-dir
    invariant and the mounter. *)
Variable Getenv : string → string.
Variable ReadFile : string → result error string.
Variable ParseRequestURI_ok : string → bool.
Variable write_version : option error.
Variable EnsureWritableCacheDir_err : option error.
Variable mount : Config → ReadinessConfig → option nat → W → option error * W.
(** The channel [make] returns. *)
Variable sig : nat.

Definition resolveFlagOrEnv (flagVal envKey : string) : string :=
  if decide (flagVal = "") then Getenv envKey else flagVal.

Definition runWith (args : list string) (w : W) : option error * W :=
  match Parse args with
  | Err e => (Some (EErrorf "parse flags: %w" [] [e]), w)
  | Ok fl =>
      if fl_version fl then
        match write_version with
        | Some e => (Some (EErrorf "write version: %w" [] [e]), w)
        | None => (None, w)
        end
      else if decide (fl_config fl = "") then
        (Some (errors_New "missing required --config flag: pass the path to the guest mount config"), w)
      else
        let resolvedReadyFile := resolveFlagOrEnv (fl_ready_file fl) "OCU_READY_FILE" in
        match Load ParseRequestURI_ok (fl_config fl) (ReadFile (fl_config fl)) with
        | Err e => (Some (EErrorf "load config: %w" [] [cfg_error e]), w)
        | Ok cfg =>
            match EnsureWritableCacheDir_err with
            | Some e => (Some (EErrorf "ensure VFS cache dir: %w" [] [e]), w)
            | None => mount cfg (mkReadiness resolvedReadyFile) (Some sig) w
            end
        end
  end.

(** main: the exit code. *)
Definition main (args : list string) (w : W) : Z * W :=
  let '(err, w') := runWith args w in (match err with Some _ => 1 | None => 0 end, w').

(** What a config-driven run needs before it may touch a mount. *)
Definition config_accepted (fl : Flags) (cfg : Config) : Prop :=
  fl_version fl = false ∧ EnsureWritableCacheDir_err = None ∧
  ∃ raw, ReadFile (fl_config fl) = Ok raw ∧ decode_config raw = Some cfg ∧ valid_config ParseRequestURI_ok cfg.

(** runWith ends before the mount with the world as it was, or is the mount
    of an accepted config. *)
Lemma runWith_cases (args : list string) (w : W) :
  (∃ e, runWith args w = (Some e, w)) ∨
  (∃ fl, Parse args = Ok fl ∧ fl_version fl = true ∧ runWith args w = (None, w)) ∨
  (∃ fl cfg, Parse args = Ok fl ∧ config_accepted fl cfg ∧
     runWith args w = mount cfg (mkReadiness (resolveFlagOrEnv (fl_ready_file fl) "OCU_READY_FILE")) (Some sig) w).
Proof.
  unfold runWith. destruct (Parse args) as [fl|]; [|eauto].
  destruct (fl_version fl) eqn:Hver; [destruct write_version; eauto 6|].
  case_decide; [eauto|]. unfold Load.
  destruct (ReadFile (fl_config fl)) as [raw|] eqn:Hr; [|eauto].
  destruct (decode_config raw) as [cfg|] eqn:Hd; [|eauto].
  destruct (validate _ cfg) eqn:Hv; [eauto|].
  destruct EnsureWritableCacheDir_err eqn:Hc; [eauto|].
  right. right. exists fl, cfg. split; [done|]. split; [|done].
  split; [done|]. split; [done|]. exists raw. split; [done|]. split; [done|]. by apply validate_None.
Qed.
End run.

(** ** The production wiring *)
Definition productionMount `{OE : OrchEnv W} (defaultRealSeam : option error) (cfg : Config) (rc : ReadinessConfig)
    (signals : option nat) (w : W) : option error * W :=
  Mounter_Mount (New defaultRealSeam [WithReadiness rc; WithSignals signals]) cfg w.

(** The binary's mount is one orchestrator run on the config's transport
    values and the ready-file it was given. *)
Lemma productionMount_run `{OE : OrchEnv W} (seam : option error) (cfg : Config) (ready : string) (sig : option nat) (w : W) :
  productionMount seam cfg (mkReadiness ready) sig w =
  Orchestrator.run seam (mkOrch ready (c_ServiceURL cfg) (c_CACertPEM cfg)) cfg w.
Proof. reflexivity. Qed.

(** The whole binary, from argv to exit code.  The process exits 0 or 1.
    It mounts something only for a config that passed every validation rule and
    through a writable cache directory; what it then does follows the lifecycle
    grammar for exactly the config's destinations and the ready-file of the
    flag (or, when the flag is empty, of the environment), and leaves nothing
    mounted whatever the exit code.  Exit 0 means a version query that mounted
    nothing, or such a run in which no mount failed and readiness, if asked
    for, was signalled unless termination came first. *)
Theorem main_exit_code {W} (OE : OrchEnv W) (OL : OrchLaws OE) (seam : option error)
    (Getenv : string → string) (ReadFile : string → result error string) (uri_ok : string → bool)
    (write_version cache_err : option error) (sig : nat) (args : list string) (w : W) :
  let '(code, (log, _)) := main Getenv ReadFile uri_ok write_version cache_err
    (productionMount (OE := recorded OE) seam) sig args ([], w) in
  (code = 0 ∨ code = 1) ∧ unmounted log ++ exited log ≡ₚ mounted log ∧
  (code = 0 ∨ log ≠ [] → ∃ fl, Parse args = Ok fl ∧
     ((fl_version fl = true ∧ code = 0 ∧ log = []) ∨
      ∃ cfg err, config_accepted ReadFile uri_ok cache_err fl cfg ∧ seam = None ∧ (code = 0 ↔ err = None) ∧
        run_shape (mkOrch (resolveFlagOrEnv Getenv (fl_ready_file fl) "OCU_READY_FILE")
                          (c_ServiceURL cfg) (c_CACertPEM cfg)) cfg err log ∧
        (code = 0 → existsb failure_event log = false))).
Proof.
  unfold main.
  destruct (runWith_cases Getenv ReadFile uri_ok write_version cache_err
              (productionMount (OE := recorded OE) seam) sig args ([], w))
    as [[e ->]|[(fl & Hp & Hv & ->)|(fl & cfg & Hp & Hacc & ->)]].
  - split; [auto|]. split; [done|]. by intros [?|?].
  - split; [auto|]. split; [done|]. eauto 6.
  - rewrite productionMount_run. destruct seam as [e|].
    { split; [auto|]. split; [done|]. by intros [?|?]. }
    set (o := mkOrch _ _ _).
    destruct (run_log OE o cfg w) as (err & log & w' & -> & Hf & Hshape).
    split; [destruct err; auto|]. split; [by eapply run_shape_balanced|].
    intros _. exists fl. split; [done|]. right. exists cfg, err. split; [done|]. split; [done|].
    split; [by destruct err|]. split; [exact Hshape|].
    destruct err; [done|]. intros _. destruct (existsb failure_event log); [|done]. by destruct Hf.
Qed.

Definition demo_env (key : string) : string := "/run/ready".
Definition demo_file : string := GoJson.print_json (enc_Config two_mounts).
Definition demo_read (path : string) : result error string :=
  if decide (path = "c.json") then Ok demo_file else Err (errors_New "no such file").

Lemma main_exit_code_witness :
  let log := [EvRemove; EvMounted (mkPoint 1 "/a"); EvMounted (mkPoint 2 "/b"); EvReady; EvSignal;
              EvUnmount (mkPoint 2 "/b"); EvUnmount (mkPoint 1 "/a"); EvRemove] in
  main demo_env demo_read (λ _, true) None None (productionMount (OE := recorded calm) None) 0%nat
    ["--config=c.json"] ([], tt) = (0, (log, tt)) ∧
  unmounted log ++ exited log ≡ₚ mounted log.
Proof.
  intros log.
  assert (main demo_env demo_read (λ _, true) None None (productionMount (OE := recorded calm) None) 0%nat
    ["--config=c.json"] ([], tt) = (0, (log, tt))) as H by (vm_compute; reflexivity).
  split; [exact H|].
  pose proof (main_exit_code calm calm_laws None demo_env demo_read (λ _, true) None None 0%nat ["--config=c.json"] tt) as Hm.
  rewrite H in Hm. exact (proj1 (proj2 Hm)).
Defined.
