(* ===== verification/Production.v ===== *)
(** * The binary on its production seam

    The orchestrator's environment is here the production seam itself: real
    points keyed by the path they are mounted at, the mount sequence and the
    guarded teardown of [RealPoint], over the answers of the host and the kernel
    ([SeamEnv]).  The trace of seam calls of a whole run of the binary is then
    read off the lifecycle its orchestrator follows. *)
From Stdlib Require Import Ascii String.
From stdpp Require Import base list strings numbers gmap.
From S2P Require Import Prelude GoErrors GoIO GoPath BrokerErrors Messages Client Ocufs Regex MountCfg Orchestrator OrchestratorSpec Guards MountOptions RealPoint MainCmd.
Local Open Scope Z_scope.

(** ** The seam's surroundings *)

(** What one mount attempt is answered: the registry, the option parsers, the
    tree at the destination, mp.Mount, the readiness observations, and the
    kernel's detach should the attempt be taken back. *)
Record answers := mkAnswers {
  an_Find : option error; an_VFSOptions : option error; an_tree : node; an_Mount : option error;
  an_CanCheckMountReady : bool; an_start : Z; an_polls : list poll; an_detach : detach }.

(** The host, the kernel, the signals and the scheduler. *)
Class SeamEnv (E : Type) := {
  se_mount : mountSpec → E → answers * E;
  se_detach : string → E → detach * E;
  se_signalPending : E → bool * E;
  se_Remove : string → E → remove_result * E;
  se_createReady : string → E → create_result * E;
  se_select : list point → E → select_outcome * E;
  se_schedule : nat → E → list nat }.

(** Every goroutine runs once, the select answers one of its own cases, and a
    poll loop observes for as long as its timeout lasts. *)
Class SeamLaws {E} (SE : SeamEnv E) : Prop := {
  se_schedule_perm : ∀ n e, se_schedule n e ≡ₚ seq 0 n;
  se_select_range : ∀ ps e i err e', se_select ps e = (PointExited i err, e') → (i < length ps)%nat;
  se_polls_paced : ∀ spec e a e', se_mount spec e = (a, e') →
    paced (an_start a) (an_polls a) ∧ waitMountReadyTimeout / (100 * time_Millisecond) + 2 <= Z.of_nat (length (an_polls a)) }.

(** One call of the orchestrator into the seam, with the calls the seam made
    of the mount. *)
Inductive seam_event : Type :=
| SeamMount (spec : mountSpec) (a : answers) (calls : list seam_call)
| SeamUnmount (dest : string) (calls : list teardown_call).

(** The process: its live points by mount path, and what it did. *)
Record proc (E : Type) := mkProc { pr_points : gmap string realPoint; pr_trace : list seam_event; pr_env : E }.
Arguments mkProc {E}. Arguments pr_points {E}. Arguments pr_trace {E}. Arguments pr_env {E}.

Section production.
Context `{SE : SeamEnv E}.
(** configstruct, net/url, x509. *)
Variable configstruct_Set : gmap string string → result error Options.
Variable url_Parse : string → result error URL.
Variable AppendCertsFromPEM : bytes → bool.

(** info.NewFs(ctx, "ocufs-"+dest, "", cm). *)
Definition NewFs_of (spec : mountSpec) (cm : gmap string string) : option error :=
  match NewFs configstruct_Set url_Parse AppendCertsFromPEM 0 ("ocufs-" +:+ m_Destination (sp_mount spec)) "" cm with
  | Ok _ => None
  | Err e => Some e
  end.

(** waitReady of one attempt; the observations last ([se_polls_paced]). *)
Definition ready_of (a : answers) (dest : string) : option error :=
  match waitReady (an_CanCheckMountReady a) dest (an_start a) waitMountReadyTimeout (an_polls a) with
  | Some r => r
  | None => Some (errors_New "unreachable")
  end.

Definition attempt (spec : mountSpec) (a : answers) : result error realPoint * list seam_call :=
  mountAndWaitReady (an_Find a) NewFs_of (λ _, an_VFSOptions a) (λ _, an_tree a) (λ _, an_Mount a) (ready_of a) (an_detach a) spec.

Definition seam_mount (spec : mountSpec) (w : proc E) : result error point * proc E :=
  let '(a, e) := se_mount spec (pr_env w) in
  let '(r, calls) := attempt spec a in
  let trace := pr_trace w ++ [SeamMount spec a calls] in
  match r with
  | Ok rp => (Ok (mkPoint 0 (rp_dest rp)), mkProc (<[rp_dest rp := rp]> (pr_points w)) trace e)
  | Err err => (Err err, mkProc (pr_points w) trace e)
  end.

Definition seam_unmount (p : point) (w : proc E) : option error * proc E :=
  match pr_points w !! p_destination p with
  | None => (Some (EErrorf "unmount: unexpected point type %T" [] []), w)
  | Some rp =>
      let '(d, e) := se_detach (rp_dest rp) (pr_env w) in
      let '(err, calls, rp') := unmount rp d in
      (err, mkProc (<[p_destination p := rp']> (pr_points w)) (pr_trace w ++ [SeamUnmount (p_destination p) calls]) e)
  end.

Definition lift {A} (w : proc E) (r : A * E) : A * proc E := (r.1, mkProc (pr_points w) (pr_trace w) r.2).

Definition production : OrchEnv (proc E) := {|
  oe_mountAndWaitReady := seam_mount;
  oe_unmount := seam_unmount;
  oe_signalPending w := lift w (se_signalPending (pr_env w));
  oe_os_Remove path w := lift w (se_Remove path (pr_env w));
  oe_createReady path w := lift w (se_createReady path (pr_env w));
  oe_select ps w := lift w (se_select ps (pr_env w));
  oe_schedule n w := se_schedule n (pr_env w) |}.

#[export] Instance production_laws : SeamLaws SE → OrchLaws production.
Proof.
  intros SL. split.
  - intros n w. apply se_schedule_perm.
  - intros ps w i err w' H. simpl in H. unfold lift in H. destruct (se_select ps (pr_env w)) as [r e] eqn:Es.
    simpl in H. injection H as -> _. by eapply se_select_range.
Qed.

(** ** What each event of the lifecycle does to the points and the trace *)

(** An attempt that got as far as starting the mount. *)
Definition started (spec : mountSpec) (a : answers) : Prop :=
  may_start NewFs_of (λ _, an_tree a) spec.

Inductive estep (specs : list mountSpec) (pts : gmap string realPoint) : event → gmap string realPoint → list seam_event → Prop :=
| es_mounted p spec a :
    spec ∈ specs → p_destination p = m_Destination (sp_mount spec) →
    started spec a → an_Mount a = None → ready_of a (p_destination p) = None →
    estep specs pts (EvMounted p) (<[p_destination p := fresh_point (p_destination p) true]> pts)
      [SeamMount spec a [StartMount (p_destination p)]]
| es_refused spec a :
    spec ∈ specs → estep specs pts (EvMountFailed (m_Destination (sp_mount spec))) pts [SeamMount spec a []]
| es_no_mount spec a :
    spec ∈ specs → started spec a → an_Mount a ≠ None →
    estep specs pts (EvMountFailed (m_Destination (sp_mount spec))) pts
      [SeamMount spec a [StartMount (m_Destination (sp_mount spec))]]
| es_not_ready spec a :
    spec ∈ specs → started spec a → an_Mount a = None → ready_of a (m_Destination (sp_mount spec)) ≠ None →
    estep specs pts (EvMountFailed (m_Destination (sp_mount spec))) pts
      [SeamMount spec a (StartMount (m_Destination (sp_mount spec)) :: teardown_calls)]
| es_unmount p rp d err calls rp' :
    pts !! p_destination p = Some rp → unmount rp d = (err, calls, rp') →
    estep specs pts (EvUnmount p) (<[p_destination p := rp']> pts) [SeamUnmount (p_destination p) calls]
| es_unknown p :
    pts !! p_destination p = None → estep specs pts (EvUnmount p) pts []
| es_other ev :
    match ev with EvMounted _ | EvMountFailed _ | EvUnmount _ => False | _ => True end → estep specs pts ev pts [].

Inductive esteps (specs : list mountSpec) : gmap string realPoint → list event → gmap string realPoint → list seam_event → Prop :=
| ess_nil pts : esteps specs pts [] pts []
| ess_cons pts ev pts1 se1 log pts2 se2 :
    estep specs pts ev pts1 se1 → esteps specs pts1 log pts2 se2 → esteps specs pts (ev :: log) pts2 (se1 ++ se2).

Lemma esteps_app specs pts l1 pts1 t1 l2 pts2 t2 :
  esteps specs pts l1 pts1 t1 → esteps specs pts1 l2 pts2 t2 → esteps specs pts (l1 ++ l2) pts2 (t1 ++ t2).
Proof. induction 1; [done|]. intros. simpl. rewrite <- app_assoc. econstructor; eauto. Qed.

Lemma esteps_snoc specs pts log pts1 t1 ev pts2 se :
  esteps specs pts log pts1 t1 → estep specs pts1 ev pts2 se → esteps specs pts (log ++ [ev]) pts2 (t1 ++ se).
Proof. intros H1 H2. eapply esteps_app; [done|]. rewrite <- (app_nil_r se). econstructor; [done|constructor]. Qed.

Lemma esteps_split specs pts l1 l2 pts2 t : esteps specs pts (l1 ++ l2) pts2 t →
  ∃ pts1 t1 t2, t = t1 ++ t2 ∧ esteps specs pts l1 pts1 t1 ∧ esteps specs pts1 l2 pts2 t2.
Proof.
  revert pts t. induction l1 as [|ev l1 IH]; intros pts t H; simpl in H.
  - exists pts, [], t. split; [done|]. split; [constructor|done].
  - inversion H; subst. destruct (IH _ _ ltac:(eassumption)) as (p1 & t1 & t2 & -> & ? & ?).
    eexists _, _, _. split; [by rewrite app_assoc|]. split; [by econstructor|done].
Qed.

(** The process is where its log says. *)
Definition in_step (specs : list mountSpec) (w : list event * proc E) : Prop :=
  esteps specs ∅ w.1 (pr_points w.2) (pr_trace w.2).

(** The observations of an attempt always decide its readiness. *)
Lemma attempt_decides (SL : SeamLaws SE) spec e a e' dest : se_mount spec e = (a, e') →
  waitReady (an_CanCheckMountReady a) dest (an_start a) waitMountReadyTimeout (an_polls a) = Some (ready_of a dest).
Proof.
  intros [Hp Hl]%se_polls_paced. unfold ready_of.
  by destruct (waitReady_total (an_CanCheckMountReady a) dest (an_start a) waitMountReadyTimeout (an_polls a) Hp Hl) as [r ->].
Qed.

Lemma ready_of_None a dest : ready_of a dest = None ↔
  waitReady (an_CanCheckMountReady a) dest (an_start a) waitMountReadyTimeout (an_polls a) = Some None.
Proof. unfold ready_of. destruct (waitReady _ _ _ _ _) as [[e|]|]; done. Qed.

Lemma attempt_step specs pts spec a : spec ∈ specs →
  let '(r, calls) := attempt spec a in
  match r with
  | Ok rp => rp = fresh_point (m_Destination (sp_mount spec)) true ∧
      ∀ n, estep specs pts (EvMounted (mkPoint n (rp_dest rp))) (<[rp_dest rp := rp]> pts) [SeamMount spec a calls]
  | Err _ => estep specs pts (EvMountFailed (m_Destination (sp_mount spec))) pts [SeamMount spec a calls]
  end.
Proof.
  intros Hin. unfold attempt. pose proof (mountAndWaitReady_cases (an_Find a) NewFs_of (λ _, an_VFSOptions a) (λ _, an_tree a)
    (λ _, an_Mount a) (ready_of a) (an_detach a) spec) as H. destruct (mountAndWaitReady _ _ _ _ _ _ _ spec) as [[rp|e] calls]; simpl in H.
  - destruct H as (-> & -> & Hs & Hm & Hr). split; [done|]. intros n.
    by apply (es_mounted specs pts (mkPoint n (m_Destination (sp_mount spec))) spec a).
  - destruct H as [->|(Hs & [(Hm & ->)|(Hm & Hr & ->)])]; [by apply es_refused|by apply es_no_mount|by apply es_not_ready].
Qed.

(** Every call of a run keeps the process where its log says. *)
Lemma in_step_mount specs spec w : spec ∈ specs → in_step specs w →
  in_step specs (oe_mountAndWaitReady (OrchEnv := recorded production) spec w).2.
Proof.
  intros Hin. destruct w as [log w]. unfold in_step. simpl. intros H. unfold seam_mount.
  destruct (se_mount spec (pr_env w)) as [a e]. pose proof (attempt_step specs (pr_points w) spec a Hin) as Hs.
  destruct (attempt spec a) as [[rp|err] calls]; simpl.
  - destruct Hs as [Hrp Hs]. eapply esteps_snoc; [done|]. specialize (Hs (length log)). by rewrite Hrp in *.
  - by eapply esteps_snoc.
Qed.

Lemma in_step_unmount specs p w : in_step specs w → in_step specs (oe_unmount (OrchEnv := recorded production) p w).2.
Proof.
  destruct w as [log w]. unfold in_step. simpl. intros H. unfold seam_unmount.
  destruct (pr_points w !! p_destination p) as [rp|] eqn:Hp; simpl.
  - destruct (se_detach (rp_dest rp) (pr_env w)) as [d e]. destruct (unmount rp d) as [[err calls] rp'] eqn:Hu. simpl.
    eapply esteps_snoc; [done|]. by eapply es_unmount.
  - rewrite <- (app_nil_r (pr_trace w)). eapply esteps_snoc; [done|]. by apply es_unknown.
Qed.

Lemma in_step_other specs log w ev e : in_step specs (log, w) →
  match ev with EvMounted _ | EvMountFailed _ | EvUnmount _ => False | _ => True end →
  in_step specs (log ++ [ev], mkProc (pr_points w) (pr_trace w) e).
Proof.
  unfold in_step. simpl. intros H He. rewrite <- (app_nil_r (pr_trace w)). eapply esteps_snoc; [done|]. by apply es_other.
Qed.

Lemma run_in_step o cfg w : in_step (map (spec_of o) (default [] (c_Mounts cfg))) w →
  in_step (map (spec_of o) (default [] (c_Mounts cfg))) (run (OE := recorded production) None o cfg w).2.
Proof.
  set (specs := map _ _). apply (run_keeps (OE := recorded production) (in_step specs) (.∈ specs)).
  - intros spec v. apply in_step_mount.
  - intros p v. apply in_step_unmount.
  - intros [log v] H. simpl. destruct (se_signalPending (pr_env v)) as [[] e]; simpl; [by apply in_step_other|done].
  - intros path [log v] H. simpl. by apply in_step_other.
  - intros path [log v] H. simpl. apply in_step_other; [done|]. by destruct (se_createReady path (pr_env v)).1.
  - intros ps [log v] H. simpl. destruct (se_select ps (pr_env v)) as [[|i err] e]; simpl; [by apply in_step_other|].
    destruct (ps !! i); [by apply in_step_other|]. by rewrite app_nil_r.
  - intros specs' Hs. apply build_specs_map in Hs as ->. by apply Forall_forall.
Qed.

(** ** The calls made at one path *)
Definition calls_at (d : string) (t : list seam_event) : list seam_call :=
  mjoin (map (λ se, match se with
                    | SeamMount spec _ calls => if decide (m_Destination (sp_mount spec) = d) then calls else []
                    | SeamUnmount d' calls => if decide (d' = d) then map Teardown calls else []
                    end) t).

Lemma calls_at_app d t1 t2 : calls_at d (t1 ++ t2) = calls_at d t1 ++ calls_at d t2.
Proof. unfold calls_at. by rewrite map_app, join_app. Qed.

Lemma unmount_fresh d k : ∃ err rp, unmount (fresh_point d true) k = (err, [WaitForWriters writebackDrainTimeout; FlushDirCache; Unmount], rp).
Proof.
  unfold unmount, doUnmount. simpl. destruct (match k with DetachAfter _ _ => _ | DetachNever => _ end) as [e|];
    [destruct (errors_Is e _)|]; eauto.
Qed.

Lemma ups_calls specs pts ps pts1 t : esteps specs pts (map EvMounted ps) pts1 t → NoDup (map p_destination ps) →
  (∀ d, pts1 !! d = if decide (d ∈ map p_destination ps) then Some (fresh_point d true) else pts !! d) ∧
  (∀ d, calls_at d t = if decide (d ∈ map p_destination ps) then [StartMount d] else []).
Proof.
  revert pts t. induction ps as [|p ps IH]; intros pts t H Hnd; inversion H as [|? ? pts' se1 ? ? se2 He Hr]; subst; simpl in *.
  { by split. }
  apply NoDup_cons in Hnd as [Hp Hnd]. inversion He as [? spec a Hin Hd _ _ _| | | | | |]; subst; [|done].
  destruct (IH _ _ Hr Hnd) as [H1 H2]. split; intros d.
  - rewrite H1. destruct (decide (d = p_destination p)) as [->|Hne].
    + rewrite decide_False by done. rewrite decide_True by by left. by rewrite lookup_insert_eq.
    + rewrite lookup_insert_ne by done. repeat case_decide; set_solver.
  - change (SeamMount spec a [StartMount (p_destination p)] :: se2) with ([SeamMount spec a [StartMount (p_destination p)]] ++ se2).
    rewrite calls_at_app, H2. unfold calls_at. simpl. rewrite <- Hd, app_nil_r. destruct (decide (p_destination p = d)) as [<-|Hne].
    + rewrite decide_False by done. by rewrite decide_True by by left.
    + simpl. repeat case_decide; set_solver.
Qed.

Lemma downs_calls specs pts us pts1 t : esteps specs pts (map EvUnmount us) pts1 t → NoDup (map p_destination us) →
  (∀ d, d ∈ map p_destination us → pts !! d = Some (fresh_point d true)) →
  ∀ d, calls_at d t = if decide (d ∈ map p_destination us) then teardown_calls else [].
Proof.
  revert pts t. induction us as [|p us IH]; intros pts t H Hnd Hpts; inversion H as [|? ? pts' se1 ? ? se2 He Hr]; subst; simpl in *.
  { done. }
  apply NoDup_cons in Hnd as [Hp Hnd]. pose proof (Hpts (p_destination p) ltac:(by left)) as Hfp.
  inversion He as [| | | |? rp k err calls rp' Hl Hu|? Hl|]; subst; [|congruence|done].
  rewrite Hfp in Hl. injection Hl as <-. destruct (unmount_fresh (p_destination p) k) as (err' & rp'' & Hu'). rewrite Hu' in Hu.
  simplify_eq. intros d. rewrite calls_at_app. rewrite (IH _ _ Hr Hnd).
  2: { intros d' Hd'. rewrite lookup_insert_ne by (by intros <-). apply Hpts. by right. }
  unfold calls_at. simpl. destruct (decide (p_destination p = d)) as [<-|Hne].
  - rewrite decide_False by done. by rewrite decide_True by by left.
  - simpl. repeat case_decide; set_solver.
Qed.

(** What was done at a path: nothing; a mount that is up, or was refused; or a
    mount and its teardown. *)
Definition accounted (log : list event) (t : list seam_event) (d : string) : Prop :=
  calls_at d t = [] ∨ calls_at d t = StartMount d :: teardown_calls ∨
  (calls_at d t = [StartMount d] ∧
   (d ∈ map p_destination (exited log) ∨
    ∃ spec a, SeamMount spec a [StartMount d] ∈ t ∧ m_Destination (sp_mount spec) = d ∧ an_Mount a ≠ None)).

Lemma NoDup_map_inj {A B} (f : A → B) l x y : NoDup (map f l) → x ∈ l → y ∈ l → f x = f y → x = y.
Proof.
  induction l as [|z l IH]; [by intros _ ?%elem_of_nil|]. simpl. intros [Hz Hnd]%NoDup_cons [->|Hx]%elem_of_cons [->|Hy]%elem_of_cons He; auto.
  - destruct Hz. rewrite He. by apply list_elem_of_fmap_2.
  - destruct Hz. rewrite <- He. by apply list_elem_of_fmap_2.
Qed.

Lemma NoDup_map_filter {A B} (f : A → B) (P : A → Prop) `{∀ x, Decision (P x)} l : NoDup (map f l) → NoDup (map f (filter P l)).
Proof.
  induction l as [|z l IH]; [done|]. simpl. intros [Hz Hnd]%NoDup_cons. rewrite filter_cons. case_decide; [|auto]. simpl.
  apply NoDup_cons. split; [|auto]. intros (y & Hy & [_ Hin]%list_elem_of_filter)%list_elem_of_fmap. apply Hz. rewrite Hy. by apply list_elem_of_fmap_2.
Qed.

Definition other (ev : event) : Prop := match ev with EvMounted _ | EvMountFailed _ | EvUnmount _ => False | _ => True end.

Lemma others_silent specs pts l pts1 t : esteps specs pts l pts1 t → Forall other l → pts1 = pts ∧ t = [].
Proof.
  induction 1 as [|? ev ? ? ? ? ? He _ IH]; [done|]. intros [Ho Hl]%Forall_cons.
  inversion He; subst; try done. by apply IH.
Qed.

(** Points up, something in between, points down. *)
Lemma up_mid_down specs ps mid us pts t :
  esteps specs ∅ (map EvMounted ps ++ mid ++ map EvUnmount us) pts t →
  NoDup (map p_destination ps) → NoDup (map p_destination us) → us ⊆ ps →
  (Forall other mid ∨ ∃ d, mid = [EvMountFailed d]) →
  ∃ tm, tm ⊆ t ∧ (Forall other mid → tm = []) ∧ (∀ d, mid = [EvMountFailed d] → ∃ pts', estep specs pts' (EvMountFailed d) pts' tm) ∧
    ∀ d, calls_at d t = (if decide (d ∈ map p_destination ps) then [StartMount d] else []) ++ calls_at d tm
                        ++ (if decide (d ∈ map p_destination us) then teardown_calls else []).
Proof.
  intros (pts1 & t1 & t' & -> & Hup & (pts2 & tm & t2 & -> & Hmid & Hdown)%esteps_split)%esteps_split Hps Hus Hsub Hm.
  destruct (ups_calls _ _ _ _ _ Hup Hps) as [Hpts1 Hc1].
  assert (pts2 = pts1 ∧ (∀ d, mid = [EvMountFailed d] → ∃ pts', estep specs pts' (EvMountFailed d) pts' tm)) as [-> Hf].
  { destruct Hm as [Ho|[d ->]].
    - destruct (others_silent _ _ _ _ _ Hmid Ho) as [-> _]. split; [done|]. intros d ->. by apply Forall_cons in Ho as [? _].
    - inversion Hmid as [|? ? ? ? ? ? ? He Hn]; subst. inversion Hn; subst. rewrite app_nil_r in *.
      assert (pts2 = pts1) as -> by (inversion He; by subst). split; [done|]. intros d' [= <-]. by eexists. }
  exists tm. split; [set_solver|]. split; [intros Ho; by apply (others_silent _ _ _ _ _ Hmid Ho)|]. split; [done|].
  intros d. rewrite !calls_at_app, Hc1. f_equal. f_equal. apply (downs_calls _ _ _ _ _ Hdown Hus).
  intros d' Hd'. rewrite Hpts1, decide_True; [done|]. apply list_elem_of_fmap in Hd' as (p & -> & Hp). apply list_elem_of_fmap_2. by apply Hsub.
Qed.

Lemma failed_calls specs pts d tm : estep specs pts (EvMountFailed d) pts tm →
  (∀ d', d' ≠ d → calls_at d' tm = []) ∧
  (calls_at d tm = [] ∨ calls_at d tm = StartMount d :: teardown_calls ∨
   (calls_at d tm = [StartMount d] ∧ ∃ spec a, SeamMount spec a [StartMount d] ∈ tm ∧ m_Destination (sp_mount spec) = d ∧ an_Mount a ≠ None)).
Proof.
  intros H. inversion H as [|spec a|spec a ? ? ?|spec a| | |? Ho]; subst; [| | |done]; unfold calls_at; simpl; rewrite !app_nil_r;
    (split; [intros d' Hne; by rewrite decide_False by congruence|]); rewrite decide_True by done; [by left| |by right; left].
  right. right. split; [done|]. exists spec, a. split; [by left|done].
Qed.

Lemma exited_parts ps mid us : exited (map EvMounted ps ++ mid ++ map EvUnmount us) = exited mid.
Proof.
  unfold exited. rewrite !omap_app, (omap_const_None EvMounted), (omap_const_None EvUnmount) by done. by rewrite app_nil_r.
Qed.

Lemma lifecycle_accounted specs dests ready log pts t :
  lifecycle dests ready log → Forall other ready → NoDup dests → esteps specs ∅ log pts t → ∀ d, accounted log t d.
Proof.
  intros Hlc Hready Hnd Ht d.
  assert (∀ ps, map p_destination ps = take (length ps) dests → NoDup (map p_destination ps)) as Htake.
  { intros ps ->. rewrite <- (take_drop (length ps) dests) in Hnd. by apply NoDup_app in Hnd as (? & _). }
  assert (∀ ps, map p_destination ps = dests → NoDup (map p_destination ps)) as Hall by (by intros ps ->).
  assert (∀ ps us mid, NoDup (map p_destination ps) → us ≡ₚ ps → Forall other mid →
    esteps specs ∅ (map EvMounted ps ++ mid ++ map EvUnmount us) pts t →
    accounted (map EvMounted ps ++ mid ++ map EvUnmount us) t d) as Hplain.
  { intros ps us mid Hps Hus Ho Hs. destruct (up_mid_down _ _ _ _ _ _ Hs Hps) as (tm & _ & Htm & _ & Hc);
      [by rewrite Hus|by rewrite Hus|by left|]. rewrite (Htm Ho) in Hc. specialize (Hc d).
    destruct (decide (d ∈ map p_destination ps)) as [Hd|Hd].
    - rewrite decide_True in Hc by (by rewrite Hus). right; left. exact Hc.
    - rewrite decide_False in Hc by (by rewrite Hus). left. exact Hc. }
  destruct Hlc as [|ps us Hd _ Hus|ps us d0 Hd _ Hus H0|ps us Hd _ Hus|ps us Hd _ Hus|ps p us Hd Hndp Hp Hus].
  - inversion Ht; subst. by left.
  - apply Hplain; eauto. by repeat constructor.
  - destruct (up_mid_down _ _ _ _ _ _ Ht (Htake ps Hd)) as (tm & Hsub & _ & Htm & Hc);
      [rewrite Hus; auto|by rewrite Hus|right; by eexists|]. specialize (Hc d).
    assert (d0 ∉ map p_destination ps) as Hd0.
    { rewrite Hd. intros (j & Hj)%list_elem_of_lookup. pose proof (lookup_lt_Some _ _ _ Hj) as Hlt. rewrite length_take in Hlt.
      rewrite lookup_take in Hj. case_decide; [|done]. pose proof (NoDup_lookup _ _ _ _ Hnd Hj H0). lia. }
    destruct (Htm d0 eq_refl) as (pts' & Hf). apply failed_calls in Hf as [Hne Hf].
    destruct (decide (d ∈ map p_destination ps)) as [Hdp|Hdp].
    + rewrite decide_True in Hc by (by rewrite Hus). rewrite Hne in Hc by (intros ->; done). right; left. exact Hc.
    + rewrite decide_False, app_nil_r in Hc by (by rewrite Hus). simpl in Hc.
      destruct (decide (d = d0)) as [->|Hdd]; [|rewrite Hne in Hc by done; by left].
      destruct Hf as [Hf|[Hf|(Hf & spec & a & Hin & ? & ?)]]; rewrite Hf in Hc; [by left|by right; left|].
      right; right. split; [done|]. right. exists spec, a. split; [by apply Hsub|done].
  - apply Hplain; eauto. by repeat constructor.
  - rewrite app_assoc. rewrite app_assoc in Ht. rewrite <- app_assoc in *. rewrite (app_assoc ready) in *.
    apply Hplain; eauto. apply Forall_app. split; [done|by repeat constructor].
  - rewrite (app_assoc ready) in *. assert (Forall other (ready ++ [EvExit p])) as Ho by (apply Forall_app; split; [done|by repeat constructor]).
    destruct (up_mid_down _ _ _ _ _ _ Ht (Hall ps Hd)) as (tm & _ & Htm & _ & Hc);
      [rewrite Hus; by apply NoDup_map_filter, Hall|intros q; rewrite Hus; by intros [_ ?]%list_elem_of_filter|by left|].
    rewrite (Htm Ho) in Hc. specialize (Hc d). unfold accounted. rewrite exited_parts. unfold exited at 1. rewrite omap_app.
    destruct (decide (d = p_destination p)) as [->|Hne].
    + right; right. rewrite decide_True in Hc by (by apply list_elem_of_fmap_2). rewrite decide_False in Hc.
      * split; [exact Hc|]. left. rewrite map_app. apply elem_of_app. right. by left.
      * rewrite Hus. intros (q & Hq & [Hqp Hqin]%list_elem_of_filter)%list_elem_of_fmap. apply Hqp.
        by apply (NoDup_map_inj p_destination ps); [apply Hall| | |].
    + destruct (decide (d ∈ map p_destination ps)) as [Hdp|Hdp].
      * right; left. rewrite decide_True in Hc; [exact Hc|]. rewrite Hus.
        apply list_elem_of_fmap in Hdp as (q & -> & Hq). apply list_elem_of_fmap_2, list_elem_of_filter. split; [by intros ->|done].
      * left. rewrite decide_False in Hc; [exact Hc|]. rewrite Hus.
        intros (q & -> & [_ Hq]%list_elem_of_filter)%list_elem_of_fmap. apply Hdp. by apply list_elem_of_fmap_2.
Qed.

Lemma esteps_mounts specs pts log pts1 t : esteps specs pts log pts1 t → ∀ spec a calls, SeamMount spec a calls ∈ t →
  spec ∈ specs ∧ (StartMount (m_Destination (sp_mount spec)) ∈ calls → started spec a) ∧
  (existsb failure_event log = false → calls = [StartMount (m_Destination (sp_mount spec))] ∧ an_Mount a = None ∧
     ready_of a (m_Destination (sp_mount spec)) = None).
Proof.
  induction 1 as [|pts ev pts2 se1 log pts3 se2 He _ IH]; intros spec a calls Hin; [by apply elem_of_nil in Hin|].
  assert (existsb failure_event (ev :: log) = false → existsb failure_event log = false) as Hrest.
  { simpl. by intros [_ ?]%orb_false_iff. }
  apply elem_of_app in Hin as [Hin|Hin]; [|by destruct (IH _ _ _ Hin) as (? & ? & ?); auto].
  inversion He as [p spec' a' ? Hd|spec' a'|spec' a'|spec' a'|p rp d err calls' rp'| |]; subst; try (by apply elem_of_nil in Hin);
    apply list_elem_of_singleton in Hin; simplify_eq; (split; [done|]).
  - rewrite <- Hd. done.
  - split; [by intros ?%elem_of_nil|done].
  - done.
  - done.
Qed.

(** A backend built for a spec, for a mount that was started. *)
Lemma started_fs spec a : started spec a →
  ∃ f c, spec_fs configstruct_Set url_Parse AppendCertsFromPEM 0 (sp_mount spec) (sp_readOnly spec) (sp_serviceURL spec) (sp_caCertPEM spec) = Ok (f, c).
Proof.
  intros (_ & _ & cm & Hcm & Hfs). unfold spec_fs. rewrite Hcm. unfold NewFs_of in Hfs.
  destruct (NewFs _ _ _ _ _ _ cm) as [[f c]|]; [eauto|done].
Qed.

Section binary.
Context (SL : SeamLaws SE) (Hlaw : ConfigstructLaw configstruct_Set).
Variables (Getenv : string → string) (ReadFile : string → result error string) (uri_ok : string → bool).
Variables (write_version cache_err : option error) (supported : bool) (sig : nat) (args : list string).

(** One run of the binary from a process that has done nothing. *)
Definition binary (e : E) : Z * (list event * proc E) :=
  main Getenv ReadFile uri_ok write_version cache_err
    (productionMount (OE := recorded production) (defaultRealSeam supported)) sig args ([], mkProc ∅ [] e).

Lemma config_dests_NoDup o cfg specs : buildSpecs o cfg = Ok specs → NoDup (config_dests cfg).
Proof.
  intros H. destruct (proj1 (build_specs_Ok o [] (default [] (c_Mounts cfg))) (ex_intro _ specs H)) as (_ & _ & Hp).
  unfold config_dests. clear H. induction Hp as [|m ms Hm _ IH]; [constructor|]. simpl. apply NoDup_cons. split; [|done].
  intros (m' & Heq & Hin)%list_elem_of_fmap. rewrite Forall_forall in Hm. destruct (Hm m' Hin) as [Hne _]. by rewrite Heq in Hne.
Qed.

(** A run whose config is refused makes no seam call. *)
Lemma run_refused o cfg w e : buildSpecs o cfg = Err e →
  pr_trace (run (OE := recorded production) None o cfg ([], w)).2.2 = pr_trace w.
Proof.
  intros H. unfold run, run_body. rewrite H. case_decide; [done|]. simpl. by destruct (se_Remove _ _) as [[| |?] ?].
Qed.

(** Every path of a run from a fresh process is accounted for. *)
Lemma run_accounted o cfg e err log w : run (OE := recorded production) None o cfg ([], mkProc ∅ [] e) = (err, (log, w)) →
  ∀ d, accounted log (pr_trace w) d.
Proof using SL.
  intros Hrun d. destruct (buildSpecs o cfg) as [specs|e'] eqn:Hs.
  2: { left. pose proof (run_refused o cfg (mkProc ∅ [] e) e' Hs) as H. rewrite Hrun in H. simpl in H. by rewrite H. }
  apply config_dests_NoDup in Hs. pose proof (run_in_step o cfg ([], mkProc ∅ [] e) (ess_nil _ _)) as Hin. rewrite Hrun in Hin.
  unfold in_step in Hin. simpl in Hin.
  destruct (run_log production o cfg (mkProc ∅ [] e)) as (err' & log' & w' & Hrun' & _ & Hshape). rewrite Hrun in Hrun'. simplify_eq.
  destruct Hshape as [[_ Hlc]|[_ [[-> _]|(body & -> & Hlc)]]].
  - by eapply lifecycle_accounted; [exact Hlc|constructor|exact Hs|exact Hin].
  - destruct (others_silent _ _ _ _ _ Hin ltac:(by repeat constructor)) as [_ ->]. by left.
  - apply esteps_split in Hin as (p1 & t1 & t2 & -> & H1 & (p2 & t3 & t4 & -> & H2 & H3)%esteps_split).
    destruct (others_silent _ _ _ _ _ H1 ltac:(by repeat constructor)) as [-> ->].
    destruct (others_silent _ _ _ _ _ H3 ltac:(by repeat constructor)) as [_ ->]. rewrite app_nil_r. simpl.
    pose proof (lifecycle_accounted _ _ [EvReady] _ _ _ Hlc ltac:(by repeat constructor) Hs H2 d) as Ha. unfold accounted in *.
    assert (exited (EvRemove :: body ++ [EvRemove]) = exited body) as ->; [|exact Ha].
    unfold exited. simpl. rewrite omap_app. simpl. by rewrite app_nil_r.
Qed.

(** C12: the binary, down to the kernel calls.  From argv to exit, whatever the
    host, the kernel, the signals and the scheduler do:
    a mount is attempted only for a mount of the accepted config, and its kernel
    mount is started only over a directory-only scaffold, with a backend bound to
    that mount's own filesystem, token and service URL, read-only when it says
    so;
    at every path the calls made are none, or one mount followed by its one
    teardown (bounded drain, cache flush, unmount, in that order), or one mount
    that the kernel refused or that ended by itself: nothing is left half up,
    torn down twice, or unmounted undrained;
    and exit 0 of a mounting run means every attempted mount started and became
    ready. *)
Theorem binary_accounts_for_mounts (e : E) :
  let '(code, (log, w)) := binary e in
  (∀ spec a calls, SeamMount spec a calls ∈ pr_trace w →
     ∃ fl cfg m, Parse args = Ok fl ∧ config_accepted ReadFile uri_ok cache_err fl cfg ∧ supported = true ∧
       m ∈ default [] (c_Mounts cfg) ∧ sp_mount spec = m ∧
       (StartMount (m_Destination m) ∈ calls →
          only_dirs (an_tree a) ∧ entry_count (an_tree a) <= scaffoldWalkEntryCeiling ∧
          ∃ f c, spec_fs configstruct_Set url_Parse AppendCertsFromPEM 0 m (sp_readOnly spec) (c_ServiceURL cfg) (c_CACertPEM cfg) = Ok (f, c) ∧
            m_FilesystemID m = Some (c_fsID c) ∧ c_authToken c = m_AuthToken m ∧ c_serviceURL c = c_ServiceURL cfg ∧
            fs_readOnly f = default false (m_Readonly m) ∧ fs_root f = "")) ∧
  (∀ d, accounted log (pr_trace w) d) ∧
  (code = 0 → ∀ spec a calls, SeamMount spec a calls ∈ pr_trace w →
     calls = [StartMount (m_Destination (sp_mount spec))] ∧ an_Mount a = None ∧
     waitReady (an_CanCheckMountReady a) (m_Destination (sp_mount spec)) (an_start a) waitMountReadyTimeout (an_polls a) = Some None).
Proof using SL Hlaw.
  unfold binary, main.
  destruct (runWith_cases Getenv ReadFile uri_ok write_version cache_err
              (productionMount (OE := recorded production) (defaultRealSeam supported)) sig args ([], mkProc ∅ [] e))
    as [[err ->]|[(fl & Hp & Hv & ->)|(fl & cfg & Hp & Hacc & ->)]].
  1,2: simpl; (split; [by intros ??? ?%elem_of_nil|]); (split; [by left|]); by intros _ ??? ?%elem_of_nil.
  rewrite productionMount_run. destruct supported; [change (defaultRealSeam true) with (@None error)|].
  2: { simpl. split; [by intros ??? ?%elem_of_nil|]. split; [by left|]. by intros _ ??? ?%elem_of_nil. }
  set (o := mkOrch _ _ _). pose proof (run_in_step o cfg ([], mkProc ∅ [] e) (ess_nil _ _)) as Hin.
  destruct (run_log production o cfg (mkProc ∅ [] e)) as (err & log & w & Hrun & Hfail & _).
  pose proof (run_accounted o cfg e err log w Hrun) as Hacct. rewrite Hrun in *. unfold in_step in Hin. simpl in Hin. cbv beta iota.
  split; [|split; [exact Hacct|]].
  - intros spec a calls Hs. destruct (esteps_mounts _ _ _ _ _ Hin spec a calls Hs) as ((m & -> & Hm)%list_elem_of_fmap & Hst & _).
    exists fl, cfg, m. split; [done|]. split; [done|]. split; [done|]. split; [done|]. split; [done|].
    intros Hc. specialize (Hst Hc). destruct (started_fs _ _ Hst) as (f & c & Hf). destruct Hst as (Hd & Hle & _).
    split; [exact Hd|]. split; [exact Hle|]. exists f, c. split; [exact Hf|].
    destruct (spec_fs_fields _ _ _ _ _ _ _ _ f c Hlaw Hf) as ((? & _ & _) & (? & _) & (? & _ & _) & ? & ? & _ & _). auto.
  - intros Hcode. destruct err as [err|]; [done|]. intros spec a calls Hs.
    destruct (esteps_mounts _ _ _ _ _ Hin spec a calls Hs) as (_ & _ & H).
    destruct H as (-> & Hm & Hr); [destruct (existsb failure_event log); [by destruct Hfail|done]|].
    split; [done|]. split; [done|]. by apply ready_of_None.
Qed.
End binary.
End production.

(** ** A host on which the second mount never becomes ready *)
Definition timeline (up : bool) (n len : nat) : list poll :=
  map (λ i, mkPoll None (if up then None else Some (errors_New "not mounted")) false (Z.of_nat i * (100 * time_Millisecond)) None) (seq n len).

Lemma timeline_paced up n len : paced (Z.of_nat n * (100 * time_Millisecond)) (timeline up n len).
Proof.
  revert n. induction len as [|len IH]; intros n; simpl; [done|]. split; [done|]. specialize (IH (S n)).
  by replace (Z.of_nat n * (100 * time_Millisecond) + 100 * time_Millisecond) with (Z.of_nat (S n) * (100 * time_Millisecond)) by lia.
Qed.

Definition demo_answers (up : bool) : answers :=
  mkAnswers None None (NDir [("sub", NDir [])]) None true 0 (timeline up 0 302) (DetachAfter 0 None).

Definition half_up : SeamEnv unit := {|
  se_mount spec e := (demo_answers (bool_decide (m_Destination (sp_mount spec) = "/a")), e);
  se_detach _ e := (DetachAfter 0 None, e);
  se_signalPending e := (false, e);
  se_Remove _ e := (NotExist, e);
  se_createReady _ e := (Created, e);
  se_select _ e := (Signalled, e);
  se_schedule n _ := seq 0 n |}.

#[export] Instance half_up_laws : SeamLaws half_up.
Proof.
  split; [done|done|]. intros spec e a e' [= <- <-]. split; [exact (timeline_paced _ 0 302)|].
  unfold demo_answers, timeline. cbn [an_polls]. rewrite length_map, length_seq. by vm_compute.
Qed.

Definition demo_run : Z * (list event * proc unit) :=
  binary (SE := half_up) demo_Set demo_Parse (λ _, true) demo_env demo_read (λ _, true) None None true 0%nat ["--config=c.json"] tt.

Lemma binary_accounts_for_mounts_witness :
  demo_run.1 = 1 ∧ calls_at "/a" (pr_trace demo_run.2.2) = StartMount "/a" :: teardown_calls ∧
  calls_at "/b" (pr_trace demo_run.2.2) = StartMount "/b" :: teardown_calls ∧
  ∀ d, accounted demo_run.2.1 (pr_trace demo_run.2.2) d.
Proof.
  split; [vm_compute; reflexivity|]. split; [vm_compute; reflexivity|]. split; [vm_compute; reflexivity|].
  pose proof (binary_accounts_for_mounts (SE := half_up) demo_Set demo_Parse (λ _, true) half_up_laws demo_Set_law
    demo_env demo_read (λ _, true) None None true 0%nat ["--config=c.json"] tt) as H.
  unfold demo_run. destruct (binary _ _ _ _ _ _ _ _ _ _ _ _) as [code [log w]]. exact (proj1 (proj2 H)).
Defined.
