(* ===== verification/PostureProbe.v ===== *)
(** * The posture probe (cmd/posture-probe/main.go, internal/posture)

    The two probe arms, the verdict written through a temp file and a rename,
    and the exit code, over the class [ProbeOS] of the calls of package os the
    probe makes.  The verdict line is kept as its two details. *)
From Stdlib Require Import Ascii String.
From stdpp Require Import base list strings numbers gmap.
From S2P Require Import Prelude GoErrors GoIO GoPath BrokerErrors.
Local Open Scope Z_scope.

(** ** Constants *)
Definition Home : string := "/root".
Definition CacheTmpfs : string := Home +:+ "/.cache".
Definition envVerdictPath : string := "OCU_E2E_PROBE_VERDICT".
Definition defaultVerdict : string := "/run/ocu/posture-verdict".
Definition rootfsProbeDir : string := "/".
Definition rootfsProbe : string := "ocu-rootfs-probe".
Definition tmpfsProbeDir : string := CacheTmpfs.
Definition tmpfsProbe : string := "ocu-tmpfs-probe".

(** A text the code formats: the literal and its arguments. *)
Definition text : Type := string * list arg.

(** "ROOTFS_EROFS=%s TMPFS_WRITABLE=%s\n" with its two details. *)
Record verdict_line := mkVerdict { v_rootfs : text; v_tmpfs : text }.

(** The calls on package os.  [os_CreateTemp] yields the temp file's name;
    [os_WriteString] and [os_CloseFile] act on the open file of that name. *)
Class ProbeOS (W : Type) := {
  os_OpenCreate : string → W → option error * W;
  os_CloseFile : string → W → option error * W;
  os_Remove : string → W → W;
  os_WriteFile : string → bytes → W → option error * W;
  os_ReadFile : string → W → result error bytes * W;
  os_MkdirAll : string → W → option error * W;
  os_CreateTemp : string → W → result error string * W;
  os_WriteString : string → verdict_line → W → option error * W;
  os_Rename : string → string → W → option error * W }.

Section probe.
Context `{OS : ProbeOS W}.

Definition probeReadOnlyAt (dir : string) (w : W) : (bool * text) * W :=
  let probe := Join [dir; rootfsProbe] in
  match os_OpenCreate probe w with
  | (None, w1) =>
      let '(_, w2) := os_CloseFile probe w1 in
      ((false, ("writable(create-succeeded)", [])), os_Remove probe w2)
  | (Some err, w1) =>
      if negb (errors_Is err syscall_EROFS) then ((false, ("errno-not-erofs(%v)", [])), w1)
      else ((true, ("ok", [])), w1)
  end.

Definition probe_bytes : bytes := bytes_of_string ("ocu tmpfs writability probe" +:+ String "010"%char "").

Definition probeWritableAt (dir : string) (w : W) : (bool * text) * W :=
  let probe := Join [dir; tmpfsProbe] in
  match os_WriteFile probe probe_bytes w with
  | (Some _, w1) => ((false, ("write-failed(%v)", [])), w1)
  | (None, w1) =>
      let '(r, w2) := os_ReadFile probe w1 in
      let verdict :=
        match r with
        | Err _ => (false, ("readback-failed(%v)", []))
        | Ok got =>
            if decide (got = probe_bytes) then (true, ("ok", []))
            else (false, ("readback-mismatch(%d!=%d bytes)", [AInt (zlen got); AInt (zlen probe_bytes)]))
        end in
      (verdict, os_Remove probe w2)
  end.

Definition writeVerdict (path : string) (verdict : verdict_line) (w : W) : option error * W :=
  let dir := Dir path in
  match os_MkdirAll dir w with
  | (Some e, w1) => (Some e, w1)
  | (None, w1) =>
      match os_CreateTemp dir w1 with
      | (Err e, w2) => (Some e, w2)
      | (Ok tmpName, w2) =>
          match os_WriteString tmpName verdict w2 with
          | (Some e, w3) => let '(_, w4) := os_CloseFile tmpName w3 in (Some e, os_Remove tmpName w4)
          | (None, w3) =>
              match os_CloseFile tmpName w3 with
              | (Some e, w4) => (Some e, os_Remove tmpName w4)
              | (None, w4) => os_Rename tmpName path w4
              end
          end
      end
  end.

(** A posture arm, and the two the probe runs. *)
Definition probeFn : Type := W → (bool * text) * W.
Definition probeRootfsReadOnly : probeFn := probeReadOnlyAt rootfsProbeDir.
Definition probeTmpfsWritable : probeFn := probeWritableAt tmpfsProbeDir.

Definition run (verdictPath : string) (rootfsArm tmpfsArm : probeFn) (w : W) : Z * W :=
  let '((rootfsOK, rootfsDetail), w1) := rootfsArm w in
  let '((tmpfsOK, tmpfsDetail), w2) := tmpfsArm w1 in
  match writeVerdict verdictPath (mkVerdict rootfsDetail tmpfsDetail) w2 with
  | (Some _, w3) => (2, w3)
  | (None, w3) => (if rootfsOK && tmpfsOK then 0 else 1, w3)
  end.

Definition main (Getenv : string → string) (w : W) : Z * W :=
  let verdictPath := if decide (Getenv envVerdictPath = "") then defaultVerdict else Getenv envVerdictPath in
  run verdictPath probeRootfsReadOnly probeTmpfsWritable w.
End probe.

(** ** What the probe reports *)

(** What a reader of the verdict sees at a path, and how the calls change it:
    a new temp file has a name of its own, writing and removing it leaves other
    names alone, and a rename that succeeds puts the temp file's content in
    place while one that fails changes nothing. *)
Class VerdictView {W} (OS : ProbeOS W) := {
  seen : W → string → option verdict_line;
  seen_MkdirAll d w p : seen (os_MkdirAll d w).2 p = seen w p;
  seen_CreateTemp_err d w e w' p : os_CreateTemp d w = (Err e, w') → seen w' p = seen w p;
  seen_CreateTemp d w t w' p : os_CreateTemp d w = (Ok t, w') →
    t ≠ defaultVerdict ∧ (p ≠ t → seen w' p = seen w p);
  seen_WriteString t v w p : p ≠ t → seen (os_WriteString t v w).2 p = seen w p;
  seen_written t v w w' : os_WriteString t v w = (None, w') → seen w' t = Some v;
  seen_Close t w p : seen (os_CloseFile t w).2 p = seen w p;
  seen_Remove t w p : p ≠ t → seen (os_Remove t w) p = seen w p;
  seen_Rename_err t q w e w' p : os_Rename t q w = (Some e, w') → seen w' p = seen w p;
  seen_Rename t q w w' : os_Rename t q w = (None, w') → seen w' q = seen w t }.

Section view.
Context {W} (OS : ProbeOS W) (VV : VerdictView OS).

(** A reader of the verdict path sees the old content or the whole new
    line, and the new line exactly when writeVerdict succeeded. *)
Lemma writeVerdict_atomic (v : verdict_line) (w : W) :
  let '(err, w') := writeVerdict defaultVerdict v w in
  seen w' defaultVerdict = match err with None => Some v | Some _ => seen w defaultVerdict end.
Proof.
  unfold writeVerdict. pose proof (seen_MkdirAll (Dir defaultVerdict) w defaultVerdict) as H1.
  destruct (os_MkdirAll (Dir defaultVerdict) w) as [[e|] w1]; [done|]. simpl in H1.
  destruct (os_CreateTemp (Dir defaultVerdict) w1) as [[t|e] w2] eqn:Ht;
    [|by rewrite (seen_CreateTemp_err _ _ _ _ _ Ht)].
  destruct (seen_CreateTemp _ _ _ _ defaultVerdict Ht) as [Hne H2]. specialize (H2 (not_eq_sym Hne)).
  pose proof (seen_WriteString t v w2 defaultVerdict (not_eq_sym Hne)) as H3.
  destruct (os_WriteString t v w2) as [[e|] w3] eqn:Hw; simpl in H3.
  - pose proof (seen_Close t w3 defaultVerdict) as H4. destruct (os_CloseFile t w3) as [ce w4].
    rewrite seen_Remove by done. simpl in H4. congruence.
  - pose proof (seen_Close t w3) as H4. destruct (os_CloseFile t w3) as [[e|] w4]; simpl in H4.
    + rewrite seen_Remove by done. rewrite H4. congruence.
    + destruct (os_Rename t defaultVerdict w4) as [[e|] w5] eqn:Hr.
      * rewrite (seen_Rename_err _ _ _ _ _ _ Hr), H4. congruence.
      * rewrite (seen_Rename _ _ _ _ Hr), H4. by eapply seen_written.
Qed.

(** The probe's exit code tells what a reader of the verdict file sees.
    With the default path, exit 2 leaves the file as it was before the
    verdict was written; any other exit leaves the complete new line there,
    and exit 0 is given exactly when both of its details are "ok". *)
Theorem probe_exit_code (w : W) :
  let '((_, d1), w1) := probeReadOnlyAt rootfsProbeDir w in
  let '((_, d2), w2) := probeWritableAt tmpfsProbeDir w1 in
  let '(code, w3) := main (λ _, "") w in
  (code = 0 ∨ code = 1 ∨ code = 2) ∧
  seen w3 defaultVerdict = (if decide (code = 2) then seen w2 defaultVerdict else Some (mkVerdict d1 d2)) ∧
  (code = 0 → d1 = ("ok", []) ∧ d2 = ("ok", [])) ∧
  (code = 1 → d1 ≠ ("ok", []) ∨ d2 ≠ ("ok", [])).
Proof.
  assert (∀ dir w', let '((ok, d), _) := probeReadOnlyAt dir w' in ok = bool_decide (d = ("ok", []))) as Hro.
  { intros dir w'. unfold probeReadOnlyAt. destruct (os_OpenCreate _ _) as [[e|] w1].
    - by destruct (negb _).
    - by destruct (os_CloseFile _ _). }
  assert (∀ dir w', let '((ok, d), _) := probeWritableAt dir w' in ok = bool_decide (d = ("ok", []))) as Hrw.
  { intros dir w'. unfold probeWritableAt. destruct (os_WriteFile _ _ _) as [[e|] w1]; [done|].
    destruct (os_ReadFile _ _) as [[got|e] w2]; [|done]. by case_decide. }
  unfold main, run, probeRootfsReadOnly, probeTmpfsWritable. simpl (if decide _ then _ else _).
  specialize (Hro rootfsProbeDir w). destruct (probeReadOnlyAt rootfsProbeDir w) as [[ok1 d1] w1].
  specialize (Hrw tmpfsProbeDir w1). destruct (probeWritableAt tmpfsProbeDir w1) as [[ok2 d2] w2].
  pose proof (writeVerdict_atomic (mkVerdict d1 d2) w2) as Hat.
  destruct (writeVerdict defaultVerdict (mkVerdict d1 d2) w2) as [[e|] w3]; subst ok1 ok2.
  - split; [auto|]. split; [done|]. done.
  - do 2 case_bool_decide; simpl; rewrite Hat; split_and!; auto; done.
Qed.
End view.

(** ** An instance: a memory file system under a read-only root *)
Record memfs := mkMem { mem_bytes : gmap string bytes; mem_lines : gmap string verdict_line }.

#[export] Instance mem_os : ProbeOS memfs := {|
  os_OpenCreate p w := (Some (ESent syscall_EROFS), w);
  os_CloseFile p w := (None, w);
  os_Remove p w := mkMem (delete p (mem_bytes w)) (delete p (mem_lines w));
  os_WriteFile p b w := (None, mkMem (<[p := b]> (mem_bytes w)) (mem_lines w));
  os_ReadFile p w := (match mem_bytes w !! p with Some b => Ok b | None => Err (ESent os_ErrNotExist) end, w);
  os_MkdirAll d w := (None, w);
  os_CreateTemp d w := (Ok (d +:+ "/.verdict-0"), w);
  os_WriteString t v w := (None, mkMem (mem_bytes w) (<[t := v]> (mem_lines w)));
  os_Rename t q w := match mem_lines w !! t with
                     | Some v => (None, mkMem (mem_bytes w) (<[q := v]> (delete t (mem_lines w))))
                     | None => (Some (ESent os_ErrNotExist), w)
                     end |}.

#[export] Instance mem_view : VerdictView mem_os.
Proof.
  refine {| seen w p := mem_lines w !! p |}; intros; simpl in *; repeat case_match; simplify_eq/=; try done.
  all: try first [by rewrite lookup_insert_ne | by rewrite lookup_insert_eq | by rewrite lookup_delete_ne].
  split; [|done]. intros Heq. change defaultVerdict with "/run/ocu/posture-verdict" in Heq.
  repeat (destruct d as [|? d]; [discriminate Heq|cbn in Heq; first [discriminate Heq|injection Heq as _ Heq]]).
Qed.

Example probe_ok : let '(code, w) := main (λ _, "") (mkMem ∅ ∅) in
  code = 0 ∧ mem_lines w !! defaultVerdict = Some (mkVerdict ("ok", []) ("ok", [])) ∧ mem_bytes w = ∅.
Proof. vm_compute. done. Qed.
